(* ===== verification/_CoqProject ===== *)
-Q . S2P
Prelude.v
Protocol.v
Stream.v
Pool.v
Sha256.v
Logger.v
Json.v
Identity.v
Session.v
Peer.v
PeerAdmission.v
TcpWrite.v
TcpAccept.v
Float64.v
RelayAuth.v
RelayManager.v
Probe.v
Mux.v
HolePunch.v
Socket.v
TcpPunch.v
Metrics.v
Reconnect.v
Config.v
KcpManager.v
NodeState.v
NodeChannel.v
NodeHeartbeat.v
NodeRecv.v
NodeHandshake.v
NodeDiscovery.v
NodeDispatch.v
NodeConnect.v
NodeReconnect.v
PunchWorkers.v
NodeLife.v
NodeTransfer.v
KcpRefine.v
NodeStream.v
SendLock.v
NodeLink.v
NodeRelink.v
NodeSafety.v
NodeReach.v
NodeInv.v
NodeBroadcast.v
UdpRead.v
NodePeers.v
NodeRedial.v
Tunnel.v
Cli.v
Stress.v
