(* ===== verification/Prelude.v ===== *)
(** * Tenet: a verification development

    Tenet is a peer-to-peer overlay in Go.  A node listens on one UDP port and on
    the TCP port of the same number, finds other nodes by address, by discovery
    or through relays, runs a Noise XX handshake whose prologue contains the
    network password, and then exchanges sealed application frames on named
    channels.  This library models the program as executable definitions and
    proves what makes it correct.

    ** The program and where it is modelled

    - Bytes on the wire.  [internal/protocol/protocol.go] is [Protocol]: packets,
      length-prefixed frames, timestamps.  [Stream] has the read loops that cut a byte
      stream into packets, [handleTCP] of [node/tcp_io.go] and [handleSession] of
      [node/kcp_transport.go].  [Pool] is [internal/pool/pool.go] with the readers that
      share its buffers; [TcpWrite] the concurrent writers of [node/send_path.go];
      [TcpAccept] the accept loop of [node/tcp_io.go]; [Mux] is [transport/mux.go];
      [UdpRead] the loop [handleRead] of [node/udp_io.go] over the mux, whose read loop and
      [Close] are cut there between look-up and send, and its buffer; [Socket] the socket options and their users
      ([transport/socket.go] and its variants per platform).
    - Identities and sessions.  [Identity] is [crypto/identity.go], with the part of
      encoding/json it uses in [Json] and a model of the file system; Ed25519 and
      Curve25519 are classes with their laws ([KeyLaws]) and a toy instance.
      [crypto/noise.go] and [crypto/session.go] are [Session]: handshake states,
      sessions, the session manager, the AES-GCM cipher.  The third-party noise
      package is the class [Noise]; what the program relies on of it is the class
      [NoiseLaws], with the executable instance [ToyNoise] as evidence that the laws
      can hold.  [Sha256] is SHA-256, HMAC and hexadecimal of the standard library,
      [Float64] the binary64 operations the code uses.
    - Peers.  [peer/peer.go] is [Peer]: the record of a peer with its reassembly
      buffer, transport upgrades, re-handshake gates, and the peer store.
      [PeerAdmission] has the goroutines of [node/handshake.go] that admit peers at the
      same time.
    - Traversal of NATs.  [nat/relay_auth.go] is [RelayAuth], [nat/relay.go] is
      [RelayManager] (and the relay packet codec of [RelayAuth]), [nat/nat.go] and
      [nat/probe.go] are [Probe], [nat/holepunch.go] is [HolePunch] and
      [nat/tcp_punch.go] is [TcpPunch], both as threads driven by events.
    - KCP.  [KcpManager] is [node/kcp.go] and [node/kcp_transport.go]: sessions, the
      manager's table, the transport's table, the mux handlers and the read loop.  The
      node's handlers see it as the table of [NodeState]; [KcpRefine] relates the two.
    - Services.  [metrics/metrics.go] is [Metrics], [node/reconnect.go] is
      [Reconnect], [node/config.go] is [Config], [log/logger.go] is [Logger].
    - The node ([node/*.go]) is a state and handlers on it.  [NodeState] has the record,
      the monad of the handlers, the effects and the sending of raw packets;
      [NodeChannel] channels and application frames ([node_channel.go]), whose concurrent
      senders under a peer's lock are [SendLock];
      [NodeHeartbeat] liveness and cleanup ([heartbeat.go]); [NodeRecv] data packets and
      the fast re-handshake ([data_flow.go], [rehandshake.go]); [NodeHandshake]
      handshakes and relay packets ([handshake.go], [relay_handler.go]);
      [NodeDiscovery] ([discovery.go]); [NodeDispatch] the dispatch of packets and
      relaying ([node.go], [relay_handler.go], [udp_io.go]); [NodeConnect] outgoing
      connections and the bodies of goroutines ([connect_flow.go]), with the workers of
      a connect in [PunchWorkers]; [NodeReconnect] the loop of [reconnect.go] that dials
      through the node; [NodeLife] construction, start and shutdown ([node.go],
      [startup.go]).  The files that hold theorems about these handlers rather than
      handlers are [NodeTransfer], [NodeStream], [NodeLink], [NodeRelink], [NodeRedial],
      [NodeSafety], [NodeReach], [NodeInv], [NodeBroadcast] and [NodePeers].
    - Programs.  [Tunnel] is the facade [api/tunnel.go] over the node, [Cli] the chat
      program [cmd/basic/main.go] from its flags to its end, [Stress] the load
      generator [cmd/stress/main.go].

    ** Conventions

    A Go string and a byte slice are lists of bytes; an integer is a [Z] with its
    wrap-around written out ([to_int64], [to_uint16], [byte_of_Z]); a slice
    expression out of range is [Panic], a Go error is [Err] or a returned message.
    A pointer to a shared object (a peer, a session, a reconnect entry) is a
    reference into a store, so aliasing is visible.  A handler of the node is a
    function [Node → option (A * Node)] where [None] is a panic; what it does to
    the outside world is appended to a log ([effect]), and what the world answers
    (success of a write, the clock, randomness, name resolution) comes from the
    class [World], over which every theorem quantifies.  A goroutine is an entry
    of the log and runs later as a step of its own; a mutex protects a piece of
    code that is one step here and does not appear, except where several goroutines
    compete for it ([TcpWrite], [SendLock], [PeerAdmission]) and it is part of the state.  Iteration over a Go map is in
    the order of the finite map unless the order is an argument
    ([SelectBestRelay], [ProbeAllRelays], [Mux_Close]).  Goroutines whose interleaving
    matters are threads of a transition function on events; a run is a list of events,
    and an event that cannot happen in a state is refused.

    Three small logics carry the proofs about handlers: [preserves] of [NodeState] says
    that a handler leaves a projection of the node alone, [keep] of [NodeInv] that it
    keeps an invariant of the node, [safe] of [NodeSafety] that it cannot panic where an
    invariant holds.  Each has rules for the constructs of the monad and a lemma per handler.

    Loops over data are structural.  Fuel occurs in the two stream loops, where
    the length of the stream plus one is enough because every turn consumes at
    least the two bytes of a header ([handleTCP_fuel_enough] and its KCP twin), and
    in the fragment loop of [sendAppFrame], where the length of the payload is
    enough because a turn takes a positive number of bytes
    ([send_fragments_frames]), and in the splitting and trimming of strings, where every
    turn takes a byte; the JSON parser works on a stack and needs none.  The reconnect
    loop, [connectContext] and the punches are driven by lists of events of the
    environment.

    ** What is proved

    - End to end: [NodeStream.link_is_fifo] (a link over TCP or KCP refines a FIFO
      channel: what is sent is delivered once, unchanged and in order, or refused for a
      stated reason; [NodeTransfer] carries the proof for one message),
      [NodeLink.node_handshake] (the exchange over TCP that leads to the state this starts
      from, between nodes whose public keys belong to their private keys, as
      [NodeLink.identity_good_keys] shows of every identity),
      [NodeReach.node_never_panics] (no state that the node's handlers reach, with any
      callbacks registered, in which a further handler panics;
      [NodeSafety] holds the invariant and the logic for it),
      [NodeReach.delivery_authentic] (only what a peer's session opens, on a subscribed
      channel, reaches the application), [Tunnel.tunnel_lifecycle] (the facade refines
      an automaton of four states), [Cli.cli_program] (a run of the chat program from its
      flags to its end) and [Stress.stress_completes].
    - Invariants of the reachable node: a peer's record has the identity its session
      proved ([NodeInv.peer_identity]) and there are never more peers than configured
      ([NodeInv.peer_limit]).
    - Recovery: the fast re-handshake repairs a session over TCP
      ([NodeRelink.fast_rehandshake_repairs]), the reconnect goroutine on the node ends
      within its retry limit whatever goes on around it
      ([NodeRedial.reconnect_goroutine_ends]) and a lost peer that a later dial reaches
      is connected again ([NodeRedial.lost_peer_comes_back]).
    - Refinement and equivalence: the KCP layer implements the table the node uses and
      does below it what the operations promise, to sessions, manager and mux
      ([KcpRefine.kcp_transport_refines]); reading in pieces equals reading the stream
      ([KcpManager.session_loop_stream]); readers that share pooled buffers equal readers
      with private ones ([Pool.pooled_readers]); concurrent writers equal writers that
      take turns ([TcpWrite.tcp_writes_serialised]), and concurrent senders to a peer equal
      senders in the order of the lock ([SendLock.concurrent_sends_fifo]); the logger equals a filter
      ([Logger.logger_filter]).
    - Interleavings: every connection of a TCP punch and of the workers of a connect is
      accounted for ([TcpPunch.tcp_punch_connections], [PunchWorkers.connect_workers]);
      a UDP punch terminates, delivers a response and reports only what it heard
      ([HolePunch]); the accept loop is bounded ([TcpAccept.accept_loop_bounded]), and so
      is the number of peers that concurrent handshakes admit
      ([PeerAdmission.admission_bound]); the UDP reader handles what found room in its
      queue, in order, and the mux has one panic ([UdpRead.udp_reader]).
    - Identities: every identity is well-formed, survives its JSON form and its file, and
      keeps its ID ([Identity], [Tunnel.tunnel_identity_roundtrip]).
    - Peers: removal leaves no trace of a peer, the heartbeat timer removes exactly
      the silent ones, the cleanup of mappings removes exactly the stale ones, announcements
      maintain the members of a channel ([NodePeers]) and a broadcast is written to exactly
      them when their sessions are open and the writes succeed
      ([NodeBroadcast.broadcast_members]).
    - Secrecy of the network: equal passwords give matching sessions, different
      ones none; clearing the session manager closes every session.
    - Framing and codecs: both stream loops recover what was framed; tokens, relay
      packets, NAT information, heartbeats and discovery responses are read back
      as written, and the decoders accept nothing else where that holds.
    - Limits: re-handshakes per window, their exponential backoff, the reconnect
      retry limit and its termination, the throttle on discovered peers, the
      capacity and order of the mux queues.
    - Decisions: transport upgrades, relay selection, token verification, NAT
      classification and strategy, validation of the configuration, relaying.
    - Behaviour the authors did not intend, stated as theorems: the send on a
      closed queue ([Mux.unregister_race]), KCP conversations that are misrouted
      ([Mux.kcp_datagram_routing]), the framing lost by a timeout
      ([KcpManager.header_timeout_loses_packets]), the handler taken from another peer
      ([KcpManager.remove_shared_address]), the leaked connection
      ([TcpPunch.tcp_punch_leak]), the late upgrade that cannot come
      ([PunchWorkers.late_upgrade_cancelled]), the NaN delay
      ([Reconnect.backoff_nan_after_overflow]), the token that never expires
      ([RelayAuth.token_age_overflow]), relaying without a token
      ([NodeDispatch.relay_forwarding]), a peer that two handshakes at once
      record twice ([PeerAdmission.same_peer_replaced]), an observed address that the next
      datagram overwrites ([UdpRead.observed_address_overwritten]), the target of a relayed
      handshake that the cleanup forgets ([NodePeers.cleanup_forgets_relay]), the command
      that ends the chat program without stopping its node ([Cli.quit_skips_stop]) and the
      socket option whose failure Windows ignores ([Socket.reuseaddr_refused]).

    ** What is not modelled

    Deadlines and keep-alive of TCP connections, the KCP protocol of the third-party
    package behind [KcpManager] (its answers are arguments), the kernel behind a socket
    beyond the options that decide a bind, getters that return a socket's address, the
    wording of what the programs print, the parsing of the command line (the parsed flags
    are an argument), the time format of the logger (its result is an argument) and flags
    of format verbs, the logger option of the facade, and the interfaces of
    [transport/transport.go], which nothing uses.  Handlers of the node are single steps; interleavings below that
    are modelled where the code's correctness rests on them: the mux race, the buffers,
    the writers and senders, the admission of peers, the punches and the workers of a
    connect.  A reply that overtakes the registration of the handshake it answers is not
    among them.

    ** Plan

    Left: the interleaving of [connectContext] with the replies to its handshakes, the
    replacement of a session while a send holds it, the agreement of the reconnect
    manager's callbacks with the node's over a whole life, and numeric bounds for the
    binary64 backoff below its overflow. *)

From Stdlib Require Export ZArith Lia.
From Stdlib Require Export Strings.Byte.
From stdpp Require Export base tactics numbers list gmap strings.

#[global] Open Scope Z_scope.

(** ** Bytes and Go strings

    A Go [byte] is [Byte.byte]; a Go [string] and a [[]byte] are both byte
    sequences, so the conversions [string(b)] and [[]byte(s)] are the identity
    of the model. *)

Abbreviation byte := Byte.byte.
Abbreviation bytes := (list Byte.byte).
Abbreviation gostring := (list Byte.byte).

#[global] Instance byte_eq_dec : EqDecision byte := Byte.byte_eq_dec.
#[global] Instance byte_countable : Countable byte :=
  inj_countable Byte.to_N Byte.of_N Byte.of_to_N.

(** A Go string literal. *)
Definition str (s : string) : gostring := String.list_byte_of_string s.

(** [int(b)]: the unsigned value of a byte. *)
Definition Z_of_byte (b : byte) : Z := Z.of_N (Byte.to_N b).

(** [byte(z)]: the low eight bits of an integer. *)
Definition byte_of_Z (z : Z) : byte :=
  match Byte.of_N (Z.to_N (z mod 256)) with
  | Some b => b
  | None => x00
  end.

(** ** Machine integers: a [w]-bit integer is a [Z]; conversions wrap. *)

Definition wrap_u (w z : Z) : Z := z mod 2 ^ w.
Definition wrap_s (w z : Z) : Z := (z + 2 ^ (w - 1)) mod 2 ^ w - 2 ^ (w - 1).

Definition to_uint16 : Z → Z := wrap_u 16.
Definition to_uint32 : Z → Z := wrap_u 32.
Definition to_uint64 : Z → Z := wrap_u 64.
Definition to_int64 : Z → Z := wrap_s 64.

Definition min_int64 : Z := - 2 ^ 63.
Definition max_int64 : Z := 2 ^ 63 - 1.
Definition is_int64 (z : Z) : Prop := min_int64 ≤ z ≤ max_int64.

(** ** Time

    A [time.Duration] is an [int64] of nanoseconds.  A [time.Time] is the
    number of nanoseconds since January 1 of year 1, so that [time.Time{}] is
    [0]; [t.Sub(u)] saturates at the ends of the [Duration] range. *)

Definition Duration := Z.
Definition Time := Z.
Definition time_zero : Time := 0.
Definition time_IsZero (t : Time) : bool := t =? 0.
Definition time_Before (t u : Time) : bool := t <? u.
Definition time_Add (t : Time) (d : Duration) : Time := t + d.
Definition time_Sub (t u : Time) : Duration :=
  Z.max min_int64 (Z.min max_int64 (t - u)).

Definition Nanosecond : Duration := 1.
Definition Millisecond : Duration := 1000000.
Definition Second : Duration := 1000 * Millisecond.
Definition Minute : Duration := 60 * Second.

(** ** Results: a Go call returns a value, returns an error, or panics *)

Inductive res (A : Type) : Type :=
| Ok (a : A)
| Err (e : string)
| Panic.
Arguments Ok {A} a.
Arguments Err {A} e.
Arguments Panic {A}.

#[global] Instance res_ret : MRet res := @Ok.
#[global] Instance res_bind : MBind res := λ A B f m,
  match m with
  | Ok a => f a
  | Err e => Err e
  | Panic => Panic
  end.

Definition is_panic {A} (r : res A) : bool :=
  match r with Panic => true | _ => false end.

(** [if c { return err }]. *)
Definition guard_err (c : bool) (e : string) : res unit :=
  if c then Err e else Ok ().

(** ** Slices *)

Definition len {A} (l : list A) : Z := Z.of_nat (length l).

(** [make([]byte, n)]. *)
Definition make_bytes (n : Z) : bytes := replicate (Z.to_nat n) x00.

(** [l[i:j]] with [0 <= i <= j <= len(l)] known. *)
Definition subslice {A} (l : list A) (i j : Z) : list A :=
  take (Z.to_nat (j - i)) (drop (Z.to_nat i) l).

(** [l[i:j]]: panics out of range. *)
Definition go_slice {A} (l : list A) (i j : Z) : res (list A) :=
  if (0 <=? i) && (i <=? j) && (j <=? len l) then Ok (subslice l i j) else Panic.

(** [l[i:]]. *)
Definition go_slice_from {A} (l : list A) (i : Z) : res (list A) :=
  go_slice l i (len l).

(** [l[i]]: panics out of range. *)
Definition go_index {A} (l : list A) (i : Z) : res A :=
  if (0 <=? i) then
    match l !! Z.to_nat i with Some x => Ok x | None => Panic end
  else Panic.

(** [copy(dst[off:], src)], for [0 <= off <= len(dst)]: copies
    [min(len(dst)-off, len(src))] bytes. *)
Definition copy_at (dst : bytes) (off : Z) (src : bytes) : bytes :=
  take (Z.to_nat off) dst
  ++ take (Z.to_nat (len dst - off)) src
  ++ drop (Z.to_nat (off + len src)) dst.

(** [copy(dst[i:j], src)]. *)
Definition copy_range (dst : bytes) (i j : Z) (src : bytes) : bytes :=
  copy_at dst i (take (Z.to_nat (j - i)) src).

(** [dst[i] = b], for an index in range. *)
Definition set_byte (dst : bytes) (i : Z) (b : byte) : bytes :=
  <[Z.to_nat i := b]> dst.

(** ** Fixed-width big-endian integers ([encoding/binary.BigEndian]) *)

Fixpoint be_bytes (n : nat) (z : Z) : bytes :=
  match n with
  | O => []
  | S m => byte_of_Z (Z.shiftr z (8 * Z.of_nat m)) :: be_bytes m z
  end.

Fixpoint be_value_aux (acc : Z) (l : bytes) : Z :=
  match l with
  | [] => acc
  | b :: l' => be_value_aux (Z.lor (Z.shiftl acc 8) (Z_of_byte b)) l'
  end.

Definition be_value (l : bytes) : Z := be_value_aux 0 l.

(** [binary.BigEndian.PutUint16(dst[i:], v)] and its wider companions. *)
Definition put_be (n : nat) (dst : bytes) (i : Z) (v : Z) : bytes :=
  copy_at dst i (be_bytes n v).

(** ** Record update

    [r <| f := v |>] is [r] with field [f] set to [v], and [r <| f ::= g |>]
    applies [g] to the field.  A record declares its eta expansion once; the
    setter of a field is derived from it. *)

Class RecordEta (R : Type) := record_eta : R → R.
Class Setter {R T : Type} (proj : R → T) := set_field : (T → T) → R → R.
Arguments set_field {R T} proj {_} _ _.

Ltac derive_setter :=
  lazymatch goal with
  | |- @Setter ?R ?T ?proj =>
      let e := eval hnf in (record_eta : R → R) in
      lazymatch eval pattern proj in e with
      | ?k _ => let s := eval cbv beta in (λ upd : T → T, k (λ r : R, upd (proj r))) in exact s
      end
  end.

#[global] Hint Extern 1 (Setter _) => derive_setter : typeclass_instances.

Declare Scope tenet_scope.
#[global] Open Scope tenet_scope.

Notation "r <| f ::= g |>" := (set_field f g r)
  (at level 12, left associativity, f at next level, g at level 200, format "r  <| f  ::=  g |>") : tenet_scope.
Notation "r <| f := v |>" := (set_field f (λ _, v) r)
  (at level 12, left associativity, f at next level, v at level 200, format "r  <| f  :=  v |>") : tenet_scope.

(** ** Tactics *)

(** Case analysis on an integer comparison of the goal, or of a hypothesis. *)
Ltac zcase :=
  match goal with
  | |- context [?a <? ?b] => destruct (Z.ltb_spec a b)
  | |- context [?a <=? ?b] => destruct (Z.leb_spec a b)
  | |- context [?a =? ?b] => destruct (Z.eqb_spec a b)
  end.

Ltac zcase_in H :=
  match type of H with
  | context [?a <? ?b] => destruct (Z.ltb_spec a b)
  | context [?a <=? ?b] => destruct (Z.leb_spec a b)
  | context [?a =? ?b] => destruct (Z.eqb_spec a b)
  end.

(** ** Lemmas: bytes *)

Lemma Z_of_byte_range b : 0 ≤ Z_of_byte b < 256.
Proof.
  unfold Z_of_byte. pose proof (Byte.to_N_bounded b). lia.
Qed.

Lemma Z_of_byte_of_Z z : Z_of_byte (byte_of_Z z) = z mod 256.
Proof.
  unfold Z_of_byte, byte_of_Z.
  pose proof (Z.mod_pos_bound z 256 ltac:(lia)).
  destruct (Byte.of_N _) eqn:E.
  - apply Byte.to_of_N in E. rewrite E. lia.
  - apply Byte.of_N_None_iff in E. lia.
Qed.

Lemma byte_of_Z_of_byte b : byte_of_Z (Z_of_byte b) = b.
Proof.
  unfold byte_of_Z. pose proof (Z_of_byte_range b).
  rewrite Z.mod_small by lia. unfold Z_of_byte.
  by rewrite N2Z.id, Byte.of_to_N.
Qed.

Lemma Z_of_byte_inj b c : Z_of_byte b = Z_of_byte c → b = c.
Proof. intros H. by rewrite <- (byte_of_Z_of_byte b), H, byte_of_Z_of_byte. Qed.

Lemma byte_of_Z_mod z : byte_of_Z (z mod 256) = byte_of_Z z.
Proof. apply Z_of_byte_inj. by rewrite !Z_of_byte_of_Z, Z.mod_mod by lia. Qed.

(** ** Lemmas: machine integers *)

Lemma wrap_u_range w z : 0 ≤ w → 0 ≤ wrap_u w z < 2 ^ w.
Proof. intros. apply Z.mod_pos_bound. by apply Z.pow_pos_nonneg. Qed.

Lemma wrap_u_small w z : 0 ≤ z < 2 ^ w → wrap_u w z = z.
Proof. apply Z.mod_small. Qed.

Lemma to_uint16_range z : 0 ≤ to_uint16 z < 65536.
Proof. apply (wrap_u_range 16). lia. Qed.

Lemma to_uint16_small z : 0 ≤ z < 65536 → to_uint16 z = z.
Proof. apply (wrap_u_small 16). Qed.

Lemma to_int64_range z : is_int64 (to_int64 z).
Proof.
  unfold is_int64, to_int64, wrap_s, min_int64, max_int64.
  pose proof (Z.mod_pos_bound (z + 2 ^ (64 - 1)) (2 ^ 64) ltac:(lia)). lia.
Qed.

Lemma to_int64_id z : is_int64 z → to_int64 z = z.
Proof.
  unfold is_int64, to_int64, wrap_s, min_int64, max_int64. intros.
  rewrite Z.mod_small by lia. lia.
Qed.

(** Converting to [uint64] and back is the identity on [int64] values. *)
Lemma to_int64_mod z : to_int64 (z mod 2 ^ 64) = to_int64 z.
Proof.
  unfold to_int64, wrap_s. by rewrite Z.add_mod_idemp_l by lia.
Qed.

(** ** Lemmas: lengths *)

Create Rewrite HintDb golen.

Lemma len_nonneg {A} (l : list A) : 0 ≤ len l.
Proof. unfold len. lia. Qed.

Lemma len_nil {A} : len (@nil A) = 0.
Proof. done. Qed.

Lemma len_cons {A} (x : A) l : len (x :: l) = 1 + len l.
Proof. unfold len. simpl. lia. Qed.

Lemma len_app {A} (l k : list A) : len (l ++ k) = len l + len k.
Proof. unfold len. rewrite length_app. lia. Qed.

Lemma len_make n : 0 ≤ n → len (make_bytes n) = n.
Proof. unfold len, make_bytes. rewrite length_replicate. lia. Qed.

Lemma len_nil_inv {A} (l : list A) : len l = 0 → l = [].
Proof. destruct l; [done|]. rewrite len_cons. pose proof (len_nonneg l). lia. Qed.

Lemma len_take {A} n (l : list A) : 0 ≤ n → len (take (Z.to_nat n) l) = Z.min n (len l).
Proof. unfold len. rewrite length_take. lia. Qed.

Lemma len_drop {A} n (l : list A) : 0 ≤ n ≤ len l → len (drop (Z.to_nat n) l) = len l - n.
Proof. unfold len. rewrite length_drop. lia. Qed.

Lemma len_be_bytes n z : len (be_bytes n z) = Z.of_nat n.
Proof. induction n as [|n IH]; [done|]. cbn [be_bytes]. rewrite len_cons, IH. lia. Qed.

#[export] Hint Rewrite @len_nil @len_cons @len_app len_be_bytes : golen.

(** Closes linear goals about lengths of concatenations. *)
Ltac len_facts :=
  repeat match goal with
  | |- context [len ?l] =>
      lazymatch goal with
      | _ : 0 ≤ len l |- _ => fail
      | _ => pose proof (len_nonneg l)
      end
  | _ : context [len ?l] |- _ =>
      lazymatch goal with
      | _ : 0 ≤ len l |- _ => fail
      | _ => pose proof (len_nonneg l)
      end
  end.

Ltac len_solve :=
  repeat match goal with H : context [len _] |- _ => progress autorewrite with golen in H end;
  autorewrite with golen; len_facts; lia.

(** ** Lemmas: slices of concatenations *)

Lemma length_len {A} (l : list A) : length l = Z.to_nat (len l).
Proof. unfold len. lia. Qed.

Lemma subslice_mid {A} (a b c : list A) i j :
  i = len a → j = len a + len b → subslice (a ++ b ++ c) i j = b.
Proof.
  intros -> ->. unfold subslice.
  rewrite drop_app_length' by (unfold len; lia).
  by rewrite take_app_length' by (unfold len; lia).
Qed.

Lemma go_slice_mid {A} (a b c : list A) i j :
  i = len a → j = len a + len b → go_slice (a ++ b ++ c) i j = Ok b.
Proof.
  intros -> ->. unfold go_slice.
  replace (_ && _ && _) with true.
  - by rewrite subslice_mid.
  - symmetry. rewrite !andb_true_iff, !Z.leb_le. len_solve.
Qed.

Lemma go_slice_prefix {A} (a b : list A) j : j = len a → go_slice (a ++ b) 0 j = Ok a.
Proof. intros ->. by apply (go_slice_mid [] a b). Qed.

Lemma go_slice_suffix {A} (a b : list A) i : i = len a → go_slice_from (a ++ b) i = Ok b.
Proof.
  intros ->. unfold go_slice_from.
  rewrite <- (app_nil_r b) at 1. apply go_slice_mid; len_solve.
Qed.

Lemma go_index_mid {A} (a c : list A) x i : i = len a → go_index (a ++ x :: c) i = Ok x.
Proof.
  intros ->. unfold go_index.
  replace (0 <=? len a) with true by (symmetry; apply Z.leb_le, len_nonneg).
  by rewrite list_lookup_middle by (unfold len; lia).
Qed.

Lemma go_slice_ok {A} (l : list A) i j :
  0 ≤ i → i ≤ j → j ≤ len l → go_slice l i j = Ok (subslice l i j).
Proof.
  intros. unfold go_slice. replace (_ && _ && _) with true; [done|].
  symmetry. rewrite !andb_true_iff, !Z.leb_le. lia.
Qed.

Lemma go_slice_from_ok {A} (l : list A) i :
  0 ≤ i ≤ len l → go_slice_from l i = Ok (drop (Z.to_nat i) l).
Proof.
  intros. unfold go_slice_from. rewrite go_slice_ok by lia. unfold subslice.
  rewrite take_ge; [done|]. rewrite length_drop. unfold len in *. lia.
Qed.

Lemma go_index_ok {A} (l : list A) i :
  0 ≤ i < len l → ∃ x, go_index l i = Ok x ∧ l !! Z.to_nat i = Some x.
Proof.
  intros. unfold go_index. replace (0 <=? i) with true by (symmetry; apply Z.leb_le; lia).
  destruct (lookup_lt_is_Some_2 l (Z.to_nat i)) as [x Hx]; [unfold len in *; lia|].
  rewrite Hx. eauto.
Qed.

Lemma len_subslice {A} (l : list A) i j :
  0 ≤ i → i ≤ j → j ≤ len l → len (subslice l i j) = j - i.
Proof.
  intros. unfold subslice. rewrite len_take by lia. rewrite len_drop by lia. lia.
Qed.

Lemma split_at {A} (l : list A) n : 0 ≤ n ≤ len l → ∃ a b, l = a ++ b ∧ len a = n.
Proof.
  intros. exists (take (Z.to_nat n) l), (drop (Z.to_nat n) l).
  rewrite take_drop. split; [done|]. rewrite len_take by lia. lia.
Qed.

(** ** Lemmas: filling a fresh buffer *)

Lemma copy_at_app a d off src :
  off = len a → len src ≤ len d →
  copy_at (a ++ d) off src = a ++ src ++ drop (Z.to_nat (len src)) d.
Proof.
  intros -> H. unfold copy_at.
  rewrite take_app_length' by (unfold len; lia). f_equal. f_equal.
  - apply take_ge. pose proof (length_len src). len_solve.
  - rewrite drop_app_ge by (unfold len; lia). f_equal. unfold len. lia.
Qed.

Lemma make_bytes_add n m : 0 ≤ n → 0 ≤ m → make_bytes (n + m) = make_bytes n ++ make_bytes m.
Proof. intros. unfold make_bytes. rewrite <- replicate_add. f_equal. lia. Qed.

Lemma drop_make n k : 0 ≤ k ≤ n → drop (Z.to_nat k) (make_bytes n) = make_bytes (n - k).
Proof. intros. unfold make_bytes. rewrite drop_replicate. f_equal. lia. Qed.

(** Writing [src] after an already filled prefix of a fresh buffer. *)
Lemma fill_next a n off src :
  off = len a → len src ≤ n →
  copy_at (a ++ make_bytes n) off src = (a ++ src) ++ make_bytes (n - len src).
Proof.
  intros ? H. pose proof (len_nonneg src).
  rewrite copy_at_app, drop_make by (rewrite ?len_make; lia).
  by rewrite app_assoc.
Qed.

Lemma fill_first n src :
  len src ≤ n → copy_at (make_bytes n) 0 src = src ++ make_bytes (n - len src).
Proof. intros. by apply (fill_next [] n 0 src). Qed.

Lemma fill_byte a n i b :
  i = len a → 0 < n → set_byte (a ++ make_bytes n) i b = (a ++ [b]) ++ make_bytes (n - 1).
Proof.
  intros -> Hn. unfold set_byte.
  replace (Z.to_nat (len a)) with (length a + 0)%nat by (unfold len; lia).
  rewrite insert_app_r. replace n with (1 + (n - 1)) at 1 by lia.
  rewrite make_bytes_add by lia. by rewrite <- app_assoc.
Qed.

Lemma fill_byte_first n b :
  0 < n → set_byte (make_bytes n) 0 b = [b] ++ make_bytes (n - 1).
Proof. intros. by apply (fill_byte [] n 0 b). Qed.

Lemma make_bytes_0 n : n ≤ 0 → make_bytes n = [].
Proof. intros. unfold make_bytes. by replace (Z.to_nat n) with 0%nat by lia. Qed.

(** A [copy] into a range as wide as the source. *)
Lemma copy_range_exact dst i j src :
  j - i = len src → copy_range dst i j src = copy_at dst i src.
Proof. intros H. unfold copy_range. rewrite H. f_equal. apply take_ge. unfold len. lia. Qed.

(** Evaluates a builder made of [make], [copy] and index writes into the
    concatenation of the parts, the widths being settled by [len_solve]. *)
Ltac fill :=
  rewrite ?copy_range_exact by len_solve;
  first [rewrite fill_first by len_solve | rewrite fill_byte_first by len_solve];
  repeat first
    [ rewrite fill_byte by len_solve
    | rewrite fill_next by len_solve
    | rewrite copy_range_exact by len_solve ];
  rewrite make_bytes_0 by len_solve;
  rewrite ?app_nil_r, <- ?app_assoc.

(** The same, for a list given by an equation. *)
Lemma go_index_at {A} (l a : list A) x c i : l = a ++ x :: c → i = len a → go_index l i = Ok x.
Proof. intros ->. apply go_index_mid. Qed.

Lemma go_slice_at {A} (l a b c : list A) i j :
  l = a ++ b ++ c → i = len a → j = len a + len b → go_slice l i j = Ok b.
Proof. intros ->. apply go_slice_mid. Qed.

Lemma go_slice_from_at {A} (l a b : list A) i : l = a ++ b → i = len a → go_slice_from l i = Ok b.
Proof. intros ->. apply go_slice_suffix. Qed.

(** Proves that a concatenation is another bracketing of itself. *)
Ltac reassoc :=
  try match goal with x := _ |- ?x = _ => unfold x end; repeat (cbn [app]; rewrite <- ?app_assoc); reflexivity.

(** ** Lemmas: bit operations as arithmetic *)

Lemma land_disjoint a x n : 0 ≤ n → 0 ≤ a < 2 ^ n → Z.land a (x * 2 ^ n) = 0.
Proof.
  intros Hn Ha. apply Z.bits_inj'. intros i Hi.
  rewrite Z.land_spec, Z.bits_0.
  destruct (Z.lt_ge_cases i n).
  - by rewrite Z.mul_pow2_bits_low, andb_false_r by lia.
  - by rewrite <- (Z.mod_small a (2 ^ n)), Z.mod_pow2_bits_high by lia.
Qed.

Lemma lor_add a x n : 0 ≤ n → 0 ≤ a < 2 ^ n → Z.lor a (x * 2 ^ n) = a + x * 2 ^ n.
Proof.
  intros Hn Ha. pose proof (land_disjoint a x n Hn Ha) as E.
  rewrite <- Z.lxor_lor by done. by rewrite Z.add_nocarry_lxor.
Qed.

Lemma lor_shiftl_byte a b : Z.lor (Z.shiftl a 8) (Z_of_byte b) = a * 256 + Z_of_byte b.
Proof.
  rewrite Z.shiftl_mul_pow2, Z.lor_comm by lia.
  rewrite (lor_add _ a 8) by (pose proof (Z_of_byte_range b); lia). lia.
Qed.

Lemma split_mod z a b : 0 < a → 0 < b → z mod (a * b) = z mod a + a * ((z / a) mod b).
Proof. intros. apply Z.rem_mul_r; lia. Qed.

(** ** Lemmas: big-endian integers *)

Lemma pow2_8S n : 2 ^ (8 * Z.of_nat (S n)) = 2 ^ (8 * Z.of_nat n) * 256.
Proof.
  replace (8 * Z.of_nat (S n)) with (8 * Z.of_nat n + 8) by lia.
  by rewrite Z.pow_add_r by lia.
Qed.

Lemma be_value_aux_bytes n z acc :
  be_value_aux acc (be_bytes n z)
  = acc * 2 ^ (8 * Z.of_nat n) + z mod 2 ^ (8 * Z.of_nat n).
Proof.
  revert acc. induction n as [|n IH]; intros acc; cbn [be_bytes be_value_aux].
  - simpl. rewrite Z.mod_1_r. lia.
  - rewrite IH, lor_shiftl_byte, Z_of_byte_of_Z, pow2_8S.
    pose proof (Z.pow_pos_nonneg 2 (8 * Z.of_nat n) ltac:(lia) ltac:(lia)).
    rewrite split_mod by lia. rewrite Z.shiftr_div_pow2 by lia. lia.
Qed.

Lemma be_value_bytes n z : be_value (be_bytes n z) = z mod 2 ^ (8 * Z.of_nat n).
Proof. unfold be_value. by rewrite be_value_aux_bytes. Qed.

Lemma be_value_aux_range l acc :
  0 ≤ acc → acc * 2 ^ (8 * len l) ≤ be_value_aux acc l < (acc + 1) * 2 ^ (8 * len l).
Proof.
  revert acc. induction l as [|b l IH]; intros acc Hacc; cbn [be_value_aux].
  - change (len (@nil byte)) with 0. simpl. lia.
  - rewrite lor_shiftl_byte. pose proof (Z_of_byte_range b).
    specialize (IH (acc * 256 + Z_of_byte b) ltac:(lia)).
    rewrite len_cons. replace (8 * (1 + len l)) with (8 + 8 * len l) by lia.
    pose proof (len_nonneg l).
    rewrite Z.pow_add_r by lia.
    pose proof (Z.pow_pos_nonneg 2 (8 * len l) ltac:(lia) ltac:(lia)). nia.
Qed.

Lemma be_value_range l : 0 ≤ be_value l < 2 ^ (8 * len l).
Proof. pose proof (be_value_aux_range l 0 ltac:(lia)). unfold be_value. lia. Qed.

Lemma be_value_aux_acc l acc : be_value_aux acc l = acc * 2 ^ (8 * len l) + be_value l.
Proof.
  unfold be_value. revert acc. induction l as [|b l IH]; intros acc; cbn [be_value_aux].
  - change (len (@nil byte)) with 0. lia.
  - rewrite IH, (IH (Z.lor (Z.shiftl 0 8) (Z_of_byte b))), !lor_shiftl_byte, len_cons.
    pose proof (len_nonneg l).
    replace (8 * (1 + len l)) with (8 + 8 * len l) by lia. rewrite Z.pow_add_r by lia. lia.
Qed.

Lemma be_value_cons b l : be_value (b :: l) = Z_of_byte b * 2 ^ (8 * len l) + be_value l.
Proof.
  unfold be_value at 1. cbn [be_value_aux]. rewrite be_value_aux_acc, lor_shiftl_byte. lia.
Qed.

Lemma be_bytes_add n k z : be_bytes n (k * 2 ^ (8 * Z.of_nat n) + z) = be_bytes n z.
Proof.
  revert k z. induction n as [|n IH]; intros k z; [done|]. cbn [be_bytes].
  replace (k * 2 ^ (8 * Z.of_nat (S n)) + z)
    with ((k * 256) * 2 ^ (8 * Z.of_nat n) + z) by (rewrite pow2_8S; lia).
  rewrite IH. f_equal. apply Z_of_byte_inj. rewrite !Z_of_byte_of_Z, !Z.shiftr_div_pow2 by lia.
  pose proof (Z.pow_pos_nonneg 2 (8 * Z.of_nat n) ltac:(lia) ltac:(lia)).
  rewrite Z.div_add_l by lia. rewrite Z.add_comm, Z.mod_add by lia. done.
Qed.

Lemma be_bytes_value n l : len l = Z.of_nat n → be_bytes n (be_value l) = l.
Proof.
  revert l. induction n as [|n IH]; intros [|b l] Hl; rewrite ?len_cons in Hl; len_facts; try done; try lia.
  cbn [be_bytes]. assert (len l = Z.of_nat n) as Hn by lia.
  rewrite be_value_cons, Hn, be_bytes_add, IH by done. f_equal.
  apply Z_of_byte_inj. rewrite Z_of_byte_of_Z, Z.shiftr_div_pow2 by lia.
  pose proof (be_value_range l) as Hr. rewrite Hn in Hr.
  rewrite Z.div_add_l, (Z.div_small (be_value l)) by lia.
  rewrite Z.add_0_r. apply Z.mod_small, Z_of_byte_range.
Qed.

(** A list cut at given widths. *)
Lemma split_cons_at {A} (l : list A) n :
  0 ≤ n < len l → ∃ a x b, l = a ++ x :: b ∧ len a = n.
Proof.
  intros H. destruct (split_at l n ltac:(lia)) as (a & [|x b] & -> & Ha).
  - rewrite app_nil_r in H. lia.
  - eauto.
Qed.
