(* ===== verification/Protocol.v ===== *)
(** * Packet construction and framing ([internal/protocol/protocol.go])

    The seven packet types share a five byte header, the magic ["TENT"] and a
    type byte.  TCP and KCP streams carry packets behind a two byte big-endian
    length; heartbeats carry a little-endian [int64] timestamp. *)

From S2P Require Import Prelude.

Definition MagicBytes : bytes := str "TENT".

Definition PacketTypeHandshake : byte := x01.
Definition PacketTypeData : byte := x02.
Definition PacketTypeRelay : byte := x03.
Definition PacketTypeDiscoveryReq : byte := x04.
Definition PacketTypeDiscoveryResp : byte := x05.
Definition PacketTypeHeartbeat : byte := x06.
Definition PacketTypeHeartbeatAck : byte := x07.

Definition RelayModeForward : byte := x01.
Definition RelayModeTarget : byte := x02.

(** ** Packets *)

Definition BuildHandshakePacket (msg : bytes) : bytes :=
  let packet := make_bytes (5 + len msg) in
  let packet := copy_range packet 0 4 MagicBytes in
  let packet := set_byte packet 4 PacketTypeHandshake in
  copy_at packet 5 msg.

Definition BuildDataPacket (payload : bytes) : bytes :=
  let packet := make_bytes (5 + len payload) in
  let packet := copy_range packet 0 4 MagicBytes in
  let packet := set_byte packet 4 PacketTypeData in
  copy_at packet 5 payload.

(** [PutTimestamp] writes into [buf]; a buffer shorter than eight bytes is left
    as it is.  [timestamp >> k] is the arithmetic shift of an [int64]. *)
Definition PutTimestamp (buf : bytes) (timestamp : Z) : bytes :=
  if len buf <? 8 then buf else
  let buf := set_byte buf 0 (byte_of_Z timestamp) in
  let buf := set_byte buf 1 (byte_of_Z (Z.shiftr timestamp 8)) in
  let buf := set_byte buf 2 (byte_of_Z (Z.shiftr timestamp 16)) in
  let buf := set_byte buf 3 (byte_of_Z (Z.shiftr timestamp 24)) in
  let buf := set_byte buf 4 (byte_of_Z (Z.shiftr timestamp 32)) in
  let buf := set_byte buf 5 (byte_of_Z (Z.shiftr timestamp 40)) in
  let buf := set_byte buf 6 (byte_of_Z (Z.shiftr timestamp 48)) in
  set_byte buf 7 (byte_of_Z (Z.shiftr timestamp 56)).

(** [int64(b) << k]: the shift wraps at 64 bits. *)
Definition shl_int64 (b : byte) (k : Z) : Z := to_int64 (Z.shiftl (Z_of_byte b) k).

Definition GetTimestamp (buf : bytes) : Z :=
  match buf with
  | b0 :: b1 :: b2 :: b3 :: b4 :: b5 :: b6 :: b7 :: _ =>
      Z.lor (Z.lor (Z.lor (Z.lor (Z.lor (Z.lor (Z.lor
        (Z_of_byte b0) (shl_int64 b1 8)) (shl_int64 b2 16)) (shl_int64 b3 24))
        (shl_int64 b4 32)) (shl_int64 b5 40)) (shl_int64 b6 48)) (shl_int64 b7 56)
  | _ => 0
  end.

(** [PutTimestamp(packet[5:], ts)] writes through the slice into [packet]. *)
Definition put_timestamp_at (packet : bytes) (off : Z) (timestamp : Z) : bytes :=
  copy_at packet off (PutTimestamp (drop (Z.to_nat off) packet) timestamp).

Definition BuildHeartbeatPacket (timestamp : Z) : bytes :=
  let packet := make_bytes 13 in
  let packet := copy_range packet 0 4 MagicBytes in
  let packet := set_byte packet 4 PacketTypeHeartbeat in
  put_timestamp_at packet 5 timestamp.

Definition BuildHeartbeatAckPacket (timestamp : Z) : bytes :=
  let packet := make_bytes 13 in
  let packet := copy_range packet 0 4 MagicBytes in
  let packet := set_byte packet 4 PacketTypeHeartbeatAck in
  put_timestamp_at packet 5 timestamp.

(** ** Length-prefixed frames *)

Definition EncodeTCPFrame (packet : bytes) : bytes :=
  let length := to_uint16 (len packet) in
  let frame := make_bytes (2 + len packet) in
  let frame := set_byte frame 0 (byte_of_Z (Z.shiftr length 8)) in
  let frame := set_byte frame 1 (byte_of_Z length) in
  copy_at frame 2 packet.

(** [uint16(header[0])<<8 | uint16(header[1])]. *)
Definition DecodeTCPFrameLength (header : bytes) : Z :=
  match header with
  | h0 :: h1 :: _ => Z.lor (to_uint16 (Z.shiftl (Z_of_byte h0) 8)) (Z_of_byte h1)
  | _ => 0
  end.

(** ** Packet inspection *)

Definition ValidateMagic (data : bytes) : bool :=
  if len data <? 4 then false
  else bool_decide (subslice data 0 4 = MagicBytes).

Definition GetPacketType (data : bytes) : byte :=
  match data !! 4%nat with
  | Some t => t
  | None => x00
  end.

(** [nil] for a packet without payload. *)
Definition GetPayload (data : bytes) : bytes :=
  if len data <=? 5 then [] else drop 5 data.

(** ** Normal forms of the builders *)

Lemma len_Magic : len MagicBytes = 4.
Proof. done. Qed.
#[export] Hint Rewrite len_Magic : golen.

Lemma BuildHandshakePacket_eq msg :
  BuildHandshakePacket msg = MagicBytes ++ PacketTypeHandshake :: msg.
Proof. unfold BuildHandshakePacket. cbv zeta. fill. done. Qed.

Lemma BuildDataPacket_eq payload :
  BuildDataPacket payload = MagicBytes ++ PacketTypeData :: payload.
Proof. unfold BuildDataPacket. cbv zeta. fill. done. Qed.

Lemma EncodeTCPFrame_eq packet :
  EncodeTCPFrame packet = be_bytes 2 (len packet) ++ packet.
Proof.
  unfold EncodeTCPFrame. cbv zeta.
  fill.
  cbn [be_bytes app Z.of_nat Z.mul]. rewrite Z.shiftr_0_r.
  unfold to_uint16, wrap_u.
  f_equal; [|f_equal]; apply Z_of_byte_inj; rewrite !Z_of_byte_of_Z;
    rewrite ?Z.shiftr_div_pow2 by lia;
    Z.div_mod_to_equations; lia.
Qed.

Lemma DecodeTCPFrameLength_eq h0 h1 rest :
  DecodeTCPFrameLength (h0 :: h1 :: rest) = be_value [h0; h1].
Proof.
  cbn [DecodeTCPFrameLength be_value be_value_aux]. unfold be_value, be_value_aux.
  pose proof (Z_of_byte_range h0).
  rewrite Z.shiftl_0_l, Z.lor_0_l, to_uint16_small; [done|].
  rewrite Z.shiftl_mul_pow2 by lia. lia.
Qed.

(** ** Timestamps *)

(** The eight bytes [PutTimestamp] writes, least significant first. *)
Definition timestamp_bytes (t : Z) : bytes :=
  (λ k : Z, byte_of_Z (Z.shiftr t (8 * k))) <$> [0; 1; 2; 3; 4; 5; 6; 7].

Lemma PutTimestamp_eq buf t :
  8 ≤ len buf → PutTimestamp buf t = timestamp_bytes t ++ drop 8 buf.
Proof.
  intros H. unfold PutTimestamp.
  destruct (Z.ltb_spec (len buf) 8); [lia|].
  do 8 (destruct buf as [|? buf]; [clear -H; len_solve|]).
  cbn. by rewrite Z.shiftr_0_r.
Qed.

Lemma shl_int64_small b k : 0 ≤ k ≤ 48 → shl_int64 b k = Z_of_byte b * 2 ^ k.
Proof.
  intros. unfold shl_int64. rewrite Z.shiftl_mul_pow2 by lia.
  apply to_int64_id. pose proof (Z_of_byte_range b).
  pose proof (Z.pow_le_mono_r 2 k 48 ltac:(lia) ltac:(lia)).
  unfold is_int64, min_int64, max_int64. nia.
Qed.

(** One step of the little-endian sum: [acc] holds the low [n] bits. *)
Lemma timestamp_step t n :
  0 ≤ n → Z.lor (t mod 2 ^ n) ((Z.shiftr t n) mod 256 * 2 ^ n) = t mod 2 ^ (n + 8).
Proof.
  intros Hn. pose proof (Z.pow_pos_nonneg 2 n ltac:(lia) Hn).
  rewrite lor_add by (try done; apply Z.mod_pos_bound; lia).
  rewrite Z.shiftr_div_pow2, Z.pow_add_r, split_mod by lia.
  change (2 ^ 8) with 256. lia.
Qed.

(** The top byte carries the sign. *)
Lemma timestamp_top t :
  is_int64 t →
  Z.lor (t mod 2 ^ 56) (to_int64 (Z.shiftl ((Z.shiftr t 56) mod 256) 56)) = t.
Proof.
  intros Ht. rewrite Z.shiftl_mul_pow2, Z.shiftr_div_pow2 by lia.
  assert (to_int64 ((t / 2 ^ 56) mod 256 * 2 ^ 56) = t / 2 ^ 56 * 2 ^ 56) as ->.
  { unfold is_int64, min_int64, max_int64, to_int64, wrap_s in *.
    Z.div_mod_to_equations. lia. }
  rewrite lor_add by (try apply Z.mod_pos_bound; lia).
  pose proof (Z.div_mod t (2 ^ 56) ltac:(lia)). lia.
Qed.

Lemma GetTimestamp_bytes t rest :
  is_int64 t → GetTimestamp (timestamp_bytes t ++ rest) = t.
Proof.
  intros Ht. cbn [timestamp_bytes fmap list_fmap app GetTimestamp].
  rewrite !shl_int64_small by lia. unfold shl_int64.
  rewrite !Z_of_byte_of_Z. cbn [Z.mul Pos.mul]. rewrite Z.shiftr_0_r.
  change (t mod 256) with (t mod 2 ^ 8).
  repeat (rewrite timestamp_step by lia; cbn [Z.add Pos.add]).
  by apply timestamp_top.
Qed.

Lemma BuildHeartbeatPacket_eq t :
  BuildHeartbeatPacket t = MagicBytes ++ PacketTypeHeartbeat :: timestamp_bytes t.
Proof. done. Qed.

Lemma BuildHeartbeatAckPacket_eq t :
  BuildHeartbeatAckPacket t = MagicBytes ++ PacketTypeHeartbeatAck :: timestamp_bytes t.
Proof. done. Qed.

(** ** Inspecting built packets *)

Lemma ValidateMagic_built t rest : ValidateMagic (MagicBytes ++ t :: rest) = true.
Proof.
  unfold ValidateMagic. destruct (Z.ltb_spec (len (MagicBytes ++ t :: rest)) 4); [len_solve|].
  apply bool_decide_eq_true. by apply (subslice_mid [] MagicBytes).
Qed.

Lemma GetPacketType_built t rest : GetPacketType (MagicBytes ++ t :: rest) = t.
Proof. done. Qed.

Lemma GetPayload_built t rest : GetPayload (MagicBytes ++ t :: rest) = rest.
Proof.
  unfold GetPayload. destruct (Z.leb_spec (len (MagicBytes ++ t :: rest)) 5) as [H|H]; [|done].
  symmetry. apply len_nil_inv. len_solve.
Qed.

(** ** Properties *)

(** A heartbeat built for any [int64] timestamp is recognised by its magic
    and type byte, and [GetTimestamp] reads the same timestamp back from its
    payload; the same holds of the acknowledgement. *)
Theorem heartbeat_timestamp_roundtrip (t : Z) (Ht : is_int64 t) :
  let hb := BuildHeartbeatPacket t in
  let ack := BuildHeartbeatAckPacket t in
  ValidateMagic hb = true ∧ GetPacketType hb = PacketTypeHeartbeat
  ∧ GetTimestamp (GetPayload hb) = t
  ∧ ValidateMagic ack = true ∧ GetPacketType ack = PacketTypeHeartbeatAck
  ∧ GetTimestamp (GetPayload ack) = t.
Proof.
  cbv zeta. rewrite BuildHeartbeatPacket_eq, BuildHeartbeatAckPacket_eq.
  rewrite !ValidateMagic_built, !GetPacketType_built, !GetPayload_built.
  rewrite <- (app_nil_r (timestamp_bytes t)).
  by rewrite GetTimestamp_bytes.
Qed.

Lemma heartbeat_timestamp_roundtrip_witness :
  GetTimestamp (GetPayload (BuildHeartbeatPacket (-2))) = -2.
Proof.
  destruct (heartbeat_timestamp_roundtrip (-2)) as (_ & _ & H & _);
    [unfold is_int64, min_int64, max_int64; lia | exact H].
Defined.
