(* ===== verification/Stream.v ===== *)
(** * Reading packets from byte streams
    ([node/tcp_io.go], [node/kcp_transport.go])

    A TCP connection or a KCP session delivers a byte stream.  The read loops
    take length-prefixed frames off it and hand every frame that starts with
    the magic to [handlePacket].  A stream is modelled by the bytes that arrive
    before the connection ends; the loops return the packets they dispatch. *)

From S2P Require Import Prelude Protocol.

(** ** One frame: [io.ReadFull] of the two byte header, then of the body *)

Inductive frame_read :=
| HeaderFailed                            (** the stream ended in the header *)
| ZeroLength (rest : bytes)               (** a frame of length zero *)
| BodyFailed                              (** the stream ended in the body *)
| Frame (body : bytes) (rest : bytes).

Definition read_frame (stream : bytes) : frame_read :=
  if len stream <? 2 then HeaderFailed else
  let length := DecodeTCPFrameLength stream in
  let rest := drop 2 stream in
  if length =? 0 then ZeroLength rest
  else if len rest <? length then BodyFailed
  else Frame (take (Z.to_nat length) rest) (drop (Z.to_nat length) rest).

(** [length < 5 || string(buf[0:4]) != "TENT"], then the type byte and a copy
    of the rest of the frame. *)
Definition frame_packet (buf : bytes) : option (byte * bytes) :=
  if (len buf <? 5) || negb (bool_decide (subslice buf 0 4 = str "TENT")) then None
  else match buf !! 4%nat with
       | Some packetType => Some (packetType, drop 5 buf)
       | None => None
       end.

(** Why a read loop returned. *)
Inductive loop_exit := ExitHeader | ExitZero | ExitBody | ExitFuel.

(** [handleTCP]: a frame of length zero ends the connection. *)
Fixpoint handleTCP (fuel : nat) (stream : bytes) : list (byte * bytes) * loop_exit :=
  match fuel with
  | O => ([], ExitFuel)
  | S fuel =>
      match read_frame stream with
      | HeaderFailed => ([], ExitHeader)
      | ZeroLength _ => ([], ExitZero)
      | BodyFailed => ([], ExitBody)
      | Frame buf rest =>
          let '(ps, e) := handleTCP fuel rest in
          match frame_packet buf with
          | None => (ps, e)
          | Some p => (p :: ps, e)
          end
      end
  end.

(** [KCPTransport.handleSession]: a frame of length zero is skipped. *)
Fixpoint handleSession (fuel : nat) (stream : bytes) : list (byte * bytes) * loop_exit :=
  match fuel with
  | O => ([], ExitFuel)
  | S fuel =>
      match read_frame stream with
      | HeaderFailed => ([], ExitHeader)
      | ZeroLength rest => handleSession fuel rest
      | BodyFailed => ([], ExitBody)
      | Frame buf rest =>
          let '(ps, e) := handleSession fuel rest in
          match frame_packet buf with
          | None => (ps, e)
          | Some p => (p :: ps, e)
          end
      end
  end.

(** The frame [KCPTransport.Send] writes to its session. *)
Definition kcp_send_frame (data : bytes) : bytes :=
  let frame := make_bytes (2 + len data) in
  let frame := put_be 2 frame 0 (to_uint16 (len data)) in
  copy_at frame 2 data.

(** ** One frame *)

Lemma be_bytes_2 z : be_bytes 2 z = [byte_of_Z (Z.shiftr z 8); byte_of_Z z].
Proof. cbn [be_bytes Z.of_nat Z.mul]. by rewrite Z.shiftr_0_r. Qed.

Lemma read_frame_encoded packet rest :
  0 < len packet < 65536 → read_frame (EncodeTCPFrame packet ++ rest) = Frame packet rest.
Proof.
  intros H. rewrite EncodeTCPFrame_eq, <- app_assoc, be_bytes_2. unfold read_frame.
  zcase; [len_solve|].
  cbn [app drop]. rewrite DecodeTCPFrameLength_eq, <- be_bytes_2, be_value_bytes.
  rewrite Z.mod_small by (simpl; lia). rewrite !drop_0.
  zcase; [len_solve|]. zcase; [lia|].
  by rewrite take_app_length', drop_app_length' by (unfold len; lia).
Qed.

Lemma kcp_send_frame_eq data : kcp_send_frame data = EncodeTCPFrame data.
Proof.
  rewrite EncodeTCPFrame_eq. unfold kcp_send_frame, put_be. cbv zeta.
  fill. rewrite !be_bytes_2. unfold to_uint16, wrap_u. cbn [app].
  f_equal; [|f_equal]; apply Z_of_byte_inj; rewrite !Z_of_byte_of_Z;
    rewrite ?Z.shiftr_div_pow2 by lia; Z.div_mod_to_equations; lia.
Qed.

Lemma frame_packet_built t payload : frame_packet (MagicBytes ++ t :: payload) = Some (t, payload).
Proof.
  unfold frame_packet.
  destruct (Z.ltb_spec (len (MagicBytes ++ t :: payload)) 5); [len_solve|].
  by rewrite (subslice_mid [] MagicBytes (t :: payload)).
Qed.

(** Every iteration that goes on consumes input. *)
Lemma read_frame_shrinks stream rest :
  read_frame stream = ZeroLength rest ∨ (∃ body, read_frame stream = Frame body rest) →
  (length rest < length stream)%nat.
Proof.
  unfold read_frame. destruct (Z.ltb_spec (len stream) 2) as [|H]; [intros [?|[??]]; congruence|].
  assert (length (drop 2 stream) < length stream)%nat.
  { rewrite length_drop. unfold len in H. lia. }
  destruct (_ =? 0); [intros [?|[??]]; congruence|]. destruct (_ <? _); [intros [?|[??]]; congruence|].
  intros [?|[body [= _ <-]]]; [done|]. rewrite length_drop. lia.
Qed.

(** ** Both loops

    The two read loops treat a frame the same way and never depend on the fuel
    once it exceeds the number of bytes in the stream. *)

Section loop.
Context (loop : nat → bytes → list (byte * bytes) * loop_exit).

Definition loop_on_frame : Prop := ∀ fuel stream body rest,
  read_frame stream = Frame body rest →
  loop (S fuel) stream =
    (option_list (frame_packet body) ++ (loop fuel rest).1, (loop fuel rest).2).

Definition loop_fuel_enough : Prop := ∀ f1 f2 stream,
  (length stream < f1)%nat → (length stream < f2)%nat → loop f1 stream = loop f2 stream.

Context (on_frame : loop_on_frame) (fuel_enough : loop_fuel_enough).

(** The wire form of a list of packets. *)
Definition wire (ps : list (byte * bytes)) : bytes :=
  concat ((λ p : byte * bytes, EncodeTCPFrame (MagicBytes ++ p.1 :: p.2)) <$> ps).

(** A packet fits a frame when its length is a [uint16]. *)
Definition fits (p : byte * bytes) : Prop := 5 + len p.2 < 65536.

Lemma wire_cons t payload ps :
  wire ((t, payload) :: ps) = EncodeTCPFrame (MagicBytes ++ t :: payload) ++ wire ps.
Proof. done. Qed.

Lemma loop_wire ps tail fuel :
  Forall fits ps → (length (wire ps ++ tail) < fuel)%nat →
  loop fuel (wire ps ++ tail) = (ps ++ (loop fuel tail).1, (loop fuel tail).2).
Proof using on_frame fuel_enough.
  intros Hfit. revert fuel. induction Hfit as [|[t payload] ps Hp Hfit IH]; intros fuel Hf.
  - cbn [wire fmap list_fmap concat app]. by destruct (loop fuel tail).
  - destruct fuel as [|fuel]; [lia|]. unfold fits in Hp; cbn [snd] in Hp.
    rewrite wire_cons, <- app_assoc in *.
    assert (read_frame (EncodeTCPFrame (MagicBytes ++ t :: payload) ++ wire ps ++ tail)
            = Frame (MagicBytes ++ t :: payload) (wire ps ++ tail)) as Hr
      by (apply read_frame_encoded; len_solve).
    pose proof (read_frame_shrinks _ _ (or_intror (ex_intro _ _ Hr))) as Hs.
    rewrite (on_frame _ _ _ _ Hr), frame_packet_built, IH by lia. cbn [fst snd].
    rewrite (fuel_enough fuel (S fuel) tail) by (rewrite !length_app in *; lia).
    done.
Qed.
End loop.

Lemma handleTCP_on_frame : loop_on_frame handleTCP.
Proof.
  intros fuel stream body rest Hr. cbn [handleTCP]. rewrite Hr.
  by destruct (handleTCP fuel rest), (frame_packet body).
Qed.

Lemma handleSession_on_frame : loop_on_frame handleSession.
Proof.
  intros fuel stream body rest Hr. cbn [handleSession]. rewrite Hr.
  by destruct (handleSession fuel rest), (frame_packet body).
Qed.

Lemma handleTCP_fuel_enough : loop_fuel_enough handleTCP.
Proof.
  intros f1. induction f1 as [|f1 IH]; intros [|f2] stream H1 H2; try lia.
  cbn [handleTCP]. destruct (read_frame stream) eqn:E; try done.
  pose proof (read_frame_shrinks _ _ (or_intror (ex_intro _ _ E))).
  by rewrite (IH f2) by lia.
Qed.

Lemma handleSession_fuel_enough : loop_fuel_enough handleSession.
Proof.
  intros f1. induction f1 as [|f1 IH]; intros [|f2] stream H1 H2; try lia.
  cbn [handleSession]. destruct (read_frame stream) eqn:E; try done.
  - pose proof (read_frame_shrinks _ _ (or_introl E)). apply IH; lia.
  - pose proof (read_frame_shrinks _ _ (or_intror (ex_intro _ _ E))).
    by rewrite (IH f2) by lia.
Qed.

(** ** Properties *)

(** C20: the packets a node writes to a TCP connection with [EncodeTCPFrame] are
    the packets, in order, that [handleTCP] dispatches on the other side, and
    the loop then goes on with whatever follows them on the stream.  Any fuel
    above the number of bytes in the stream gives this result. *)
Theorem tcp_stream_roundtrip (ps : list (byte * bytes)) (tail : bytes) (fuel : nat)
  (Hfit : Forall fits ps) (Hfuel : (length (wire ps ++ tail) < fuel)%nat) :
  handleTCP fuel (wire ps ++ tail) = (ps ++ (handleTCP fuel tail).1, (handleTCP fuel tail).2).
Proof.
  exact (loop_wire _ handleTCP_on_frame handleTCP_fuel_enough ps tail fuel Hfit Hfuel).
Qed.

Lemma tcp_stream_roundtrip_witness :
  handleTCP 40 (wire [(PacketTypeData, [x0a; x0b]); (PacketTypeHeartbeat, [])] ++ [x00; x00])
  = ([(PacketTypeData, [x0a; x0b]); (PacketTypeHeartbeat, [])], ExitZero).
Proof.
  rewrite tcp_stream_roundtrip; [reflexivity | |].
  - repeat constructor; unfold fits; simpl; lia.
  - vm_compute. lia.
Defined.

(** The frames [KCPTransport.Send] writes are read back in order by
    [handleSession], which also skips the empty frames between them. *)
Theorem kcp_stream_roundtrip (ps : list (byte * bytes)) (tail : bytes) (fuel : nat)
  (Hfit : Forall fits ps)
  (Hfuel : (2 + length (concat ((λ p : byte * bytes, kcp_send_frame (MagicBytes ++ p.1 :: p.2)) <$> ps)
             ++ tail) < fuel)%nat) :
  handleSession (S fuel) ([x00; x00] ++
    concat ((λ p : byte * bytes, kcp_send_frame (MagicBytes ++ p.1 :: p.2)) <$> ps) ++ tail)
  = (ps ++ (handleSession fuel tail).1, (handleSession fuel tail).2).
Proof.
  assert (concat ((λ p : byte * bytes, kcp_send_frame (MagicBytes ++ p.1 :: p.2)) <$> ps) = wire ps) as Hw.
  { unfold wire. f_equal. apply list_fmap_ext. intros. by rewrite kcp_send_frame_eq. }
  rewrite Hw in *. cbn [handleSession].
  replace (read_frame _) with (ZeroLength (wire ps ++ tail)).
  - by apply (loop_wire _ handleSession_on_frame handleSession_fuel_enough); [|lia].
  - unfold read_frame. zcase; [len_solve|]. cbn [app drop]. by rewrite drop_0.
Qed.

Lemma kcp_stream_roundtrip_witness :
  handleSession 31 ([x00; x00] ++
    concat ((λ p : byte * bytes, kcp_send_frame (MagicBytes ++ p.1 :: p.2)) <$> [(PacketTypeData, [x0a])])
    ++ [x00])
  = ([(PacketTypeData, [x0a])], ExitHeader).
Proof.
  rewrite kcp_stream_roundtrip; [reflexivity | |].
  - repeat constructor; unfold fits; simpl; lia.
  - vm_compute. lia.
Defined.
