(* ===== verification/Pool.v ===== *)
(** * Buffer pools ([internal/pool/pool.go])

    Buffers are shared: a pool hands out references, the readers of TCP connections and
    of the UDP socket write frames into them, and return them when they end.  A [*[]byte]
    is a reference into a store, so two users of one buffer would see each other's
    writes.  The theorem is that no interleaving of any number of readers and other users
    makes that happen: every reader dispatches what the stream loop of [Stream] says of
    its own bytes. *)

From S2P Require Import Prelude Protocol Stream.

Definition LargeBufferSize : Z := 65535.
Definition PacketBufferSize : Z := 1500.

(** ** The store and the pools *)

(** What a [*[]byte] points to: the backing array, whose length is the capacity, and the
    length of the slice. *)
Record gobuf := MkGoBuf { cells : bytes; blen : Z }.
#[global] Instance gobuf_eta : RecordEta gobuf := λ b, MkGoBuf (cells b) (blen b).

Definition buf_cap (b : gobuf) : Z := len (cells b).
(** [*buf]. *)
Definition buf_slice (b : gobuf) : bytes := take (Z.to_nat (blen b)) (cells b).

Inductive pool_kind := LargePool | PacketPool.

Definition pool_size (k : pool_kind) : Z :=
  match k with LargePool => LargeBufferSize | PacketPool => PacketBufferSize end.

Record store := MkStore {
  bufs : gmap nat gobuf;
  next_buf : nat;
  largeBufferPool : list nat;
  packetPool : list nat;
}.
#[global] Instance store_eta : RecordEta store := λ s,
  MkStore (bufs s) (next_buf s) (largeBufferPool s) (packetPool s).

Definition pool_of (k : pool_kind) (s : store) : list nat :=
  match k with LargePool => largeBufferPool s | PacketPool => packetPool s end.

Definition set_pool (k : pool_kind) (l : list nat) (s : store) : store :=
  match k with LargePool => s <| largeBufferPool := l |> | PacketPool => s <| packetPool := l |> end.

(** [New] of a pool: [buf := make([]byte, size); return &buf]. *)
Definition pool_new (k : pool_kind) (s : store) : nat * store :=
  (next_buf s, s <| bufs ::= <[next_buf s := MkGoBuf (make_bytes (pool_size k)) (pool_size k)]> |>
                 <| next_buf ::= S |>).

(** [sync.Pool.Get] takes some element ([pick] is its position), or ignores the pool and
    calls [New]. *)
Definition sync_Get (k : pool_kind) (pick : option nat) (s : store) : nat * store :=
  match pick with
  | None => pool_new k s
  | Some i =>
      match pool_of k s !! i with
      | Some r => (r, set_pool k (delete i (pool_of k s)) s)
      | None => pool_new k s
      end
  end.

Definition sync_Put (k : pool_kind) (r : nat) (s : store) : store := set_pool k (pool_of k s ++ [r]) s.

(** The buffer is sliced to its capacity again. *)
Definition full_length (r : nat) (s : store) : store :=
  s <| bufs ::= alter (λ b, b <| blen := buf_cap b |>) r |>.

Definition GetLargeBuffer (pick : option nat) (s : store) : nat * store := sync_Get LargePool pick s.
Definition GetPacketBuffer (pick : option nat) (s : store) : nat * store := sync_Get PacketPool pick s.

Definition PutLargeBuffer (buf : option nat) (s : store) : store :=
  match buf with None => s | Some r => sync_Put LargePool r (full_length r s) end.

Definition PutPacketBuffer (buf : option nat) (s : store) : store :=
  match buf with None => s | Some r => sync_Put PacketPool r (full_length r s) end.

(** ** The wrapper *)

Record Buffer := MkBuffer { b_data : option nat; b_pool : option pool_kind; b_len : Z }.

Definition NewBuffer (size : Z) (pick : option nat) (s : store) : Buffer * store :=
  let k := if size <=? PacketBufferSize then PacketPool else LargePool in
  let '(r, s') := sync_Get k pick s in
  (MkBuffer (Some r) (Some k) size, s').

(** [*b.data] of a reference that is in the store. *)
Definition deref (s : store) (r : nat) : res gobuf :=
  match bufs s !! r with Some b => Ok b | None => Panic end.

Definition Buffer_Bytes (b : Buffer) (s : store) : res bytes :=
  match b_data b with
  | None => Ok []
  | Some r =>
      d ← deref s r;
      if blen d <? b_len b then Ok (buf_slice d)
      else if b_len b <? 0 then Panic else Ok (take (Z.to_nat (b_len b)) (cells d))
  end.

Definition Buffer_SetLen (b : Buffer) (n : Z) (s : store) : res Buffer :=
  match b_data b with
  | None => Panic
  | Some r =>
      d ← deref s r;
      Ok (MkBuffer (b_data b) (b_pool b) (if buf_cap d <? n then buf_cap d else n))
  end.

Definition Buffer_Cap (b : Buffer) (s : store) : res Z :=
  match b_data b with
  | None => Ok 0
  | Some r => d ← deref s r; Ok (buf_cap d)
  end.

Definition Buffer_Release (b : Buffer) (s : store) : Buffer * store :=
  match b_data b, b_pool b with
  | Some r, Some k => (MkBuffer None None (b_len b), sync_Put k r (full_length r s))
  | _, _ => (b, s)
  end.

(** ** The users of the buffers

    Every turn of a reader is two steps, so that anything may happen to the store between
    the read into the buffer and the use of what was read. *)

(** [buf] after a frame was read: the first bytes of [*frameBuf], or a slice of its own. *)
Inductive frame_buf := Shared (n : Z) | Own (buf : bytes).

Inductive goroutine :=
| TcpReader (frameBuf : nat) (opened stream : bytes) (buf : option frame_buf) (dispatched : list (byte * bytes))
| TcpDone (opened : bytes) (dispatched : list (byte * bytes))
| UdpReader (bufPtr : nat) (arrived : list bytes) (count : option Z) (handled : list bytes)
| UdpDone (arrived handled : list bytes)
| Holder (b : Buffer).

(** [opened] and [arrived] are what the network delivers: they are not read by the code. *)

Record machine := MkMachine { m_store : store; m_gs : list goroutine }.

(** A write into the array of a buffer. *)
Definition write_buf (r : nat) (data : bytes) (s : store) : store :=
  s <| bufs ::= alter (λ b, b <| cells ::= λ c, copy_at c 0 data |>) r |>.

(** [handleTCP] after the header: the body is read into the buffer; a connection that ends
    leaves what came of the body there, and the buffer goes back. *)
Definition tcp_read (r : nat) (opened stream : bytes) (out : list (byte * bytes)) (s : store) : res (goroutine * store) :=
  d ← deref s r;
  match read_frame stream with
  | HeaderFailed | ZeroLength _ => Ok (TcpDone opened out, PutLargeBuffer (Some r) s)
  | BodyFailed =>
      let s' := if DecodeTCPFrameLength stream <=? blen d then write_buf r (drop 2 stream) s else s in
      Ok (TcpDone opened out, PutLargeBuffer (Some r) s')
  | Frame body rest =>
      if len body <=? blen d
      then Ok (TcpReader r opened rest (Some (Shared (len body))) out, write_buf r body s)
      else Ok (TcpReader r opened rest (Some (Own body)) out, s)
  end.

(** The rest of the turn: the payload is copied out of the buffer and dispatched. *)
Definition tcp_dispatch (r : nat) (opened stream : bytes) (buf : frame_buf) (out : list (byte * bytes)) (s : store)
  : res goroutine :=
  data ← (match buf with
          | Shared n => d ← deref s r; go_slice (cells d) 0 n
          | Own data => Ok data
          end);
  Ok (TcpReader r opened stream None (out ++ option_list (frame_packet data))).

(** [handleRead]: [ReadFrom] fills the buffer with a datagram, cut at its length. *)
Definition udp_read (r : nat) (arrived : list bytes) (out : list bytes) (datagram : bytes) (s : store)
  : res (goroutine * store) :=
  d ← deref s r;
  let data := take (Z.to_nat (blen d)) datagram in
  Ok (UdpReader r (arrived ++ [data]) (Some (len data)) out, write_buf r data s).

Definition udp_dispatch (r : nat) (arrived : list bytes) (count : Z) (out : list bytes) (s : store) : res goroutine :=
  d ← deref s r;
  data ← go_slice (cells d) 0 count;
  Ok (UdpReader r arrived None (out ++ [data])).

Inductive pool_event :=
| TcpOpen (stream : bytes) (pick : option nat)
| UdpOpen (pick : option nat)
| Alloc (size : Z) (pick : option nat)
| Turn (g : nat)                      (** the next step of a TCP reader, or the dispatch of a UDP reader *)
| Arrive (g : nat) (datagram : bytes)
| UdpClose (g : nat)
| Fill (g : nat) (data : bytes)       (** [copy(b.Bytes(), data)] *)
| SetLength (g : nat) (n : Z)
| Return (g : nat).

Definition spawn (x : goroutine) (s : store) (m : machine) : machine := MkMachine s (m_gs m ++ [x]).
Definition becomes (g : nat) (x : goroutine) (s : store) (m : machine) : machine := MkMachine s (<[g := x]> (m_gs m)).

(** An event that does not apply to the goroutine does nothing. *)
Definition pool_step (e : pool_event) (m : machine) : res machine :=
  let s := m_store m in
  match e with
  | TcpOpen stream pick => let '(r, s') := GetLargeBuffer pick s in Ok (spawn (TcpReader r stream stream None []) s' m)
  | UdpOpen pick => let '(r, s') := GetLargeBuffer pick s in Ok (spawn (UdpReader r [] None []) s' m)
  | Alloc size pick => let '(b, s') := NewBuffer size pick s in Ok (spawn (Holder b) s' m)
  | Turn g =>
      match m_gs m !! g with
      | Some (TcpReader r opened stream None out) => '(x, s') ← tcp_read r opened stream out s; Ok (becomes g x s' m)
      | Some (TcpReader r opened stream (Some buf) out) => x ← tcp_dispatch r opened stream buf out s; Ok (becomes g x s m)
      | Some (UdpReader r arrived (Some n) out) => x ← udp_dispatch r arrived n out s; Ok (becomes g x s m)
      | _ => Ok m
      end
  | Arrive g datagram =>
      match m_gs m !! g with
      | Some (UdpReader r arrived None out) => '(x, s') ← udp_read r arrived out datagram s; Ok (becomes g x s' m)
      | _ => Ok m
      end
  | UdpClose g =>
      match m_gs m !! g with
      | Some (UdpReader r arrived None out) => Ok (becomes g (UdpDone arrived out) (PutLargeBuffer (Some r) s) m)
      | _ => Ok m
      end
  | Fill g data =>
      match m_gs m !! g with
      | Some (Holder b) =>
          dst ← Buffer_Bytes b s;
          match b_data b with
          | None => Ok m
          | Some r => Ok (becomes g (Holder b) (write_buf r (take (length dst) data) s) m)
          end
      | _ => Ok m
      end
  | SetLength g n =>
      match m_gs m !! g with
      | Some (Holder b) => b' ← Buffer_SetLen b n s; Ok (becomes g (Holder b') s m)
      | _ => Ok m
      end
  | Return g =>
      match m_gs m !! g with
      | Some (Holder b) => let '(b', s') := Buffer_Release b s in Ok (becomes g (Holder b') s' m)
      | _ => Ok m
      end
  end.

Definition machine_start : machine := MkMachine (MkStore ∅ 0 [] []) [].

(** What the wrapper requires: no negative lengths, and no [SetLen] after [Release]. *)
Definition polite (m : machine) (e : pool_event) : Prop :=
  match e with
  | Alloc size _ => 0 ≤ size
  | SetLength g n => 0 ≤ n ∧ match m_gs m !! g with Some (Holder b) => is_Some (b_data b) | _ => True end
  | _ => True
  end.

(** ** The invariant *)

(** The buffers a goroutine uses, with the pool they belong to. *)
Definition held (x : goroutine) : list (pool_kind * nat) :=
  match x with
  | TcpReader r _ _ _ _ | UdpReader r _ _ _ => [(LargePool, r)]
  | Holder (MkBuffer (Some r) (Some k) _) => [(k, r)]
  | _ => []
  end.

Definition free (s : store) : list (pool_kind * nat) :=
  ((LargePool,.) <$> largeBufferPool s) ++ ((PacketPool,.) <$> packetPool s).

Definition places (m : machine) : list (pool_kind * nat) := free (m_store m) ++ (m_gs m ≫= held).

Definition sized (k : pool_kind) (b : gobuf) : Prop := buf_cap b = pool_size k ∧ blen b = pool_size k.

(** What [handleTCP] dispatches of a stream. *)
Definition tcp_packets (stream : bytes) : list (byte * bytes) := (handleTCP (S (length stream)) stream).1.

Definition frame_in (bs : gmap nat gobuf) (r : nat) (buf : option frame_buf) (body : bytes) : Prop :=
  match buf with
  | None => body = []
  | Some (Own data) => body = data
  | Some (Shared n) => n = len body ∧ ∃ b rest, bs !! r = Some b ∧ cells b = body ++ rest
  end.

Definition good (bs : gmap nat gobuf) (x : goroutine) : Prop :=
  match x with
  | TcpReader r opened stream buf out =>
      ∃ body, frame_in bs r buf body ∧ tcp_packets opened = out ++ option_list (frame_packet body) ++ tcp_packets stream
  | TcpDone opened out => out = tcp_packets opened
  | UdpReader r arrived None out => out = arrived
  | UdpReader r arrived (Some n) out =>
      ∃ data, arrived = out ++ [data] ∧ frame_in bs r (Some (Shared n)) data
  | UdpDone arrived out => out = arrived
  | Holder b => (b_data b = None ↔ b_pool b = None) ∧ 0 ≤ b_len b
  end.

Record machine_wf (m : machine) : Prop := {
  wf_owned : NoDup (places m).*2;
  wf_sized : ∀ k r, (k, r) ∈ places m → ∃ b, bufs (m_store m) !! r = Some b ∧ sized k b;
  wf_next : ∀ r, is_Some (bufs (m_store m) !! r) → (r < next_buf (m_store m))%nat;
  wf_good : ∀ g x, m_gs m !! g = Some x → good (bufs (m_store m)) x;
}.

Lemma good_ext bs bs' x :
  (∀ k r, (k, r) ∈ held x → bs' !! r = bs !! r) → good bs x → good bs' x.
Proof.
  destruct x as [r o s [[n|d]|] out|o out|r a [n|] out|a out|b]; cbn; try done; intros Hsame.
  - intros (body & [Hn (d & rest & Hd & Hc)] & Ho). exists body. split; [|done]. split; [done|].
    exists d, rest. by rewrite (Hsame LargePool r) by (by left).
  - intros (data & Ha & Hn & d & rest & Hd & Hc). exists data. split; [done|]. split; [done|].
    exists d, rest. by rewrite (Hsame LargePool r) by (by left).
Qed.

(** *** A goroutine changes *)

Lemma gs_split gs g x x' :
  gs !! g = Some x →
  (gs : list goroutine) ≫= held ≡ₚ held x ++ (delete g gs ≫= held) ∧ (<[g := x']> gs) ≫= held ≡ₚ held x' ++ (delete g gs ≫= held).
Proof.
  intros Hg. rewrite (delete_take_drop gs g), bind_app.
  assert (∀ y, (take g gs ++ y :: drop (S g) gs) ≫= held ≡ₚ held y ++ (take g gs ≫= held) ++ (drop (S g) gs ≫= held)) as H.
  { intros y. rewrite bind_app, bind_cons. solve_Permutation. }
  split; [rewrite <- (take_drop_middle gs g x Hg) at 1|rewrite insert_take_drop by by eapply lookup_lt_Some]; apply H.
Qed.

(** The buffers the goroutine gives up or keeps are the only ones that change. *)
Lemma wf_becomes m g x x' s' :
  machine_wf m → m_gs m !! g = Some x →
  free s' ++ held x' ≡ₚ free (m_store m) ++ held x →
  (∀ r, r ∉ (held x).*2 → bufs s' !! r = bufs (m_store m) !! r) →
  (∀ k r, (k, r) ∈ held x → ∃ b, bufs s' !! r = Some b ∧ sized k b) →
  next_buf s' = next_buf (m_store m) → good (bufs s') x' →
  machine_wf (becomes g x' s' m).
Proof.
  intros [Hown Hsz Hnx Hgd] Hg Hperm Hframe Hheld Hnext Hgood.
  destruct (gs_split (m_gs m) g x x' Hg) as [Hold Hnew].
  assert (places (becomes g x' s' m) ≡ₚ places m) as Hpl.
  { unfold places, becomes; cbn [m_store m_gs]. rewrite Hold, Hnew, !app_assoc. by rewrite Hperm. }
  assert (places m ≡ₚ held x ++ free (m_store m) ++ (delete g (m_gs m) ≫= held)) as Hsep.
  { unfold places. rewrite Hold. solve_Permutation. }
  assert (∀ k r, (k, r) ∈ places m → (k, r) ∈ held x ∨ r ∉ (held x).*2) as Hin.
  { intros k r Hr. rewrite Hsep in Hown. rewrite Hsep, elem_of_app in Hr. destruct Hr as [|Hr]; [by left|right].
    rewrite fmap_app in Hown. apply NoDup_app in Hown as (_ & Hd & _). intros Hx. apply (Hd r Hx).
    apply list_elem_of_fmap. by exists (k, r). }
  split.
  - by rewrite Hpl.
  - intros k r Hr. rewrite Hpl in Hr. cbn [m_store becomes]. destruct (Hin k r Hr) as [|Hn]; [by apply Hheld|].
    rewrite (Hframe r Hn). by apply Hsz.
  - intros r Hr. cbn [m_store becomes] in *. rewrite Hnext. apply Hnx.
    destruct (decide (r ∈ (held x).*2)) as [Hx|Hx]; [|by rewrite <- Hframe].
    apply list_elem_of_fmap in Hx as ([k r'] & -> & Hx). destruct (Hsz k r') as (b & Hb & _); [|by eexists].
    rewrite Hsep, elem_of_app. by left.
  - intros h y. cbn [m_gs m_store becomes]. destruct (decide (h = g)) as [->|Hne].
    + rewrite list_lookup_insert_eq by by eapply lookup_lt_Some. by intros [= <-].
    + rewrite list_lookup_insert_ne by done. intros Hy. apply (good_ext (bufs (m_store m))); [|by eapply Hgd].
      intros k r Hr. apply Hframe.
      assert ((k, r) ∈ (delete g (m_gs m) ≫= held)) as Hd.
      { apply list_elem_of_bind. exists y. split; [done|]. apply list_elem_of_lookup.
        destruct (decide (h < g)%nat) as [Hl|Hl].
        - exists h. by rewrite list_lookup_delete_lt.
        - exists (pred h). rewrite list_lookup_delete_ge by lia. by replace (S (pred h)) with h by lia. }
      rewrite Hsep, fmap_app in Hown. apply NoDup_app in Hown as (_ & Hdis & _). intros Hx. apply (Hdis r Hx).
      apply list_elem_of_fmap. exists (k, r). split; [done|]. apply elem_of_app. by right.
Qed.

(** *** A buffer is taken *)

Definition other (k : pool_kind) : pool_kind :=
  match k with LargePool => PacketPool | PacketPool => LargePool end.

Lemma free_pool k s : free s ≡ₚ ((k,.) <$> pool_of k s) ++ ((other k,.) <$> pool_of (other k) s).
Proof. destruct k; unfold free; cbn; [done|]. by rewrite Permutation_app_comm. Qed.

Lemma free_set_pool k l s : free (set_pool k l s) ≡ₚ ((k,.) <$> l) ++ ((other k,.) <$> pool_of (other k) s).
Proof. rewrite (free_pool k). by destruct k. Qed.

(** [Get] gives a buffer of the pool, or one that was not in the store. *)
Lemma sync_Get_spec k pick s r s' :
  sync_Get k pick s = (r, s') →
  (free s ≡ₚ (k, r) :: free s' ∧ bufs s' = bufs s ∧ next_buf s' = next_buf s)
  ∨ (free s' = free s ∧ r = next_buf s ∧ next_buf s' = S (next_buf s)
     ∧ bufs s' = <[r := MkGoBuf (make_bytes (pool_size k)) (pool_size k)]> (bufs s)).
Proof.
  unfold sync_Get. intros H.
  assert (pool_new k s = (r, s') → free s' = free s ∧ r = next_buf s ∧ next_buf s' = S (next_buf s)
     ∧ bufs s' = <[r := MkGoBuf (make_bytes (pool_size k)) (pool_size k)]> (bufs s)) as Hnew by by intros [= <- <-].
  destruct pick as [i|]; [|by right; apply Hnew]. destruct (pool_of k s !! i) as [r'|] eqn:Hi; [|by right; apply Hnew].
  left. injection H as <- <-. split; [|by destruct k].
  pose proof (fmap_Permutation (k,.) _ _ (delete_Permutation (pool_of k s) i r' Hi)) as Hp.
  by rewrite free_set_pool, (free_pool k s), Hp.
Qed.

Lemma wf_spawn m k pick r s' x :
  machine_wf m → sync_Get k pick (m_store m) = (r, s') → held x = [(k, r)] → good (bufs s') x →
  machine_wf (spawn x s' m).
Proof.
  intros [Hown Hsz Hnx Hgd] Hget Hx Hgood.
  assert (places (spawn x s' m) ≡ₚ (k, r) :: free s' ++ (m_gs m ≫= held)) as Hpl.
  { unfold places, spawn; cbn [m_store m_gs]. rewrite bind_app, bind_cons, Hx. solve_Permutation. }
  destruct (sync_Get_spec _ _ _ _ _ Hget) as [(Hf & Hb & Hn)|(Hf & -> & Hn & Hb)].
  - assert (places (spawn x s' m) ≡ₚ places m) as Hpl'.
    { rewrite Hpl. unfold places. by rewrite Hf. }
    split; [by rewrite Hpl'| | |]; cbn [m_store spawn]; rewrite ?Hb, ?Hn; [|done|].
    + intros k' r' Hr. rewrite Hpl' in Hr. by apply Hsz.
    + intros g y [[_ Hy]|[_ Hy]]%lookup_snoc_Some; [by eapply Hgd|]. subst y. by rewrite <- Hb.
  - assert (∀ k' r', (k', r') ∈ places m → r' ≠ next_buf (m_store m)) as Hfresh.
    { intros k' r' Hr ->. destruct (Hsz _ _ Hr) as (b & Hb' & _). specialize (Hnx _ (ex_intro _ _ Hb')). lia. }
    rewrite Hf in Hpl. fold (places m) in Hpl.
    split; cbn [m_store spawn].
    + rewrite Hpl. cbn [fmap list_fmap]. constructor; [|done]. intros ([k' r'] & E & Hr)%list_elem_of_fmap.
      by destruct (Hfresh k' r' Hr).
    + intros k' r' Hr. rewrite Hpl, elem_of_cons in Hr. rewrite Hb. destruct Hr as [[= -> ->]|Hr].
      * rewrite lookup_insert_eq. eexists. split; [done|]. split; [|done]. unfold buf_cap; cbn. by destruct k.
      * rewrite lookup_insert_ne by (intros E; by destruct (Hfresh k' r' Hr)). by apply Hsz.
    + intros r' Hr. rewrite Hb in Hr. rewrite Hn. destruct (decide (r' = next_buf (m_store m))) as [->|Hne]; [lia|].
      rewrite lookup_insert_ne in Hr by done. specialize (Hnx _ Hr). lia.
    + intros g y [[_ Hy]|[_ Hy]]%lookup_snoc_Some; [|by subst y]. apply (good_ext (bufs (m_store m))); [|by eapply Hgd].
      intros k' r' Hr. rewrite Hb, lookup_insert_ne; [done|]. intros E. apply (Hfresh k' r'); [|done].
      unfold places. apply elem_of_app. right. apply list_elem_of_bind. exists y. split; [done|].
      by eapply list_elem_of_lookup_2.
Qed.

(** *** Writing and returning *)

Lemma free_Put k r s : free (sync_Put k r s) ≡ₚ (k, r) :: free s.
Proof.
  unfold sync_Put. rewrite free_set_pool, (free_pool k s), fmap_app. cbn [fmap list_fmap].
  rewrite <- app_assoc. symmetry. apply Permutation_middle.
Qed.

Lemma full_length_sized k b r s : bufs s !! r = Some b → sized k b → full_length r s = s.
Proof.
  intros Hb [Hc Hl]. unfold full_length. destruct s as [bs nx lg pk]; cbn in *.
  unfold set_field; cbn. f_equal. apply map_eq. intros i. destruct (decide (i = r)) as [->|Hne]; [|by rewrite lookup_alter_ne].
  rewrite lookup_alter_eq, Hb. cbn. f_equal. rewrite Hc, <- Hl. by destruct b.
Qed.

Lemma bufs_Put k r s : bufs (sync_Put k r s) = bufs s ∧ next_buf (sync_Put k r s) = next_buf s.
Proof. by destruct k. Qed.

Lemma write_buf_other r r' data s : r' ≠ r → bufs (write_buf r data s) !! r' = bufs s !! r'.
Proof. intros. cbn. by rewrite lookup_alter_ne. Qed.

Lemma write_buf_same k r data s b :
  bufs s !! r = Some b → sized k b → len data ≤ pool_size k →
  ∃ b' rest, bufs (write_buf r data s) !! r = Some b' ∧ sized k b' ∧ cells b' = data ++ rest.
Proof.
  intros Hb [Hc Hl] Hd. cbn. rewrite lookup_alter_eq, Hb. cbn.
  assert (copy_at (cells b) 0 data = data ++ drop (Z.to_nat (len data)) (cells b)) as E.
  { apply (copy_at_app [] (cells b) 0 data); [done|]. unfold buf_cap in Hc. lia. }
  eexists _, _. split; [done|]. cbn. split; [|by rewrite E]. split; [|done]. unfold buf_cap in *; cbn.
  pose proof (len_nonneg data). rewrite E, len_app, len_drop by lia. lia.
Qed.

(** The wrapper and the readers return a buffer they own. *)
Lemma wf_return m g x x' k r s' :
  machine_wf m → m_gs m !! g = Some x → held x = [(k, r)] → held x' = [] → good (bufs s') x' →
  free s' = free (m_store m) → (∀ r', r' ≠ r → bufs s' !! r' = bufs (m_store m) !! r') →
  (∃ b, bufs s' !! r = Some b ∧ sized k b) → next_buf s' = next_buf (m_store m) →
  machine_wf (becomes g x' (sync_Put k r (full_length r s')) m).
Proof.
  intros Hwf Hg Hx Hx' Hgood Hfree Hother (b & Hb & Hs) Hn. rewrite (full_length_sized k b) by done.
  destruct (bufs_Put k r s') as [Eb En].
  eapply wf_becomes; [done|done|..]; rewrite ?Eb, ?En, ?Hx, ?Hx'; [|..|done|done].
  - by rewrite free_Put, Hfree, app_nil_r, Permutation_app_comm.
  - intros r' Hr. apply Hother. intros ->. apply Hr. by left.
  - intros k' r' [= -> ->]%list_elem_of_singleton. by exists b.
Qed.

(** A goroutine keeps its buffer, possibly after writing to it. *)
Lemma wf_keep m g x x' k r s' :
  machine_wf m → m_gs m !! g = Some x → held x = [(k, r)] → held x' = [(k, r)] → good (bufs s') x' →
  free s' = free (m_store m) → (∀ r', r' ≠ r → bufs s' !! r' = bufs (m_store m) !! r') →
  (∃ b, bufs s' !! r = Some b ∧ sized k b) → next_buf s' = next_buf (m_store m) →
  machine_wf (becomes g x' s' m).
Proof.
  intros Hwf Hg Hx Hx' Hgood Hfree Hother Hb Hn. eapply wf_becomes; [done|done|..]; rewrite ?Hx, ?Hx'; [|..|done|done].
  - by rewrite Hfree.
  - intros r' Hr. apply Hother. intros ->. apply Hr. by left.
  - by intros k' r' [= -> ->]%list_elem_of_singleton.
Qed.

Lemma held_sized m g x k r :
  machine_wf m → m_gs m !! g = Some x → (k, r) ∈ held x → ∃ b, bufs (m_store m) !! r = Some b ∧ sized k b.
Proof.
  intros Hwf Hg Hx. apply (wf_sized _ Hwf). unfold places. apply elem_of_app. right.
  apply list_elem_of_bind. exists x. split; [done|]. by eapply list_elem_of_lookup_2.
Qed.

(** *** The packets of a stream *)

Lemma tcp_packets_frame stream body rest :
  read_frame stream = Frame body rest → tcp_packets stream = option_list (frame_packet body) ++ tcp_packets rest.
Proof.
  intros Hr. pose proof (read_frame_shrinks _ _ (or_intror (ex_intro _ _ Hr))).
  unfold tcp_packets. rewrite (handleTCP_on_frame _ _ _ _ Hr). cbn [fst]. do 2 f_equal.
  apply handleTCP_fuel_enough; lia.
Qed.

Lemma tcp_packets_end stream :
  (∀ body rest, read_frame stream ≠ Frame body rest) → tcp_packets stream = [].
Proof.
  intros Hr. unfold tcp_packets. cbn [handleTCP]. destruct (read_frame stream); try done. by destruct (Hr body rest).
Qed.

Lemma frame_len stream body rest : read_frame stream = Frame body rest → len body ≤ 65535.
Proof.
  unfold read_frame. destruct (Z.ltb_spec (len stream) 2) as [|H2]; [done|]. case_match; [done|]. case_match; [done|].
  intros [= <- <-]. destruct stream as [|h0 [|h1 rest']]; [unfold len in H2; cbn in H2; lia..|].
  rewrite DecodeTCPFrameLength_eq. pose proof (be_value_range [h0; h1]). unfold len in H2. cbn in H2.
  rewrite len_take by lia. change (2 ^ (8 * len [h0; h1])) with 65536 in *. lia.
Qed.

(** *** Every step *)

Lemma tcp_read_ok m g r opened stream out :
  machine_wf m → m_gs m !! g = Some (TcpReader r opened stream None out) →
  ∃ x s', tcp_read r opened stream out (m_store m) = Ok (x, s') ∧ machine_wf (becomes g x s' m).
Proof.
  intros Hwf Hg. destruct (held_sized m g _ LargePool r Hwf Hg) as (b & Hb & Hs); [by left|].
  destruct (wf_good _ Hwf _ _ Hg) as (body0 & Hbody0 & Ho). cbn in Hbody0. subst body0. cbn in Ho.
  unfold tcp_read, deref. rewrite Hb. cbn [mbind res_bind].
  pose proof Hs as [Hc Hl]. change (pool_size LargePool) with 65535 in *.
  destruct (read_frame stream) as [|rest| |body rest] eqn:Hr; cycle 3.
  { pose proof (frame_len _ _ _ Hr). rewrite (proj2 (Z.leb_le _ _)) by lia. eexists _, _. split; [done|].
    destruct (write_buf_same LargePool r body (m_store m) b Hb Hs) as (b' & tl & Hb' & Hs' & Hc'); [done|].
    eapply (wf_keep _ _ _ _ LargePool r); try done; [|by intros; apply write_buf_other|by exists b'].
    exists body. rewrite Ho, (tcp_packets_frame _ _ _ Hr). split; [|done]. split; [done|]. by exists b', tl. }
  all: eexists _, _; (split; [reflexivity|]).
  all: eapply (wf_return _ _ _ _ LargePool r); [done|done|done|done|..]; try done.
  all: try (cbn; rewrite Ho, (tcp_packets_end stream) by (intros ??; by rewrite Hr); by rewrite app_nil_r).
  all: try (by exists b).
  all: case_match; try done; try (by exists b).
  - intros r' Hne. by apply write_buf_other.
  - cbn. rewrite lookup_alter_eq, Hb. eexists. split; [done|]. cbn. split; [|done].
    unfold buf_cap in *. cbn. transitivity (len (cells b)); [|exact Hc].
    unfold copy_at. cbn [take app]. rewrite Z.sub_0_r, Z.add_0_l, !len_app.
    unfold len. rewrite !length_take, !length_drop. lia.
Qed.

Lemma tcp_dispatch_ok m g r opened stream buf out :
  machine_wf m → m_gs m !! g = Some (TcpReader r opened stream (Some buf) out) →
  ∃ x, tcp_dispatch r opened stream buf out (m_store m) = Ok x ∧ machine_wf (becomes g x (m_store m) m).
Proof.
  intros Hwf Hg. destruct (held_sized m g _ LargePool r Hwf Hg) as (b & Hb & Hs); [by left|].
  destruct (wf_good _ Hwf _ _ Hg) as (body & Hbody & Ho). unfold tcp_dispatch, deref. rewrite Hb. cbn [mbind res_bind].
  assert (match buf with Shared n => go_slice (cells b) 0 n | Own data => Ok data end = Ok body) as E.
  { destruct buf as [n|data]; cbn in Hbody; [|by subst]. destruct Hbody as (-> & b' & tl & Hb' & Hc').
    rewrite Hb in Hb'. injection Hb' as <-. rewrite Hc'. by apply go_slice_prefix. }
  rewrite E. eexists. split; [done|]. eapply (wf_keep _ _ _ _ LargePool r); try done; [|by exists b].
  exists []. split; [done|]. by rewrite Ho, <- app_assoc.
Qed.

Lemma udp_read_ok m g r arrived out datagram :
  machine_wf m → m_gs m !! g = Some (UdpReader r arrived None out) →
  ∃ x s', udp_read r arrived out datagram (m_store m) = Ok (x, s') ∧ machine_wf (becomes g x s' m).
Proof.
  intros Hwf Hg. destruct (held_sized m g _ LargePool r Hwf Hg) as (b & Hb & Hs); [by left|].
  pose proof (wf_good _ Hwf _ _ Hg) as Ho. cbn in Ho. subst out. unfold udp_read, deref. rewrite Hb. cbn [mbind res_bind].
  eexists _, _. split; [reflexivity|]. set (data := take _ datagram).
  assert (len data ≤ pool_size LargePool) as Hd.
  { unfold data. destruct Hs as [_ ->]. rewrite len_take; [lia|]. cbn. unfold LargeBufferSize. lia. }
  destruct (write_buf_same LargePool r data (m_store m) b Hb Hs Hd) as (b' & tl & Hb' & Hs' & Hc').
  eapply (wf_keep _ _ _ _ LargePool r); try done; [|by intros; apply write_buf_other|by exists b'].
  exists data. split; [done|]. split; [done|]. by exists b', tl.
Qed.

Lemma udp_dispatch_ok m g r arrived n out :
  machine_wf m → m_gs m !! g = Some (UdpReader r arrived (Some n) out) →
  ∃ x, udp_dispatch r arrived n out (m_store m) = Ok x ∧ machine_wf (becomes g x (m_store m) m).
Proof.
  intros Hwf Hg. destruct (held_sized m g _ LargePool r Hwf Hg) as (b & Hb & Hs); [by left|].
  destruct (wf_good _ Hwf _ _ Hg) as (data & -> & -> & b' & tl & Hb' & Hc'). unfold udp_dispatch, deref.
  rewrite Hb. rewrite Hb in Hb'. injection Hb' as <-. cbn [mbind res_bind]. rewrite Hc', go_slice_prefix by done.
  eexists. split; [reflexivity|]. eapply (wf_keep _ _ _ _ LargePool r); try done. by exists b.
Qed.

Lemma holder_held b g m :
  machine_wf m → m_gs m !! g = Some (Holder b) →
  match b_data b with
  | Some r => ∃ k d, b_pool b = Some k ∧ held (Holder b) = [(k, r)] ∧ bufs (m_store m) !! r = Some d ∧ sized k d
  | None => held (Holder b) = [] ∧ b_pool b = None
  end ∧ 0 ≤ b_len b.
Proof.
  intros Hwf Hg. destruct (wf_good _ Hwf _ _ Hg) as [Hiff Hl]. split; [|done].
  pose proof (λ k r, held_sized m g _ k r Hwf Hg) as Hsz. destruct b as [[r|] [k|] l]; cbn in *.
  - destruct (Hsz k r) as (d & Hd & Hs); [by left|]. by exists k, d.
  - destruct Hiff as [_ Hiff]. by specialize (Hiff eq_refl).
  - destruct Hiff as [Hiff _]. by specialize (Hiff eq_refl).
  - done.
Qed.

Lemma becomes_same m g x : m_gs m !! g = Some x → becomes g x (m_store m) m = m.
Proof. intros. unfold becomes. rewrite list_insert_id by done. by destruct m. Qed.

Lemma buffer_bytes_ok b r k d s :
  b_data b = Some r → bufs s !! r = Some d → sized k d → 0 ≤ b_len b →
  Buffer_Bytes b s = Ok (take (Z.to_nat (Z.min (b_len b) (pool_size k))) (cells d)).
Proof.
  intros Hr Hd [Hc Hl] H0. unfold Buffer_Bytes, deref, buf_slice. rewrite Hr, Hd. cbn [mbind res_bind]. rewrite Hl.
  destruct (Z.ltb_spec (pool_size k) (b_len b)); [by rewrite Z.min_r by lia|].
  rewrite (proj2 (Z.ltb_ge _ _)) by lia. by rewrite Z.min_l by lia.
Qed.

Lemma pool_step_ok m e : machine_wf m → polite m e → ∃ m', pool_step e m = Ok m' ∧ machine_wf m'.
Proof.
  intros Hwf Hp. assert (∃ m', Ok m = Ok m' ∧ machine_wf m') as Hid by eauto.
  destruct e as [stream pick|pick|size pick|g|g datagram|g|g data|g n|g]; cbn [pool_step].
  - unfold GetLargeBuffer. destruct (sync_Get _ _ _) as [r s'] eqn:E. eexists. split; [done|].
    eapply wf_spawn; [done|done|done|]. by exists [].
  - unfold GetLargeBuffer. destruct (sync_Get _ _ _) as [r s'] eqn:E. eexists. split; [done|]. by eapply wf_spawn.
  - unfold NewBuffer. destruct (sync_Get _ _ _) as [r s'] eqn:E. eexists. split; [done|]. by eapply wf_spawn.
  - destruct (m_gs m !! g) as [[r o s [buf|] out| |r a [n|] out| |]|] eqn:Hg; try done.
    + destruct (tcp_dispatch_ok _ _ _ _ _ _ _ Hwf Hg) as (x & -> & Hwf'). eexists. by split.
    + destruct (tcp_read_ok _ _ _ _ _ _ Hwf Hg) as (x & s' & -> & Hwf'). eexists. by split.
    + destruct (udp_dispatch_ok _ _ _ _ _ _ Hwf Hg) as (x & -> & Hwf'). eexists. by split.
  - destruct (m_gs m !! g) as [[| |r a [n|] out| |]|] eqn:Hg; try done.
    destruct (udp_read_ok _ _ _ _ _ datagram Hwf Hg) as (x & s' & -> & Hwf'). eexists. by split.
  - destruct (m_gs m !! g) as [[| |r a [n|] out| |]|] eqn:Hg; try done. eexists. split; [done|].
    eapply (wf_return _ _ _ _ LargePool r); try done; [by apply (wf_good _ Hwf _ _ Hg)|].
    eapply held_sized; [done|done|by left].
  - destruct (m_gs m !! g) as [[| | | |b]|] eqn:Hg; try done.
    destruct (holder_held b g m Hwf Hg) as [Hb Hl]. destruct (b_data b) as [r|] eqn:Er.
    + destruct Hb as (k & d & Hk & Hh & Hd & Hs). rewrite (buffer_bytes_ok b r k d) by done. cbn [mbind res_bind].
      eexists. split; [done|]. set (w := take _ data).
      destruct (write_buf_same k r w (m_store m) d Hd Hs) as (b' & tl & Hb' & Hs' & _).
      { unfold w, len. rewrite length_take, length_take. destruct Hs as [Hc _]. unfold buf_cap, len in Hc. lia. }
      eapply (wf_keep _ _ _ _ k r); try done; [by apply (wf_good _ Hwf _ _ Hg)|by intros; apply write_buf_other|by exists b'].
    + unfold Buffer_Bytes. rewrite Er. eauto.
  - destruct Hp as [Hn Hp]. destruct (m_gs m !! g) as [[| | | |b]|] eqn:Hg; try done.
    destruct (holder_held b g m Hwf Hg) as [Hb Hl]. destruct Hp as [r Er]. unfold Buffer_SetLen, deref. rewrite Er in *.
    destruct Hb as (k & d & Hk & Hh & Hd & Hs). rewrite Hd. cbn [mbind res_bind]. eexists. split; [done|].
    eapply (wf_keep _ _ _ _ k r); try done; [by rewrite Hk|..|by exists d].
    cbn. rewrite Hk. split; [by split|]. pose proof (len_nonneg (cells d)). unfold buf_cap. case_match; lia.
  - destruct (m_gs m !! g) as [[| | | |b]|] eqn:Hg; try done.
    destruct (holder_held b g m Hwf Hg) as [Hb Hl]. unfold Buffer_Release. destruct (b_data b) as [r|] eqn:Er.
    + destruct Hb as (k & d & -> & Hh & Hd & Hs). eexists. split; [done|].
      eapply (wf_return _ _ _ _ k r); try done; by exists d.
    + eexists. split; [done|]. by rewrite becomes_same.
Qed.

Definition pool_trace (m m' : machine) : Prop := ∃ e, polite m e ∧ pool_step e m = Ok m'.

Lemma machine_start_wf : machine_wf machine_start.
Proof. split; cbn; [apply NoDup_nil_2|intros k r H; by apply not_elem_of_nil in H|by intros r [? ?]|done]. Qed.

Lemma pool_trace_wf m : rtc pool_trace machine_start m → machine_wf m.
Proof.
  intros H. pose proof machine_start_wf as Hwf. induction H as [|m1 m2 m3 (e & Hp & He) _ IH]; [done|].
  destruct (pool_step_ok m1 e Hwf Hp) as (m' & He' & Hwf'). apply IH. congruence.
Qed.

(** C14: pooled buffers are never shared.  However readers of connections, the readers of the socket and users of the wrapper are
    interleaved, and whatever the runtime takes from the pools or drops: no step panics, no buffer belongs to two users at a
    time or to a user and a pool, and each TCP reader that has ended dispatched exactly the packets the stream loop finds in its own
    stream (each UDP reader the datagrams it received), as though it had a private buffer. *)
Theorem pooled_readers m :
  rtc pool_trace machine_start m →
  (∀ e, polite m e → ∃ m', pool_step e m = Ok m')
  ∧ NoDup (places m).*2
  ∧ (∀ g opened out, m_gs m !! g = Some (TcpDone opened out) → out = (handleTCP (S (length opened)) opened).1)
  ∧ (∀ g arrived out, m_gs m !! g = Some (UdpDone arrived out) → out = arrived).
Proof.
  intros Hr. pose proof (pool_trace_wf m Hr) as Hwf. split; [|split; [apply wf_owned, Hwf|split]].
  - intros e Hp. destruct (pool_step_ok m e Hwf Hp) as (m' & He & _). by exists m'.
  - intros g opened out Hg. apply (wf_good _ Hwf _ _ Hg).
  - intros g arrived out Hg. apply (wf_good _ Hwf _ _ Hg).
Qed.

(** ** The wrapper's contract *)

(** A pool whose buffers have its size, as [machine_wf] has it. *)
Definition pools_ok (s : store) : Prop :=
  (∀ k r, r ∈ pool_of k s → ∃ b, bufs s !! r = Some b ∧ sized k b)
  ∧ (∀ r, is_Some (bufs s !! r) → (r < next_buf s)%nat).

Lemma get_sized k pick s r s' :
  pools_ok s → sync_Get k pick s = (r, s') → pools_ok s' ∧ ∃ d, bufs s' !! r = Some d ∧ sized k d.
Proof.
  intros [Hs Hn]. assert (pool_new k s = (r, s') → pools_ok s' ∧ ∃ d, bufs s' !! r = Some d ∧ sized k d) as Hnew.
  { intros [= <- <-]. split; [|eexists; cbn; rewrite lookup_insert_eq; split; [done|split; by destruct k]]. split.
    - intros k' r' Hr. destruct (Hs k' r') as (b & Hb & Hsz); [by destruct k'|]. exists b. split; [|done]. cbn.
      rewrite lookup_insert_ne; [done|]. intros <-. specialize (Hn _ (ex_intro _ _ Hb)). lia.
    - intros r'. cbn. destruct (decide (r' = next_buf s)) as [->|Hne]; [lia|].
      rewrite lookup_insert_ne by done. intros H%Hn. lia. }
  unfold sync_Get. destruct pick as [i|]; [|done]. destruct (pool_of k s !! i) as [r0|] eqn:Hi; [|done].
  intros [= <- <-]. assert (∀ k' r', r' ∈ pool_of k' (set_pool k (delete i (pool_of k s)) s) → r' ∈ pool_of k' s) as Hsub.
  { intros k' r'. destruct k, k'; cbn; try done; intros (j & Hj)%list_elem_of_lookup; apply list_elem_of_lookup.
    all: destruct (decide (j < i)%nat); [exists j; by rewrite list_lookup_delete_lt in Hj|].
    all: exists (S j); by rewrite list_lookup_delete_ge in Hj by lia. }
  assert (bufs (set_pool k (delete i (pool_of k s)) s) = bufs s) as -> by by destruct k.
  split; [|by apply (Hs k r0); eapply list_elem_of_lookup_2]. split; [|by destruct k].
  intros k' r' Hr. destruct (Hs k' r' (Hsub _ _ Hr)) as (b & ?). exists b. by destruct k.
Qed.

Lemma put_sized k r d s :
  pools_ok s → bufs s !! r = Some d → sized k d → pools_ok (sync_Put k r s) ∧ pool_of k (sync_Put k r s) = pool_of k s ++ [r].
Proof.
  intros [Hs Hn] Hd Hsz. split; [|by destruct k]. destruct (bufs_Put k r s) as [Eb En].
  split; [|by rewrite Eb, En]. rewrite Eb. intros k' r' Hr.
  assert (r' ∈ pool_of k' s ∨ (k', r') = (k, r)) as [H|[= -> ->]]; [|by apply Hs|by exists d].
  destruct k, k'; cbn in Hr; rewrite ?elem_of_app, ?list_elem_of_singleton in Hr; naive_solver.
Qed.

(** The contract of the wrapper, on every branch.  A new buffer of a size up to 65535 has that many bytes (more gives 65535, and
    the capacity is that of the smallest fitting pool); [SetLen] cuts the length at the capacity; after [Release] the buffer is in the
    pool it came from, the wrapper is empty, a second [Release] does nothing, and [SetLen] panics. *)
Theorem buffer_contract s size pick b s' :
  pools_ok s → 0 ≤ size → NewBuffer size pick s = (b, s') →
  ∃ k, b_pool b = Some k ∧ k = (if size <=? 1500 then PacketPool else LargePool)
  ∧ Buffer_Cap b s' = Ok (pool_size k)
  ∧ (∃ data, Buffer_Bytes b s' = Ok data ∧ len data = Z.min size 65535)
  ∧ (∀ n, 0 ≤ n → ∃ b1 data, Buffer_SetLen b n s' = Ok b1 ∧ Buffer_Bytes b1 s' = Ok data ∧ len data = Z.min n (pool_size k))
  ∧ (let '(b2, s2) := Buffer_Release b s' in
     (∃ r, b_data b = Some r ∧ pool_of k s2 = pool_of k s' ++ [r]) ∧ Buffer_Bytes b2 s2 = Ok [] ∧ Buffer_Release b2 s2 = (b2, s2)
     ∧ (∀ n, Buffer_SetLen b2 n s2 = Panic) ∧ pools_ok s2).
Proof.
  intros Hok Hsize. unfold NewBuffer. set (k := if size <=? PacketBufferSize then PacketPool else LargePool).
  destruct (sync_Get k pick s) as [r s1] eqn:Hget. intros [= <- <-].
  destruct (get_sized _ _ _ _ _ Hok Hget) as (Hok1 & d & Hd & Hs). pose proof Hs as [Hc Hl].
  assert (∀ n, 0 ≤ n → ∃ data, Buffer_Bytes (MkBuffer (Some r) (Some k) n) s1 = Ok data ∧ len data = Z.min n (pool_size k))
    as Hbytes.
  { intros n Hn. eexists. split; [by apply (buffer_bytes_ok _ r k d)|]. unfold buf_cap in Hc. cbn.
    rewrite len_take by (destruct k; cbn; unfold LargeBufferSize, PacketBufferSize; lia). lia. }
  exists k. split; [done|]. split; [done|].
  split; [unfold Buffer_Cap, deref; cbn; by rewrite Hd; cbn; rewrite Hc|].
  split.
  { destruct (Hbytes size Hsize) as (data & E & Hdata). exists data. split; [done|]. rewrite Hdata. unfold k, PacketBufferSize.
    destruct (Z.leb_spec size 1500); cbn; unfold PacketBufferSize, LargeBufferSize; lia. }
  split.
  { intros n Hn. unfold Buffer_SetLen, deref. cbn. rewrite Hd. cbn. rewrite Hc.
    destruct (Z.ltb_spec (pool_size k) n).
    - destruct (Hbytes (pool_size k)) as (data & E & Hdata); [destruct k; done|]. eexists _, data. split; [done|].
      split; [done|]. lia.
    - destruct (Hbytes n Hn) as (data & E & Hdata). by eexists _, data. }
  unfold Buffer_Release. cbn [b_data b_pool b_len]. rewrite (full_length_sized k d) by done.
  destruct (put_sized k r d s1 Hok1 Hd Hs) as [Hok2 Hp]. split; [by exists r|]. done.
Qed.

(** ** Two connections that use the same buffer one after the other, and a wrapper between them *)

Fixpoint run_pool (es : list pool_event) (m : machine) : res machine :=
  match es with
  | [] => Ok m
  | e :: es => m' ← pool_step e m; run_pool es m'
  end.

Lemma run_pool_trace es m m' :
  (∀ e m1, e ∈ es → polite m1 e) → run_pool es m = Ok m' → rtc pool_trace m m'.
Proof.
  revert m. induction es as [|e es IH]; intros m Hp; cbn [run_pool]; [by intros [= ->]|].
  destruct (pool_step e m) as [m1| |] eqn:E; cbn [mbind res_bind]; try done. intros Hrun. eapply rtc_l.
  - exists e. split; [apply Hp; by left|done].
  - apply IH; [|done]. intros; apply Hp. by right.
Qed.

Module PoolWitness.
Definition demo_stream : bytes := wire [(PacketTypeData, [x0a; x0b])].
Definition demo_events : list pool_event :=
  [TcpOpen demo_stream None; Alloc 100 None; Turn 0; Fill 1 (str "other"); Turn 0; Return 1; Turn 0;
   TcpOpen demo_stream (Some 0%nat); UdpOpen (Some 0%nat); Turn 2; Arrive 3 (str "TENTx"); Turn 2; Turn 3; Turn 2].

Definition finished (r : res machine) (g : nat) : option (list (byte * bytes)) :=
  match r with
  | Ok m => match m_gs m !! g with Some (TcpDone _ out) => Some out | _ => None end
  | _ => None
  end.

Example demo_reuse : finished (run_pool demo_events machine_start) 2 = Some [(PacketTypeData, [x0a; x0b])].
Proof. vm_compute. reflexivity. Qed.

Lemma pooled_readers_witness :
  ∃ m, run_pool demo_events machine_start = Ok m ∧ NoDup (places m).*2.
Proof.
  assert (is_Some (finished (run_pool demo_events machine_start) 2)) as Hok by (rewrite demo_reuse; eexists; reflexivity).
  destruct (run_pool demo_events machine_start) as [m| |] eqn:E; [|destruct Hok; discriminate..].
  exists m. split; [reflexivity|].
  refine (proj1 (proj2 (pooled_readers m _))). apply (run_pool_trace demo_events); [|exact E].
  intros e m1. unfold demo_events. rewrite !elem_of_cons, elem_of_nil.
  intros H. repeat (destruct H as [->|H]; [cbn; solve [exact I|lia]|]). destruct H.
Defined.

Lemma buffer_contract_witness :
  ∃ k, b_pool (NewBuffer 2000 None (m_store machine_start)).1 = Some k ∧ k = LargePool.
Proof.
  destruct (NewBuffer 2000 None (m_store machine_start)) as [b s'] eqn:E.
  destruct (buffer_contract (m_store machine_start) 2000 None b s') as (k & Hk & Hk' & _).
  - split; [intros [] r H; inversion H|intros r [? H]; discriminate H].
  - lia.
  - exact E.
  - exists k. split; [exact Hk|exact Hk'].
Defined.
End PoolWitness.
