(* ===== verification/Sha256.v ===== *)
(** * The digest functions of Go's standard library

    [crypto/sha256.Sum256] (FIPS 180-4), [crypto/hmac] over it (RFC 2104) and
    [encoding/hex.EncodeToString].  The program uses SHA-256 for node and
    channel identifiers and for the relay key, HMAC for relay tokens and hex
    for peer identifiers. *)

From S2P Require Import Prelude.

(** ** 32-bit words *)

Definition w32 (z : Z) : Z := Z.land z 4294967295.
Definition rotr (x n : Z) : Z := w32 (Z.lor (Z.shiftr x n) (Z.shiftl x (32 - n))).
Definition Ch (x y z : Z) : Z := Z.lxor (Z.land x y) (Z.land (Z.lxor x 4294967295) z).
Definition Maj (x y z : Z) : Z := Z.lxor (Z.land x y) (Z.lxor (Z.land x z) (Z.land y z)).
Definition bsig0 (x : Z) : Z := Z.lxor (rotr x 2) (Z.lxor (rotr x 13) (rotr x 22)).
Definition bsig1 (x : Z) : Z := Z.lxor (rotr x 6) (Z.lxor (rotr x 11) (rotr x 25)).
Definition ssig0 (x : Z) : Z := Z.lxor (rotr x 7) (Z.lxor (rotr x 18) (Z.shiftr x 3)).
Definition ssig1 (x : Z) : Z := Z.lxor (rotr x 17) (Z.lxor (rotr x 19) (Z.shiftr x 10)).

(** The round constants are the first 32 bits of the fractional parts of the
    cube roots of the first 64 primes; the initial state comes from the square
    roots of the first eight. *)
Definition has_divisor (n : nat) : bool :=
  existsb (λ d, Nat.eqb (Nat.modulo n d) 0) (seq 2 (Nat.sqrt n - 1)).

Definition small_primes (below : nat) : list Z :=
  Z.of_nat <$> List.filter (λ n, negb (has_divisor n)) (seq 2 (below - 2)).

(** The largest [r < 2^bits] with [r^3 <= n]. *)
Fixpoint cube_root (bits : nat) (r n : Z) : Z :=
  match bits with
  | O => r
  | S k =>
      let r' := r + Z.shiftl 1 (Z.of_nat k) in
      cube_root k (if r' * r' * r' <=? n then r' else r) n
  end.

Definition sha256_k : list Z := Eval vm_compute in
  (λ q, w32 (cube_root 36 0 (Z.shiftl q 96))) <$> small_primes 312.

Definition sqrt_frac (q : Z) : Z := w32 (Z.sqrt (Z.shiftl q 64)).

Record sha_state := ShaState { sa : Z; sb : Z; sc : Z; sd : Z; se : Z; sf : Z; sg : Z; sh : Z }.

Definition sha256_init : sha_state := Eval vm_compute in
  ShaState (sqrt_frac 2) (sqrt_frac 3) (sqrt_frac 5) (sqrt_frac 7)
           (sqrt_frac 11) (sqrt_frac 13) (sqrt_frac 17) (sqrt_frac 19).

(** ** Message schedule; the list holds the words most recent first. *)
Fixpoint sha_schedule (n : nat) (ws : list Z) : list Z :=
  match n with
  | O => ws
  | S n =>
      let w i := nth i ws 0 in
      sha_schedule n (w32 (ssig1 (w 1%nat) + w 6%nat + ssig0 (w 14%nat) + w 15%nat) :: ws)
  end.

Fixpoint sha_words (l : bytes) : list Z :=
  match l with
  | a :: b :: c :: d :: l' => be_value [a; b; c; d] :: sha_words l'
  | _ => []
  end.

Definition sha_round (s : sha_state) (kw : Z * Z) : sha_state :=
  let t1 := sh s + bsig1 (se s) + Ch (se s) (sf s) (sg s) + kw.1 + kw.2 in
  let t2 := bsig0 (sa s) + Maj (sa s) (sb s) (sc s) in
  ShaState (w32 (t1 + t2)) (sa s) (sb s) (sc s) (w32 (sd s + t1)) (se s) (sf s) (sg s).

Definition sha_compress (s : sha_state) (block : bytes) : sha_state :=
  let ws := rev (sha_schedule 48 (rev (sha_words block))) in
  let r := fold_left sha_round (zip sha256_k ws) s in
  ShaState (w32 (sa s + sa r)) (w32 (sb s + sb r)) (w32 (sc s + sc r)) (w32 (sd s + sd r))
           (w32 (se s + se r)) (w32 (sf s + sf r)) (w32 (sg s + sg r)) (w32 (sh s + sh r)).

Definition sha_pad (msg : bytes) : bytes :=
  msg ++ [x80] ++ make_bytes ((55 - len msg) mod 64) ++ be_bytes 8 (8 * len msg).

(** One block of 64 bytes per unit of fuel. *)
Fixpoint sha_blocks (fuel : nat) (s : sha_state) (l : bytes) : sha_state :=
  match fuel, l with
  | S fuel, _ :: _ => sha_blocks fuel (sha_compress s (take 64 l)) (drop 64 l)
  | _, _ => s
  end.

Definition sha_digest (s : sha_state) : bytes :=
  be_bytes 4 (sa s) ++ be_bytes 4 (sb s) ++ be_bytes 4 (sc s) ++ be_bytes 4 (sd s)
  ++ be_bytes 4 (se s) ++ be_bytes 4 (sf s) ++ be_bytes 4 (sg s) ++ be_bytes 4 (sh s).

Definition sha256_Sum256 (msg : bytes) : bytes :=
  let padded := sha_pad msg in
  sha_digest (sha_blocks (Z.to_nat (len padded / 64)) sha256_init padded).

(** ** HMAC-SHA256 *)

Definition xor_byte (c : Z) (b : byte) : byte := byte_of_Z (Z.lxor (Z_of_byte b) c).

Definition hmac_sha256 (key msg : bytes) : bytes :=
  let key := if 64 <? len key then sha256_Sum256 key else key in
  let key := key ++ make_bytes (64 - len key) in
  sha256_Sum256 ((xor_byte 0x5c <$> key) ++ sha256_Sum256 ((xor_byte 0x36 <$> key) ++ msg)).

(** ** Hexadecimal *)

Definition hex_digit (n : Z) : byte :=
  byte_of_Z (if n <? 10 then 48 + n else 87 + n).

Definition hex_EncodeToString (l : bytes) : gostring :=
  l ≫= λ b, [hex_digit (Z_of_byte b / 16); hex_digit (Z_of_byte b mod 16)].

(** ** Test vectors *)

Example sha256_abc :
  hex_EncodeToString (sha256_Sum256 (str "abc"))
  = str "ba7816bf8f01cfea414140de5dae2223b00361a396177a9cb410ff61f20015ad".
Proof. vm_compute. reflexivity. Qed.

Example hmac_rfc4231_2 :
  hex_EncodeToString (hmac_sha256 (str "Jefe") (str "what do ya want for nothing?"))
  = str "5bdcc146bf60754e6a042426089575c75a003f089d2739839dec58b964ec3843".
Proof. vm_compute. reflexivity. Qed.

(** ** Sizes *)

Lemma len_sha256 msg : len (sha256_Sum256 msg) = 32.
Proof. unfold sha256_Sum256, sha_digest. autorewrite with golen. lia. Qed.

Lemma len_hmac key msg : len (hmac_sha256 key msg) = 32.
Proof. apply len_sha256. Qed.

Lemma len_hex l : len (hex_EncodeToString l) = 2 * len l.
Proof.
  induction l as [|b l IH]; [done|].
  change (hex_EncodeToString (b :: l)) with
    (hex_digit (Z_of_byte b / 16) :: hex_digit (Z_of_byte b mod 16) :: hex_EncodeToString l).
  rewrite !len_cons, IH. lia.
Qed.

#[export] Hint Rewrite len_sha256 len_hmac len_hex : golen.
#[global] Opaque sha256_Sum256.
