(* ===== verification/Logger.v ===== *)
(** * Logging ([log/logger.go])

    The library's loggers: the silent one and the one that filters by level and writes
    lines.  A writer is the list of the calls of its [Write]. *)

From Stdlib Require Import DecimalString HexadecimalString.
From S2P Require Import Prelude Sha256.

(** ** Levels *)

(** [Level] is an integer type: the five constants, and any other value. *)
Definition Level := Z.
Definition LevelDebug : Level := 0.
Definition LevelInfo : Level := 1.
Definition LevelWarn : Level := 2.
Definition LevelError : Level := 3.
Definition LevelSilent : Level := 4.

Definition Level_String (l : Level) : gostring :=
  if l =? LevelDebug then str "DEBUG" else if l =? LevelInfo then str "INFO"
  else if l =? LevelWarn then str "WARN" else if l =? LevelError then str "ERROR" else str "UNKNOWN".

(** ** [fmt.Sprintf], for strings and integers and the verbs without flags *)

Inductive arg := AString (s : gostring) | AInt (z : Z).

Definition Itoa (z : Z) : gostring :=
  (if z <? 0 then str "-" else []) ++ str (DecimalString.NilZero.string_of_uint (N.to_uint (Z.abs_N z))).

Definition hex_int (z : Z) : gostring :=
  (if z <? 0 then str "-" else []) ++ str (HexadecimalString.NilZero.string_of_uint (N.to_hex_uint (Z.abs_N z))).

(** [%v]. *)
Definition plain (a : arg) : gostring := match a with AString s => s | AInt z => Itoa z end.
(** How a bad verb or an extra argument shows: its type and value. *)
Definition typed (a : arg) : gostring :=
  match a with AString s => str "string=" ++ s | AInt z => str "int=" ++ Itoa z end.

Definition bad_verb (verb : byte) (a : arg) : gostring := str "%!" ++ [verb] ++ str "(" ++ typed a ++ str ")".

(** One verb and its operand: [s], [d], [x] and [v]. *)
Definition format_arg (verb : byte) (a : arg) : gostring :=
  if bool_decide (verb = x76) then plain a else
  match a with
  | AString s => if bool_decide (verb = x73) then s else if bool_decide (verb = x78) then hex_EncodeToString s else bad_verb verb a
  | AInt z => if bool_decide (verb = x64) then Itoa z else if bool_decide (verb = x78) then hex_int z else bad_verb verb a
  end.

Definition extra_args (args : list arg) : gostring :=
  match args with
  | [] => []
  | a :: args' => str "%!(EXTRA " ++ typed a ++ (args' ≫= λ a', str ", " ++ typed a') ++ str ")"
  end.

Fixpoint Sprintf (format : gostring) (args : list arg) : gostring :=
  match format with
  | [] => extra_args args
  | x25 :: [] => str "%!(NOVERB)" ++ extra_args args
  | x25 :: x25 :: format' => x25 :: Sprintf format' args
  | x25 :: verb :: format' =>
      match args with
      | [] => str "%!" ++ [verb] ++ str "(MISSING)" ++ Sprintf format' []
      | a :: args' => format_arg verb a ++ Sprintf format' args'
      end
  | c :: format' => c :: Sprintf format' args
  end.

Example sprintf_verbs : Sprintf (str "peer %s: %d of %v, %x 100%%") [AString (str "ab"); AInt (-7); AString (str "x"); AString [x0a; xff]]
  = str "peer ab: -7 of x, 0aff 100%".
Proof. vm_compute. reflexivity. Qed.
Example sprintf_errors : Sprintf (str "%d %s") [AString (str "a")] = str "%!d(string=a) %!s(MISSING)"
  ∧ Sprintf (str "x") [AInt 5; AString (str "b")] = str "x%!(EXTRA int=5, string=b)".
Proof. split; vm_compute; reflexivity. Qed.

(** ** Loggers *)

(** Where a logger writes: [os.Stderr] or a writer of the application. *)
Inductive Writer := Stderr | Custom (w : nat).
#[global] Instance Writer_eq_dec : EqDecision Writer.
Proof. solve_decision. Defined.

(** The calls of [Write], in order. *)
Definition output := list (Writer * gostring).

Record StdLogger := MkStdLogger { l_writer : Writer; l_level : Level; l_prefix : gostring }.
#[global] Instance StdLogger_eta : RecordEta StdLogger := λ l, MkStdLogger (l_writer l) (l_level l) (l_prefix l).

Definition StdLoggerOption := StdLogger → StdLogger.
Definition WithWriter (w : Writer) : StdLoggerOption := λ l, l <| l_writer := w |>.
Definition WithLevel (level : Level) : StdLoggerOption := λ l, l <| l_level := level |>.
Definition WithPrefix (prefix : gostring) : StdLoggerOption := λ l, l <| l_prefix := prefix |>.

Definition NewStdLogger (opts : list StdLoggerOption) : StdLogger :=
  foldl (λ l opt, opt l) (MkStdLogger Stderr LevelInfo (str "[tenet]")) opts.

(** [timestamp] is [time.Now().Format(...)]. *)
Definition StdLogger_log (l : StdLogger) (level : Level) (timestamp format : gostring) (args : list arg) (out : output) : output :=
  if level <? l_level l then out else
  let msg := Sprintf format args in
  let line := if bool_decide (l_prefix l ≠ [])
              then Sprintf (str "%s %s %s %s" ++ [x0a]) [AString timestamp; AString (l_prefix l); AString (Level_String level); AString msg]
              else Sprintf (str "%s %s %s" ++ [x0a]) [AString timestamp; AString (Level_String level); AString msg] in
  out ++ [(l_writer l, line)].

(** The interface: what a logger does on each of its methods. *)
Class Logger (A : Type) := {
  log_Debug : A → gostring → gostring → list arg → output → output;
  log_Info : A → gostring → gostring → list arg → output → output;
  log_Warn : A → gostring → gostring → list arg → output → output;
  log_Error : A → gostring → gostring → list arg → output → output;
}.

Record NopLogger := MkNopLogger {}.
#[export] Instance nop_logger : Logger NopLogger := {
  log_Debug _ _ _ _ out := out;
  log_Info _ _ _ _ out := out;
  log_Warn _ _ _ _ out := out;
  log_Error _ _ _ _ out := out;
}.

#[export] Instance std_logger : Logger StdLogger := {
  log_Debug l := StdLogger_log l LevelDebug;
  log_Info l := StdLogger_log l LevelInfo;
  log_Warn l := StdLogger_log l LevelWarn;
  log_Error l := StdLogger_log l LevelError;
}.

Definition Nop : NopLogger := MkNopLogger.
Definition Default : StdLogger := NewStdLogger [].

(** ** What a logger writes *)

Inductive severity := SevDebug | SevInfo | SevWarn | SevError.

Definition severity_level (s : severity) : Level :=
  match s with SevDebug => LevelDebug | SevInfo => LevelInfo | SevWarn => LevelWarn | SevError => LevelError end.

(** A call of a method, at the time of the timestamp. *)
Record log_call := MkLogCall { lc_severity : severity; lc_timestamp : gostring; lc_format : gostring; lc_args : list arg }.

Definition run_log `{Logger A} (l : A) (c : log_call) : output → output :=
  match lc_severity c with
  | SevDebug => log_Debug l | SevInfo => log_Info l | SevWarn => log_Warn l | SevError => log_Error l
  end (lc_timestamp c) (lc_format c) (lc_args c).

Definition run_logs `{Logger A} (l : A) (calls : list log_call) (out : output) : output :=
  foldl (λ out c, run_log l c out) out calls.

(** The line of a message: the fields that are not empty, with a blank between them. *)
Definition log_line (l : StdLogger) (c : log_call) : Writer * gostring :=
  (l_writer l,
   lc_timestamp c ++ str " " ++ (if bool_decide (l_prefix l = []) then [] else l_prefix l ++ str " ")
   ++ Level_String (severity_level (lc_severity c)) ++ str " " ++ Sprintf (lc_format c) (lc_args c) ++ [x0a]).

Lemma run_log_std l c out :
  run_log l c out = out ++ (if l_level l <=? severity_level (lc_severity c) then [log_line l c] else []).
Proof.
  assert (run_log l c out = StdLogger_log l (severity_level (lc_severity c)) (lc_timestamp c) (lc_format c) (lc_args c) out) as ->
    by (unfold run_log; by destruct (lc_severity c)).
  unfold StdLogger_log, log_line. rewrite Z.ltb_antisym. destruct (_ <=? _); cbn [negb]; [|by rewrite app_nil_r].
  do 4 f_equal. destruct (l_prefix l) as [|p ps]; cbn; simplify_list_eq; done.
Qed.

(** A filter that nothing, or everything, passes. *)
Lemma filter_trivial {A} (P : A → Prop) `{∀ x, Decision (P x)} (l : list A) :
  ((∀ x, ¬ P x) → filter P l = []) ∧ ((∀ x, P x) → filter P l = l).
Proof.
  split; intros HP; induction l as [|x l IH]; try done; rewrite filter_cons.
  - by rewrite decide_False by done.
  - by rewrite decide_True, IH by done.
Qed.

Lemma nop_writes_nothing calls out : run_logs Nop calls out = out.
Proof.
  unfold run_logs. induction calls as [|c calls IH] in out |- *; [done|]. cbn [foldl]. rewrite IH.
  unfold run_log. by destruct (lc_severity c).
Qed.

(** The filter of the standard logger.  Whatever is logged, in whatever order, the writer receives exactly one line for every
    message at or above the configured level, in the order of the calls, made of the timestamp, the prefix if there is one, the level
    and the formatted message; at the silent level the logger is indistinguishable from the no-op logger, and at debug level nothing
    is lost. *)
Theorem logger_filter l calls out :
  run_logs l calls out = out ++ (log_line l <$> filter (λ c, l_level l ≤ severity_level (lc_severity c)) calls)
  ∧ (LevelSilent ≤ l_level l → run_logs l calls out = run_logs Nop calls out)
  ∧ (l_level l ≤ LevelDebug → length (run_logs l calls out) = (length out + length calls)%nat).
Proof.
  assert (run_logs l calls out = out ++ (log_line l <$> filter (λ c, l_level l ≤ severity_level (lc_severity c)) calls)) as E.
  { unfold run_logs. induction calls as [|c calls IH] in out |- *; [by rewrite app_nil_r|]. cbn [foldl].
    rewrite IH, run_log_std, filter_cons. destruct (Z.leb_spec (l_level l) (severity_level (lc_severity c))).
    - rewrite decide_True by done. by rewrite <- app_assoc.
    - rewrite decide_False by lia. by rewrite app_nil_r. }
  split; [done|]. rewrite E, nop_writes_nothing. split; intros Hl.
  - rewrite (proj1 (filter_trivial _ calls)); [by rewrite app_nil_r|].
    intros c H. destruct (lc_severity c); cbn in *; unfold LevelSilent, LevelDebug, LevelInfo, LevelWarn, LevelError in *; lia.
  - rewrite (proj2 (filter_trivial _ calls)); [by rewrite length_app, length_fmap|].
    intros c. destruct (lc_severity c); cbn in *; unfold LevelDebug, LevelInfo, LevelWarn, LevelError in *; lia.
Qed.

Example default_line : run_logs Default [MkLogCall SevDebug (str "t0") (str "hidden") [];
    MkLogCall SevWarn (str "t1") (str "peer %s lost") [AString (str "ab")]] []
  = [(Stderr, str "t1 [tenet] WARN peer ab lost" ++ [x0a])].
Proof. vm_compute. reflexivity. Qed.
