(* ===== verification/Json.v ===== *)
(** * JSON ([encoding/json] as [crypto/identity.go] uses it)

    The part of the standard library's JSON package an identity file goes
    through: [json.Unmarshal] of arbitrary bytes into a struct with one string
    field, and [json.MarshalIndent] of that struct.  Decoding is in two passes over
    the input, each a fold over a finite list, so neither needs fuel: a lexer (the
    byte automaton of [scanner.go] for strings, numbers and literals) and a stack
    automaton for the nesting.  The texts of syntax errors are not kept. *)

From S2P Require Import Prelude.

(** ** UTF-8 ([unicode/utf8]) *)

Definition RuneError : Z := 0xFFFD.

(** [utf8.AppendRune]: surrogates and values past the last code point are written
    as [RuneError]. *)
Definition EncodeRune (r : Z) : bytes :=
  let r := if (r <? 0) || (0x10FFFF <? r) || ((0xD800 <=? r) && (r <=? 0xDFFF)) then RuneError else r in
  if r <? 0x80 then [byte_of_Z r]
  else if r <? 0x800 then
    [byte_of_Z (Z.lor 0xC0 (Z.shiftr r 6)); byte_of_Z (Z.lor 0x80 (Z.land r 0x3F))]
  else if r <? 0x10000 then
    [byte_of_Z (Z.lor 0xE0 (Z.shiftr r 12)); byte_of_Z (Z.lor 0x80 (Z.land (Z.shiftr r 6) 0x3F));
     byte_of_Z (Z.lor 0x80 (Z.land r 0x3F))]
  else
    [byte_of_Z (Z.lor 0xF0 (Z.shiftr r 18)); byte_of_Z (Z.lor 0x80 (Z.land (Z.shiftr r 12) 0x3F));
     byte_of_Z (Z.lor 0x80 (Z.land (Z.shiftr r 6) 0x3F)); byte_of_Z (Z.lor 0x80 (Z.land r 0x3F))].

Definition is_continuation (b : Z) : bool := (0x80 <=? b) && (b <=? 0xBF).

(** The length and the value of the well-formed sequence at the front of [l]
    ([utf8.DecodeRune]); [None] where [DecodeRune] returns [RuneError, 1]. *)
Definition DecodeRune (l : list Z) : option (nat * Z) :=
  match l with
  | [] => None
  | a :: l' =>
      if a <? 0x80 then Some (1%nat, a)
      else if (0xC2 <=? a) && (a <=? 0xDF) then
        match l' with
        | b :: _ => if is_continuation b then Some (2%nat, (a - 0xC0) * 64 + (b - 0x80)) else None
        | _ => None
        end
      else if (0xE0 <=? a) && (a <=? 0xEF) then
        match l' with
        | b :: c :: _ =>
            if is_continuation b && is_continuation c && ((if a =? 0xE0 then 0xA0 else 0x80) <=? b)
               && (b <=? (if a =? 0xED then 0x9F else 0xBF))
            then Some (3%nat, (a - 0xE0) * 4096 + (b - 0x80) * 64 + (c - 0x80)) else None
        | _ => None
        end
      else if (0xF0 <=? a) && (a <=? 0xF4) then
        match l' with
        | b :: c :: d :: _ =>
            if is_continuation b && is_continuation c && is_continuation d
               && ((if a =? 0xF0 then 0x90 else 0x80) <=? b) && (b <=? (if a =? 0xF4 then 0x8F else 0xBF))
            then Some (4%nat, (a - 0xF0) * 262144 + (b - 0x80) * 4096 + (c - 0x80) * 64 + (d - 0x80)) else None
        | _ => None
        end
      else None
  end.

(** ** Strings *)

(** A character of a string literal: a byte as it stands, a two-character escape
    (the byte it denotes), or a [\u] escape. *)
Inductive jchar :=
| CRaw (b : byte)
| CEsc (b : byte)
| CCode (code : Z).

Fixpoint raw_prefix (l : list jchar) : list Z :=
  match l with
  | CRaw b :: l' => Z_of_byte b :: raw_prefix l'
  | _ => []
  end.

Definition IsSurrogate (r : Z) : bool := (0xD800 <=? r) && (r <? 0xE000).

(** [utf16.DecodeRune]; [None] is the replacement character. *)
Definition decode_pair (r1 r2 : Z) : option Z :=
  if (0xD800 <=? r1) && (r1 <? 0xDC00) && (0xDC00 <=? r2) && (r2 <? 0xE000)
  then Some ((r1 - 0xD800) * 1024 + (r2 - 0xDC00) + 0x10000) else None.

(** [unquoteBytes]: invalid UTF-8 and lone surrogates become [RuneError].  [skip]
    counts the characters already consumed by the previous one. *)
Fixpoint unquote (skip : nat) (l : list jchar) : bytes :=
  match l, skip with
  | [], _ => []
  | _ :: l', S k => unquote k l'
  | CEsc b :: l', O => b :: unquote 0 l'
  | CCode r :: l', O =>
      match (if IsSurrogate r then match l' with CCode r1 :: _ => decode_pair r r1 | _ => None end else None) with
      | Some dec => EncodeRune dec ++ unquote 1 l'
      | None => EncodeRune r ++ unquote 0 l'
      end
  | (CRaw _ as c) :: l', O =>
      match DecodeRune (raw_prefix (c :: l')) with
      | Some (n, r) => EncodeRune r ++ unquote (n - 1) l'
      | None => EncodeRune RuneError ++ unquote 0 l'
      end
  end.

(** ** Values and tokens *)

Inductive json :=
| JNull
| JBool (b : bool)
| JNumber (literal : bytes)
| JString (s : bytes)
| JArray (l : list json)
| JObject (l : list (bytes * json)).

Inductive token :=
| TVal (v : json)
| TLBrace | TRBrace | TLBrack | TRBrack | TColon | TComma.

(** ** Lexer *)

Inductive numstate := NNeg | NZero | NInt | NDot | NFrac | NE | NESign | NExp.
Inductive strstate := SIn | SEsc | SCode (digits : nat) (code : Z).

Inductive lexstate :=
| LIdle
| LWord (rest : bytes) (v : json)
| LNum (st : numstate) (acc : bytes)
| LStr (st : strstate) (acc : list jchar).

Definition is_digit (c : byte) : bool := (48 <=? Z_of_byte c) && (Z_of_byte c <=? 57).

(** One more byte of a number ([stateNeg], [state0], [state1], [stateDot], ...). *)
Definition num_step (st : numstate) (c : byte) : option numstate :=
  let exp := bool_decide (c = x65 ∨ c = x45) in
  match st with
  | NNeg => if bool_decide (c = x30) then Some NZero else if is_digit c then Some NInt else None
  | NZero => if bool_decide (c = x2e) then Some NDot else if exp then Some NE else None
  | NInt => if is_digit c then Some NInt else if bool_decide (c = x2e) then Some NDot
            else if exp then Some NE else None
  | NDot => if is_digit c then Some NFrac else None
  | NFrac => if is_digit c then Some NFrac else if exp then Some NE else None
  | NE => if bool_decide (c = x2b ∨ c = x2d) then Some NESign else if is_digit c then Some NExp else None
  | NESign | NExp => if is_digit c then Some NExp else None
  end.

Definition num_final (st : numstate) : bool :=
  match st with NZero | NInt | NFrac | NExp => true | _ => false end.

Definition hex_value (c : byte) : option Z :=
  let z := Z_of_byte c in
  if (48 <=? z) && (z <=? 57) then Some (z - 48)
  else if (97 <=? z) && (z <=? 102) then Some (z - 87)
  else if (65 <=? z) && (z <=? 70) then Some (z - 55)
  else None.

(** The byte a two-character escape denotes ([stateInStringEsc]). *)
Definition escape_value (c : byte) : option byte :=
  match c with
  | x62 => Some x08 | x66 => Some x0c | x6e => Some x0a | x72 => Some x0d | x74 => Some x09
  | x5c => Some x5c | x2f => Some x2f | x22 => Some x22
  | _ => None
  end.

(** A byte where no token is open. *)
Definition lex_idle (c : byte) : option (lexstate * list token) :=
  match c with
  | x20 | x09 | x0d | x0a => Some (LIdle, [])
  | x7b => Some (LIdle, [TLBrace])
  | x7d => Some (LIdle, [TRBrace])
  | x5b => Some (LIdle, [TLBrack])
  | x5d => Some (LIdle, [TRBrack])
  | x3a => Some (LIdle, [TColon])
  | x2c => Some (LIdle, [TComma])
  | x22 => Some (LStr SIn [], [])
  | x2d => Some (LNum NNeg [c], [])
  | x30 => Some (LNum NZero [c], [])
  | x74 => Some (LWord (str "rue") (JBool true), [])
  | x66 => Some (LWord (str "alse") (JBool false), [])
  | x6e => Some (LWord (str "ull") JNull, [])
  | _ => if is_digit c then Some (LNum NInt [c], []) else None
  end.

Definition lex_string (st : strstate) (acc : list jchar) (c : byte) : option (lexstate * list token) :=
  match st with
  | SIn => if bool_decide (c = x22) then Some (LIdle, [TVal (JString (unquote 0 (rev acc)))])
           else if bool_decide (c = x5c) then Some (LStr SEsc acc, [])
           else if Z_of_byte c <? 32 then None
           else Some (LStr SIn (CRaw c :: acc), [])
  | SEsc => if bool_decide (c = x75) then Some (LStr (SCode 0 0) acc, [])
            else b ← escape_value c; Some (LStr SIn (CEsc b :: acc), [])
  | SCode n code =>
      h ← hex_value c;
      let code := code * 16 + h in
      if bool_decide (n = 3%nat) then Some (LStr SIn (CCode code :: acc), [])
      else Some (LStr (SCode (S n) code) acc, [])
  end.

Definition lex_step (s : lexstate) (c : byte) : option (lexstate * list token) :=
  match s with
  | LIdle => lex_idle c
  | LWord rest v =>
      match rest with
      | [e] => if bool_decide (c = e) then Some (LIdle, [TVal v]) else None
      | e :: rest' => if bool_decide (c = e) then Some (LWord rest' v, []) else None
      | [] => None
      end
  | LNum st acc =>
      match num_step st c with
      | Some st' => Some (LNum st' (c :: acc), [])
      | None => if num_final st then
                  '(s', ts) ← lex_idle c; Some (s', TVal (JNumber (rev acc)) :: ts)
                else None
      end
  | LStr st acc => lex_string st acc c
  end.

(** The tokens of the rest of the input, from lexer state [s]. *)
Fixpoint lex (s : lexstate) (l : bytes) : option (list token) :=
  match l with
  | [] => match s with
          | LIdle => Some []
          | LNum st acc => if num_final st then Some [TVal (JNumber (rev acc))] else None
          | _ => None
          end
  | c :: l' => '(s', ts) ← lex_step s c; ts' ← lex s' l'; Some (ts ++ ts')
  end.

(** ** Nesting *)

Inductive frame :=
| FArray (acc : list json)
| FObject (acc : list (bytes * json))
| FMember (acc : list (bytes * json)) (key : bytes).

(** What may come next: a value, a value or the end of the array, a key or the end
    of the object, a key, the colon, a comma or an end. *)
Inductive expect := EValue | EFirst | EKeyFirst | EKey | EColon | ESep.

Inductive pstate :=
| PWait (e : expect) (stack : list frame)
| PDone (v : json).

Definition maxNestingDepth : Z := 10000.

Definition push (f : frame) (e : expect) (stack : list frame) : option pstate :=
  if len stack <? maxNestingDepth then Some (PWait e (f :: stack)) else None.

(** A value is complete. *)
Definition complete (v : json) (stack : list frame) : option pstate :=
  match stack with
  | [] => Some (PDone v)
  | FArray acc :: st => Some (PWait ESep (FArray (v :: acc) :: st))
  | FMember acc k :: st => Some (PWait ESep (FObject ((k, v) :: acc) :: st))
  | FObject _ :: _ => None
  end.

Definition parse_value (t : token) (stack : list frame) : option pstate :=
  match t with
  | TVal v => complete v stack
  | TLBrace => push (FObject []) EKeyFirst stack
  | TLBrack => push (FArray []) EFirst stack
  | _ => None
  end.

Definition parse_close (t : token) (stack : list frame) : option pstate :=
  match t, stack with
  | TRBrack, FArray acc :: st => complete (JArray (rev acc)) st
  | TRBrace, FObject acc :: st => complete (JObject (rev acc)) st
  | _, _ => None
  end.

Definition parse_key (t : token) (stack : list frame) : option pstate :=
  match t, stack with
  | TVal (JString k), FObject acc :: st => Some (PWait EColon (FMember acc k :: st))
  | _, _ => None
  end.

Definition parse_step (s : pstate) (t : token) : option pstate :=
  match s with
  | PDone _ => None
  | PWait e stack =>
      match e, t with
      | EValue, _ => parse_value t stack
      | EFirst, TRBrack => parse_close t stack
      | EFirst, _ => parse_value t stack
      | EKeyFirst, TRBrace => parse_close t stack
      | (EKeyFirst | EKey), _ => parse_key t stack
      | EColon, TColon => Some (PWait EValue stack)
      | ESep, TComma => match stack with FArray _ :: _ => Some (PWait EValue stack)
                        | FObject _ :: _ => Some (PWait EKey stack) | _ => None end
      | ESep, _ => parse_close t stack
      | _, _ => None
      end
  end.

Fixpoint parse (s : pstate) (ts : list token) : option json :=
  match ts with
  | [] => match s with PDone v => Some v | _ => None end
  | t :: ts' => s' ← parse_step s t; parse s' ts'
  end.

(** The value of a JSON text; [None] is a syntax error. *)
Definition json_value (data : bytes) : option json :=
  ts ← lex LIdle data; parse (PWait EValue []) ts.

(** ** Decoding into a struct with one string field *)

(** [foldName]: ASCII letters to upper case; the two other runes whose fold set has
    an ASCII letter, U+017F and U+212A, to that letter; the remaining runes, which
    fold to runes that are not ASCII, as they are. *)
Fixpoint foldName (l : bytes) : bytes :=
  match l with
  | [] => []
  | xc5 :: xbf :: l' => x53 :: foldName l'
  | xe2 :: x84 :: xaa :: l' => x4b :: foldName l'
  | c :: l' =>
      (if (97 <=? Z_of_byte c) && (Z_of_byte c <=? 122) then byte_of_Z (Z_of_byte c - 32) else c) :: foldName l'
  end.

(** The field and whether a type error was recorded, after one member. *)
Definition decode_member (field : bytes) (st : bytes * bool) (m : bytes * json) : bytes * bool :=
  let '(old, failed) := st in
  let '(key, v) := m in
  if bool_decide (key = field) || bool_decide (foldName key = foldName field) then
    match v with
    | JString s => (s, failed)
    | JNull => (old, failed)
    | _ => (old, true)
    end
  else (old, failed).

(** [json.Unmarshal] into a zero struct whose only field is a string named
    [field]: its value, or [None] where an error is returned. *)
Definition Unmarshal_field (field : bytes) (data : bytes) : option bytes :=
  match json_value data with
  | Some JNull => Some []
  | Some (JObject ms) =>
      let '(s, failed) := foldl (decode_member field) ([], false) ms in
      if (failed : bool) then None else Some s
  | _ => None
  end.

(** ** Encoding *)

Definition hex4 (z : Z) : byte := byte_of_Z (if z <? 10 then 48 + z else 87 + z).

(** [appendString] on a byte below [utf8.RuneSelf], HTML escaping on. *)
Definition json_escape (c : byte) : bytes :=
  match c with
  | x22 => [x5c; x22] | x5c => [x5c; x5c]
  | x08 => [x5c; x62] | x0c => [x5c; x66] | x0a => [x5c; x6e] | x0d => [x5c; x72] | x09 => [x5c; x74]
  | _ => if (Z_of_byte c <? 32) || bool_decide (c = x3c ∨ c = x3e ∨ c = x26)
         then str "\u00" ++ [hex4 (Z_of_byte c / 16); hex4 (Z_of_byte c mod 16)] else [c]
  end.

Definition json_quote (s : bytes) : bytes := [x22] ++ (s ≫= json_escape) ++ [x22].

(** [json.MarshalIndent] with no prefix and an indent of two spaces, of a struct with one string field, for an
    ASCII string. *)
Definition MarshalIndent_field (field s : bytes) : bytes :=
  [x7b; x0a; x20; x20] ++ json_quote field ++ [x3a; x20] ++ json_quote s ++ [x0a; x7d].

(** ** Correctness *)

Definition ascii7 (c : byte) : Prop := Z_of_byte c < 128.

(** How the lexer sees a byte the encoder wrote. *)
Definition item_of (c : byte) : jchar :=
  match json_escape c with
  | [_] => CRaw c
  | [_; _] => CEsc c
  | _ => CCode (Z_of_byte c)
  end.

(** A byte that completes no token. *)
Lemma lex_silent s s' c rest : lex_step s c = Some (s', []) → lex s (c :: rest) = lex s' rest.
Proof. intros H. cbn [lex]. rewrite H. cbn. by destruct (lex s' rest). Qed.

Lemma lex_escape c acc rest :
  ascii7 c → lex (LStr SIn acc) (json_escape c ++ rest) = lex (LStr SIn (item_of c :: acc)) rest.
Proof.
  unfold ascii7. intros H.
  destruct c; first [vm_compute in H; discriminate H
    | set (e := json_escape _); vm_compute in e; subst e; cbn [app];
      repeat (erewrite lex_silent by reflexivity); reflexivity].
Qed.

Lemma lex_escapes s acc rest :
  Forall ascii7 s →
  lex (LStr SIn acc) ((s ≫= json_escape) ++ rest) = lex (LStr SIn (rev (item_of <$> s) ++ acc)) rest.
Proof.
  intros H. revert acc. induction H as [|c s Hc _ IH]; intros acc; [done|].
  cbn [mbind list_bind]. rewrite <- app_assoc, lex_escape, IH by done.
  cbn [fmap list_fmap]. cbn [rev]. by rewrite <- app_assoc.
Qed.

Lemma unquote_item c l : ascii7 c → unquote 0 (item_of c :: l) = c :: unquote 0 l.
Proof.
  unfold ascii7. intros H.
  destruct c; first [vm_compute in H; discriminate H | reflexivity].
Qed.

Lemma unquote_items s : Forall ascii7 s → unquote 0 (item_of <$> s) = s.
Proof.
  induction 1 as [|c s Hc _ IH]; [done|]. cbn [fmap list_fmap]. by rewrite unquote_item, IH.
Qed.

(** A quoted string is one token, whatever follows it. *)
Lemma lex_quote s rest :
  Forall ascii7 s →
  lex LIdle (json_quote s ++ rest) = ts ← lex LIdle rest; Some (TVal (JString s) :: ts).
Proof.
  intros H. unfold json_quote. rewrite <- !app_assoc. cbn [app].
  transitivity (lex (LStr SIn []) ((s ≫= json_escape) ++ x22 :: rest)).
  { cbn. by destruct (lex _ _). }
  rewrite lex_escapes, app_nil_r by done. cbn -[unquote].
  by rewrite rev_involutive, unquote_items by done.
Qed.

Lemma lex_skip c ts rest :
  lex_idle c = Some (LIdle, ts) → lex LIdle (c :: rest) = ts' ← lex LIdle rest; Some (ts ++ ts').
Proof. intros H. cbn [lex lex_step]. by rewrite H. Qed.

Lemma json_value_marshal field s :
  Forall ascii7 field → Forall ascii7 s →
  json_value (MarshalIndent_field field s) = Some (JObject [(field, JString s)]).
Proof.
  intros Hf Hs. unfold json_value, MarshalIndent_field. cbn [app].
  repeat (erewrite lex_skip by reflexivity).
  rewrite lex_quote by done. cbn [app].
  repeat (erewrite lex_skip by reflexivity).
  by rewrite lex_quote by done.
Qed.

Lemma Unmarshal_Marshal field s :
  Forall ascii7 field → Forall ascii7 s →
  Unmarshal_field field (MarshalIndent_field field s) = Some s.
Proof.
  intros Hf Hs. unfold Unmarshal_field. rewrite json_value_marshal by done.
  cbn [foldl decode_member]. by rewrite bool_decide_true.
Qed.

(** Examples of the decoder: white space, escapes, unknown members, duplicates,
    the folding of names, [null], and the errors. *)
Module JsonExamples.
Definition quoted (s : string) : bytes := (λ b, if bool_decide (b = x27) then x22 else b) <$> str s.
Definition um (s : string) : option bytes := Unmarshal_field (str "private_key") (quoted s).

Example um_plain : um " {'private_key' : 'ab'} " = Some (str "ab").
Proof. vm_compute. reflexivity. Qed.
Example um_escape : um "{'x':[1,-2.5e+3,{}],'private_\u006bey':'\u0061b'}" = Some (str "ab").
Proof. vm_compute. reflexivity. Qed.
Example um_fold_last : um "{'private_key':'1','PRIVATE_key':'2','Private_Key':null}" = Some (str "2").
Proof. vm_compute. reflexivity. Qed.
Example um_null : um "null" = Some [] ∧ um "{}" = Some [].
Proof. vm_compute. done. Qed.
Example um_errors : um "" = None ∧ um "[]" = None ∧ um "{'private_key':1}" = None
  ∧ um "{'private_key':'a'}}" = None ∧ um "{'a':01}" = None ∧ um "{'private_key':'a',}" = None
  ∧ um "{'a':truefalse}" = None ∧ um "{'a' 1}" = None ∧ um "{'a':'\x'}" = None.
Proof. vm_compute. done. Qed.
End JsonExamples.
