(* ===== verification/Identity.v ===== *)
(** * Identities ([crypto/identity.go])

    The keys of a node, the ID derived from them, their JSON form and the file they
    are kept in.  The elliptic curves are parameters ([Ed25519], [Curve25519]);
    [KeyLaws] says what the program relies on of them.  The file system is a finite
    map with the outcomes of its operations given by a [Disk]. *)

From S2P Require Import Prelude Sha256 Json.

(** [crypto/ed25519] on a 32-byte seed, a 64-byte private key (the seed followed by
    the public key) and a 32-byte public key. *)
Class Ed25519 := {
  ed_public : bytes → bytes;
  ed_sign : bytes → bytes → bytes;
  ed_verify : bytes → bytes → bytes → bool;
}.

Class Curve25519 := { ScalarBaseMult : bytes → bytes }.

Class KeyLaws `{Ed25519, Curve25519} := {
  len_ed_public : ∀ seed, len (ed_public seed) = 32;
  len_ScalarBaseMult : ∀ k, len (ScalarBaseMult k) = 32;
  ed_verify_sign : ∀ seed m, len seed = 32 →
    ed_verify (ed_public seed) m (ed_sign (seed ++ ed_public seed) m) = true;
}.

Definition SeedSize : Z := 32.
Definition PrivateKeySize : Z := 64.
Definition PublicKeySize : Z := 32.

(** A [NodeID] is the list of its sixteen bytes. *)

Definition NodeID_String (id : bytes) : gostring := hex_EncodeToString id.
Definition NodeID_ShortString (id : bytes) : gostring := hex_EncodeToString (take 4 id).

Record Identity := MkIdentity {
  PrivateKey : bytes;
  PublicKey : bytes;
  NoisePrivateKey : bytes;
  NoisePublicKey : bytes;
  id_ID : bytes;
}.

(** [hex.DecodeString]; [None] is an error. *)
Fixpoint hex_DecodeString (s : gostring) : option bytes :=
  match s with
  | [] => Some []
  | [_] => None
  | a :: b :: s' =>
      h ← hex_value a; l ← hex_value b; rest ← hex_DecodeString s';
      Some (byte_of_Z (h * 16 + l) :: rest)
  end.

Section identity.
Context `{Ed25519, Curve25519}.

(** ** Keys *)

(** [priv] is a slice of at least 32 bytes. *)
Definition derive_identity (priv pub : bytes) : Identity :=
  let noisePriv := copy_at (make_bytes 32) 0 (subslice priv 0 32) in
  let noisePub := ScalarBaseMult noisePriv in
  let idHash := sha256_Sum256 noisePub in
  MkIdentity priv pub noisePriv noisePub (copy_at (make_bytes 16) 0 (subslice idHash 0 16)).

(** [entropy] is the seed [ed25519.GenerateKey] reads from [rand.Reader]. *)
Definition NewIdentity (entropy : option bytes) : res Identity :=
  match entropy with
  | None => Err "generate key failed"
  | Some seed => Ok (derive_identity (seed ++ ed_public seed) (ed_public seed))
  end.

(** [privKey.Public()] copies the second half of the key. *)
Definition IdentityFromPrivateKey (privKey : bytes) : res Identity :=
  if negb (len privKey =? PrivateKeySize) then Err "invalid private key length"
  else Ok (derive_identity privKey (subslice privKey 32 64)).

(** [ed25519.Sign] and [ed25519.Verify] panic on a key of the wrong length. *)
Definition Identity_Sign (i : Identity) (message : bytes) : res bytes :=
  if len (PrivateKey i) =? PrivateKeySize then Ok (ed_sign (PrivateKey i) message) else Panic.

Definition Identity_Verify (i : Identity) (message signature : bytes) : res bool :=
  if len (PublicKey i) =? PublicKeySize then Ok (ed_verify (PublicKey i) message signature) else Panic.

Definition ExportPublicKey (i : Identity) : gostring := hex_EncodeToString (NoisePublicKey i).

Definition GetFingerprint (i : Identity) : gostring :=
  hex_EncodeToString (subslice (sha256_Sum256 (NoisePublicKey i)) 0 8).

(** ** JSON *)

Definition private_key_field : gostring := str "private_key".

Definition ToJSON (i : Identity) : bytes :=
  MarshalIndent_field private_key_field (hex_EncodeToString (PrivateKey i)).

Definition IdentityFromJSON (jsonData : bytes) : res Identity :=
  match Unmarshal_field private_key_field jsonData with
  | None => Err "parse identity JSON failed"
  | Some hexkey =>
      match hex_DecodeString hexkey with
      | None => Err "decode private key failed"
      | Some privKeyBytes =>
          if negb (len privKeyBytes =? PrivateKeySize) then Err "invalid private key length"
          else IdentityFromPrivateKey privKeyBytes
      end
  end.

(** ** The identity file *)

Inductive entry := EFile (data : bytes) | EDir.

(** The files by path.  Directories made by [MkdirAll] are not recorded; a
    directory at a path of interest is [EDir]. *)
Abbreviation FS := (gmap gostring entry).

(** [os.WriteFile] truncates the file when it opens it, so a failure after that
    leaves a prefix of the data. *)
Inductive write_outcome := WriteAll | OpenFails | WriteFails (written : nat).

(** What the operating system answers for a path, the state of the file apart. *)
Record Disk := MkDisk {
  stat_ok : gostring → bool;
  read_ok : gostring → bool;
  mkdir_ok : gostring → bool;
  write_result : gostring → write_outcome;
}.

Definition os_Stat (d : Disk) (path : gostring) (fs : FS) : bool :=
  stat_ok d path && bool_decide (is_Some (fs !! path)).

Definition os_ReadFile (d : Disk) (path : gostring) (fs : FS) : option bytes :=
  match fs !! path with
  | Some (EFile data) => if read_ok d path then Some data else None
  | _ => None
  end.

Definition os_WriteFile (d : Disk) (path : gostring) (data : bytes) (fs : FS) : FS * bool :=
  match fs !! path, write_result d path with
  | Some EDir, _ | _, OpenFails => (fs, false)
  | _, WriteAll => (<[path := EFile data]> fs, true)
  | _, WriteFails k => (<[path := EFile (take k data)]> fs, false)
  end.

Definition SaveIdentity (d : Disk) (i : Identity) (path : gostring) (fs : FS) : FS * option string :=
  if negb (mkdir_ok d path) then (fs, Some "create directory failed"%string) else
  let '(fs', written) := os_WriteFile d path (ToJSON i) fs in
  (fs', if (written : bool) then None else Some "write identity file failed"%string).

Definition LoadIdentity (d : Disk) (path : gostring) (fs : FS) : res Identity :=
  match os_ReadFile d path fs with
  | None => Err "read identity file failed"
  | Some jsonData => IdentityFromJSON jsonData
  end.

Definition create_identity (d : Disk) (entropy : option bytes) (path : gostring) (fs : FS) : FS * res Identity :=
  match NewIdentity entropy with
  | Ok id =>
      let '(fs', err) := SaveIdentity d id path fs in
      match err with
      | Some e => (fs', Err e)
      | None => (fs', Ok id)
      end
  | r => (fs, r)
  end.

Definition LoadOrCreateIdentity (d : Disk) (entropy : option bytes) (path : gostring) (fs : FS) : FS * res Identity :=
  if os_Stat d path fs then
    match LoadIdentity d path fs with
    | Ok id => (fs, Ok id)
    | _ => create_identity d entropy path fs
    end
  else create_identity d entropy path fs.

Definition IdentityExists (d : Disk) (path : gostring) (fs : FS) : bool := os_Stat d path fs.

(** ** Hexadecimal *)

Lemma hex_value_digit n : 0 ≤ n < 16 → hex_value (hex_digit n) = Some n.
Proof.
  intros Hn. rewrite <- (Z2Nat.id n) by lia. assert (Z.to_nat n < 16)%nat as Hk by lia.
  clear Hn. revert Hk. generalize (Z.to_nat n). intros k Hk.
  do 16 (destruct k as [|k]; [reflexivity|]). lia.
Qed.

Lemma hex_roundtrip l : hex_DecodeString (hex_EncodeToString l) = Some l.
Proof.
  induction l as [|b l IH]; [done|].
  change (hex_EncodeToString (b :: l)) with
    (hex_digit (Z_of_byte b / 16) :: hex_digit (Z_of_byte b mod 16) :: hex_EncodeToString l).
  pose proof (Z_of_byte_range b). cbn [hex_DecodeString].
  rewrite !hex_value_digit by (Z.div_mod_to_equations; lia). cbn [mbind option_bind]. rewrite IH. cbn.
  do 2 f_equal. rewrite <- (byte_of_Z_of_byte b) at 3. f_equal. Z.div_mod_to_equations; lia.
Qed.

Lemma hex_ascii l : Forall ascii7 (hex_EncodeToString l).
Proof.
  apply Forall_forall. intros c Hc. apply list_elem_of_bind in Hc as (b & Hc & _).
  pose proof (Z_of_byte_range b). unfold ascii7.
  assert (∀ n, 0 ≤ n < 16 → Z_of_byte (hex_digit n) < 128) as Hd.
  { intros n Hn. unfold hex_digit. rewrite Z_of_byte_of_Z. zcase; rewrite Z.mod_small; lia. }
  apply list_elem_of_In in Hc. destruct Hc as [<-|[<-|[]]]; apply Hd; Z.div_mod_to_equations; lia.
Qed.

(** ** Well-formed identities *)

(** Every key is the one the private key determines. *)
Definition identity_wf (i : Identity) : Prop :=
  len (PrivateKey i) = PrivateKeySize ∧ i = derive_identity (PrivateKey i) (subslice (PrivateKey i) 32 64).

Lemma from_private_key_ok privKey i :
  IdentityFromPrivateKey privKey = Ok i ↔ PrivateKey i = privKey ∧ identity_wf i.
Proof.
  unfold IdentityFromPrivateKey, identity_wf. destruct (Z.eqb_spec (len privKey) PrivateKeySize); cbn [negb].
  - split; [by intros [= <-]|]. by intros (<- & _ & ->).
  - split; [done|]. intros (<- & ? & _). done.
Qed.

Lemma from_json_wf data i : IdentityFromJSON data = Ok i → identity_wf i.
Proof.
  unfold IdentityFromJSON. destruct (Unmarshal_field _ _); [|done].
  destruct (hex_DecodeString _) as [p|]; [|done]. destruct (negb _); [done|].
  by intros (_ & Hwf)%from_private_key_ok.
Qed.

Lemma new_identity_wf `{!KeyLaws} seed i :
  len seed = SeedSize → NewIdentity (Some seed) = Ok i → identity_wf i.
Proof.
  intros Hs [= <-]. pose proof (len_ed_public seed). unfold SeedSize in Hs. split; cbn [derive_identity PrivateKey].
  - rewrite len_app. unfold PrivateKeySize. lia.
  - rewrite <- (app_nil_r (seed ++ ed_public seed)) at 3. rewrite <- app_assoc.
    by rewrite (subslice_mid seed (ed_public seed) []) by lia.
Qed.

Lemma json_roundtrip i : identity_wf i → IdentityFromJSON (ToJSON i) = Ok i.
Proof.
  intros Hwf. unfold IdentityFromJSON, ToJSON. rewrite Unmarshal_Marshal.
  - rewrite hex_roundtrip. destruct Hwf as [Hl Hi]. rewrite Hl. cbn [negb].
    by apply from_private_key_ok.
  - by repeat constructor.
  - apply hex_ascii.
Qed.

(** ** The identity file *)

Lemma load_saved d i path fs fs' :
  identity_wf i → read_ok d path = true → SaveIdentity d i path fs = (fs', None) → LoadIdentity d path fs' = Ok i.
Proof.
  intros Hwf Hr. unfold SaveIdentity, os_WriteFile, LoadIdentity, os_ReadFile.
  destruct (negb _); [done|].
  destruct (fs !! path) as [[]|], (write_result d path); intros [= <-];
    rewrite lookup_insert_eq, Hr; by apply json_roundtrip.
Qed.

Lemma create_ok d seed path fs fs' i :
  create_identity d (Some seed) path fs = (fs', Ok i) →
  NewIdentity (Some seed) = Ok i ∧ SaveIdentity d i path fs = (fs', None).
Proof.
  unfold create_identity. cbn [NewIdentity].
  destruct (SaveIdentity _ _ _ _) as [f [e|]] eqn:E; [done|]. by intros [= -> <-].
Qed.

Lemma create_fresh d seed path fs fs' i :
  fs !! path = None → create_identity d (Some seed) path fs = (fs', Ok i) →
  NewIdentity (Some seed) = Ok i ∧ fs' = <[path := EFile (ToJSON i)]> fs.
Proof.
  intros Hn (Hi & Hsave)%create_ok. split; [done|]. revert Hsave.
  unfold SaveIdentity, os_WriteFile. rewrite Hn. destruct (negb _); [done|].
  destruct (write_result d path); by intros [= <-].
Qed.

(** Either the stored identity was loaded, or a new one was saved. *)
Lemma load_or_create_cases d seed path fs fs' i :
  LoadOrCreateIdentity d (Some seed) path fs = (fs', Ok i) →
  (fs' = fs ∧ LoadIdentity d path fs = Ok i)
  ∨ (NewIdentity (Some seed) = Ok i ∧ SaveIdentity d i path fs = (fs', None)).
Proof.
  unfold LoadOrCreateIdentity. destruct (os_Stat d path fs); [|intros ?%create_ok; by right].
  destruct (LoadIdentity d path fs) as [i'| |]; [|intros ?%create_ok; by right..].
  intros [= -> ->]. by left.
Qed.

Lemma load_some d path fs i : LoadIdentity d path fs = Ok i → is_Some (fs !! path) ∧ identity_wf i.
Proof.
  unfold LoadIdentity, os_ReadFile. destruct (fs !! path) as [[data|]|]; [|done..].
  destruct (read_ok d path); [|done]. intros ?%from_json_wf. by eauto.
Qed.

Lemma load_or_create_wf `{!KeyLaws} d seed path fs fs' i :
  len seed = SeedSize → LoadOrCreateIdentity d (Some seed) path fs = (fs', Ok i) → identity_wf i.
Proof.
  intros Hs [(_ & Hi)|(Hi & _)]%load_or_create_cases; [by apply load_some in Hi as [_ ?]|].
  by eapply new_identity_wf.
Qed.

Lemma load_or_create_loads `{!KeyLaws} d seed path fs fs' i :
  stat_ok d path = true → read_ok d path = true → len seed = SeedSize →
  LoadOrCreateIdentity d (Some seed) path fs = (fs', Ok i) →
  LoadIdentity d path fs' = Ok i ∧ is_Some (fs' !! path).
Proof.
  intros Hst Hr Hs [(-> & Hi)|(Hi & Hsave)]%load_or_create_cases.
  - by apply load_some in Hi as Hx; destruct Hx.
  - assert (LoadIdentity d path fs' = Ok i) as Hl by (eapply load_saved; eauto using new_identity_wf).
    split; [done|]. by apply load_some in Hl as [? _].
Qed.

Lemma sha_prefix16 m : copy_at (make_bytes 16) 0 (subslice (sha256_Sum256 m) 0 16) = take 16 (sha256_Sum256 m).
Proof.
  assert (len (subslice (sha256_Sum256 m) 0 16) = 16) as Hl
    by (rewrite len_subslice by (rewrite ?len_sha256; lia); lia).
  rewrite fill_first by lia. rewrite Hl, make_bytes_0 by lia. by rewrite app_nil_r.
Qed.

(** The lengths and the derivations a well-formed identity has. *)
Lemma identity_wf_shape `{!KeyLaws} i : identity_wf i →
  len (PrivateKey i) = 64 ∧ PublicKey i = drop 32 (PrivateKey i)
  ∧ NoisePrivateKey i = take 32 (PrivateKey i) ∧ NoisePublicKey i = ScalarBaseMult (NoisePrivateKey i)
  ∧ len (NoisePublicKey i) = 32 ∧ id_ID i = take 16 (sha256_Sum256 (NoisePublicKey i)) ∧ len (id_ID i) = 16.
Proof.
  intros [Hl Hi]. unfold PrivateKeySize in Hl. rewrite Hi. unfold derive_identity.
  cbn [PrivateKey PublicKey NoisePrivateKey NoisePublicKey id_ID]. rewrite len_ScalarBaseMult, sha_prefix16.
  assert (len (subslice (PrivateKey i) 0 32) = 32) as H32 by (rewrite len_subslice by lia; lia).
  rewrite fill_first by lia. rewrite H32, make_bytes_0, app_nil_r by lia. split_and!; try done.
  unfold subslice. apply take_ge. rewrite length_drop, length_len. lia.
Qed.

(** A signature made with a fresh identity verifies. *)
Lemma sign_verify `{!KeyLaws} seed i m :
  len seed = SeedSize → NewIdentity (Some seed) = Ok i →
  ∃ sig, Identity_Sign i m = Ok sig ∧ Identity_Verify i m sig = Ok true.
Proof.
  intros Hs [= <-]. unfold Identity_Sign, Identity_Verify. cbn [derive_identity PrivateKey PublicKey].
  rewrite len_app, len_ed_public, Hs. cbn. eexists. split; [done|]. by rewrite ed_verify_sign.
Qed.

(** C33: whatever way an identity is obtained (fresh keys, a private key, JSON data, or the identity file), its keys have the
    lengths of their Go types, the public key is the second half of the private key, the Noise key pair is derived from the
    first half, and the ID is the first 16 bytes of the hash of the Noise public key. *)
Theorem identity_keys `{!KeyLaws} i :
  (∃ seed, len seed = SeedSize ∧ NewIdentity (Some seed) = Ok i)
  ∨ (∃ privKey, IdentityFromPrivateKey privKey = Ok i)
  ∨ (∃ data, IdentityFromJSON data = Ok i)
  ∨ (∃ d seed path fs fs', len seed = SeedSize ∧ LoadOrCreateIdentity d (Some seed) path fs = (fs', Ok i)) →
  len (PrivateKey i) = 64 ∧ PublicKey i = drop 32 (PrivateKey i)
  ∧ NoisePrivateKey i = take 32 (PrivateKey i) ∧ NoisePublicKey i = ScalarBaseMult (NoisePrivateKey i)
  ∧ len (NoisePublicKey i) = 32 ∧ id_ID i = take 16 (sha256_Sum256 (NoisePublicKey i)) ∧ len (id_ID i) = 16.
Proof.
  intros Hi. apply identity_wf_shape.
  destruct Hi as [(seed & Hs & Hi)|[(p & Hi)|[(data & Hi)|(d & seed & path & fs & fs' & Hs & Hi)]]].
  - by eapply new_identity_wf.
  - by apply from_private_key_ok in Hi as [_ ?].
  - by eapply from_json_wf.
  - by eapply load_or_create_wf.
Qed.

(** An identity survives its JSON form: what ToJSON writes, IdentityFromJSON reads back as the same identity, and
    the same holds through a file that SaveIdentity wrote and that can be read. *)
Theorem identity_json_roundtrip d i path fs fs' :
  identity_wf i → read_ok d path = true → SaveIdentity d i path fs = (fs', None) →
  IdentityFromJSON (ToJSON i) = Ok i ∧ LoadIdentity d path fs' = Ok i.
Proof.
  intros Hwf Hr Hsave. split; [by apply json_roundtrip|]. by eapply load_saved.
Qed.

(** The identity of a node is stable: once LoadOrCreateIdentity has returned an identity for a path whose file can be
    looked up and read, every later call returns the same identity and leaves the file as it is, whatever randomness is
    available; a first call on an absent file stores the fresh identity. *)
Theorem identity_persistent `{!KeyLaws} d seed path fs fs' i :
  stat_ok d path = true → read_ok d path = true → len seed = SeedSize →
  LoadOrCreateIdentity d (Some seed) path fs = (fs', Ok i) →
  (∀ entropy, LoadOrCreateIdentity d entropy path fs' = (fs', Ok i))
  ∧ IdentityExists d path fs' = true
  ∧ (fs !! path = None → NewIdentity (Some seed) = Ok i ∧ fs' = <[path := EFile (ToJSON i)]> fs).
Proof.
  intros Hst Hr Hs Hi.
  destruct (load_or_create_loads d seed path fs fs' i Hst Hr Hs Hi) as [Hload Hsome].
  assert (os_Stat d path fs' = true) as Hstat
    by (unfold os_Stat; rewrite Hst; cbn; by apply bool_decide_eq_true).
  split_and!; [|done|].
  - intros entropy. unfold LoadOrCreateIdentity. by rewrite Hstat, Hload.
  - intros Hn. revert Hi. unfold LoadOrCreateIdentity, os_Stat. rewrite Hn, andb_false_r.
    apply create_fresh, Hn.
Qed.

End identity.

(** ** Executable keys, as evidence that the laws can hold *)

Module ToyKeys.
#[export] Instance toy_ed : Ed25519 := {
  ed_public seed := take 32 (copy_at (make_bytes 32) 0 seed);
  ed_sign priv m := sha256_Sum256 (take 32 priv ++ m);
  ed_verify pub m sig := bool_decide (sig = sha256_Sum256 (pub ++ m));
}.
#[export] Instance toy_curve : Curve25519 := { ScalarBaseMult k := sha256_Sum256 k }.

#[export] Instance toy_key_laws : KeyLaws.
Proof.
  assert (∀ seed, len (take 32 (copy_at (make_bytes 32) 0 seed)) = 32) as Hlen.
  { intros seed. unfold copy_at, make_bytes, len.
    rewrite !length_take, !length_app, !length_take, length_drop, !length_replicate. lia. }
  split.
  - exact Hlen.
  - intros k. apply len_sha256.
  - intros seed m Hs. cbn [ed_verify ed_sign ed_public toy_ed].
    apply bool_decide_eq_true. f_equal. f_equal.
    rewrite fill_first by lia. rewrite Hs, make_bytes_0, app_nil_r by lia.
    rewrite (take_ge seed) by (rewrite length_len; lia).
    by rewrite take_app_length' by (rewrite length_len; lia).
Qed.

Definition demo_seed : bytes := replicate 32 x07.
Definition demo_identity : Identity :=
  derive_identity (demo_seed ++ ed_public demo_seed) (ed_public demo_seed).
Definition demo_disk : Disk := MkDisk (λ _, true) (λ _, true) (λ _, true) (λ _, WriteAll).
Definition demo_path : gostring := str "keys/id.json".

Lemma identity_keys_witness : len (id_ID demo_identity) = 16.
Proof.
  refine (proj2 (proj2 (proj2 (proj2 (proj2 (proj2 (identity_keys demo_identity _))))))).
  left. exists demo_seed. split; reflexivity.
Defined.

Lemma identity_json_roundtrip_witness : IdentityFromJSON (ToJSON demo_identity) = Ok demo_identity.
Proof.
  refine (proj1 (identity_json_roundtrip demo_disk demo_identity demo_path ∅
    {[demo_path := EFile (ToJSON demo_identity)]} _ _ _)).
  - split; reflexivity.
  - reflexivity.
  - reflexivity.
Defined.

Lemma identity_persistent_witness :
  LoadOrCreateIdentity demo_disk None demo_path {[demo_path := EFile (ToJSON demo_identity)]}
  = ({[demo_path := EFile (ToJSON demo_identity)]}, Ok demo_identity).
Proof.
  refine (proj1 (identity_persistent demo_disk demo_seed demo_path ∅
    {[demo_path := EFile (ToJSON demo_identity)]} demo_identity _ _ _ _) None); reflexivity.
Defined.
End ToyKeys.
