(* ===== verification/Session.v ===== *)
(** * Handshakes and encrypted sessions ([crypto/noise.go], [crypto/session.go])

    The Noise protocol itself is the third-party package [flynn/noise]; the
    class [Noise] names the operations of it the program calls.  Everything
    that follows is stated for an arbitrary instance.  The laws the program
    relies on (an XX handshake ends with matching cipher states, a cipher state
    opens what its peer sealed) are the class [NoiseLaws]; [ToyNoise] is an
    executable instance that satisfies them. *)

From S2P Require Import Prelude.

(** ** The noise package *)

Class Noise := {
  NoiseHS : Type;                               (** [*noise.HandshakeState] *)
  NoiseCS : Type;                               (** [*noise.CipherState] *)
  (** [noise.NewHandshakeState(config)] with the XX pattern: initiator flag,
      prologue, static key pair, and the random bytes the library draws. *)
  noise_New : bool → bytes → bytes → bytes → bytes → option NoiseHS;
  (** [hs.WriteMessage(nil, payload)]: message, and the two cipher states when
      this message completes the handshake; [None] for an error. *)
  noise_WriteMessage : NoiseHS → bytes → NoiseHS * option (bytes * (option NoiseCS * option NoiseCS));
  (** [hs.ReadMessage(nil, msg)]: payload and the cipher states. *)
  noise_ReadMessage : NoiseHS → bytes → NoiseHS * option (bytes * (option NoiseCS * option NoiseCS));
  noise_PeerStatic : NoiseHS → bytes;
  noise_ChannelBinding : NoiseHS → bytes;
  (** [cs.Encrypt(nil, ad, p)] and [cs.Decrypt(nil, ad, c)]. *)
  noise_Encrypt : NoiseCS → bytes → bytes → NoiseCS * option bytes;
  noise_Decrypt : NoiseCS → bytes → bytes → NoiseCS * option bytes;
}.

(** A [*Session] pointer; the objects live in a heap [gmap SessRef Session]. *)
Abbreviation SessRef := positive.

(** [map[string]*Session]; a stored pointer may be nil. *)
Abbreviation SessionManager := (gmap gostring (option positive)).

(** ** Sessions *)

Section model.
Context {NL : Noise}.

Record Session := MkSession {
  sendCipher : option NoiseCS;
  recvCipher : option NoiseCS;
  remoteStaticKey : option bytes;
  handshakeHash : option bytes;
  sendNonce : Z;
  recvNonce : Z;
}.

Definition ErrSessionClosed : string := "session closed".

Definition Session_Encrypt (s : Session) (plaintext : bytes) : Session * res bytes :=
  match sendCipher s with
  | None => (s, Err ErrSessionClosed)
  | Some c =>
      let '(c', r) := noise_Encrypt c [] plaintext in
      let s' := MkSession (Some c') (recvCipher s) (remoteStaticKey s) (handshakeHash s)
                          (sendNonce s) (recvNonce s) in
      match r with
      | None => (s', Err "encrypt failed")
      | Some ciphertext => (s', Ok ciphertext)
      end
  end.

Definition Session_Decrypt (s : Session) (ciphertext : bytes) : Session * res bytes :=
  match recvCipher s with
  | None => (s, Err ErrSessionClosed)
  | Some c =>
      let '(c', r) := noise_Decrypt c [] ciphertext in
      let s' := MkSession (sendCipher s) (Some c') (remoteStaticKey s) (handshakeHash s)
                          (sendNonce s) (recvNonce s) in
      match r with
      | None => (s', Err "decrypt failed")
      | Some plaintext => (s', Ok plaintext)
      end
  end.

Definition RemotePublicKey (s : Session) : bytes := default [] (remoteStaticKey s).
Definition HandshakeHash (s : Session) : bytes := default [] (handshakeHash s).

(** [secureZero]: the contents of the slice after the call. *)
Definition secureZero (b : bytes) : bytes := make_bytes (len b).

(** [Close] also reports the contents the two key buffers are left with. *)
Definition Session_Close (s : Session) : Session * list bytes :=
  let wiped := option_list (secureZero <$> remoteStaticKey s)
               ++ option_list (secureZero <$> handshakeHash s) in
  (MkSession None None None None (sendNonce s) (recvNonce s), wiped).

(** ** Handshakes *)

Record HandshakeState := MkHandshake {
  hs : NoiseHS;
  isInitiator : bool;
  completed : bool;
  createdAt : Z;
}.

Definition prologue_of (networkSecret : bytes) : bytes := str "p2ptunnel-v1-" ++ networkSecret.

Definition NewInitiatorHandshake (localPrivateKey localPublicKey networkSecret : bytes)
    (random : bytes) (now : Z) : res (HandshakeState * bytes) :=
  _ ← guard_err ((len localPrivateKey <? 32) || (len localPublicKey <? 32)) "key too short";
  priv ← go_slice localPrivateKey 0 32;
  pub ← go_slice localPublicKey 0 32;
  match noise_New true (prologue_of networkSecret) priv pub random with
  | None => Err "create handshake state failed"
  | Some h =>
      match noise_WriteMessage h [] with
      | (_, None) => Err "write message 1 failed"
      | (h', Some (msg1, _)) => Ok (MkHandshake h' true false now, msg1)
      end
  end.

Definition NewResponderHandshake (localPrivateKey localPublicKey networkSecret : bytes)
    (random : bytes) (now : Z) : res HandshakeState :=
  _ ← guard_err ((len localPrivateKey <? 32) || (len localPublicKey <? 32)) "key too short";
  priv ← go_slice localPrivateKey 0 32;
  pub ← go_slice localPublicKey 0 32;
  match noise_New false (prologue_of networkSecret) priv pub random with
  | None => Err "create handshake state failed"
  | Some h => Ok (MkHandshake h false false now)
  end.

(** The session built from the two cipher states: the initiator sends with the
    first, the responder with the second. *)
Definition session_of (initiator : bool) (h : NoiseHS) (cs1 cs2 : NoiseCS) : Session :=
  let '(sc, rc) := if initiator then (cs1, cs2) else (cs2, cs1) in
  MkSession (Some sc) (Some rc) (Some (noise_PeerStatic h)) (Some (noise_ChannelBinding h)) 0 0.

(** [ProcessMessage]: a response to send, if any, and the session, if the
    handshake is complete. *)
Definition ProcessMessage (h : HandshakeState) (msg : bytes)
    : HandshakeState * res (option bytes * option Session) :=
  if completed h then (h, Err "handshake already completed") else
  let '(hs1, r) := noise_ReadMessage (hs h) msg in
  let h1 := MkHandshake hs1 (isInitiator h) (completed h) (createdAt h) in
  match r with
  | None => (h1, Err "read handshake message failed")
  | Some (payload, (Some cs1, Some cs2)) =>
      (MkHandshake hs1 (isInitiator h) true (createdAt h),
       Ok (None, Some (session_of (isInitiator h) hs1 cs1 cs2)))
  | Some (payload, _) =>
      let '(hs2, w) := noise_WriteMessage hs1 payload in
      let h2 := MkHandshake hs2 (isInitiator h) (completed h) (createdAt h) in
      match w with
      | None => (h2, Err "write handshake response failed")
      | Some (response, (Some cs1New, Some cs2New)) =>
          (MkHandshake hs2 (isInitiator h) true (createdAt h),
           Ok (Some response, Some (session_of (isInitiator h) hs2 cs1New cs2New)))
      | Some (response, _) => (h2, Ok (Some response, None))
      end
  end.

(** [HandshakeState.WriteMessage]. *)
Definition Handshake_WriteMessage (h : HandshakeState) (payload : bytes)
    : HandshakeState * res (bytes * option Session) :=
  let '(hs1, w) := noise_WriteMessage (hs h) payload in
  match w with
  | None => (MkHandshake hs1 (isInitiator h) (completed h) (createdAt h),
             Err "write handshake message failed")
  | Some (msg, (Some cs1, Some cs2)) =>
      (MkHandshake hs1 (isInitiator h) true (createdAt h),
       Ok (msg, Some (session_of (isInitiator h) hs1 cs1 cs2)))
  | Some (msg, _) =>
      (MkHandshake hs1 (isInitiator h) (completed h) (createdAt h), Ok (msg, None))
  end.

(** ** The session manager: sessions are shared by reference *)

Definition NewSessionManager : SessionManager := ∅.
Definition SessionManager_Add (sm : SessionManager) (peerID : gostring) (session : option SessRef)
  : SessionManager := <[peerID := session]> sm.
Definition SessionManager_Get (sm : SessionManager) (peerID : gostring) : option SessRef :=
  default None (sm !! peerID).
Definition SessionManager_Remove (sm : SessionManager) (peerID : gostring) : SessionManager :=
  delete peerID sm.
Definition SessionManager_Has (sm : SessionManager) (peerID : gostring) : bool :=
  bool_decide (is_Some (sm !! peerID)).
Definition SessionManager_Count (sm : SessionManager) : Z :=
  Z.of_nat (size sm).
Definition SessionManager_All (sm : SessionManager) : gmap gostring (option SessRef) := sm.

(** [s.Close()] on the shared object. *)
Definition heap_close (r : SessRef) (σ : gmap SessRef Session) : gmap SessRef Session :=
  alter (λ s, (Session_Close s).1) r σ.

(** [Clear] closes every session, in the order [range] visits them. *)
Definition SessionManager_Clear (sm : SessionManager) (σ : gmap SessRef Session) : SessionManager * gmap SessRef Session :=
  (∅, foldl (λ σ kv, match kv.2 with Some r => heap_close r σ | None => σ end) σ
        (map_to_list sm)).

End model.

(** ** The backup AES-GCM cipher, over the standard library's AEAD *)

Class AEAD := {
  aead_NonceSize : Z;
  aead_Seal : bytes → bytes → bytes;         (** nonce, plaintext *)
  aead_Open : bytes → bytes → option bytes;  (** nonce, ciphertext *)
}.

(** [NewAESGCMCipher]: [aead_of] is [cipher.NewGCM] of [aes.NewCipher]. *)
Definition NewAESGCMCipher (aead_of : bytes → res AEAD) (key : bytes) : res AEAD :=
  _ ← guard_err (negb (len key =? 32)) "key must be 32 bytes"; aead_of key.

(** [nonce] is what [rand.Read] fills in. *)
Definition AESGCM_Encrypt `{AEAD} (random : res bytes) (plaintext : bytes) : res bytes :=
  nonce ← random; Ok (nonce ++ aead_Seal nonce plaintext).

Definition AESGCM_Decrypt `{AEAD} (ciphertext : bytes) : res bytes :=
  _ ← guard_err (len ciphertext <? aead_NonceSize) "ciphertext too short";
  nonce ← go_slice ciphertext 0 aead_NonceSize;
  rest ← go_slice_from ciphertext aead_NonceSize;
  match aead_Open nonce rest with
  | None => Err "message authentication failed"
  | Some plaintext => Ok plaintext
  end.

(** ** What the program relies on of the noise package *)

Class NoiseLaws (NL : Noise) := {
  (** [paired s r]: [r] opens, in order, what [s] seals. *)
  paired : NoiseCS → NoiseCS → Prop;
  paired_open : ∀ s r p s' c,
    paired s r → noise_Encrypt s [] p = (s', Some c) →
    ∃ r', noise_Decrypt r [] c = (r', Some p) ∧ paired s' r';
  (** AES-GCM appends a tag of sixteen bytes. *)
  encrypt_overhead : ∀ s p s' c, noise_Encrypt s [] p = (s', Some c) → len c = len p + 16;
  (** [noise.DH25519]: the public key of a private key, Curve25519's base multiplication. *)
  dh_public : bytes → bytes;
  (** The XX pattern: three messages, under equal prologues, between two parties whose
      public keys belong to their private keys (otherwise [es] or [se] does not agree);
      the responder draws an ephemeral key of 32 bytes. *)
  xx_run : ∀ prologue privI pubI rndI privR pubR rndR i0 r0 i1 m1 x,
    pubI = dh_public privI → pubR = dh_public privR → len rndR = 32 →
    noise_New true prologue privI pubI rndI = Some i0 →
    noise_New false prologue privR pubR rndR = Some r0 →
    noise_WriteMessage i0 [] = (i1, Some (m1, x)) →
    ∃ r1 r2 r3 i2 i3 m2 m3 a b a' b',
      noise_ReadMessage r0 m1 = (r1, Some ([], (None, None)))
      ∧ noise_WriteMessage r1 [] = (r2, Some (m2, (None, None)))
      ∧ noise_ReadMessage i1 m2 = (i2, Some ([], (None, None)))
      ∧ noise_WriteMessage i2 [] = (i3, Some (m3, (Some a, Some b)))
      ∧ noise_ReadMessage r2 m3 = (r3, Some ([], (Some a', Some b')))
      ∧ paired a a' ∧ paired b' b
      ∧ noise_PeerStatic i3 = pubR ∧ noise_PeerStatic r3 = pubI;
  (** Parties with different prologues: the first message is unauthenticated,
      reading the second fails. *)
  xx_prologue_mismatch : ∀ prI prR privI pubI rndI privR pubR rndR i0 r0 i1 m1 x r1 p y r2 m2 z,
    prI ≠ prR →
    noise_New true prI privI pubI rndI = Some i0 →
    noise_New false prR privR pubR rndR = Some r0 →
    noise_WriteMessage i0 [] = (i1, Some (m1, x)) →
    noise_ReadMessage r0 m1 = (r1, Some (p, y)) →
    noise_WriteMessage r1 p = (r2, Some (m2, z)) →
    (noise_ReadMessage i1 m2).2 = None;
}.

(** ** An executable instance *)

Module ToyNoise.

Record toy_hs := MkToyHS {
  t_init : bool; t_stage : Z; t_prologue : bytes; t_pub : bytes; t_peer : bytes }.

Definition toy_new (init : bool) (prologue priv pub rnd : bytes) : option toy_hs :=
  if len pub =? 32 then Some (MkToyHS init 0 prologue pub []) else None.

Definition toy_advance (h : toy_hs) (peer : bytes) : toy_hs :=
  MkToyHS (t_init h) (t_stage h + 1) (t_prologue h) (t_pub h) peer.

Definition toy_split : option Z * option Z := (Some 0, Some 0).

(** Message [k] is the byte [k], then, from the second on, the sender's public
    key and the prologue. *)
Definition toy_write (h : toy_hs) (payload : bytes)
    : toy_hs * option (bytes * (option Z * option Z)) :=
  if t_stage h =? 0 then (toy_advance h [], Some ([x01], (None, None)))
  else if t_stage h =? 1 then
    (toy_advance h (t_peer h), Some (x02 :: t_pub h ++ t_prologue h, (None, None)))
  else (toy_advance h (t_peer h), Some (x03 :: t_pub h ++ t_prologue h, toy_split)).

Definition toy_read (h : toy_hs) (msg : bytes)
    : toy_hs * option (bytes * (option Z * option Z)) :=
  match msg with
  | b :: rest =>
      if Z_of_byte b =? 1 then (toy_advance h [], Some ([], (None, None)))
      else if bool_decide (drop 32 rest = t_prologue h) then
        (toy_advance h (take 32 rest),
         Some ([], if Z_of_byte b =? 3 then toy_split else (None, None)))
      else (h, None)
  | [] => (h, None)
  end.

Definition toy_encrypt (n : Z) (ad p : bytes) : Z * option bytes :=
  (n + 1, Some (byte_of_Z n :: make_bytes 15 ++ p)).

Definition toy_decrypt (n : Z) (ad c : bytes) : Z * option bytes :=
  match c with
  | b :: rest => if bool_decide (b = byte_of_Z n) then (n + 1, Some (drop 15 rest)) else (n, None)
  | [] => (n, None)
  end.

#[export] Instance toy_noise : Noise := {|
  NoiseHS := toy_hs; NoiseCS := Z; noise_New := toy_new;
  noise_WriteMessage := toy_write; noise_ReadMessage := toy_read;
  noise_PeerStatic := t_peer; noise_ChannelBinding := t_prologue;
  noise_Encrypt := toy_encrypt; noise_Decrypt := toy_decrypt |}.

Lemma toy_new_Some init pr priv pub rnd h :
  toy_new init pr priv pub rnd = Some h → h = MkToyHS init 0 pr pub [] ∧ len pub = 32.
Proof. unfold toy_new. intros H. zcase_in H; naive_solver. Qed.

Lemma toy_key_split (pub pr : bytes) : len pub = 32 → take 32 (pub ++ pr) = pub ∧ drop 32 (pub ++ pr) = pr.
Proof.
  intros H. unfold len in H.
  by rewrite take_app_length', drop_app_length' by lia.
Qed.

Lemma toy_read_key h b (pub pr : bytes) :
  len pub = 32 → Z_of_byte b ≠ 1 → pr = t_prologue h →
  toy_read h (b :: pub ++ pr) =
    (toy_advance h pub, Some ([], if Z_of_byte b =? 3 then toy_split else (None, None))).
Proof.
  intros Hp Hb ->. unfold toy_read. destruct (toy_key_split pub (t_prologue h) Hp) as [-> ->].
  destruct (Z.eqb_spec (Z_of_byte b) 1); [done|]. by rewrite bool_decide_true.
Qed.

#[export] Program Instance toy_laws : NoiseLaws toy_noise := {| paired := λ s r, s = r; dh_public := λ k, k |}.
Next Obligation.
  intros s r p s' c -> [= <- <-]. exists (r + 1). cbn.
  by rewrite bool_decide_true.
Qed.
Next Obligation. intros s p s' c [= <- <-]. rewrite !len_cons. lia. Qed.
Next Obligation.
  intros pr ? pubI ? ? pubR ? ? ? ? ? ? _ _ _ [-> HI]%toy_new_Some [-> HR]%toy_new_Some [= <- <- <-].
  do 11 eexists. split_and!.
  - reflexivity.
  - reflexivity.
  - etransitivity; [by apply toy_read_key | reflexivity].
  - reflexivity.
  - etransitivity; [by apply toy_read_key | reflexivity].
  - reflexivity.
  - reflexivity.
  - reflexivity.
  - reflexivity.
Qed.
Next Obligation.
  intros prI prR ? ? ? ? ? ? ? ? ? ? ? ? ? ? ? ? ? Hne [-> HI]%toy_new_Some [-> HR]%toy_new_Some [= <- <- <-].
  cbn. intros [= <- <- <-] [= <- <- <-]. cbn.
  edestruct toy_key_split as [_ ->]; [exact HR|].
  by rewrite bool_decide_false by done.
Qed.

End ToyNoise.

(** ** Sessions as secure channels *)

Section laws.
Context {NL : Noise} {LW : NoiseLaws NL}.

(** [sess_synced a b]: [b] opens what [a] seals. *)
Definition sess_synced (a b : Session) : Prop :=
  ∃ s r, sendCipher a = Some s ∧ recvCipher b = Some r ∧ paired s r.

Lemma session_transfer a b p a' c :
  sess_synced a b → Session_Encrypt a p = (a', Ok c) →
  ∃ b', Session_Decrypt b c = (b', Ok p) ∧ sess_synced a' b' ∧ len c = len p + 16.
Proof.
  intros (s & r & Hs & Hr & Hp) He. unfold Session_Encrypt in He. rewrite Hs in He.
  destruct (noise_Encrypt s [] p) as [s' [c'|]] eqn:E; simplify_eq.
  destruct (paired_open _ _ _ _ _ Hp E) as (r' & Hd & Hp').
  exists (MkSession (sendCipher b) (Some r') (remoteStaticKey b) (handshakeHash b)
            (sendNonce b) (recvNonce b)).
  unfold Session_Decrypt. rewrite Hr, Hd. split_and!; [done| |by eapply encrypt_overhead].
  by exists s', r'.
Qed.

(** The network carries the initiator's first message to the responder and the
    replies back and forth: the responder answers, the initiator answers and
    completes, the responder completes. *)
Definition run_handshake (hI hR : HandshakeState) (m1 : bytes)
    : option (HandshakeState * HandshakeState * Session * Session) :=
  match ProcessMessage hR m1 with
  | (hR1, Ok (Some m2, None)) =>
      match ProcessMessage hI m2 with
      | (hI1, Ok (Some m3, Some sI)) =>
          match ProcessMessage hR1 m3 with
          | (hR2, Ok (None, Some sR)) => Some (hI1, hR2, sI, sR)
          | _ => None
          end
      | _ => None
      end
  | _ => None
  end.

Lemma NewInitiatorHandshake_Ok priv pub secret rnd now h m :
  NewInitiatorHandshake priv pub secret rnd now = Ok (h, m) →
  32 ≤ len priv ∧ 32 ≤ len pub ∧ ∃ n0 n1 x,
    noise_New true (prologue_of secret) (subslice priv 0 32) (subslice pub 0 32) rnd = Some n0
    ∧ noise_WriteMessage n0 [] = (n1, Some (m, x)) ∧ h = MkHandshake n1 true false now.
Proof.
  unfold NewInitiatorHandshake, guard_err. intros H.
  destruct (Z.ltb_spec (len priv) 32), (Z.ltb_spec (len pub) 32); try discriminate H.
  cbn in H. rewrite !go_slice_ok in H by lia. cbn in H.
  destruct (noise_New _ _ _ _ _) as [n0|] eqn:E; [|done].
  destruct (noise_WriteMessage n0 []) as [n1 [[m' x]|]] eqn:W; simplify_eq. naive_solver.
Qed.

Lemma NewResponderHandshake_Ok priv pub secret rnd now h :
  NewResponderHandshake priv pub secret rnd now = Ok h →
  32 ≤ len priv ∧ 32 ≤ len pub ∧ ∃ n0,
    noise_New false (prologue_of secret) (subslice priv 0 32) (subslice pub 0 32) rnd = Some n0
    ∧ h = MkHandshake n0 false false now.
Proof.
  unfold NewResponderHandshake, guard_err. intros H.
  destruct (Z.ltb_spec (len priv) 32), (Z.ltb_spec (len pub) 32); try discriminate H.
  cbn in H. rewrite !go_slice_ok in H by lia. cbn in H.
  destruct (noise_New _ _ _ _ _) as [n0|] eqn:E; simplify_eq. naive_solver.
Qed.

(** The three messages of an exchange under one network password, between parties whose
    public keys belong to their private keys. *)
Definition key_pair (priv pub : bytes) : Prop := subslice pub 0 32 = dh_public (subslice priv 0 32).

Lemma handshake_messages privI pubI rndI tI privR pubR rndR tR secret hI m1 hR
  (KI : key_pair privI pubI) (KR : key_pair privR pubR) (Hrnd : len rndR = 32)
  (HI : NewInitiatorHandshake privI pubI secret rndI tI = Ok (hI, m1))
  (HR : NewResponderHandshake privR pubR secret rndR tR = Ok hR) :
  ∃ m2 m3 hR1 hI' hR' sI sR,
    ProcessMessage hR m1 = (hR1, Ok (Some m2, None))
    ∧ ProcessMessage hI m2 = (hI', Ok (Some m3, Some sI))
    ∧ ProcessMessage hR1 m3 = (hR', Ok (None, Some sR))
    ∧ sess_synced sI sR ∧ sess_synced sR sI
    ∧ RemotePublicKey sI = subslice pubR 0 32 ∧ RemotePublicKey sR = subslice pubI 0 32
    ∧ completed hI' = true ∧ completed hR' = true.
Proof.
  apply NewInitiatorHandshake_Ok in HI as (? & ? & i0 & i1 & x & Hi & Hw & ->).
  apply NewResponderHandshake_Ok in HR as (? & ? & r0 & Hr & ->).
  destruct (xx_run _ _ _ _ _ _ _ _ _ _ _ _ KI KR Hrnd Hi Hr Hw)
    as (r1 & r2 & r3 & i2 & i3 & m2 & m3 & a & b & a' & b' & E1 & E2 & E3 & E4 & E5 & P1 & P2 & K1 & K2).
  do 7 eexists. unfold ProcessMessage. cbn [completed hs isInitiator].
  rewrite E1, E2. split; [reflexivity|]. rewrite E3, E4. split; [reflexivity|].
  cbn [completed hs isInitiator]. rewrite E5. split; [reflexivity|]. unfold RemotePublicKey, sess_synced. cbn.
  naive_solver.
Qed.

(** Two nodes with the same network password and with keys that belong together whose
    handshake states were created without error complete the three message exchange; each then holds
    a session that opens what the other seals, and knows the other's static
    public key (from which the peer ID is derived). *)
Theorem handshake_establishes_sessions privI pubI rndI tI privR pubR rndR tR secret hI m1 hR
  (KI : key_pair privI pubI) (KR : key_pair privR pubR) (Hrnd : len rndR = 32)
  (HI : NewInitiatorHandshake privI pubI secret rndI tI = Ok (hI, m1))
  (HR : NewResponderHandshake privR pubR secret rndR tR = Ok hR) :
  ∃ hI' hR' sI sR, run_handshake hI hR m1 = Some (hI', hR', sI, sR)
    ∧ sess_synced sI sR ∧ sess_synced sR sI
    ∧ RemotePublicKey sI = subslice pubR 0 32 ∧ RemotePublicKey sR = subslice pubI 0 32
    ∧ completed hI' = true ∧ completed hR' = true.
Proof.
  destruct (handshake_messages _ _ _ _ _ _ _ _ _ _ _ _ KI KR Hrnd HI HR)
    as (m2 & m3 & hR1 & hI' & hR' & sI & sR & E1 & E2 & E3 & H).
  exists hI', hR', sI, sR. split; [|done]. unfold run_handshake. by rewrite E1, E2, E3.
Qed.

(** C15: a node whose network password differs never completes the exchange: the
    initiator's processing of the responder's reply is an error and yields no
    session. *)
Theorem handshake_password_mismatch privI pubI rndI tI privR pubR rndR tR secretI secretR
    hI m1 hR hR1 m2 oS
  (Hne : secretI ≠ secretR)
  (HI : NewInitiatorHandshake privI pubI secretI rndI tI = Ok (hI, m1))
  (HR : NewResponderHandshake privR pubR secretR rndR tR = Ok hR)
  (Hreply : ProcessMessage hR m1 = (hR1, Ok (Some m2, oS))) :
  (ProcessMessage hI m2).2 = Err "read handshake message failed"
  ∧ run_handshake hI hR m1 = None.
Proof.
  apply NewInitiatorHandshake_Ok in HI as (? & ? & i0 & i1 & x & Hi & Hw & ->).
  apply NewResponderHandshake_Ok in HR as (? & ? & r0 & Hr & ->).
  assert (prologue_of secretI ≠ prologue_of secretR) as Hpr
    by (unfold prologue_of; intros ?%app_inv_head; done).
  unfold run_handshake. rewrite Hreply. revert Hreply.
  unfold ProcessMessage. cbn [completed hs isInitiator].
  destruct (noise_ReadMessage r0 m1) as [r1 [[p y]|]] eqn:E1; [|done].
  destruct y as [[c1|] [c2|]]; try done;
    destruct (noise_WriteMessage r1 p) as [r2 [[m z]|]] eqn:E2; try done;
    intros Hreply;
    assert (m = m2) as -> by (by destruct z as [[?|] [?|]]; simplify_eq);
    pose proof (xx_prologue_mismatch _ _ _ _ _ _ _ _ _ _ _ _ _ _ _ _ _ _ _ Hpr Hi Hr Hw E1 E2) as Hf;
    destruct (noise_ReadMessage i1 m2) as [i2 o]; cbn in Hf; subst o;
    by destruct oS.
Qed.

End laws.

(** ** Closing *)

Section closing.
Context {NL : Noise}.

Definition sess_closed (s : Session) : Prop :=
  sendCipher s = None ∧ recvCipher s = None ∧ remoteStaticKey s = None ∧ handshakeHash s = None.

Definition clear_step (σ : gmap SessRef Session) (kv : gostring * option SessRef) :=
  match kv.2 with Some r => heap_close r σ | None => σ end.

Lemma clear_step_lookup σ kv r :
  clear_step σ kv !! r =
    if decide (kv.2 = Some r) then (λ s, (Session_Close s).1) <$> σ !! r else σ !! r.
Proof.
  unfold clear_step, heap_close. destruct kv as [k [r'|]]; cbn [snd].
  - rewrite lookup_alter. repeat case_decide; naive_solver.
  - by rewrite decide_False.
Qed.

Lemma clear_fold_lookup (l : list (gostring * option SessRef)) σ r :
  foldl clear_step σ l !! r =
    if decide (Some r ∈ l.*2) then (λ s, (Session_Close s).1) <$> σ !! r else σ !! r.
Proof.
  revert σ. induction l as [|kv l IH]; intros σ; [done|]. cbn [foldl].
  rewrite IH, clear_step_lookup.
  destruct (decide (kv.2 = Some r)) as [E|E], (decide (Some r ∈ l.*2)) as [E'|E'].
  - rewrite decide_True by set_solver. by destruct (σ !! r).
  - by rewrite decide_True by set_solver.
  - by rewrite decide_True by set_solver.
  - rewrite decide_False; [done|]. set_solver.
Qed.

(** [SessionManager.Clear] empties the manager and closes exactly the
    sessions it holds: afterwards they refuse to encrypt and decrypt and keep
    no key material, while every other session is as it was. *)
Theorem session_manager_clear (sm : SessionManager) (σ : gmap SessRef Session) :
  let '(sm', σ') := SessionManager_Clear sm σ in
  sm' = NewSessionManager
  ∧ (∀ peerID r, SessionManager_Get sm peerID = Some r → ∀ s, σ' !! r = Some s →
       sess_closed s
       ∧ (∀ m, Session_Encrypt s m = (s, Err ErrSessionClosed))
       ∧ (∀ m, Session_Decrypt s m = (s, Err ErrSessionClosed)))
  ∧ (∀ r, (∀ peerID, SessionManager_Get sm peerID ≠ Some r) → σ' !! r = σ !! r)
  ∧ dom σ' = dom σ.
Proof.
  unfold SessionManager_Clear. change (λ σ kv, _) with clear_step.
  assert (∀ peerID r, SessionManager_Get sm peerID = Some r ↔ sm !! peerID = Some (Some r)) as Hget.
  { intros. unfold SessionManager_Get. destruct (sm !! peerID); naive_solver. }
  assert (∀ r, Some r ∈ (map_to_list sm).*2 ↔ ∃ peerID, SessionManager_Get sm peerID = Some r) as Hin.
  { intros r. rewrite list_elem_of_fmap. setoid_rewrite Hget. split.
    - intros ([k v] & Hv & Hk%elem_of_map_to_list). simpl in Hv; subst v. eauto.
    - intros [k Hk]. exists (k, Some r). by rewrite elem_of_map_to_list. }
  split_and!; [done| | |].
  - intros peerID r Hg s. rewrite clear_fold_lookup, decide_True by (apply Hin; eauto).
    intros ([] & ? & ?)%fmap_Some. simplify_eq. done.
  - intros r Hn. rewrite clear_fold_lookup, decide_False; [done|]. rewrite Hin. naive_solver.
  - apply set_eq. intros r. rewrite !elem_of_dom, clear_fold_lookup.
    case_decide; [|done]. by rewrite fmap_is_Some.
Qed.

End closing.

(** what [AESGCMCipher.Encrypt] returns, for any random nonce of the AEAD's
    size, [Decrypt] turns back into the plaintext; ciphertexts shorter than a
    nonce are refused with an error. *)
Theorem aesgcm_roundtrip `{AEAD} (nonce plaintext c : bytes)
  (Hsize : len nonce = aead_NonceSize)
  (Hopen : aead_Open nonce (aead_Seal nonce plaintext) = Some plaintext)
  (Henc : AESGCM_Encrypt (Ok nonce) plaintext = Ok c) :
  AESGCM_Decrypt c = Ok plaintext
  ∧ (∀ d, len d < aead_NonceSize → AESGCM_Decrypt d = Err "ciphertext too short").
Proof.
  cbn in Henc. simplify_eq. unfold AESGCM_Decrypt, guard_err. rewrite <- Hsize. split.
  - zcase; [len_solve|]. cbn.
    rewrite go_slice_prefix by done. cbn. rewrite go_slice_suffix by done.
    cbn. by rewrite Hopen.
  - intros d Hd. zcase; [done|lia].
Qed.

(** ** Witnesses *)

Module SessionWitness.
Import ToyNoise.

Definition key (b : byte) : bytes := replicate 32 b.

Definition initiator : HandshakeState :=
  MkHandshake (toy_advance (MkToyHS true 0 (prologue_of (str "pw")) (key x02) []) []) true false 7.
Definition responder (secret : bytes) : HandshakeState :=
  MkHandshake (MkToyHS false 0 (prologue_of secret) (key x04) []) false false 9.

Lemma handshake_establishes_sessions_witness :
  NewInitiatorHandshake (key x02) (key x02) (str "pw") [] 7 = Ok (initiator, [x01])
  ∧ NewResponderHandshake (key x04) (key x04) (str "pw") (key x00) 9 = Ok (responder (str "pw"))
  ∧ ∃ hI' hR' sI sR, run_handshake initiator (responder (str "pw")) [x01] = Some (hI', hR', sI, sR)
    ∧ sess_synced sI sR ∧ RemotePublicKey sI = key x04.
Proof.
  split; [reflexivity|]. split; [reflexivity|].
  destruct (handshake_establishes_sessions (key x02) (key x02) [] 7 (key x04) (key x04) (key x00) 9 (str "pw")
              initiator [x01] (responder (str "pw"))) as (hI' & hR' & sI & sR & H1 & H2 & H3 & H4 & _);
    [reflexivity .. |].
  exists hI', hR', sI, sR. split; [exact H1|]. split; [exact H2|]. rewrite H4. reflexivity.
Defined.

Lemma handshake_password_mismatch_witness :
  run_handshake initiator (responder (str "other")) [x01] = None.
Proof.
  eapply (handshake_password_mismatch (key x01) (key x02) [] 7 (key x03) (key x04) [] 9
    (str "pw") (str "other")); [discriminate | reflexivity | reflexivity | reflexivity].
Defined.

Definition rev_aead : AEAD := {|
  aead_NonceSize := 12;
  aead_Seal := λ nonce p, rev p;
  aead_Open := λ nonce c, Some (rev c) |}.

Lemma aesgcm_roundtrip_witness :
  @AESGCM_Decrypt rev_aead (make_bytes 12 ++ [x02; x01]) = Ok [x01; x02].
Proof.
  apply (@aesgcm_roundtrip rev_aead (make_bytes 12) [x01; x02]); reflexivity.
Defined.
End SessionWitness.
