(* ===== verification/Peer.v ===== *)
(** * Peers ([peer/peer.go])

    The state a node keeps per remote node: its transport, session reference,
    the channels it announced, statistics, the reassembly buffer for fragmented
    messages and the gates of the fast re-handshake.  A connection and a session
    are shared objects; the methods that close one report it as an effect, which
    the node applies. *)

From S2P Require Import Prelude Session.

(** ** Addresses and connections *)

(** The dynamic type of a [net.Addr] and its [String()]. *)
Inductive addr_kind := AddrUDP | AddrTCP | AddrOther.
#[global] Instance addr_kind_eq_dec : EqDecision addr_kind.
Proof. solve_decision. Defined.

Record Addr := MkAddr { a_kind : addr_kind; a_str : gostring }.
#[global] Instance addr_eq_dec : EqDecision Addr.
Proof. solve_decision. Defined.

(** The identity of a [net.Conn]. *)
Abbreviation ConnRef := positive.

Inductive peer_effect :=
| CloseConn (c : ConnRef)
| CloseSession (s : SessRef).

Inductive ConnState :=
| StateDisconnected
| StateConnecting
| StateHandshaking
| StateConnected
| StateDisconnecting.
#[global] Instance ConnState_eq_dec : EqDecision ConnState.
Proof. solve_decision. Defined.

Definition ConnState_String (s : ConnState) : string :=
  match s with
  | StateDisconnected => "Disconnected"
  | StateConnecting => "Connecting"
  | StateHandshaking => "Handshaking"
  | StateConnected => "Connected"
  | StateDisconnecting => "Disconnecting"
  end.

Record Peer := MkPeer {
  ID : gostring;
  Peer_Addr : option Addr;
  OriginalAddr : gostring;
  Conn : option ConnRef;
  Transport : string;
  LinkMode : string;
  RelayTarget : option Addr;
  Peer_Session : option SessRef;
  LastSeen : Time;
  RemoteChannels : option (gset bytes);
  State : ConnState;
  ConnectedAt : Time;
  BytesSent : Z;
  BytesReceived : Z;
  MessagesSent : Z;
  MessagesRecv : Z;
  ConnectLatency : Duration;
  ReassemblyBuffer : option bytes;
  LastFrameTime : Time;
  consecutiveDecryptFails : Z;
  consecutiveRehandshakeFails : Z;
  rehandshakeInFlight : bool;
  rehandshakeBackoff : Duration;
  rehandshakeNextAttempt : Time;
  rehandshakeWindowStart : Time;
  rehandshakeWindowCount : Z;
}.

#[global] Instance Peer_eta : RecordEta Peer := λ p,
  MkPeer (ID p) (Peer_Addr p) (OriginalAddr p) (Conn p) (Transport p) (LinkMode p) (RelayTarget p)
    (Peer_Session p) (LastSeen p) (RemoteChannels p) (State p) (ConnectedAt p) (BytesSent p)
    (BytesReceived p) (MessagesSent p) (MessagesRecv p) (ConnectLatency p) (ReassemblyBuffer p)
    (LastFrameTime p) (consecutiveDecryptFails p) (consecutiveRehandshakeFails p)
    (rehandshakeInFlight p) (rehandshakeBackoff p) (rehandshakeNextAttempt p)
    (rehandshakeWindowStart p) (rehandshakeWindowCount p).

(** [&peer.Peer{...}] as the handshake code writes it; other fields are zero. *)
Definition NewPeer (id : gostring) (addr : option Addr) (originalAddr : gostring)
    (conn : option ConnRef) (transport linkMode : string) (relayTarget : option Addr)
    (session : option SessRef) (now : Time) : Peer :=
  MkPeer id addr originalAddr conn transport linkMode relayTarget session now None
    StateDisconnected time_zero 0 0 0 0 0 None time_zero 0 0 false 0 time_zero time_zero 0.

(** ** Reassembly *)

Definition resetReassemblyLocked (p : Peer) : Peer :=
  p <| ReassemblyBuffer := None |> <| LastFrameTime := time_zero |>.

Definition ResetReassembly (p : Peer) : Peer := resetReassemblyLocked p.

Definition StartReassembly (p : Peer) (frameData : bytes) (now : Time) : Peer :=
  p <| ReassemblyBuffer := Some frameData |> <| LastFrameTime := now |>.

(** Returns whether the append succeeded and whether it overflowed. *)
Definition AppendReassembly (p : Peer) (frameData : bytes) (maxSize : Z) (now : Time)
    : Peer * (bool * bool) :=
  match ReassemblyBuffer p with
  | None => (p, (false, false))
  | Some buf =>
      if maxSize <? len buf + len frameData then (resetReassemblyLocked p, (false, true))
      else (p <| ReassemblyBuffer := Some (buf ++ frameData) |> <| LastFrameTime := now |>,
            (true, false))
  end.

(** Returns the complete payload, whether it completed, whether it overflowed. *)
Definition FinishReassembly (p : Peer) (frameData : bytes) (maxSize : Z)
    : Peer * (bytes * bool * bool) :=
  match ReassemblyBuffer p with
  | None => (p, ([], false, false))
  | Some buf =>
      if maxSize <? len buf + len frameData then (resetReassemblyLocked p, ([], false, true))
      else (resetReassemblyLocked p, (buf ++ frameData, true, false))
  end.

(** ** Transport *)

(** The failure counters and gates both [UpgradeTransport] and [Close] clear. *)
Definition reset_rehandshake (p : Peer) : Peer :=
  p <| consecutiveDecryptFails := 0 |>
    <| consecutiveRehandshakeFails := 0 |>
    <| rehandshakeBackoff := 0 |>
    <| rehandshakeNextAttempt := time_zero |>
    <| rehandshakeWindowStart := time_zero |>
    <| rehandshakeWindowCount := 0 |>
    <| rehandshakeInFlight := false |>.

Definition UpgradeTransport (p : Peer) (addr : option Addr) (conn : option ConnRef)
    (transport : string) (session : option SessRef) (now : Time) : Peer * list peer_effect :=
  if bool_decide (Transport p = "tcp") && bool_decide (transport ≠ "tcp") then (p, []) else
  let close_conn :=
    match Conn p with
    | Some c => if bool_decide (Conn p ≠ conn) && bool_decide (Transport p ≠ "udp")
                then [CloseConn c] else []
    | None => []
    end in
  let close_session :=
    match Peer_Session p with
    | Some s => if bool_decide (Peer_Session p ≠ session) then [CloseSession s] else []
    | None => []
    end in
  (reset_rehandshake
     (p <| Peer_Addr := addr |> <| Conn := conn |> <| Transport := transport |>
        <| Peer_Session := session |> <| LastSeen := now |>),
   close_conn ++ close_session).

Definition SetLinkMode (p : Peer) (mode : string) (relayTarget : option Addr) : Peer :=
  p <| LinkMode := mode |> <| RelayTarget := relayTarget |>.

Definition Peer_Close (p : Peer) : Peer * list peer_effect :=
  let p1 := p <| State := StateDisconnected |> in
  let close_session := match Peer_Session p with Some s => [CloseSession s] | None => [] end in
  let p2 := p1 <| Peer_Session := None |> in
  match Conn p with
  | Some c =>
      if bool_decide (Transport p = "tcp")
      then (reset_rehandshake (p2 <| Conn := None |>), close_session ++ [CloseConn c])
      else (reset_rehandshake p2, close_session)
  | None => (reset_rehandshake p2, close_session)
  end.

(** ** Channels *)

Definition AddRemoteChannel (p : Peer) (channelHash : bytes) : Peer :=
  p <| RemoteChannels := Some ({[channelHash]} ∪ default ∅ (RemoteChannels p)) |>.

Definition RemoveRemoteChannel (p : Peer) (channelHash : bytes) : Peer :=
  match RemoteChannels p with
  | None => p
  | Some m => p <| RemoteChannels := Some (m ∖ {[channelHash]}) |>
  end.

Definition HasRemoteChannel (p : Peer) (channelHash : bytes) : bool :=
  match RemoteChannels p with
  | None => false
  | Some m => bool_decide (channelHash ∈ m)
  end.

(** ** Accessors and statistics *)

Definition GetTransportInfo (p : Peer) : string * option Addr * option ConnRef :=
  (Transport p, Peer_Addr p, Conn p).
Definition GetSession (p : Peer) : option SessRef := Peer_Session p.
Definition GetLinkMode (p : Peer) : string := LinkMode p.
Definition UpdateLastSeen (p : Peer) (now : Time) : Peer := p <| LastSeen := now |>.
Definition GetLastSeen (p : Peer) : Time := LastSeen p.
Definition GetOriginalAddr (p : Peer) : gostring := OriginalAddr p.

Definition SetState (p : Peer) (state : ConnState) (now : Time) : Peer :=
  let p1 := p <| State := state |> in
  if bool_decide (state = StateConnected) && time_IsZero (ConnectedAt p)
  then p1 <| ConnectedAt := now |> else p1.

Definition GetState (p : Peer) : ConnState := State p.

Definition AddBytesSent (p : Peer) (n : Z) : Peer :=
  p <| BytesSent ::= λ b, to_int64 (b + n) |> <| MessagesSent ::= λ m, to_int64 (m + 1) |>.

Definition AddBytesReceived (p : Peer) (n : Z) : Peer :=
  p <| BytesReceived ::= λ b, to_int64 (b + n) |> <| MessagesRecv ::= λ m, to_int64 (m + 1) |>.

Record PeerStats := MkPeerStats {
  ps_State : ConnState;
  ps_Transport : string;
  ps_LinkMode : string;
  ps_ConnectedAt : Time;
  ps_LastSeen : Time;
  ps_BytesSent : Z;
  ps_BytesReceived : Z;
  ps_MessagesSent : Z;
  ps_MessagesRecv : Z;
  ps_ConnectLatency : Duration;
}.

Definition GetStats (p : Peer) : PeerStats :=
  MkPeerStats (State p) (Transport p) (LinkMode p) (ConnectedAt p) (LastSeen p) (BytesSent p)
    (BytesReceived p) (MessagesSent p) (MessagesRecv p) (ConnectLatency p).

(** [Decrypt] with the current session. *)
Definition Peer_Decrypt `{Noise} (p : Peer) (σ : gmap SessRef Session) (payload : bytes)
    : gmap SessRef Session * res bytes :=
  match Peer_Session p ≫= λ r, (r,.) <$> σ !! r with
  | None => (σ, Err "no session")
  | Some (r, s) =>
      let '(s', out) := Session_Decrypt s payload in (<[r := s']> σ, out)
  end.

(** ** Failure counters and the fast re-handshake gates *)

Definition IncDecryptFailures (p : Peer) : Peer * Z :=
  let n := to_int64 (consecutiveDecryptFails p + 1) in
  (p <| consecutiveDecryptFails := n |>, n).

Definition ResetDecryptFailures (p : Peer) : Peer := p <| consecutiveDecryptFails := 0 |>.

Definition TryBeginRehandshake (p : Peer) : Peer * bool :=
  if rehandshakeInFlight p then (p, false)
  else (p <| rehandshakeInFlight := true |>, true).

Definition EndRehandshake (p : Peer) : Peer := p <| rehandshakeInFlight := false |>.

Definition ReserveRehandshakeAttempt (p : Peer) (now : Time) (window : Duration) (maxInWindow : Z)
    : Peer * (bool * Duration) :=
  if negb (time_IsZero (rehandshakeNextAttempt p)) && time_Before now (rehandshakeNextAttempt p)
  then (p, (false, time_Sub (rehandshakeNextAttempt p) now))
  else
  let p1 :=
    if 0 <? window then
      if time_IsZero (rehandshakeWindowStart p)
         || (window <=? time_Sub now (rehandshakeWindowStart p))
      then p <| rehandshakeWindowStart := now |> <| rehandshakeWindowCount := 0 |>
      else p
    else p in
  if (0 <? window) && ((0 <? maxInWindow) && (maxInWindow <=? rehandshakeWindowCount p1))
  then
    let wait := time_Sub (time_Add (rehandshakeWindowStart p1) window) now in
    (p1, (false, if wait <? 0 then 0 else wait))
  else
    (p1 <| rehandshakeWindowCount ::= λ c, to_int64 (c + 1) |>, (true, 0)).

Definition RecordRehandshakeFailure (p : Peer) (now : Time) (baseBackoff maxBackoff : Duration)
    : Peer * (Z * Duration) :=
  let base := if baseBackoff <=? 0 then Second else baseBackoff in
  let maxB := if (0 <? maxBackoff) && (maxBackoff <? base) then base else maxBackoff in
  let fails := to_int64 (consecutiveRehandshakeFails p + 1) in
  let b1 :=
    if rehandshakeBackoff p <=? 0 then base
    else
      let d := to_int64 (rehandshakeBackoff p * 2) in
      if d <? base then base else d in
  let b2 := if (0 <? maxB) && (maxB <? b1) then maxB else b1 in
  (p <| consecutiveRehandshakeFails := fails |>
     <| rehandshakeBackoff := b2 |>
     <| rehandshakeNextAttempt := time_Add now b2 |>,
   (fails, b2)).

Definition RecordRehandshakeSuccess (p : Peer) (now : Time) (cooldown : Duration) : Peer :=
  p <| consecutiveRehandshakeFails := 0 |>
    <| rehandshakeBackoff := 0 |>
    <| rehandshakeNextAttempt := if 0 <? cooldown then time_Add now cooldown else time_zero |>.

(** ** The peer store: peers are shared by reference *)

Abbreviation PeerRef := positive.
Abbreviation PeerStore := (gmap gostring positive).

Definition NewPeerStore : PeerStore := ∅.
Definition PeerStore_Add (ps : PeerStore) (id : gostring) (r : PeerRef) : PeerStore := <[id := r]> ps.
Definition PeerStore_Remove (ps : PeerStore) (id : gostring) : PeerStore := delete id ps.
Definition PeerStore_Get (ps : PeerStore) (id : gostring) : option PeerRef := ps !! id.
Definition PeerStore_IDs (ps : PeerStore) : list gostring := (map_to_list ps).*1.
Definition PeerStore_Count (ps : PeerStore) : Z := Z.of_nat (size ps).

(** ** Transport switching *)

(** [UpgradeTransport] never moves a TCP peer to another transport: such a
    call changes nothing and closes nothing.  Any other call installs the new
    address, connection, transport and session, clears the failure counters and
    gates, closes the previous session exactly when it is a different one and
    the previous connection exactly when it is a different one that is not the
    shared UDP socket; identity, channels and reassembly state survive. *)
Theorem upgrade_transport_spec p addr conn transport session now :
  let '(p', eff) := UpgradeTransport p addr conn transport session now in
  if bool_decide (Transport p = "tcp" ∧ transport ≠ "tcp") then p' = p ∧ eff = []
  else
    Peer_Addr p' = addr ∧ Conn p' = conn ∧ Transport p' = transport
    ∧ Peer_Session p' = session ∧ LastSeen p' = now
    ∧ (∀ s, CloseSession s ∈ eff ↔ Peer_Session p = Some s ∧ session ≠ Some s)
    ∧ (∀ c, CloseConn c ∈ eff ↔ Conn p = Some c ∧ conn ≠ Some c ∧ Transport p ≠ "udp")
    ∧ consecutiveDecryptFails p' = 0 ∧ consecutiveRehandshakeFails p' = 0
    ∧ rehandshakeBackoff p' = 0 ∧ rehandshakeInFlight p' = false
    ∧ ID p' = ID p ∧ OriginalAddr p' = OriginalAddr p
    ∧ RemoteChannels p' = RemoteChannels p ∧ ReassemblyBuffer p' = ReassemblyBuffer p.
Proof.
  unfold UpgradeTransport.
  destruct (decide (Transport p = "tcp" ∧ transport ≠ "tcp")) as [[H1 H2]|H].
  - rewrite !(bool_decide_true (_ = _)), (bool_decide_true (_ ≠ _)) by done. cbn [andb].
    by rewrite bool_decide_true.
  - rewrite <- bool_decide_and, bool_decide_false by done. cbn.
    split_and!; try done.
    + intros s. rewrite elem_of_app. destruct (Conn p), (Peer_Session p);
        repeat case_bool_decide; cbn; rewrite ?list_elem_of_singleton; set_solver.
    + intros c. rewrite elem_of_app. destruct (Conn p), (Peer_Session p);
        repeat case_bool_decide; cbn; rewrite ?list_elem_of_singleton; set_solver.
Qed.

(** ** The fast re-handshake gate *)

(** The calls the node makes on a peer between two transport switches. *)
Inductive gate_call :=
| GReserve (now : Time)
| GFailure (now : Time) (base maxB : Duration)
| GSuccess (now : Time) (cooldown : Duration)
| GBegin
| GEnd
| GDecryptFailure
| GDecryptReset
| GUpgrade (addr : option Addr) (conn : option ConnRef) (transport : string) (session : option SessRef) (now : Time)
| GClose.

Definition gate_step (window : Duration) (maxInWindow : Z) (p : Peer) (c : gate_call) : Peer * list Time :=
  match c with
  | GReserve now =>
      let '(p', (ok, _)) := ReserveRehandshakeAttempt p now window maxInWindow in
      (p', if ok then [now] else [])
  | GFailure now base maxB => ((RecordRehandshakeFailure p now base maxB).1, [])
  | GSuccess now cooldown => (RecordRehandshakeSuccess p now cooldown, [])
  | GBegin => ((TryBeginRehandshake p).1, [])
  | GEnd => (EndRehandshake p, [])
  | GDecryptFailure => ((IncDecryptFailures p).1, [])
  | GDecryptReset => (ResetDecryptFailures p, [])
  | GUpgrade addr conn transport session now => ((UpgradeTransport p addr conn transport session now).1, [])
  | GClose => ((Peer_Close p).1, [])
  end.

(** How often the window may be reset: a completed re-handshake upgrades the transport. *)
Definition resets (cs : list gate_call) : Z :=
  len (filter (λ c, match c with GUpgrade _ _ _ _ _ | GClose => true | _ => false end = true) cs).

(** The times at which an attempt was allowed. *)
Fixpoint gate_run (window : Duration) (maxInWindow : Z) (p : Peer) (cs : list gate_call) : list Time :=
  match cs with
  | [] => []
  | c :: cs =>
      let '(p', ts) := gate_step window maxInWindow p c in
      ts ++ gate_run window maxInWindow p' cs
  end.

(** The clock of the [GReserve] calls does not go back below [t]. *)
Fixpoint clock_from (t : Time) (cs : list gate_call) : Prop :=
  match cs with
  | [] => True
  | GReserve now :: cs => t ≤ now ∧ clock_from now cs
  | _ :: cs => clock_from t cs
  end.

(** Allowed attempts in the interval [a, b). *)
Definition allowed_in (a b : Time) (ts : list Time) : Z :=
  len (filter (λ t, a ≤ t < b) ts).

Lemma allowed_in_app a b ts us : allowed_in a b (ts ++ us) = allowed_in a b ts + allowed_in a b us.
Proof. unfold allowed_in. rewrite filter_app, len_app. done. Qed.

Lemma allowed_in_nil a b : allowed_in a b [] = 0.
Proof. done. Qed.

Lemma allowed_in_one a b t : 0 ≤ allowed_in a b [t] ≤ 1.
Proof. unfold allowed_in. rewrite filter_cons. case_decide; len_solve. Qed.

Lemma allowed_in_out a b t : ¬ (a ≤ t < b) → allowed_in a b [t] = 0.
Proof. intros. unfold allowed_in. by rewrite filter_cons, decide_False. Qed.

Section gate.
Context (window : Duration) (maxInWindow : Z).
Context (Hw : 0 < window ≤ max_int64) (Hm : 0 < maxInWindow ≤ max_int64).

Definition gate_inv (p : Peer) : Prop := 0 ≤ rehandshakeWindowCount p ≤ maxInWindow.

(** What an allowed or refused reservation does to the window. *)
Lemma reserve_cases p now :
  gate_inv p → 0 < now → rehandshakeWindowStart p ≤ now →
  let '(p', (ok, _)) := ReserveRehandshakeAttempt p now window maxInWindow in
  gate_inv p'
  ∧ ((rehandshakeWindowStart p' = rehandshakeWindowStart p
      ∧ rehandshakeWindowCount p' = rehandshakeWindowCount p + (if ok then 1 else 0))
     ∧ (rehandshakeWindowStart p ≠ 0 ∨ ok = false)
     ∨ (rehandshakeWindowStart p' = now ∧ rehandshakeWindowCount p' = 1 ∧ ok = true
        ∧ (rehandshakeWindowStart p = 0 ∨ rehandshakeWindowStart p + window ≤ now))).
Proof using Hw Hm.
  unfold gate_inv, ReserveRehandshakeAttempt, time_IsZero, time_Sub, time_zero.
  unfold min_int64, max_int64 in *. intros Hi Hn Hs.
  destruct (_ && _); [cbn; lia|].
  destruct (Z.ltb_spec 0 window); [|lia]. destruct (Z.ltb_spec 0 maxInWindow); [|lia].
  cbn [andb].
  destruct (Z.eqb_spec (rehandshakeWindowStart p) 0); cbn [orb].
  - cbn. destruct (Z.leb_spec maxInWindow 0); [lia|]. cbn.
    rewrite to_int64_id by (unfold is_int64, min_int64, max_int64; lia). lia.
  - destruct (Z.leb_spec window (Z.max (- 2 ^ 63) (Z.min (2 ^ 63 - 1) (now - rehandshakeWindowStart p)))).
    + cbn. destruct (Z.leb_spec maxInWindow 0); [lia|]. cbn.
      rewrite to_int64_id by (unfold is_int64, min_int64, max_int64; lia). lia.
    + destruct (Z.leb_spec maxInWindow (rehandshakeWindowCount p)); cbn; [lia|].
      rewrite to_int64_id by (unfold is_int64, min_int64, max_int64 in *; lia). lia.
Qed.

(** Every other call leaves the window alone or resets it. *)
Variant gate_effect (p : Peer) : gate_call → Peer → list Time → Prop :=
| GateReserve now p' ok wait :
    ReserveRehandshakeAttempt p now window maxInWindow = (p', (ok, wait)) →
    gate_effect p (GReserve now) p' (if ok then [now] else [])
| GateKeep c p' :
    rehandshakeWindowStart p' = rehandshakeWindowStart p → rehandshakeWindowCount p' = rehandshakeWindowCount p →
    (∀ now, c ≠ GReserve now) → gate_effect p c p' []
| GateReset c p' :
    rehandshakeWindowStart p' = 0 → rehandshakeWindowCount p' = 0 →
    (∀ now, c ≠ GReserve now) → (∀ cs, resets (c :: cs) = 1 + resets cs) → gate_effect p c p' [].

Lemma gate_step_effect p c : gate_effect p c (gate_step window maxInWindow p c).1 (gate_step window maxInWindow p c).2.
Proof using Type.
  destruct c as [now| | | | | | |addr conn transport session now|]; cbn [gate_step fst snd].
  - destruct (ReserveRehandshakeAttempt p now window maxInWindow) as [p' [ok wait]] eqn:E. by econstructor.
  - by apply GateKeep.
  - by apply GateKeep.
  - apply GateKeep; try done; unfold TryBeginRehandshake; by destruct (rehandshakeInFlight p).
  - by apply GateKeep.
  - by apply GateKeep.
  - by apply GateKeep.
  - unfold UpgradeTransport. destruct (_ && _); [by apply GateKeep|]. apply GateReset; try done.
    intros cs. unfold resets. rewrite filter_cons, decide_True by done. by rewrite len_cons, Z.add_comm.
  - apply GateReset; try done; [unfold Peer_Close; by repeat case_match..|].
    intros cs. unfold resets. rewrite filter_cons, decide_True by done. by rewrite len_cons, Z.add_comm.
Qed.

Lemma resets_cons c cs : resets cs ≤ resets (c :: cs).
Proof using Type. unfold resets. rewrite filter_cons. case_decide; [rewrite len_cons|]; lia. Qed.

Lemma resets_nil : resets [] = 0.
Proof using Type. done. Qed.

Lemma resets_nonneg cs : 0 ≤ resets cs.
Proof using Type. apply len_nonneg. Qed.

Lemma clock_from_other t c cs : (∀ now, c ≠ GReserve now) → clock_from t (c :: cs) → clock_from t cs.
Proof using Type. intros Hc. destruct c; try done. by destruct (Hc now). Qed.

Lemma gate_run_cons p c cs : gate_run window maxInWindow p (c :: cs)
  = (gate_step window maxInWindow p c).2 ++ gate_run window maxInWindow (gate_step window maxInWindow p c).1 cs.
Proof using Type. cbn [gate_run]. by destruct (gate_step _ _ _ _). Qed.

(** Nothing that is allowed late counts. *)
Lemma gate_run_late a p cs t0 :
  clock_from t0 cs → a + window ≤ t0 →
  allowed_in a (a + window) (gate_run window maxInWindow p cs) ≤ 0.
Proof using Type.
  revert t0 p. induction cs as [|c cs IH]; intros t0 p Hc Hl; [done|]. rewrite gate_run_cons, allowed_in_app.
  destruct (gate_step_effect p c) as [now p' ok wait _|c p' _ _ Hno|c p' _ _ Hno _].
  - destruct Hc as [Hle Hc]. specialize (IH now p' Hc ltac:(lia)).
    destruct ok; [rewrite allowed_in_out by lia | rewrite allowed_in_nil]; lia.
  - rewrite allowed_in_nil. apply (IH t0); [by eapply clock_from_other|done].
  - rewrite allowed_in_nil. apply (IH t0); [by eapply clock_from_other|done].
Qed.

(** What the running window has left. *)
Definition window_left (p : Peer) : Z :=
  if rehandshakeWindowStart p =? 0 then maxInWindow else maxInWindow - rehandshakeWindowCount p.

Lemma window_left_range p : gate_inv p → 0 ≤ window_left p ≤ maxInWindow.
Proof using Hm. unfold gate_inv, window_left. intros. zcase; lia. Qed.

(** While the window started at or after [a], or none runs, the next one starts after
    [a + window] unless there is a reset: what is allowed there is what is left of the
    window, and a window for every reset. *)
Lemma gate_run_same_window a p cs t0 :
  gate_inv p → 0 < t0 → a ≤ t0 → rehandshakeWindowStart p ≤ t0 →
  rehandshakeWindowStart p = 0 ∨ a ≤ rehandshakeWindowStart p → clock_from t0 cs →
  allowed_in a (a + window) (gate_run window maxInWindow p cs) ≤ resets cs * maxInWindow + window_left p.
Proof using Hw Hm.
  revert p t0. induction cs as [|c cs IH]; intros p t0 Hi Ht Ha Hs Hp Hc.
  { pose proof (window_left_range p Hi). cbn [gate_run]. rewrite allowed_in_nil, resets_nil. lia. }
  pose proof (window_left_range p Hi) as Hleft. pose proof (resets_cons c cs) as Hres. pose proof (resets_nonneg cs) as H0.
  rewrite gate_run_cons, allowed_in_app.
  destruct (gate_step_effect p c) as [now p' ok wait E|c p' Es Ec Hno|c p' Es Ec Hno Er].
  - destruct Hc as [Hle Hc]. pose proof (reserve_cases p now Hi ltac:(lia) ltac:(lia)) as Hr. rewrite E in Hr.
    destruct Hr as [Hi' [[[Es Ec] Hok]|(Es & Ec & -> & Hold)]].
    + specialize (IH p' now Hi' ltac:(lia) ltac:(lia) ltac:(lia) ltac:(lia) Hc).
      assert (window_left p' + (if ok then 1 else 0) ≤ window_left p).
      { unfold window_left. rewrite Es, Ec. destruct (Z.eqb_spec (rehandshakeWindowStart p) 0), ok; lia || naive_solver. }
      destruct ok; [pose proof (allowed_in_one a (a + window) now) | rewrite allowed_in_nil]; nia.
    + destruct Hold as [Hz|Hold].
      * specialize (IH p' now Hi' ltac:(lia) ltac:(lia) ltac:(lia) ltac:(lia) Hc).
        pose proof (allowed_in_one a (a + window) now). unfold window_left in *. rewrite Es, Ec in IH. rewrite Hz. cbn [Z.eqb].
        replace (now =? 0) with false in IH by lia. nia.
      * destruct Hp as [Hz|Hp].
        { specialize (IH p' now Hi' ltac:(lia) ltac:(lia) ltac:(lia) ltac:(lia) Hc).
          pose proof (allowed_in_one a (a + window) now). unfold window_left in *. rewrite Es, Ec in IH. rewrite Hz. cbn [Z.eqb].
          replace (now =? 0) with false in IH by lia. nia. }
        rewrite allowed_in_out by lia. pose proof (gate_run_late a p' cs now Hc ltac:(lia)). nia.
  - rewrite allowed_in_nil. apply clock_from_other in Hc; [|done].
    specialize (IH p' t0 ltac:(unfold gate_inv in *; lia) ltac:(lia) ltac:(lia) ltac:(lia) ltac:(lia) Hc).
    assert (window_left p' = window_left p) as <- by (unfold window_left; by rewrite Es, Ec). nia.
  - rewrite allowed_in_nil, Er. apply clock_from_other in Hc; [|done].
    assert (gate_inv p') as Hi' by (unfold gate_inv; lia).
    specialize (IH p' t0 Hi' ltac:(lia) ltac:(lia) ltac:(lia) ltac:(lia) Hc). pose proof (window_left_range p' Hi'). nia.
Qed.

(** From [a] on: the window running at [a], one more, and one for every reset. *)
Lemma gate_run_two_windows a p cs t0 :
  gate_inv p → 0 < t0 → a ≤ t0 → rehandshakeWindowStart p ≤ t0 → clock_from t0 cs →
  allowed_in a (a + window) (gate_run window maxInWindow p cs)
    ≤ (resets cs + 2) * maxInWindow - rehandshakeWindowCount p.
Proof using Hw Hm.
  revert p t0. induction cs as [|c cs IH]; intros p t0 Hi Ht Ha Hs Hc.
  { cbn [gate_run]. rewrite allowed_in_nil, resets_nil. unfold gate_inv in *. lia. }
  pose proof (resets_cons c cs) as Hres. pose proof (resets_nonneg cs) as H0. unfold gate_inv in Hi.
  rewrite gate_run_cons, allowed_in_app.
  destruct (gate_step_effect p c) as [now p' ok wait E|c p' Es Ec Hno|c p' Es Ec Hno Er].
  - destruct Hc as [Hle Hc]. pose proof (reserve_cases p now Hi ltac:(lia) ltac:(lia)) as Hr. rewrite E in Hr.
    destruct Hr as [Hi' [[[Es Ec] _]|(Es & Ec & -> & _)]].
    + specialize (IH p' now Hi' ltac:(lia) ltac:(lia) ltac:(lia) Hc).
      destruct ok; [pose proof (allowed_in_one a (a + window) now) | rewrite allowed_in_nil]; nia.
    + pose proof (gate_run_same_window a p' cs now Hi' ltac:(lia) ltac:(lia) ltac:(lia) ltac:(lia) Hc) as Hw'.
      unfold window_left in Hw'. rewrite Es, Ec in Hw'. replace (now =? 0) with false in Hw' by lia.
      pose proof (allowed_in_one a (a + window) now). nia.
  - rewrite allowed_in_nil. apply clock_from_other in Hc; [|done].
    specialize (IH p' t0 ltac:(unfold gate_inv in *; lia) ltac:(lia) ltac:(lia) ltac:(lia) Hc). nia.
  - rewrite allowed_in_nil, Er. apply clock_from_other in Hc; [|done].
    specialize (IH p' t0 ltac:(unfold gate_inv; lia) ltac:(lia) ltac:(lia) ltac:(lia) Hc). nia.
Qed.

(** Before [a] nothing counts. *)
Lemma gate_run_bound a p cs t0 :
  gate_inv p → 0 < t0 → rehandshakeWindowStart p ≤ t0 → clock_from t0 cs →
  allowed_in a (a + window) (gate_run window maxInWindow p cs) ≤ (resets cs + 2) * maxInWindow.
Proof using Hw Hm.
  revert p t0. induction cs as [|c cs IH]; intros p t0 Hi Ht Hs Hc.
  { cbn [gate_run]. rewrite allowed_in_nil, resets_nil. lia. }
  destruct (Z.le_gt_cases a t0) as [Ha|Ha].
  { pose proof (gate_run_two_windows a p (c :: cs) t0 Hi Ht Ha Hs Hc). unfold gate_inv in Hi. lia. }
  pose proof (resets_cons c cs) as Hres. unfold gate_inv in Hi.
  rewrite gate_run_cons, allowed_in_app.
  destruct (gate_step_effect p c) as [now p' ok wait E|c p' Es Ec Hno|c p' Es Ec Hno Er].
  - destruct Hc as [Hle Hc]. destruct (Z.le_gt_cases a now) as [Ha'|Ha'].
    { pose proof (gate_run_two_windows a p (GReserve now :: cs) now Hi ltac:(lia) Ha' ltac:(lia) (conj (Z.le_refl _) Hc)) as H2.
      rewrite gate_run_cons, allowed_in_app in H2. cbn [gate_step] in H2. rewrite E in H2. cbn [fst snd] in H2. nia. }
    pose proof (reserve_cases p now Hi ltac:(lia) ltac:(lia)) as Hr. rewrite E in Hr. destruct Hr as [Hi' Hr].
    specialize (IH p' now Hi' ltac:(lia) ltac:(lia) Hc).
    destruct ok; [rewrite allowed_in_out by lia | rewrite allowed_in_nil]; nia.
  - rewrite allowed_in_nil. apply clock_from_other in Hc; [|done].
    specialize (IH p' t0 ltac:(unfold gate_inv in *; lia) ltac:(lia) ltac:(lia) Hc). nia.
  - rewrite allowed_in_nil. apply clock_from_other in Hc; [|done].
    specialize (IH p' t0 ltac:(unfold gate_inv in *; lia) ltac:(lia) ltac:(lia) Hc). nia.
Qed.
End gate.

(** C25: However reservations, failures, successes, decrypt errors, transport upgrades and
    closings of a peer interleave, the gate of [ReserveRehandshakeAttempt] lets at most
    [2 * maxInWindow] fast re-handshakes start within any interval as long as the window (the
    code counts in windows that start at an attempt, so an interval can straddle two), and
    [maxInWindow] more for every upgrade or closing, since these reset the count; the count
    itself never exceeds [maxInWindow]. *)
Theorem rehandshake_rate_limit (window : Duration) (maxInWindow : Z) (p : Peer) (t0 : Time)
    (cs : list gate_call)
  (Hw : 0 < window ≤ max_int64) (Hm : 0 < maxInWindow ≤ max_int64)
  (Hinv : 0 ≤ rehandshakeWindowCount p ≤ maxInWindow)
  (Ht : 0 < t0) (Hs : rehandshakeWindowStart p ≤ t0) (Hclock : clock_from t0 cs) :
  (∀ a, allowed_in a (a + window) (gate_run window maxInWindow p cs) ≤ (2 + resets cs) * maxInWindow)
  ∧ (∀ now, t0 ≤ now →
       rehandshakeWindowCount (ReserveRehandshakeAttempt p now window maxInWindow).1 ≤ maxInWindow).
Proof.
  split; [intros a; rewrite (Z.add_comm 2); by eapply gate_run_bound|]. intros now Hn.
  pose proof (reserve_cases window maxInWindow Hw Hm p now Hinv ltac:(lia) ltac:(lia)) as Hr.
  destruct (ReserveRehandshakeAttempt p now window maxInWindow) as [p' [ok ?]].
  destruct Hr as [Hi _]. unfold gate_inv in Hi. cbn. lia.
Qed.

Definition blank_peer : Peer :=
  NewPeer (str "00112233445566778899aabbccddeeff") None [] None "udp" "p2p" None None 5.

(** Six attempts in an interval of one window: two before and two after the end of the first
    window, and two after an upgrade. *)
Definition busy_peer : list gate_call :=
  [GReserve 9; GReserve 11; GFailure 12 5 8; GReserve 15; GReserve 39; GReserve 39; GReserve 39;
   GUpgrade None None "tcp" None 39; GReserve 39; GReserve 39; GReserve 39].

Lemma rehandshake_rate_limit_witness :
  allowed_in 10 40 (gate_run 30 2 blank_peer busy_peer) ≤ 6
  ∧ gate_run 30 2 blank_peer busy_peer = [9; 11; 39; 39; 39; 39].
Proof.
  split; [|reflexivity].
  refine (proj1 (rehandshake_rate_limit 30 2 blank_peer 9 busy_peer _ _ _ _ _ _) 10);
    cbn; unfold max_int64, time_zero; lia.
Defined.

(** ** Exponential backoff *)

Fixpoint fail_run (p : Peer) (ts : list Time) (base maxB : Duration) : Peer :=
  match ts with
  | [] => p
  | t :: ts => fail_run (RecordRehandshakeFailure p t base maxB).1 ts base maxB
  end.

Lemma RecordRehandshakeFailure_first p now base maxB :
  0 < base ≤ maxB → rehandshakeBackoff p ≤ 0 →
  rehandshakeBackoff (RecordRehandshakeFailure p now base maxB).1 = base
  ∧ rehandshakeNextAttempt (RecordRehandshakeFailure p now base maxB).1 = now + base.
Proof.
  intros Hb Hp. unfold RecordRehandshakeFailure, time_Add.
  destruct (Z.leb_spec base 0); [lia|]. destruct (Z.ltb_spec maxB base); [lia|].
  rewrite andb_false_r. destruct (Z.leb_spec (rehandshakeBackoff p) 0); [|lia].
  destruct (Z.ltb_spec maxB base); [lia|]. rewrite andb_false_r. done.
Qed.

Lemma RecordRehandshakeFailure_next p now base maxB :
  0 < base ≤ maxB → maxB < 2 ^ 62 → base ≤ rehandshakeBackoff p ≤ maxB →
  rehandshakeBackoff (RecordRehandshakeFailure p now base maxB).1
    = Z.min (2 * rehandshakeBackoff p) maxB
  ∧ rehandshakeNextAttempt (RecordRehandshakeFailure p now base maxB).1
    = now + Z.min (2 * rehandshakeBackoff p) maxB.
Proof.
  intros Hb Hm Hp. unfold RecordRehandshakeFailure, time_Add.
  destruct (Z.leb_spec base 0); [lia|]. destruct (Z.ltb_spec maxB base); [lia|].
  rewrite andb_false_r. destruct (Z.leb_spec (rehandshakeBackoff p) 0); [lia|].
  rewrite to_int64_id by (unfold is_int64, min_int64, max_int64; lia).
  destruct (Z.ltb_spec (rehandshakeBackoff p * 2) base); [lia|].
  destruct (Z.ltb_spec 0 maxB); [|lia].
  destruct (Z.ltb_spec maxB (rehandshakeBackoff p * 2)); cbn; lia.
Qed.

Lemma fail_run_backoff ts p base maxB k :
  0 < base ≤ maxB → maxB < 2 ^ 62 → 0 ≤ k →
  rehandshakeBackoff p = Z.min (base * 2 ^ k) maxB →
  rehandshakeBackoff (fail_run p ts base maxB) = Z.min (base * 2 ^ (k + len ts)) maxB.
Proof.
  intros Hb Hm. revert p k. induction ts as [|t ts IH]; intros p k Hk Hp.
  - change (len (@nil Time)) with 0. by rewrite Z.add_0_r.
  - cbn [fail_run]. rewrite len_cons, Z.add_assoc. apply IH; [lia|].
    pose proof (Z.pow_pos_nonneg 2 k ltac:(lia) ltac:(lia)).
    rewrite (proj1 (RecordRehandshakeFailure_next p t base maxB ltac:(lia) ltac:(lia) ltac:(nia))), Hp.
    rewrite Z.pow_add_r by lia. nia.
Qed.

(** Starting from a cleared backoff, [n] consecutive re-handshake failures
    leave the backoff at [min (base * 2^(n-1)) max] and the next attempt that
    long after the last failure, with no overflow for any maximum below
    [2^62] ns (146 years). *)
Theorem rehandshake_backoff_exponential (p : Peer) (ts : list Time) (last : Time)
    (base maxB : Duration)
  (Hb : 0 < base ≤ maxB) (Hm : maxB < 2 ^ 62) (Hp : rehandshakeBackoff p ≤ 0) :
  let p' := fail_run p (ts ++ [last]) base maxB in
  rehandshakeBackoff p' = Z.min (base * 2 ^ len ts) maxB
  ∧ rehandshakeNextAttempt p' = last + rehandshakeBackoff p'.
Proof.
  cbv zeta.
  assert (∀ us q, fail_run q (us ++ [last]) base maxB
    = (RecordRehandshakeFailure (fail_run q us base maxB) last base maxB).1) as Hsnoc.
  { induction us as [|u us IH]; intros q; [done|]. apply IH. }
  rewrite Hsnoc. destruct ts as [|t ts]; cbn [fail_run].
  - destruct (RecordRehandshakeFailure_first p last base maxB Hb Hp) as [-> ->].
    change (len (@nil Time)) with 0. cbn. lia.
  - destruct (RecordRehandshakeFailure_first p t base maxB Hb Hp) as [H1 _].
    pose proof (fail_run_backoff ts (RecordRehandshakeFailure p t base maxB).1 base maxB 0
      Hb Hm ltac:(lia) ltac:(rewrite H1; cbn; lia)) as Hk.
    rewrite Z.add_0_l in Hk. pose proof (len_nonneg ts).
    pose proof (Z.pow_pos_nonneg 2 (len ts) ltac:(lia) ltac:(lia)).
    destruct (RecordRehandshakeFailure_next
      (fail_run (RecordRehandshakeFailure p t base maxB).1 ts base maxB) last base maxB
      Hb Hm ltac:(rewrite Hk; nia)) as [H2 H3].
    rewrite H3, H2, Hk, len_cons, Z.pow_add_r by lia. split; [nia|done].
Qed.

Lemma rehandshake_backoff_exponential_witness :
  rehandshakeBackoff (fail_run blank_peer [100; 200; 300; 400; 500] (500 * Millisecond) (8 * Second))
    = 8 * Second.
Proof.
  etransitivity; [|reflexivity].
  exact (proj1 (rehandshake_backoff_exponential blank_peer [100; 200; 300; 400] 500
    (500 * Millisecond) (8 * Second) ltac:(unfold Second, Millisecond; lia)
    ltac:(unfold Second, Millisecond; lia) ltac:(cbn; lia))).
Defined.
