(* ===== verification/PeerAdmission.v ===== *)
(** * Concurrent handshakes and the peer limit ([node/handshake.go])

    The readers of a node complete handshakes concurrently.  The tail of
    [processHandshake] looks the peer up, compares [Peers.Count()] with [MaxPeers]
    and calls [Peers.Add], each call atomic by the lock of the store, with no lock
    around the three.  Each reader is a thread that stands at one of these calls;
    a run is a list of events. *)

From S2P Require Import Prelude Peer.

(** ** Threads *)

(** Where a reader stands: between packets, before [Peers.Get], before the check
    of the limit, before [Peers.Add]. *)
Inductive reader_pc :=
| Idle
| AtGet (peerID : gostring)
| AtCount (peerID : gostring)
| AtAdd (peerID : gostring).

(** What became of a completed handshake. *)
Inductive outcome := Added (ref : PeerRef) | Refused | Existing (ref : PeerRef).

Record admission := MkAdmission {
  ad_store : PeerStore;
  ad_readers : list reader_pc;
  ad_next : PeerRef;                    (** the next object [&peer.Peer{...}] *)
  ad_outcomes : list (gostring * outcome);
}.
#[global] Instance admission_eta : RecordEta admission := λ a,
  MkAdmission (ad_store a) (ad_readers a) (ad_next a) (ad_outcomes a).

Inductive ad_event :=
| HandshakeDone (i : nat) (peerID : gostring)  (** a session exists: reader [i] enters the tail *)
| ReaderStep (i : nat)
| PeerRemoved (peerID : gostring).

(** The step of a reader from where it stands; [maxPeers] is [n.Config.MaxPeers]. *)
Definition reader_step (maxPeers : Z) (a : admission) (i : nat) (pc : reader_pc) : option admission :=
  match pc with
  | Idle => None
  | AtGet id =>
      match PeerStore_Get (ad_store a) id with
      | Some r => Some (a <| ad_readers ::= <[i := Idle]> |> <| ad_outcomes ::= λ l, l ++ [(id, Existing r)] |>)
      | None => Some (a <| ad_readers ::= <[i := AtCount id]> |>)
      end
  | AtCount id =>
      if (0 <? maxPeers) && (maxPeers <=? PeerStore_Count (ad_store a))
      then Some (a <| ad_readers ::= <[i := Idle]> |> <| ad_outcomes ::= λ l, l ++ [(id, Refused)] |>)
      else Some (a <| ad_readers ::= <[i := AtAdd id]> |>)
  | AtAdd id =>
      let r := ad_next a in
      Some (a <| ad_store ::= λ ps, PeerStore_Add ps id r |> <| ad_next := Pos.succ r |>
              <| ad_readers ::= <[i := Idle]> |> <| ad_outcomes ::= λ l, l ++ [(id, Added r)] |>)
  end.

Definition ad_step (maxPeers : Z) (a : admission) (ev : ad_event) : option admission :=
  match ev with
  | HandshakeDone i id =>
      match ad_readers a !! i with
      | Some Idle => Some (a <| ad_readers ::= <[i := AtGet id]> |>)
      | _ => None
      end
  | ReaderStep i => ad_readers a !! i ≫= reader_step maxPeers a i
  | PeerRemoved id => Some (a <| ad_store ::= λ ps, PeerStore_Remove ps id |>)
  end.

Fixpoint ad_run (maxPeers : Z) (a : admission) (evs : list ad_event) : option admission :=
  match evs with
  | [] => Some a
  | ev :: evs' => a' ← ad_step maxPeers a ev; ad_run maxPeers a' evs'
  end.

(** [k] idle readers and a store. *)
Definition readers_start (k : nat) (ps : PeerStore) (next : PeerRef) : admission :=
  MkAdmission ps (replicate k Idle) next [].

(** ** The bound *)

Definition admitted (pc : reader_pc) : bool := match pc with AtAdd _ => true | _ => false end.

(** Readers that passed the check and have not added their peer yet. *)
Definition in_flight (a : admission) : Z := len (filter (λ pc, admitted pc = true) (ad_readers a)).

Lemma in_flight_le a : in_flight a ≤ len (ad_readers a).
Proof. unfold in_flight, len. pose proof (length_filter (λ pc, admitted pc = true) (ad_readers a)). lia. Qed.

Definition weight (pc : reader_pc) : Z := if admitted pc then 1 else 0.

(** Moving one reader changes the number by the difference of the weights. *)
Lemma in_flight_insert l i pc pc' :
  l !! i = Some pc →
  len (filter (λ pc, admitted pc = true) (<[i := pc']> l))
  = len (filter (λ pc, admitted pc = true) l) - weight pc + weight pc'.
Proof.
  revert i. induction l as [|q l IH]; intros [|i] H; [done|done| |].
  - injection H as ->. change (<[0%nat := pc']> (pc :: l)) with (pc' :: l). rewrite !filter_cons. unfold weight.
    destruct (admitted pc), (admitted pc'); repeat case_decide; try done; rewrite ?len_cons; lia.
  - change (<[S i := pc']> (q :: l)) with (q :: <[i := pc']> l). rewrite !filter_cons. specialize (IH i H).
    destruct (admitted q); repeat case_decide; try done; rewrite ?len_cons; lia.
Qed.

Lemma Count_Add ps id r : PeerStore_Count (PeerStore_Add ps id r) ≤ PeerStore_Count ps + 1.
Proof. unfold PeerStore_Count, PeerStore_Add. rewrite map_size_insert. destruct (ps !! id); cbn; lia. Qed.

Lemma Count_Remove ps id : PeerStore_Count (PeerStore_Remove ps id) ≤ PeerStore_Count ps.
Proof. unfold PeerStore_Count, PeerStore_Remove. rewrite map_size_delete. destruct (ps !! id); cbn; lia. Qed.

Definition within (maxPeers : Z) (a : admission) : Prop :=
  PeerStore_Count (ad_store a) + in_flight a ≤ maxPeers + len (ad_readers a) - 1.

Lemma reader_step_within maxPeers a i pc a' :
  0 < maxPeers → ad_readers a !! i = Some pc → within maxPeers a → reader_step maxPeers a i pc = Some a' →
  within maxPeers a' ∧ len (ad_readers a') = len (ad_readers a).
Proof.
  intros H0 Hi. unfold within, in_flight. pose proof (in_flight_insert (ad_readers a) i pc) as Hw.
  pose proof (in_flight_le a) as Hle. unfold in_flight in Hle. intros H.
  assert (∀ pc', len (<[i := pc']> (ad_readers a)) = len (ad_readers a)) as Hlen by (intros; unfold len; by rewrite length_insert).
  destruct pc as [|id|id|id]; cbn [reader_step]; [done|..].
  - destruct (PeerStore_Get _ _); intros [= <-]; cbn; rewrite Hw, Hlen by done; cbn; lia.
  - destruct ((0 <? maxPeers) && (maxPeers <=? PeerStore_Count (ad_store a))) eqn:E; intros [= <-]; cbn;
      rewrite Hlen; [rewrite Hw by done; cbn; lia|]. split; [|done].
    assert (PeerStore_Count (ad_store a) < maxPeers).
    { apply andb_false_iff in E as [E|E]; [apply Z.ltb_ge in E; lia|by apply Z.leb_gt in E]. }
    pose proof (in_flight_le (a <| ad_readers ::= <[i := AtAdd id]> |>)) as Hle'. unfold in_flight in Hle'. cbn in Hle'.
    rewrite Hlen in Hle'. lia.
  - intros [= <-]. cbn. rewrite Hw, Hlen by done. cbn.
    pose proof (Count_Add (ad_store a) id (ad_next a)). lia.
Qed.

Lemma ad_step_within maxPeers a ev a' :
  0 < maxPeers → within maxPeers a → ad_step maxPeers a ev = Some a' →
  within maxPeers a' ∧ len (ad_readers a') = len (ad_readers a).
Proof.
  intros H0 H. destruct ev as [i id|i|id]; cbn [ad_step].
  - destruct (ad_readers a !! i) as [[]|] eqn:Hi; try done. intros [= <-].
    unfold within, in_flight. cbn. rewrite (in_flight_insert _ _ _ _ Hi). unfold len. rewrite length_insert. cbn.
    unfold within, in_flight, len in H. lia.
  - destruct (ad_readers a !! i) as [pc|] eqn:Hi; [|done]. cbn. by apply reader_step_within.
  - intros [= <-]. split; [|done]. unfold within in *. cbn. pose proof (Count_Remove (ad_store a) id).
    unfold in_flight in *. cbn. lia.
Qed.

Lemma ad_run_within maxPeers evs : ∀ a a',
  0 < maxPeers → within maxPeers a → ad_run maxPeers a evs = Some a' →
  within maxPeers a' ∧ len (ad_readers a') = len (ad_readers a).
Proof.
  induction evs as [|ev evs IH]; intros a a' H0 H; cbn [ad_run]; [by intros [= <-]|].
  destruct (ad_step maxPeers a ev) as [a1|] eqn:E; [|done]. cbn. intros Hrun.
  destruct (ad_step_within _ _ _ _ H0 H E) as [H1 L1], (IH a1 a' H0 H1 Hrun) as [H2 L2]. split; [done|lia].
Qed.

(** ** The bound is attained *)

Lemma filter_idle k : filter (λ pc, admitted pc = true) (replicate k Idle) = [].
Proof. by induction k. Qed.

(** The reader [i] completes a handshake and passes the check. *)
Definition check_events (i : nat) (id : gostring) : list ad_event := [HandshakeDone i id; ReaderStep i; ReaderStep i].

Lemma ad_run_app maxPeers evs1 evs2 a : ad_run maxPeers a (evs1 ++ evs2) = ad_run maxPeers a evs1 ≫= λ a1, ad_run maxPeers a1 evs2.
Proof. revert a. induction evs1 as [|ev evs IH]; intros a; cbn; [done|]. destruct (ad_step maxPeers a ev); cbn; [apply IH|done]. Qed.

(** Every reader checks before any adds. *)
Fixpoint all_check (ids : list gostring) (i : nat) : list ad_event :=
  match ids with [] => [] | id :: ids' => check_events i id ++ all_check ids' (S i) end.

Fixpoint all_add (ids : list gostring) (i : nat) : list ad_event :=
  match ids with [] => [] | _ :: ids' => ReaderStep i :: all_add ids' (S i) end.

Lemma all_check_run maxPeers ids : ∀ a done,
  PeerStore_Count (ad_store a) < maxPeers → Forall (λ id, ad_store a !! id = None) ids →
  ad_readers a = done ++ replicate (length ids) Idle →
  ad_run maxPeers a (all_check ids (length done)) = Some (a <| ad_readers := done ++ map AtAdd ids |>).
Proof.
  induction ids as [|id ids IH]; intros a dn Hc Hall Hr; cbn [all_check].
  { cbn in Hr |- *. rewrite <- Hr. by destruct a. }
  inversion_clear Hall as [|? ? Hid Hall'].
  assert (∀ pc pc', <[length dn := pc']> (dn ++ pc :: replicate (length ids) Idle) = dn ++ pc' :: replicate (length ids) Idle) as Hins.
  { intros. by rewrite insert_app_r_alt, Nat.sub_diag by lia. }
  assert (∀ (pc : reader_pc), (dn ++ pc :: replicate (length ids) Idle) !! length dn = Some pc) as Hlk.
  { intros. by rewrite lookup_app_r, Nat.sub_diag by lia. }
  assert (ad_run maxPeers a (check_events (length dn) id)
    = Some (a <| ad_readers := (dn ++ [AtAdd id]) ++ replicate (length ids) Idle |>)) as H1.
  { unfold check_events. destruct a as [ps rs nx os]. cbn in Hr, Hc, Hid. subst rs. cbn. rewrite Hlk. cbn.
    rewrite Hins, Hlk. cbn. unfold PeerStore_Get. rewrite Hid. cbn. rewrite !Hins, Hlk. cbn.
    rewrite (proj2 (Z.leb_gt _ _)), andb_false_r by done.
    unfold set_field. cbn. by rewrite !Hins, <- app_assoc. }
  rewrite ad_run_app, H1. cbn [mbind option_bind].
  replace (S (length dn)) with (length (dn ++ [AtAdd id])) by (rewrite length_app; cbn; lia).
  rewrite IH; [by rewrite <- app_assoc|done|done|done].
Qed.

Lemma all_add_run maxPeers ids : ∀ a done,
  NoDup ids → Forall (λ id, ad_store a !! id = None) ids → ad_readers a = done ++ map AtAdd ids →
  ∃ a', ad_run maxPeers a (all_add ids (length done)) = Some a'
  ∧ PeerStore_Count (ad_store a') = PeerStore_Count (ad_store a) + len ids.
Proof.
  induction ids as [|id ids IH]; intros a dn Hnd Hall Hr; cbn [all_add].
  { exists a. split; [done|]. unfold len. cbn. lia. }
  inversion_clear Hnd as [|? ? Hni Hnd']. inversion_clear Hall as [|? ? Hid Hall'].
  cbn [ad_run ad_step]. rewrite Hr. cbn [map]. rewrite lookup_app_r, Nat.sub_diag by lia. cbn.
  match goal with |- context [ad_run maxPeers ?a1 _] => destruct (IH a1 (dn ++ [Idle])) as (a' & Hrun & Hc) end.
  - done.
  - cbn. unfold PeerStore_Add. rewrite Forall_forall in Hall' |- *. intros x Hx. rewrite lookup_insert_ne; [by apply Hall'|].
    by intros ->.
  - cbn. rewrite Hr. cbn [map]. by rewrite insert_app_r_alt, Nat.sub_diag, <- app_assoc by lia.
  - rewrite length_app, Nat.add_comm in Hrun. exists a'. split; [exact Hrun|]. rewrite Hc. cbn.
    unfold PeerStore_Count, PeerStore_Add. rewrite map_size_insert_None by done. unfold len. cbn. lia.
Qed.

(** C23: Concurrent readers can exceed the limit, and by how much.  With [k]
    readers that complete handshakes in any interleaving, from a store within the
    limit, the store never has more than [MaxPeers + k - 1] peers, so a single
    reader respects the limit exactly; and the bound is attained: from one free
    place, [k] new peers whose readers all check before one of them adds are all
    admitted. *)
Theorem admission_bound maxPeers k ps next :
  0 < maxPeers → (0 < k)%nat → PeerStore_Count ps ≤ maxPeers →
  (∀ evs a, ad_run maxPeers (readers_start k ps next) evs = Some a →
     PeerStore_Count (ad_store a) ≤ maxPeers + Z.of_nat k - 1)
  ∧ (∀ ids, PeerStore_Count ps = maxPeers - 1 → length ids = k → NoDup ids → Forall (λ id, ps !! id = None) ids →
     ∃ a, ad_run maxPeers (readers_start k ps next) (all_check ids 0 ++ all_add ids 0) = Some a
     ∧ PeerStore_Count (ad_store a) = maxPeers + Z.of_nat k - 1).
Proof.
  intros H0 Hk Hps.
  assert (len (replicate k Idle) = Z.of_nat k) as Hlen by (unfold len; by rewrite length_replicate).
  split.
  - intros evs a Hrun. destruct (ad_run_within maxPeers evs (readers_start k ps next) a H0) as [Hw Hl]; [|done|].
    + unfold within, in_flight. cbn. rewrite filter_idle, Hlen. unfold len. cbn. lia.
    + cbn in Hl. unfold within in Hw. pose proof (len_nonneg (filter (λ pc, admitted pc = true) (ad_readers a))).
      unfold in_flight in Hw. lia.
  - intros ids Hc <- Hnd Hall.
    rewrite ad_run_app, (all_check_run maxPeers ids _ []) by (try done; cbn; lia). cbn [mbind option_bind app].
    destruct (all_add_run maxPeers ids (readers_start (length ids) ps next <| ad_readers := map AtAdd ids |>) [])
      as (a & Hrun & Hcount); try done.
    exists a. split; [done|]. rewrite Hcount. cbn. unfold len. lia.
Qed.

Lemma admission_bound_witness :
  (∀ evs a, ad_run 1 (readers_start 2 ∅ 1) evs = Some a → PeerStore_Count (ad_store a) ≤ 2)
  ∧ ∃ a, ad_run 1 (readers_start 2 ∅ 1) (all_check [str "a"; str "b"] 0 ++ all_add [str "a"; str "b"] 0) = Some a
    ∧ PeerStore_Count (ad_store a) = 2.
Proof.
  destruct (admission_bound 1 2 ∅ 1) as [H1 H2]; [lia|lia|vm_compute; congruence|]. split; [exact H1|].
  apply (H2 [str "a"; str "b"]); [reflexivity|reflexivity| |by repeat constructor].
  by apply (bool_decide_unpack _).
Defined.

(** ** Two handshakes of the same peer *)

(** A connect sends a UDP and a TCP handshake, and two readers complete them.
    When both look the peer up before one adds it, the second [Peer] object
    replaces the first, whose session and connection nobody closes or uses. *)
Theorem same_peer_replaced maxPeers ps next id :
  PeerStore_Count ps + 1 < maxPeers → ps !! id = None →
  ∃ a, ad_run maxPeers (readers_start 2 ps next) (all_check [id; id] 0 ++ [ReaderStep 0; ReaderStep 1]) = Some a
  ∧ ad_outcomes a = [(id, Added next); (id, Added (Pos.succ next))]
  ∧ PeerStore_Get (ad_store a) id = Some (Pos.succ next).
Proof.
  intros Hc Hid. rewrite ad_run_app, (all_check_run maxPeers [id; id] _ []); [|cbn; lia|by repeat constructor|done].
  cbn. eexists. split; [reflexivity|]. split; [done|]. apply lookup_insert_eq.
Qed.

(** When the first is done before the second looks, the second finds it. *)
Theorem same_peer_found maxPeers ps next id :
  PeerStore_Count ps < maxPeers → ps !! id = None →
  ∃ a, ad_run maxPeers (readers_start 2 ps next)
         (check_events 0 id ++ [ReaderStep 0; HandshakeDone 1 id; ReaderStep 1]) = Some a
  ∧ ad_outcomes a = [(id, Added next); (id, Existing next)].
Proof.
  intros Hc Hid. unfold check_events. cbn. unfold PeerStore_Get. rewrite Hid. cbn.
  rewrite (proj2 (Z.leb_gt _ _)), andb_false_r by done. cbn. unfold PeerStore_Get, PeerStore_Add.
  rewrite lookup_insert_eq. cbn. eexists. split; reflexivity.
Qed.
