(* ===== verification/TcpWrite.v ===== *)
(** * Concurrent writes to TCP connections ([node/send_path.go])

    Heartbeats, data, handshakes and announcements are written to one connection by
    different goroutines.  [writeTCPPacket] takes a mutex of the connection from a
    concurrent map first.  The model runs the goroutines step by step (the loads and
    stores of the map, the lock, pieces of a [Write] of any size), while connections
    break and are released.  It shows that a connection carries whole frames, one after
    the other, which is why a write is a single effect in the model of the node. *)

From S2P Require Import Prelude Protocol Stream Peer.

(** ** State *)

(** Where a call of [writeTCPPacket] is. *)
Inductive write_pc :=
| WLoad                                (** before [tcpWriteMuMap.Load] *)
| WStore (newMu : nat)                 (** before [LoadOrStore] of a new mutex *)
| WLock (mu : nat)                     (** before [mu.Lock] *)
| WWriting (mu : nat) (rest : bytes)   (** in [conn.Write], with this much to go *)
| WUnlock (mu : nat) (ok : bool)       (** before the deferred [mu.Unlock] *)
| WDone (ok : bool).

Record writer := MkWriter { w_conn : ConnRef; w_packet : byte * bytes; w_pc : write_pc }.
#[global] Instance writer_eta : RecordEta writer := λ w, MkWriter (w_conn w) (w_packet w) (w_pc w).

Record tcp_writes := MkTcpWrites {
  tcpWriteMuMap : gmap ConnRef nat;
  next_mu : nat;
  mu_holder : gmap nat nat;            (** the goroutine that holds a mutex *)
  conn_closed : gset ConnRef;          (** closed or broken: a [Write] fails *)
  conn_out : gmap ConnRef bytes;       (** the bytes written *)
  writers : list writer;
}.
#[global] Instance tcp_writes_eta : RecordEta tcp_writes := λ s,
  MkTcpWrites (tcpWriteMuMap s) (next_mu s) (mu_holder s) (conn_closed s) (conn_out s) (writers s).

(** [protocol.EncodeTCPFrame] of the packet. *)
Definition write_frame (p : byte * bytes) : bytes := EncodeTCPFrame (MagicBytes ++ p.1 :: p.2).

Definition out_of (s : tcp_writes) (c : ConnRef) : bytes := default [] (conn_out s !! c).

(** ** Steps *)

Definition at_pc (t : nat) (w : writer) (pc : write_pc) (s : tcp_writes) : tcp_writes :=
  s <| writers ::= <[t := w <| w_pc := pc |>]> |>.

(** [getTCPWriteMutex]: the first lookup, and the second one that stores. *)
Definition mutex_load (t : nat) (w : writer) (s : tcp_writes) : tcp_writes :=
  match tcpWriteMuMap s !! w_conn w with
  | Some mu => at_pc t w (WLock mu) s
  | None => at_pc t w (WStore (next_mu s)) (s <| next_mu ::= S |>)
  end.

Definition mutex_load_or_store (t : nat) (w : writer) (newMu : nat) (s : tcp_writes) : tcp_writes :=
  match tcpWriteMuMap s !! w_conn w with
  | Some mu => at_pc t w (WLock mu) s
  | None => at_pc t w (WLock newMu) (s <| tcpWriteMuMap ::= <[w_conn w := newMu]> |>)
  end.

(** A goroutine moves on; a [Write] takes [S k] bytes more.  [None]: it waits or is
    done. *)
Definition writer_step (k : nat) (t : nat) (w : writer) (s : tcp_writes) : option tcp_writes :=
  match w_pc w with
  | WLoad => Some (mutex_load t w s)
  | WStore newMu => Some (mutex_load_or_store t w newMu s)
  | WLock mu =>
      match mu_holder s !! mu with
      | Some _ => None
      | None => Some (at_pc t w (WWriting mu (write_frame (w_packet w))) (s <| mu_holder ::= <[mu := t]> |>))
      end
  | WWriting mu rest =>
      if bool_decide (w_conn w ∈ conn_closed s) then Some (at_pc t w (WUnlock mu false) s) else
      let s := s <| conn_out ::= <[w_conn w := out_of s (w_conn w) ++ take (S k) rest]> |> in
      Some (match drop (S k) rest with
            | [] => at_pc t w (WUnlock mu true) s
            | rest' => at_pc t w (WWriting mu rest') s
            end)
  | WUnlock mu ok => Some (at_pc t w (WDone ok) (s <| mu_holder ::= delete mu |>))
  | WDone _ => None
  end.

Inductive write_event :=
| Spawn (c : ConnRef) (p : byte * bytes)     (** a call of [writeTCPPacket] *)
| Step (t : nat) (k : nat)
| Break (c : ConnRef)                        (** the connection is closed or fails *)
| Release (c : ConnRef).                     (** [releaseTCPWriteMutex], after [handleTCP] closed it *)

Definition write_step (ev : write_event) (s : tcp_writes) : option tcp_writes :=
  match ev with
  | Spawn c p => Some (s <| writers ::= λ l, l ++ [MkWriter c p WLoad] |>)
  | Step t k => w ← writers s !! t; writer_step k t w s
  | Break c => Some (s <| conn_closed ::= λ l, {[c]} ∪ l |>)
  | Release c => if bool_decide (c ∈ conn_closed s) then Some (s <| tcpWriteMuMap ::= delete c |>) else None
  end.

Definition writes_start : tcp_writes := MkTcpWrites ∅ 0 ∅ ∅ ∅ [].

(** The packets are those of the program: they fit a frame. *)
Definition packet_fits (ev : write_event) : Prop := match ev with Spawn _ p => fits p | _ => True end.

Definition writes_trace (s s' : tcp_writes) : Prop := ∃ ev, packet_fits ev ∧ write_step ev s = Some s'.

(** The packet has been written to its last byte. *)
Definition complete (w : writer) : bool :=
  match w_pc w with WUnlock _ ok | WDone ok => ok | _ => false end.

(** What the reader of a connection has dispatched. *)
Definition dispatched (s : tcp_writes) (c : ConnRef) : list (byte * bytes) :=
  (handleTCP (S (length (out_of s c))) (out_of s c)).1.

(** The write to [c] that an event completes, if it completes one. *)
Definition finished (c : ConnRef) (ev : write_event) (s s' : tcp_writes) : list (nat * (byte * bytes)) :=
  match ev with
  | Step t _ =>
      match writers s !! t, writers s' !! t with
      | Some w, Some w' =>
          if bool_decide (w_conn w = c) && negb (complete w) && complete w' then [(t, w_packet w)] else []
      | _, _ => []
      end
  | _ => []
  end.

(** ** The invariant *)

(** The mutex a goroutine has chosen. *)
Definition chosen (w : writer) : option nat :=
  match w_pc w with WLock mu | WWriting mu _ | WUnlock mu _ => Some mu | _ => None end.

Definition holding (w : writer) : option nat :=
  match w_pc w with WWriting mu _ | WUnlock mu _ => Some mu | _ => None end.

Definition writing (w : writer) : option bytes :=
  match w_pc w with WWriting _ rest => Some rest | _ => None end.

(** The writes completed on a connection, in order, and the piece of a frame after them. *)
Record conn_carries (s : tcp_writes) (c : ConnRef) (order : list (nat * (byte * bytes))) (pre : bytes) : Prop := {
  cc_out : out_of s c = wire order.*2 ++ pre;
  cc_once : NoDup order.*1;
  cc_complete : ∀ t p, (t, p) ∈ order ↔
    ∃ w, writers s !! t = Some w ∧ w_conn w = c ∧ w_packet w = p ∧ complete w = true;
  cc_piece : ∃ p rest, fits p ∧ rest ≠ [] ∧ write_frame p = pre ++ rest;
  cc_current : c ∉ conn_closed s → ∀ t w rest,
    writers s !! t = Some w → w_conn w = c → writing w = Some rest → write_frame (w_packet w) = pre ++ rest ∧ rest ≠ [];
  cc_idle : c ∉ conn_closed s → (∀ t w, writers s !! t = Some w → w_conn w = c → writing w = None) → pre = [];
}.

Record writes_wf (s : tcp_writes) : Prop := {
  ww_fits : ∀ t w, writers s !! t = Some w → fits (w_packet w);
  ww_held : ∀ mu t, mu_holder s !! mu = Some t → ∃ w, writers s !! t = Some w ∧ holding w = Some mu;
  ww_holds : ∀ t w mu, writers s !! t = Some w → holding w = Some mu → mu_holder s !! mu = Some t;
  ww_chosen : ∀ t w mu, writers s !! t = Some w → chosen w = Some mu → w_conn w ∉ conn_closed s →
    tcpWriteMuMap s !! w_conn w = Some mu;
  ww_conns : ∀ c, ∃ order pre, conn_carries s c order pre;
}.

Lemma write_frame_nonempty p : write_frame p ≠ [].
Proof. unfold write_frame. rewrite EncodeTCPFrame_eq, be_bytes_2. done. Qed.

(** One goroutine at a time writes to an open connection. *)
Lemma one_writer s t1 w1 t2 w2 :
  writes_wf s → writers s !! t1 = Some w1 → writers s !! t2 = Some w2 → w_conn w1 = w_conn w2 →
  w_conn w1 ∉ conn_closed s → is_Some (holding w1) → is_Some (holding w2) → t1 = t2.
Proof.
  intros Hwf H1 H2 Hc Ho [mu1 Hm1] [mu2 Hm2].
  assert (∀ w mu, holding w = Some mu → chosen w = Some mu) as Hhc.
  { intros w mu. unfold holding, chosen. by destruct (w_pc w). }
  pose proof (ww_chosen _ Hwf _ _ _ H1 (Hhc _ _ Hm1) Ho) as E1.
  pose proof (ww_chosen _ Hwf _ _ _ H2 (Hhc _ _ Hm2)) as E2. rewrite <- Hc in E2. specialize (E2 Ho).
  pose proof (ww_holds _ Hwf _ _ _ H1 Hm1). pose proof (ww_holds _ Hwf _ _ _ H2 Hm2). congruence.
Qed.

(** *** A goroutine moves *)

(** [s'] is [s] after goroutine [t] went to [pc]; the rest of the state is constrained
    where the lemma needs it. *)
Definition moved (s s' : tcp_writes) (t : nat) (w : writer) (pc : write_pc) : Prop :=
  writers s !! t = Some w ∧ writers s' = <[t := w <| w_pc := pc |>]> (writers s) ∧ conn_closed s' = conn_closed s.

Lemma moved_lookup s s' t w pc t' x :
  moved s s' t w pc →
  writers s' !! t' = Some x ↔ (t' = t ∧ x = w <| w_pc := pc |>) ∨ (t' ≠ t ∧ writers s !! t' = Some x).
Proof.
  intros (Hw & -> & _). destruct (decide (t' = t)) as [->|Hne].
  - rewrite list_lookup_insert_eq by by eapply lookup_lt_Some. naive_solver.
  - rewrite list_lookup_insert_ne by done. naive_solver.
Qed.

(** Connections whose writes the move does not concern. *)
Lemma carries_kept s s' t w pc c order pre :
  conn_carries s c order pre → moved s s' t w pc → out_of s' c = out_of s c →
  let w' := w <| w_pc := pc |> in
  w_conn w ≠ c ∨ (complete w' = complete w ∧ (c ∈ conn_closed s ∨ (writing w = None ∧ writing w' = None))) →
  conn_carries s' c order pre.
Proof.
  intros [Hout Honce Hcomp Hpiece Hcur Hidle] Hm Ho w' Hcase. pose proof Hm as (Hw & _ & Hcl).
  assert (∀ t' x, writers s' !! t' = Some x → w_conn x = c →
            (writers s !! t' = Some x) ∨ (t' = t ∧ x = w' ∧ w_conn w = c)) as Hback.
  { intros t' x [[-> ->]|[_ H]]%(moved_lookup _ _ _ _ _ _ _ Hm); [|by left]. by right. }
  split; [by rewrite Ho|done| |done|..]; rewrite ?Hcl.
  - intros t' p. rewrite Hcomp. split; intros (x & Hx & Hc & Hp & Hcx).
    + destruct (decide (t' = t)) as [->|Hne].
      * assert (x = w) as -> by congruence. exists w'. split; [apply (moved_lookup _ _ _ _ _ _ _ Hm); by left|].
        destruct Hcase as [?|[E _]]; [done|]. by rewrite E.
      * exists x. split; [|done]. apply (moved_lookup _ _ _ _ _ _ _ Hm). by right.
    + destruct (Hback t' x Hx Hc) as [H|(-> & -> & Hwc)]; [by exists x|].
      exists w. destruct Hcase as [?|[E _]]; [done|]. by rewrite <- E.
  - intros Hn t' x rest Hx Hc Hr. destruct (Hback t' x Hx Hc) as [H|(-> & -> & Hwc)]; [by eapply Hcur|].
    destruct Hcase as [?|[_ [?|[_ E]]]]; [done|done|]. congruence.
  - intros Hn Hno. apply Hidle; [done|]. intros t' x Hx Hc. destruct (decide (t' = t)) as [->|Hne].
    + assert (x = w) as -> by congruence. by destruct Hcase as [?|[_ [?|[E _]]]].
    + apply (Hno t' x); [|done]. apply (moved_lookup _ _ _ _ _ _ _ Hm). by right.
Qed.

(** The mutex was free: nobody is writing, and the frame begins. *)
Lemma carries_begins s s' t w mu c order pre :
  writes_wf s → conn_carries s c order pre → moved s s' t w (WWriting mu (write_frame (w_packet w))) →
  w_pc w = WLock mu → mu_holder s !! mu = None → w_conn w = c → out_of s' c = out_of s c → c ∉ conn_closed s →
  conn_carries s' c order pre.
Proof.
  intros Hwf Hcar Hm Hpc Hfree Hc Ho Hopen. pose proof Hm as (Hw & _ & Hcl).
  assert (∀ t' x, writers s !! t' = Some x → w_conn x = c → writing x = None) as Hno.
  { intros t' x Hx Hxc. unfold writing. destruct (w_pc x) as [| | |mu' rest| |] eqn:Ex; try done. exfalso.
    pose proof (ww_holds _ Hwf _ _ mu' Hx) as Hh. unfold holding in Hh. rewrite Ex in Hh. specialize (Hh eq_refl).
    pose proof (ww_chosen _ Hwf _ _ mu' Hx) as E1. pose proof (ww_chosen _ Hwf _ _ mu Hw) as E2.
    unfold chosen in E1, E2. rewrite Ex in E1. rewrite Hpc in E2. rewrite Hxc in E1. rewrite Hc in E2.
    specialize (E1 eq_refl Hopen). specialize (E2 eq_refl Hopen). congruence. }
  assert (pre = []) as -> by (apply (cc_idle _ _ _ _ Hcar); [done|]; intros; by eapply Hno).
  destruct Hcar as [Hout Honce Hcomp Hpiece _ _]. split; [by rewrite Ho|done| |done|..].
  - intros t' p. rewrite Hcomp. split; intros (x & Hx & Hxc & Hp & Hcx).
    + exists x. split; [|done]. apply (moved_lookup _ _ _ _ _ _ _ Hm). right. split; [|done]. intros ->.
      assert (x = w) as -> by congruence. unfold complete in Hcx. by rewrite Hpc in Hcx.
    + apply (moved_lookup _ _ _ _ _ _ _ Hm) in Hx as [[-> ->]|[_ Hx]]; [done|]. by exists x.
  - intros _ t' x rest Hx Hxc Hr. apply (moved_lookup _ _ _ _ _ _ _ Hm) in Hx as [[-> ->]|[_ Hx]].
    + cbn in Hr. injection Hr as <-. split; [done|apply write_frame_nonempty].
    + by rewrite (Hno t' x) in Hr.
  - done.
Qed.

Lemma wire_snoc ps p : wire (ps ++ [p]) = wire ps ++ write_frame p.
Proof. unfold wire, write_frame. rewrite fmap_app, concat_app. cbn [fmap list_fmap concat]. by rewrite app_nil_r. Qed.

(** Bytes are written, up to the end of the frame or not. *)
Section writing.
Context (s s' : tcp_writes) (t : nat) (w : writer) (mu : nat) (rest : bytes) (pc : write_pc).
Context (order : list (nat * (byte * bytes))) (pre : bytes).
Context (Hwf : writes_wf s) (Hcar : conn_carries s (w_conn w) order pre) (Hpc : w_pc w = WWriting mu rest).
Context (Hopen : w_conn w ∉ conn_closed s) (Hm : moved s s' t w pc).

Lemma current_frame : write_frame (w_packet w) = pre ++ rest ∧ rest ≠ [].
Proof using Hcar Hpc Hopen Hm.
  destruct Hm as (Hw & _). eapply (cc_current _ _ _ _ Hcar Hopen t w rest Hw eq_refl). unfold writing. by rewrite Hpc.
Qed.

Lemma others_idle t' x : writers s' !! t' = Some x → w_conn x = w_conn w → t' ≠ t → writing x = None.
Proof using Hwf Hpc Hopen Hm.
  intros Hx Hxc Hne. pose proof Hm as (Hw & _).
  apply (moved_lookup _ _ _ _ _ _ _ Hm) in Hx as [[-> _]|[_ Hx]]; [done|].
  unfold writing. destruct (w_pc x) as [| | |mu' rest'| |] eqn:Ex; try done. destruct Hne.
  eapply (one_writer s); [done|done|done|done|by rewrite Hxc|..]; unfold holding; rewrite ?Ex, ?Hpc; by eexists.
Qed.

Lemma not_complete_yet : t ∉ order.*1.
Proof using Hcar Hpc Hm.
  intros ([t' p] & -> & Hin)%list_elem_of_fmap. apply (cc_complete _ _ _ _ Hcar) in Hin as (x & Hx & _ & _ & Hcx).
  destruct Hm as (Hw & _). cbn in Hw. assert (x = w) as -> by congruence. unfold complete in Hcx. by rewrite Hpc in Hcx.
Qed.

Lemma others_complete t' p :
  t' ≠ t → (t', p) ∈ order ↔ ∃ x, writers s' !! t' = Some x ∧ w_conn x = w_conn w ∧ w_packet x = p ∧ complete x = true.
Proof using Hcar Hm.
  intros Hne. rewrite (cc_complete _ _ _ _ Hcar). split; intros (x & Hx & ?); exists x; (split; [|done]).
  - apply (moved_lookup _ _ _ _ _ _ _ Hm). by right.
  - by apply (moved_lookup _ _ _ _ _ _ _ Hm) in Hx as [[? _]|[_ ?]].
Qed.

Lemma mover_now x : writers s' !! t = Some x ↔ x = w <| w_pc := pc |>.
Proof using Hm. rewrite (moved_lookup _ _ _ _ _ _ _ Hm). naive_solver. Qed.

Lemma carries_finishes :
  pc = WUnlock mu true → out_of s' (w_conn w) = out_of s (w_conn w) ++ rest →
  conn_carries s' (w_conn w) (order ++ [(t, w_packet w)]) [].
Proof using All.
  intros Epc Ho. destruct current_frame as [Hframe _]. pose proof not_complete_yet as Hnew. split.
  - rewrite Ho, (cc_out _ _ _ _ Hcar), fmap_app. change [(t, w_packet w)].*2 with [w_packet w].
    by rewrite wire_snoc, Hframe, app_nil_r, !app_assoc.
  - rewrite fmap_app. apply NoDup_app. split; [apply Hcar|]. split; [|apply NoDup_singleton].
    by intros t' Ht' ->%list_elem_of_singleton.
  - intros t' p. rewrite elem_of_app, list_elem_of_singleton. destruct (decide (t' = t)) as [->|Hne].
    + split; [intros [Hin|[= ->]]; [destruct Hnew; apply list_elem_of_fmap; by exists (t, p)|]|].
      * eexists. split; [by apply mover_now|]. by rewrite Epc.
      * intros (x & ->%mover_now & _ & Hp & _). right. cbn in Hp. by rewrite Hp.
    + rewrite <- others_complete by done. naive_solver.
  - exists (w_packet w), (write_frame (w_packet w)). split; [by eapply ww_fits, Hm|]. split; [apply write_frame_nonempty|done].
  - intros _ t' x r Hx Hxc Hr. exfalso. destruct (decide (t' = t)) as [->|Hne].
    + apply mover_now in Hx as ->. by rewrite Epc in Hr.
    + by rewrite (others_idle t' x) in Hr.
  - done.
Qed.

Lemma carries_more piece rest' :
  rest = piece ++ rest' → rest' ≠ [] → pc = WWriting mu rest' → out_of s' (w_conn w) = out_of s (w_conn w) ++ piece →
  conn_carries s' (w_conn w) order (pre ++ piece).
Proof using All.
  intros Hsplit Hne' Epc Ho. destruct current_frame as [Hframe _]. pose proof not_complete_yet as Hnew.
  assert (write_frame (w_packet w) = (pre ++ piece) ++ rest') as Hframe' by by rewrite Hframe, Hsplit, app_assoc.
  split.
  - by rewrite Ho, (cc_out _ _ _ _ Hcar), app_assoc.
  - apply Hcar.
  - intros t' p. destruct (decide (t' = t)) as [->|Hne]; [|by apply others_complete]. split.
    + intros Hin. destruct Hnew. apply list_elem_of_fmap. by exists (t, p).
    + intros (x & ->%mover_now & _ & _ & Hcx). by rewrite Epc in Hcx.
  - exists (w_packet w), rest'. split; [by eapply ww_fits, Hm|done].
  - intros _ t' x r Hx Hxc Hr. destruct (decide (t' = t)) as [->|Hne].
    + apply mover_now in Hx as ->. rewrite Epc in Hr. cbn in Hr. injection Hr as <-. by split.
    + by rewrite (others_idle t' x) in Hr.
  - intros _ Hidle. specialize (Hidle t _ (proj2 (mover_now _) eq_refl) eq_refl). by rewrite Epc in Hidle.
Qed.
End writing.

(** *** Every step *)

Lemma wf_moved s s' t w pc :
  let w' := w <| w_pc := pc |> in
  writes_wf s → moved s s' t w pc →
  (∀ mu t', mu_holder s' !! mu = Some t' ↔ (t' ≠ t ∧ mu_holder s !! mu = Some t') ∨ (t' = t ∧ holding w' = Some mu)) →
  (∀ c mu, tcpWriteMuMap s !! c = Some mu → tcpWriteMuMap s' !! c = Some mu) →
  (∀ mu, chosen w' = Some mu → w_conn w ∉ conn_closed s → tcpWriteMuMap s' !! w_conn w = Some mu) →
  (∀ c, ∃ order pre, conn_carries s' c order pre) → writes_wf s'.
Proof.
  intros w' Hwf Hm Hholder Hmap Hcho Hcar. pose proof Hm as (Hw & _ & Hcl). split; [..|done].
  - intros t' x [[-> ->]|[_ Hx]]%(moved_lookup _ _ _ _ _ _ _ Hm); [exact (ww_fits _ Hwf t w Hw)|by eapply ww_fits].
  - intros mu t' [[Hne (x & Hx & Hh)%(ww_held _ Hwf)]|[-> Hh]]%Hholder.
    + exists x. split; [|done]. apply (moved_lookup _ _ _ _ _ _ _ Hm). by right.
    + exists w'. split; [|done]. apply (moved_lookup _ _ _ _ _ _ _ Hm). by left.
  - intros t' x mu [[-> ->]|[Hne Hx]]%(moved_lookup _ _ _ _ _ _ _ Hm) Hh; apply Hholder; [by right|left].
    split; [done|]. by eapply ww_holds.
  - intros t' x mu [[-> ->]|[Hne Hx]]%(moved_lookup _ _ _ _ _ _ _ Hm) Hh Ho; rewrite Hcl in Ho; [by apply Hcho|].
    apply Hmap. by eapply ww_chosen.
Qed.

(** The goroutine neither takes nor gives up a mutex. *)
Lemma holder_kept s s' t w pc :
  writes_wf s → moved s s' t w pc → mu_holder s' = mu_holder s → holding (w <| w_pc := pc |>) = holding w →
  ∀ mu t', mu_holder s' !! mu = Some t' ↔
    (t' ≠ t ∧ mu_holder s !! mu = Some t') ∨ (t' = t ∧ holding (w <| w_pc := pc |>) = Some mu).
Proof.
  intros Hwf (Hw & _) -> -> mu t'. split.
  - intros H. destruct (decide (t' = t)) as [->|]; [|by left]. right. split; [done|].
    destruct (ww_held _ Hwf _ _ H) as (x & Hx & Hh). congruence.
  - intros [[_ ?]|[-> Hh]]; [done|]. by eapply ww_holds.
Qed.

(** The connections are unaffected by moves before and after the write. *)
Lemma carries_unaffected s s' t w pc :
  writes_wf s → moved s s' t w pc → conn_out s' = conn_out s →
  writing w = None → writing (w <| w_pc := pc |>) = None → complete (w <| w_pc := pc |>) = complete w →
  ∀ c, ∃ order pre, conn_carries s' c order pre.
Proof.
  intros Hwf Hm Ho H1 H2 H3 c. destruct (ww_conns _ Hwf c) as (order & pre & Hcar). exists order, pre.
  eapply carries_kept; [done|done|by unfold out_of; rewrite Ho|]. by auto.
Qed.

Lemma moved_at_pc s s0 t w pc :
  writers s !! t = Some w → writers s0 = writers s → conn_closed s0 = conn_closed s → moved s (at_pc t w pc s0) t w pc.
Proof. intros Hw Hs Hc. unfold moved, at_pc. cbn. by rewrite Hs. Qed.

(** Taking or looking up the mutex. *)
Lemma wf_acquiring s s0 t w pc :
  writes_wf s → writers s !! t = Some w → writing w = None → holding w = None → complete w = false →
  writing (w <| w_pc := pc |>) = None → holding (w <| w_pc := pc |>) = None → complete (w <| w_pc := pc |>) = false →
  writers s0 = writers s → conn_closed s0 = conn_closed s → conn_out s0 = conn_out s → mu_holder s0 = mu_holder s →
  (∀ c mu, tcpWriteMuMap s !! c = Some mu → tcpWriteMuMap s0 !! c = Some mu) →
  (∀ mu, chosen (w <| w_pc := pc |>) = Some mu → tcpWriteMuMap s0 !! w_conn w = Some mu) →
  writes_wf (at_pc t w pc s0).
Proof.
  intros Hwf Hw Hw1 Hh1 Hc1 Hw2 Hh2 Hc2 E1 E2 E3 E4 Hmap Hcho.
  pose proof (moved_at_pc s s0 t w pc Hw E1 E2) as Hm.
  eapply wf_moved; [done|done|..|intros mu Hmu _; by apply Hcho|].
  - apply holder_kept; [done|done|done|congruence].
  - done.
  - eapply (carries_unaffected s); try done. by rewrite Hc1.
Qed.

(** The mutex is locked. *)
Lemma wf_locks s t w mu :
  writes_wf s → writers s !! t = Some w → w_pc w = WLock mu → mu_holder s !! mu = None →
  writes_wf (at_pc t w (WWriting mu (write_frame (w_packet w))) (s <| mu_holder ::= <[mu := t]> |>)).
Proof.
  intros Hwf Hw Hpc Hfree. assert (holding w = None) as Eho by (unfold holding; by rewrite Hpc).
  assert (complete w = false) as Eco by (unfold complete; by rewrite Hpc).
  set (s' := at_pc _ _ _ _). assert (moved s s' t w (WWriting mu (write_frame (w_packet w)))) as Hm by by apply moved_at_pc.
  eapply wf_moved; [done|done|..].
  - intros mu' t'. cbn. destruct (decide (mu' = mu)) as [->|Hne].
    + rewrite lookup_insert_eq, Hfree. naive_solver.
    + rewrite lookup_insert_ne by done. split; [|intros [[_ ?]|[_ [= ?]]]; congruence]. intros H. left. split; [|done].
      intros ->. destruct (ww_held _ Hwf _ _ H) as (x & Hx & Hh). congruence.
  - done.
  - intros mu' [= <-] Ho. apply (ww_chosen _ Hwf t w mu Hw); [unfold chosen; by rewrite Hpc|done].
  - intros c. destruct (ww_conns _ Hwf c) as (order & pre & Hcar). exists order, pre.
    destruct (decide (w_conn w = c ∧ c ∉ conn_closed s)) as [[Hc Ho]|Hn]; [by eapply carries_begins|].
    eapply carries_kept; [done|done|done|]. cbn. rewrite Eco. destruct (decide (c ∈ conn_closed s)); [by auto|].
    left. naive_solver.
Qed.

(** A write to a connection that is closed fails. *)
Lemma wf_write_fails s t w mu rest :
  writes_wf s → writers s !! t = Some w → w_pc w = WWriting mu rest → w_conn w ∈ conn_closed s →
  writes_wf (at_pc t w (WUnlock mu false) s).
Proof.
  intros Hwf Hw Hpc Hcl. set (s' := at_pc _ _ _ _).
  assert (moved s s' t w (WUnlock mu false)) as Hm by by apply moved_at_pc.
  eapply wf_moved; [done|done|apply holder_kept; [done|done|done|]|done|intros mu' [= <-]; by intros []|].
  { unfold holding. by rewrite Hpc. }
  intros c. destruct (ww_conns _ Hwf c) as (order & pre & Hcar). exists order, pre.
  eapply carries_kept; [done|done|done|]. destruct (decide (w_conn w = c)) as [<-|]; [right|by left].
  split; [|by left]. unfold complete. by rewrite Hpc.
Qed.

Lemma wf_writes s t w mu rest k :
  writes_wf s → writers s !! t = Some w → w_pc w = WWriting mu rest → w_conn w ∉ conn_closed s →
  writes_wf (at_pc t w (match drop (S k) rest with [] => WUnlock mu true | rest' => WWriting mu rest' end)
               (s <| conn_out ::= <[w_conn w := out_of s (w_conn w) ++ take (S k) rest]> |>)).
Proof.
  intros Hwf Hw Hpc Hcl. set (pc := match drop (S k) rest with [] => WUnlock mu true | rest' => WWriting mu rest' end).
  set (s0 := s <| conn_out ::= _ |>). assert (moved s (at_pc t w pc s0) t w pc) as Hm by by apply moved_at_pc.
  assert (holding (w <| w_pc := pc |>) = Some mu ∧ chosen (w <| w_pc := pc |>) = Some mu) as [Hh Hch]
    by (unfold pc; cbn; by destruct (drop (S k) rest)).
  eapply wf_moved; [done|done|apply holder_kept; [done|done|done|]|done|..].
  - rewrite Hh. unfold holding. by rewrite Hpc.
  - intros mu' Hmu' Ho. apply (ww_chosen _ Hwf t w mu' Hw); [unfold chosen; rewrite Hpc; congruence|done].
  - intros c. destruct (ww_conns _ Hwf c) as (order & pre & Hcar). destruct (decide (w_conn w = c)) as [<-|Hne].
    + assert (out_of (at_pc t w pc s0) (w_conn w) = out_of s (w_conn w) ++ take (S k) rest) as Ho.
      { unfold out_of at 1. cbn. by rewrite lookup_insert_eq. }
      pose proof (take_drop (S k) rest) as Hsplit. destruct (drop (S k) rest) as [|b rest'] eqn:Ed.
      * eexists _, _. eapply carries_finishes; [done|done|done|done|done|done|].
        rewrite Ho. rewrite app_nil_r in Hsplit. by rewrite Hsplit.
      * eexists _, _. eapply (carries_more s _ t w mu rest); [done|done|done|done|done|by rewrite Hsplit|done|done|done].
    + exists order, pre. eapply carries_kept; [done|done| |by left]. unfold out_of. cbn. by rewrite lookup_insert_ne.
Qed.

Lemma wf_unlocks s t w mu ok :
  writes_wf s → writers s !! t = Some w → w_pc w = WUnlock mu ok →
  writes_wf (at_pc t w (WDone ok) (s <| mu_holder ::= delete mu |>)).
Proof.
  intros Hwf Hw Hpc. assert (holding w = Some mu) as Eho by (unfold holding; by rewrite Hpc).
  set (s' := at_pc _ _ _ _). assert (moved s s' t w (WDone ok)) as Hm by by apply moved_at_pc.
  eapply wf_moved; [done|done| |done|done|].
  - intros mu' t'. cbn. destruct (decide (mu' = mu)) as [->|Hne].
    + rewrite lookup_delete_eq. split; [done|]. intros [[Hne' H]|[_ [=]]].
      pose proof (ww_holds _ Hwf t w mu Hw Eho). congruence.
    + rewrite lookup_delete_ne by done. split; [|naive_solver]. intros H. left. split; [|done]. intros ->.
      destruct (ww_held _ Hwf _ _ H) as (x & Hx & Hh). congruence.
  - eapply (carries_unaffected s); try done; unfold writing, complete; by rewrite Hpc.
Qed.

Lemma writer_step_wf k t w s s' : writes_wf s → writers s !! t = Some w → writer_step k t w s = Some s' → writes_wf s'.
Proof.
  intros Hwf Hw. unfold writer_step. destruct (w_pc w) as [|newMu|mu|mu rest|mu ok|ok] eqn:Hpc; [..|done].
  1,2: intros [= <-]; unfold mutex_load, mutex_load_or_store; destruct (tcpWriteMuMap s !! w_conn w) as [mu|] eqn:E;
    apply (wf_acquiring s); try done; try (unfold writing, holding, complete; by rewrite Hpc); cbn; try (by intros mu' [= <-]).
  - intros c mu Hc. rewrite lookup_insert_ne; [done|congruence].
  - intros mu' [= <-]. by rewrite lookup_insert_eq.
  - destruct (mu_holder s !! mu) as [t'|] eqn:Hfree; [done|]. intros [= <-]. by apply wf_locks.
  - case_bool_decide as Hcl; intros [= <-]; [by eapply wf_write_fails|].
    pose proof (wf_writes s t w mu rest k Hwf Hw Hpc Hcl) as H. by destruct (drop (S k) rest).
  - intros [= <-]. by apply wf_unlocks.
Qed.

Lemma wf_new_call s c p :
  writes_wf s → fits p → writes_wf (s <| writers ::= λ l, l ++ [MkWriter c p WLoad] |>).
Proof.
  intros Hwf Hp. set (s' := s <| writers ::= _ |>).
  assert (∀ t w, writers s' !! t = Some w → writers s !! t = Some w ∨ w = MkWriter c p WLoad) as Hback.
  { intros t w [[_ H]|[_ H]]%lookup_snoc_Some; [by left|by right]. }
  assert (∀ t w, writers s !! t = Some w → writers s' !! t = Some w) as Hfwd.
  { intros t w H. cbn. by rewrite lookup_app_l by by eapply lookup_lt_Some. }
  split.
  - intros t w [H| ->]%Hback; [by eapply ww_fits|done].
  - intros mu t (w & Hw & Hh)%(ww_held _ Hwf). exists w. split; [by apply Hfwd|done].
  - intros t w mu [H| ->]%Hback Hh; [by eapply (ww_holds _ Hwf)|done].
  - intros t w mu [H| ->]%Hback Hh; [by eapply (ww_chosen _ Hwf)|done].
  - intros c'. destruct (ww_conns _ Hwf c') as (order & pre & [Hout Honce Hcomp Hpiece Hcur Hidle]). exists order, pre.
    split; try done.
    + intros t p'. rewrite Hcomp. split; intros (w & Hw & Hrest); [exists w; by auto|].
      destruct (Hback t w Hw) as [H| ->]; [by exists w|]. by destruct Hrest as (_ & _ & ?).
    + intros Ho t w rest [H| ->]%Hback Hc Hr; [by eapply Hcur|done].
    + intros Ho Hno. apply Hidle; [done|]. intros t w Hw. by apply (Hno t w), Hfwd.
Qed.

Lemma wf_break s c : writes_wf s → writes_wf (s <| conn_closed ::= λ l, {[c]} ∪ l |>).
Proof.
  intros Hwf. split; try apply Hwf; cbn.
  - intros t w mu Hw Hc Ho. eapply (ww_chosen _ Hwf); [done|done|set_solver].
  - intros c'. destruct (ww_conns _ Hwf c') as (order & pre & [Hout Honce Hcomp Hpiece Hcur Hidle]). exists order, pre.
    split; try done; cbn; intros Ho; [apply Hcur|apply Hidle]; set_solver.
Qed.

Lemma wf_release s c : writes_wf s → c ∈ conn_closed s → writes_wf (s <| tcpWriteMuMap ::= delete c |>).
Proof.
  intros Hwf Hc. split; try apply Hwf; cbn.
  - intros t w mu Hw Hch Ho. rewrite lookup_delete_ne by (intros ->; done). by eapply (ww_chosen _ Hwf).
  - intros c'. destruct (ww_conns _ Hwf c') as (order & pre & []). exists order, pre. by split.
Qed.

Lemma writes_start_wf : writes_wf writes_start.
Proof.
  split; try done. intros c. exists [], []. split; try done; [constructor| |].
  - intros t p. split; [by intros ?%not_elem_of_nil|]. by intros (w & Hw & _).
  - exists (x00, []), (write_frame (x00, [])). split; [done|]. split; [apply write_frame_nonempty|done].
Qed.

Lemma write_step_wf ev s s' : writes_wf s → packet_fits ev → write_step ev s = Some s' → writes_wf s'.
Proof.
  intros Hwf Hp Hev. destruct ev as [c p|t k|c|c]; cbn in Hev.
  - injection Hev as <-. by apply wf_new_call.
  - destruct (writers s !! t) as [w|] eqn:Hw; [|done]. by eapply writer_step_wf.
  - injection Hev as <-. by apply wf_break.
  - case_bool_decide; [|done]. injection Hev as <-. by apply wf_release.
Qed.

Lemma writes_trace_wf s : rtc writes_trace writes_start s → writes_wf s.
Proof.
  intros H. pose proof writes_start_wf as Hwf. induction H as [|s1 s2 s3 (ev & Hp & Hev) _ IH]; [done|]. apply IH.
  by eapply write_step_wf.
Qed.

(** The reader ignores a frame that is not complete. *)
Lemma handleTCP_piece p pre rest fuel : fits p → rest ≠ [] → write_frame p = pre ++ rest → (handleTCP (S fuel) pre).1 = [].
Proof.
  intros Hp Hr Hframe. assert (∀ body tl, read_frame pre ≠ Frame body tl) as Hno.
  { intros body tl. unfold read_frame. destruct (Z.ltb_spec (len pre) 2) as [|H2]; [done|]. case_match; [done|].
    unfold write_frame, fits in *. rewrite EncodeTCPFrame_eq, be_bytes_2 in Hframe.
    destruct pre as [|h0 [|h1 pre']]; [unfold len in H2; cbn in H2; lia..|]. injection Hframe as E0 E1 Hbody.
    assert (0 < len rest) as Hpos by (destruct rest; [done|]; len_solve).
    assert (DecodeTCPFrameLength (h0 :: h1 :: pre') = 5 + len p.2) as ->.
    { rewrite DecodeTCPFrameLength_eq. subst h0 h1. rewrite <- be_bytes_2, be_value_bytes. rewrite Z.mod_small; [len_solve|].
      pose proof (len_nonneg p.2). cbn -[len]. len_solve. }
    assert (len pre' + len rest = 5 + len p.2) as Hlen by (rewrite <- len_app, <- Hbody; len_solve).
    cbn [drop]. rewrite drop_0. destruct (Z.ltb_spec (len pre') (5 + len p.2)); [done|lia]. }
  cbn [handleTCP]. destruct (read_frame pre); try done. by destruct (Hno body rest0).
Qed.

(** What the reader of a connection dispatches are the completed writes. *)
Lemma dispatched_order s c order pre :
  writes_wf s → conn_carries s c order pre →
  dispatched s c = order.*2
  ∧ ∀ more, ∃ l, (handleTCP (S (length (out_of s c ++ more))) (out_of s c ++ more)).1 = order.*2 ++ l.
Proof.
  intros Hwf Hcar. destruct (cc_piece _ _ _ _ Hcar) as (p & rest & Hp & Hrest & Hpre).
  assert (Forall fits order.*2) as Hfit.
  { apply Forall_forall. intros q ([t q'] & -> & (w & Hw & _ & <- & _)%(cc_complete _ _ _ _ Hcar))%list_elem_of_fmap.
    by eapply ww_fits. }
  split.
  - unfold dispatched. rewrite (cc_out _ _ _ _ Hcar).
    rewrite (loop_wire handleTCP handleTCP_on_frame handleTCP_fuel_enough order.*2 pre) by (done || lia).
    cbn [fst]. by rewrite (handleTCP_piece p pre rest), app_nil_r.
  - intros more. rewrite (cc_out _ _ _ _ Hcar), <- app_assoc.
    rewrite (loop_wire handleTCP handleTCP_on_frame handleTCP_fuel_enough order.*2 (pre ++ more)) by (done || lia).
    by eexists.
Qed.

(** A step keeps a goroutine's connection, packet and success. *)
Lemma writer_step_kept k t w s s' :
  writer_step k t w s = Some s' → writers s !! t = Some w →
  ∃ w', writers s' = <[t := w']> (writers s) ∧ w_conn w' = w_conn w ∧ w_packet w' = w_packet w
  ∧ (complete w = true → complete w' = true) ∧ (∀ c, ∃ more, out_of s' c = out_of s c ++ more).
Proof.
  intros Hs Hw. unfold writer_step in Hs.
  assert (∀ s1 pc, writers s1 = writers s → conn_out s1 = conn_out s →
    (complete w = true → complete (w <| w_pc := pc |>) = true) →
    ∃ w', writers (at_pc t w pc s1) = <[t := w']> (writers s) ∧ w_conn w' = w_conn w ∧ w_packet w' = w_packet w
    ∧ (complete w = true → complete w' = true) ∧ ∀ c, ∃ more, out_of (at_pc t w pc s1) c = out_of s c ++ more) as Hmove.
  { intros s1 pc E1 E2 Hc. eexists. cbn. rewrite E1. split; [reflexivity|]. split_and!; try done. intros c. exists [].
    unfold out_of. cbn. by rewrite E2, app_nil_r. }
  destruct (w_pc w) as [|newMu|mu|mu rest|mu ok|ok] eqn:Hpc; [| | | | |done];
    assert (complete w = match w_pc w with WUnlock _ ok => ok | _ => false end) as Hcw
      by (unfold complete; by rewrite Hpc); rewrite Hpc in Hcw.
  - injection Hs as <-. unfold mutex_load. destruct (tcpWriteMuMap s !! w_conn w); apply Hmove; try done; by rewrite Hcw.
  - injection Hs as <-. unfold mutex_load_or_store. destruct (tcpWriteMuMap s !! w_conn w); apply Hmove; try done; by rewrite Hcw.
  - destruct (mu_holder s !! mu); [done|]. injection Hs as <-. apply Hmove; try done. by rewrite Hcw.
  - case_bool_decide; [injection Hs as <-; apply Hmove; try done; by rewrite Hcw|]. rewrite Hcw.
    assert (∃ pc, s' = at_pc t w pc (s <| conn_out ::= <[w_conn w := out_of s (w_conn w) ++ take (S k) rest]> |>)) as [pc ->].
    { injection Hs as <-. destruct (drop (S k) rest); by eexists. }
    eexists. split; [reflexivity|]. split_and!; try done. intros c. unfold out_of at 1. cbn.
    destruct (decide (w_conn w = c)) as [<-|Hne]; [rewrite lookup_insert_eq; by eexists|].
    rewrite lookup_insert_ne by done. exists []. by rewrite app_nil_r.
  - injection Hs as <-. apply Hmove; try done. by rewrite Hcw.
Qed.

(** The bytes of a connection only grow, and the completed writes are the earlier ones
    and the one that finishes. *)
Lemma write_step_completes ev s s' c :
  write_step ev s = Some s' →
  (∃ more, out_of s' c = out_of s c ++ more)
  ∧ ∀ t p, (∃ w, writers s' !! t = Some w ∧ w_conn w = c ∧ w_packet w = p ∧ complete w = true)
      ↔ (∃ w, writers s !! t = Some w ∧ w_conn w = c ∧ w_packet w = p ∧ complete w = true) ∨ (t, p) ∈ finished c ev s s'.
Proof.
  destruct ev as [c' p'|t' k|c'|c']; cbn [write_step finished]; intros Hs.
  - injection Hs as <-. split; [exists []; by rewrite app_nil_r|]. intros t p. cbn. split.
    + intros (w & [[_ Hw]|[_ <-]]%lookup_snoc_Some & H); [left; by exists w|]. by destruct H as (_ & _ & ?).
    + intros [(w & Hw & H)|[]%elem_of_nil]. exists w. split; [|done]. by rewrite lookup_app_l by by eapply lookup_lt_Some.
  - destruct (writers s !! t') as [w|] eqn:Hw; [|done]. cbn in Hs.
    destruct (writer_step_kept k t' w s s' Hs Hw) as (w' & Ew & Ec & Ep & Hmono & Hout). split; [apply Hout|].
    rewrite Ew, list_lookup_insert_eq by by eapply lookup_lt_Some. intros t p.
    destruct (decide (t = t')) as [->|Hne].
    + rewrite list_lookup_insert_eq by by eapply lookup_lt_Some. rewrite Hw.
      destruct (bool_decide_reflect (w_conn w = c)) as [Hc|Hc], (complete w) eqn:E1, (complete w') eqn:E2; cbn [andb negb];
        rewrite ?list_elem_of_singleton, ?elem_of_nil; naive_solver congruence.
    + rewrite list_lookup_insert_ne by done. destruct (_ && _); rewrite ?list_elem_of_singleton, ?elem_of_nil; naive_solver.
  - injection Hs as <-. split; [exists []; by rewrite app_nil_r|]. intros t p. cbn. rewrite elem_of_nil. naive_solver.
  - case_bool_decide; [|done]. injection Hs as <-. split; [exists []; by rewrite app_nil_r|]. intros t p. cbn.
    rewrite elem_of_nil. naive_solver.
Qed.

Lemma finished_fresh ev s s' c :
  NoDup (finished c ev s s')
  ∧ ∀ t p, (t, p) ∈ finished c ev s s' → ∀ w, writers s !! t = Some w → complete w = false.
Proof.
  unfold finished. destruct ev as [|t k| |]; try (split; [constructor|by intros ? ? []%elem_of_nil]).
  destruct (writers s !! t) as [w|] eqn:Hw, (writers s' !! t) as [w'|];
    try (split; [constructor|by intros ? ? []%elem_of_nil]).
  destruct (bool_decide _), (complete w) eqn:E, (complete w'); cbn [andb negb];
    try (split; [constructor|by intros ? ? []%elem_of_nil]).
  split; [apply NoDup_singleton|]. intros t' p [= -> ->]%list_elem_of_singleton. naive_solver.
Qed.

(** An event makes the reader dispatch exactly the write that it completes. *)
Lemma dispatched_step ev s s' c :
  writes_wf s → writes_wf s' → write_step ev s = Some s' →
  dispatched s' c = dispatched s c ++ (finished c ev s s').*2.
Proof.
  intros Hwf Hwf' Hs. destruct (write_step_completes ev s s' c Hs) as [[more Hout] Hcomp].
  destruct (finished_fresh ev s s' c) as [Hnd Hfresh].
  destruct (ww_conns _ Hwf c) as (order & pre & Hcar). destruct (ww_conns _ Hwf' c) as (order' & pre' & Hcar').
  destruct (dispatched_order s c order pre Hwf Hcar) as [Ed Hmore].
  destruct (dispatched_order s' c order' pre' Hwf' Hcar') as [Ed' _].
  assert (order' ≡ₚ order ++ finished c ev s s') as Hperm.
  { apply NoDup_Permutation.
    - apply (NoDup_fmap_1 fst), Hcar'.
    - apply NoDup_app. split; [apply (NoDup_fmap_1 fst), Hcar|]. split; [|done]. intros [t p] Hin Hf.
      apply (cc_complete _ _ _ _ Hcar) in Hin as (w & Hw & _ & _ & Hc). by rewrite (Hfresh t p Hf w Hw) in Hc.
    - intros [t p]. rewrite elem_of_app, (cc_complete _ _ _ _ Hcar'), (cc_complete _ _ _ _ Hcar). apply Hcomp. }
  assert (∃ l, dispatched s' c = order.*2 ++ l) as [l Hl] by (unfold dispatched; rewrite Hout; apply Hmore).
  assert (l ≡ₚ (finished c ev s s').*2) as Hp.
  { apply (Permutation_app_inv_l order.*2). rewrite <- Hl, <- fmap_app, Ed'. by apply fmap_Permutation. }
  rewrite Hl, Ed. f_equal. unfold finished in *. repeat case_match;
    try (by apply Permutation_nil_r in Hp); by apply Permutation_singleton_r in Hp.
Qed.

(** A goroutine that is not done can move, or waits for one that can. *)
Lemma writer_moves s t w :
  writes_wf s → writers s !! t = Some w → (∀ ok, w_pc w ≠ WDone ok) →
  ∃ t' s', (t' = t ∨ ∃ mu, w_pc w = WLock mu ∧ mu_holder s !! mu = Some t') ∧ write_step (Step t' 0) s = Some s'.
Proof.
  intros Hwf Hw Hnd. cbn [write_step]. assert (∀ t' x, writers s !! t' = Some x →
    (∀ ok, w_pc x ≠ WDone ok) → (∀ mu, w_pc x ≠ WLock mu) → ∃ s', (w ← writers s !! t'; writer_step 0 t' w s) = Some s') as Hgo.
  { intros t' x Hx Hd Hl. rewrite Hx. cbn. unfold writer_step. destruct (w_pc x) eqn:E; [by eauto|by eauto|..].
    - by destruct (Hl mu).
    - case_bool_decide; by eauto.
    - by eauto.
    - by destruct (Hd ok). }
  destruct (w_pc w) as [| |mu| | |] eqn:Hpc; try (destruct (Hgo t w Hw) as [s' Hs']; [by rewrite Hpc..|]; exists t, s'; by auto).
  destruct (mu_holder s !! mu) as [t'|] eqn:Hh.
  + destruct (ww_held _ Hwf mu t' Hh) as (x & Hx & Ex). destruct (Hgo t' x Hx) as [s' Hs'].
    1,2: intros ? E; unfold holding in Ex; by rewrite E in Ex.
    exists t', s'. split; [right; by exists mu|done].
  + eexists t, _. split; [by left|]. rewrite Hw. cbn. unfold writer_step. by rewrite Hpc, Hh.
Qed.

(** C13: writes to a connection are serialised.  Whatever goroutines call writeTCPPacket, on whatever connections, however their
    steps and the pieces of their writes interleave, and wherever connections break and are released: the peer that reads a
    connection has dispatched exactly the packets whose write was completed on it, each once and whole; the event that
    completes a write is the one that adds its packet at the end, and no other event adds or removes one, so the packets come in
    the order in which their writes were completed; and the goroutines are never deadlocked, since one that waits for a mutex
    waits for one that can move. *)
Theorem tcp_writes_serialised s c :
  rtc writes_trace writes_start s →
  (∃ order : list (nat * (byte * bytes)),
    NoDup order.*1
    ∧ (∀ t p, (t, p) ∈ order ↔ ∃ w, writers s !! t = Some w ∧ w_conn w = c ∧ w_packet w = p ∧ complete w = true)
    ∧ dispatched s c = order.*2)
  ∧ (∀ ev s', packet_fits ev → write_step ev s = Some s' → dispatched s' c = dispatched s c ++ (finished c ev s s').*2)
  ∧ (∀ t w, writers s !! t = Some w → (∀ ok, w_pc w ≠ WDone ok) →
       ∃ t' s', (t' = t ∨ ∃ mu, w_pc w = WLock mu ∧ mu_holder s !! mu = Some t') ∧ write_step (Step t' 0) s = Some s').
Proof.
  intros Hr. pose proof (writes_trace_wf s Hr) as Hwf. split_and!.
  - destruct (ww_conns _ Hwf c) as (order & pre & Hcar). exists order. split; [apply Hcar|]. split; [apply Hcar|].
    by eapply dispatched_order.
  - intros ev s' Hp Hs. apply dispatched_step; [done| |done]. by eapply write_step_wf.
  - intros t w. by apply writer_moves.
Qed.

(** ** Two goroutines on one connection *)

Fixpoint write_run (evs : list write_event) (s : tcp_writes) : option tcp_writes :=
  match evs with
  | [] => Some s
  | ev :: evs' => s' ← write_step ev s; write_run evs' s'
  end.

Lemma write_run_trace evs s s' :
  Forall packet_fits evs → write_run evs s = Some s' → rtc writes_trace s s'.
Proof.
  intros Hp. revert s. induction Hp as [|ev evs Hev _ IH]; intros s; cbn [write_run]; [by intros [= ->]|].
  destruct (write_step ev s) as [s1|] eqn:E; [|done]. intros Hrun. eapply rtc_l; [by exists ev|by apply IH].
Qed.

Module WriteWitness.
Definition demo_conn : ConnRef := 1%positive.

(** Both look the mutex up before it exists; the second waits until the first has written
    its frame in two pieces. *)
Definition demo_events : list write_event :=
  [Spawn demo_conn (PacketTypeData, [x0a; x0b]); Spawn demo_conn (PacketTypeHeartbeat, []); Step 0 0; Step 1 0; Step 1 0; Step 0 0;
   Step 1 0; Step 1 3; Step 1 100; Step 1 0; Step 0 0; Step 0 100; Step 0 0; Break demo_conn; Release demo_conn].

Definition demo_read : option (list (byte * bytes)) :=
  s ← write_run demo_events writes_start; Some (dispatched s demo_conn).

Example demo_order : demo_read = Some [(PacketTypeHeartbeat, []); (PacketTypeData, [x0a; x0b])].
Proof. vm_compute. reflexivity. Qed.

Lemma tcp_writes_serialised_witness :
  ∃ s (order : list (nat * (byte * bytes))), write_run demo_events writes_start = Some s ∧ NoDup order.*1
    ∧ dispatched s demo_conn = order.*2.
Proof.
  destruct (write_run demo_events writes_start) as [s|] eqn:E; [|vm_compute in E; discriminate].
  destruct (tcp_writes_serialised s demo_conn) as ((order & H1 & _ & H2) & _).
  - apply (write_run_trace demo_events); [repeat constructor|exact E].
  - exists s, order. split; [reflexivity|]. split; [exact H1|exact H2].
Defined.
End WriteWitness.
