(* ===== verification/TcpAccept.v ===== *)
(** * Accepting TCP connections ([node/tcp_io.go])

    [acceptTCP] starts a reader for every connection while a semaphore has room, closes
    the others, and survives errors of [Accept] with a delay and a throttled warning.  The
    readers end at any time. *)

From S2P Require Import Prelude Peer.

Definition tcpAcceptErrorLogPeriod : Z := 1000000000.
Definition maxConcurrentTCPHandlers : Z := 512.

(** The loop, the semaphore (the tokens in the channel), the readers that run, and what the
    world has seen: connections closed at once, and the times of the warnings. *)
Record acceptor_state := MkAcceptor {
  ac_running : bool;                     (** the loop has not returned *)
  tcpSessionSem : Z;
  ac_handlers : list ConnRef;            (** [handleTCP] runs on these *)
  ac_rejected : list ConnRef;            (** closed without a reader *)
  ac_warned : list Z;                    (** the warnings about [Accept], latest first *)
  lastAcceptErrLog : option Z;           (** [None]: the zero time *)
}.
#[global] Instance acceptor_state_eta : RecordEta acceptor_state := λ a,
  MkAcceptor (ac_running a) (tcpSessionSem a) (ac_handlers a) (ac_rejected a) (ac_warned a) (lastAcceptErrLog a).

Inductive accept_result :=
| Accepted (c : ConnRef)
| AcceptFailed (now : Z) (elapsed : N) (closing : bool).
    (** [now] is the clock at the check of the last warning, [elapsed] passes until the next reading of the clock;
        [closing]: the channel [n.closing] is closed *)

(** [time.Since(lastAcceptErrLog) >= tcpAcceptErrorLogPeriod]. *)
Definition warn_due (now : Z) (last : option Z) : bool :=
  match last with None => true | Some t => tcpAcceptErrorLogPeriod <=? now - t end.

(** One turn of the loop; a nil listener returns before the first. *)
Definition acceptTCP_turn (r : accept_result) (a : acceptor_state) : acceptor_state :=
  if negb (ac_running a) then a else
  match r with
  | AcceptFailed now elapsed closing =>
      if closing : bool then a <| ac_running := false |>
      else if warn_due now (lastAcceptErrLog a)
      then a <| ac_warned ::= cons (now + Z.of_N elapsed) |> <| lastAcceptErrLog := Some (now + Z.of_N elapsed) |>
      else a
  | Accepted c =>
      if tcpSessionSem a <? maxConcurrentTCPHandlers
      then a <| tcpSessionSem ::= Z.succ |> <| ac_handlers ::= cons c |>
      else a <| ac_rejected ::= cons c |>
  end.

Definition acceptTCP_start (listening : bool) : acceptor_state := MkAcceptor listening 0 [] [] [] None.

(** The deferred receive of a reader's goroutine takes a token out. *)
Definition handler_done (i : nat) (a : acceptor_state) : acceptor_state :=
  if bool_decide (i < length (ac_handlers a))%nat
  then a <| tcpSessionSem ::= Z.pred |> <| ac_handlers ::= delete i |> else a.

Inductive accept_event := AcceptTurn (r : accept_result) | HandlerDone (i : nat).

Definition accept_step (a : acceptor_state) (ev : accept_event) : acceptor_state :=
  match ev with AcceptTurn r => acceptTCP_turn r a | HandlerDone i => handler_done i a end.

Definition accept_run (a : acceptor_state) (evs : list accept_event) : acceptor_state := foldl accept_step a evs.

(** ** Properties *)

(** Warnings, latest first, at least the period apart. *)
Fixpoint spaced (l : list Z) : Prop :=
  match l with
  | t2 :: (t1 :: _) as l' => tcpAcceptErrorLogPeriod ≤ t2 - t1 ∧ spaced l'
  | _ => True
  end.

Record acceptor_wf (a : acceptor_state) : Prop := {
  aw_sem : tcpSessionSem a = len (ac_handlers a);
  aw_room : len (ac_handlers a) ≤ maxConcurrentTCPHandlers;
  aw_last : lastAcceptErrLog a = head (ac_warned a);
  aw_spaced : spaced (ac_warned a);
}.

Lemma accept_step_wf a ev : acceptor_wf a → acceptor_wf (accept_step a ev).
Proof.
  intros [Hs Hr Hl Hsp]. destruct ev as [[c|now elapsed closing]|i]; cbn.
  - unfold acceptTCP_turn. destruct (ac_running a); cbn; [|done]. destruct (Z.ltb_spec (tcpSessionSem a) maxConcurrentTCPHandlers).
    + split; cbn; try done; rewrite len_cons; lia.
    + by split.
  - unfold acceptTCP_turn. destruct (ac_running a); cbn; [|done]. destruct closing; [by split|].
    destruct (warn_due now (lastAcceptErrLog a)) eqn:Hw; [|by split]. split; cbn; try done.
    unfold warn_due in Hw. rewrite Hl in Hw. destruct (ac_warned a) as [|t l]; [done|]. cbn in Hw. apply Z.leb_le in Hw. split; [lia|done].
  - unfold handler_done. case_bool_decide as Hi; [|done].
    assert (len (delete i (ac_handlers a)) = len (ac_handlers a) - 1) as E.
    { apply lookup_lt_is_Some in Hi as Hx. unfold len. rewrite length_delete by done. lia. }
    split; cbn; try done; rewrite E; lia.
Qed.

Lemma accept_run_wf evs a : acceptor_wf a → acceptor_wf (accept_run a evs).
Proof. revert a. induction evs as [|ev evs IH]; intros a Ha; [done|]. cbn. by apply IH, accept_step_wf. Qed.

(** Every connection that arrives is started or rejected: what happens at one turn. *)
Lemma accept_turn_effect c a :
  ac_running a = true → acceptor_wf a →
  if bool_decide (len (ac_handlers a) < maxConcurrentTCPHandlers)
  then ac_handlers (acceptTCP_turn (Accepted c) a) = c :: ac_handlers a ∧ ac_rejected (acceptTCP_turn (Accepted c) a) = ac_rejected a
  else ac_handlers (acceptTCP_turn (Accepted c) a) = ac_handlers a ∧ ac_rejected (acceptTCP_turn (Accepted c) a) = c :: ac_rejected a.
Proof.
  intros Hrun [Hs _ _ _]. unfold acceptTCP_turn. rewrite Hrun. cbn. rewrite Hs.
  case_bool_decide; [rewrite (proj2 (Z.ltb_lt _ _)) by done|rewrite (proj2 (Z.ltb_ge _ _)) by lia]; done.
Qed.

(** C28: the accept loop is bounded and fair.  However connections arrive, [Accept] fails and readers end: the semaphore counts
    exactly the readers that run and never exceeds 512; the next connection gets a reader if fewer than 512 run and is closed at
    once otherwise, so a free slot is never refused; the loop ends only when the node is closing and Accept fails; and two
    warnings about failing accepts are at least a second apart. *)
Theorem accept_loop_bounded evs :
  let a := accept_run (acceptTCP_start true) evs in
  tcpSessionSem a = len (ac_handlers a) ∧ len (ac_handlers a) ≤ 512
  ∧ spaced (ac_warned a)
  ∧ (ac_running a = false → ∃ now elapsed, AcceptTurn (AcceptFailed now elapsed true) ∈ evs)
  ∧ (ac_running a = true → ∀ c,
       let a' := acceptTCP_turn (Accepted c) a in
       if bool_decide (len (ac_handlers a) < 512)
       then ac_handlers a' = c :: ac_handlers a ∧ ac_rejected a' = ac_rejected a
       else ac_handlers a' = ac_handlers a ∧ ac_rejected a' = c :: ac_rejected a).
Proof.
  intros a. assert (acceptor_wf a) as Hwf by (apply accept_run_wf; by split).
  split; [apply Hwf|]. split; [apply Hwf|]. split; [apply Hwf|]. split.
  - subst a. clear Hwf. generalize (acceptTCP_start true) (eq_refl : ac_running (acceptTCP_start true) = true).
    induction evs as [|ev evs IH]; intros a Ha; cbn; [congruence|]. intros Hstop.
    destruct (ac_running (accept_step a ev)) eqn:E; [destruct (IH _ E Hstop) as (now & elapsed & Hn); exists now, elapsed; by right|].
    destruct ev as [[c|now elapsed closing]|i]; cbn in E; unfold acceptTCP_turn, handler_done in E; rewrite ?Ha in E; cbn in E.
    + case_match; cbn in E; congruence.
    + destruct closing; [exists now, elapsed; by left|]. case_match; cbn in E; congruence.
    + case_match; cbn in E; congruence.
  - intros Hrun c. by apply accept_turn_effect.
Qed.
