(* ===== verification/Float64.v ===== *)
(** * IEEE 754 binary64 arithmetic

    Go's [float64] as [spec_float] with 53 bits of precision and exponents
    below 1024, with the operations the program uses: conversion from and to
    [int64], addition, multiplication, division and comparison. *)

From Stdlib Require Import SpecFloat.
From S2P Require Import Prelude.

Abbreviation float64 := spec_float.

(** [float64(z)]: round to nearest, ties to even. *)
Definition f64_of_Z (z : Z) : float64 := binary_normalize 53 1024 z 0 false.

Definition f64_add : float64 → float64 → float64 := SFadd 53 1024.
Definition f64_sub : float64 → float64 → float64 := SFsub 53 1024.
Definition f64_mul : float64 → float64 → float64 := SFmul 53 1024.
Definition f64_div : float64 → float64 → float64 := SFdiv 53 1024.
Definition f64_ltb : float64 → float64 → bool := SFltb.

(** The literal [n / 10^k], correctly rounded. *)
Definition f64_lit (n k : Z) : float64 := f64_div (f64_of_Z n) (f64_of_Z (10 ^ k)).

(** [int64(f)]: truncation towards zero, for a value in range; the result for
    other values is left to the implementation and is given as [min_int64]. *)
Definition f64_trunc (f : float64) : Z :=
  match f with
  | S754_zero _ => 0
  | S754_finite s m e =>
      let v := Z.shiftl (Zpos m) e in
      let v := if s then - v else v in
      if (min_int64 <=? v) && (v <=? max_int64) then v else min_int64
  | _ => min_int64
  end.

(** [math.Pow(x, y)] for an integer [y >= 0]: the special cases, then the loop
    that squares the fraction and doubles the exponent of [x] while it scans the
    bits of [y]. *)
Fixpoint pow_loop (fuel : nat) (i : Z) (x1 : float64) (xe : Z) (a1 : float64) (ae : Z) : float64 * Z :=
  match fuel with
  | O => (a1, ae)
  | S fuel =>
      if i =? 0 then (a1, ae)
      else if (xe <? -4096) || (4096 <? xe) then (a1, ae + xe)
      else
        let '(a1, ae) := if Z.odd i then (f64_mul a1 x1, ae + xe) else (a1, ae) in
        let x1 := f64_mul x1 x1 in
        let xe := 2 * xe in
        let '(x1, xe) := if f64_ltb x1 (f64_lit 5 1) then (f64_add x1 x1, xe - 1) else (x1, xe) in
        pow_loop fuel (Z.shiftr i 1) x1 xe a1 ae
  end.

Definition f64_pow (x : float64) (y : Z) : float64 :=
  if y =? 0 then f64_of_Z 1 else
  match x with
  | S754_nan => S754_nan
  | S754_zero s => S754_zero (s && Z.odd y)
  | S754_infinity s => S754_infinity (s && Z.odd y)
  | S754_finite _ _ _ =>
      if SFeqb x (f64_of_Z 1) then f64_of_Z 1 else
      if y =? 1 then x else
      let '(x1, xe) := SFfrexp 53 1024 x in
      let '(a1, ae) := pow_loop 64 y x1 xe (f64_of_Z 1) 0 in
      SFldexp 53 1024 a1 ae
  end.

Example f64_pow_2_10 : f64_pow (f64_of_Z 2) 10 = f64_of_Z 1024.
Proof. reflexivity. Qed.

Example f64_pow_3_5 : f64_pow (f64_of_Z 3) 5 = f64_of_Z 243.
Proof. reflexivity. Qed.

Example f64_pow_overflow : f64_pow (f64_of_Z 2) 1024 = S754_infinity false.
Proof. reflexivity. Qed.

(** [Duration.Seconds()]: whole seconds plus the fraction of a second. *)
Definition Duration_Seconds (d : Duration) : float64 :=
  let sec := Z.quot d Second in
  let nsec := Z.rem d Second in
  f64_add (f64_of_Z sec) (f64_div (f64_of_Z nsec) (f64_of_Z 1000000000)).

(** [Duration.Milliseconds()]. *)
Definition Duration_Milliseconds (d : Duration) : Z := Z.quot d Millisecond.

Example f64_trunc_5min : f64_trunc (Duration_Seconds (5 * Minute)) = 300.
Proof. reflexivity. Qed.

Example f64_trunc_fraction : f64_trunc (Duration_Seconds (1999999999)) = 1.
Proof. reflexivity. Qed.

Example f64_trunc_negative : f64_trunc (Duration_Seconds (-1500000000)) = -1.
Proof. reflexivity. Qed.
