(* ===== verification/RelayAuth.v ===== *)
(** * Relay tokens and relay packets ([nat/relay_auth.go], [nat/relay.go])

    A node that asks another to relay proves membership of the network with a
    token: its ID, a target ID, a timestamp and either an Ed25519 signature or an
    HMAC under a key derived from the network password.  [ed25519_Sign] and
    [ed25519_Verify] are parameters of the functions that call them. *)

From S2P Require Import Prelude Sha256 Float64.

(** ** Configuration and token *)

Record RelayAuthConfig := MkRelayAuthConfig {
  Enabled : bool;
  TokenTTL : Duration;
  RelayNetworkPassword : gostring;
}.

Definition DefaultRelayAuthConfig : RelayAuthConfig :=
  MkRelayAuthConfig true (5 * Minute) [].

Record RelayAuthToken := MkToken {
  SrcID : bytes;
  DstID : bytes;
  Timestamp : Z;
  Signature : bytes;
}.

Record RelayAuthenticator := MkRelayAuthenticator {
  ra_config : RelayAuthConfig;
  sharedKey : bytes;
}.

Definition NewRelayAuthenticator (config : option RelayAuthConfig) : RelayAuthenticator :=
  let config := default DefaultRelayAuthConfig config in
  let sharedKey :=
    if bool_decide (RelayNetworkPassword config ≠ [])
    then sha256_Sum256 (str "tenet-relay-auth:" ++ RelayNetworkPassword config)
    else [] in
  MkRelayAuthenticator config sharedKey.

(** ** Messages *)

Definition buildMessage (srcID dstID : bytes) (timestamp : Z) : bytes :=
  let message := make_bytes (16 + 16 + 8) in
  let message := copy_range message 0 16 srcID in
  let message := copy_range message 16 32 dstID in
  put_be 8 message 32 (to_uint64 timestamp).

Definition GenerateToken (ed25519_Sign : bytes → bytes → bytes)
    (srcID dstID privateKey : bytes) (now : Z) : RelayAuthToken :=
  let timestamp := now in
  let message := buildMessage srcID dstID timestamp in
  MkToken srcID dstID timestamp (ed25519_Sign privateKey message).

(** [nil] without a shared key. *)
Definition GenerateTokenWithHMAC (a : RelayAuthenticator) (srcID dstID : bytes) (now : Z)
    : option RelayAuthToken :=
  if len (sharedKey a) =? 0 then None else
  let timestamp := now in
  let message := buildMessage srcID dstID timestamp in
  Some (MkToken srcID dstID timestamp (hmac_sha256 (sharedKey a) message)).

(** [now - token.Timestamp] and its negation wrap as [int64] does. *)
Definition token_age (now timestamp : Z) : Z :=
  let age := to_int64 (now - timestamp) in
  if age <? 0 then to_int64 (- age) else age.

Definition ttl_seconds (c : RelayAuthConfig) : Z := f64_trunc (Duration_Seconds (TokenTTL c)).

Definition VerifyToken (ed25519_Verify : bytes → bytes → bytes → bool)
    (a : RelayAuthenticator) (token : RelayAuthToken) (publicKey : option bytes) (now : Z) : res unit :=
  if negb (Enabled (ra_config a)) then Ok () else
  if ttl_seconds (ra_config a) <? token_age now (Timestamp token) then Err "token expired" else
  let message := buildMessage (SrcID token) (DstID token) (Timestamp token) in
  let by_hmac :=
    if (0 <? len (sharedKey a)) && (len (Signature token) =? 32) then
      if bool_decide (Signature token = hmac_sha256 (sharedKey a) message)
      then Ok () else Err "invalid HMAC signature"
    else Err "no valid verification method available" in
  match publicKey with
  | Some pk =>
      if len (Signature token) =? 64 then
        if ed25519_Verify pk message (Signature token)
        then Ok () else Err "invalid Ed25519 signature"
      else by_hmac
  | None => by_hmac
  end.

Definition IsEnabled (a : RelayAuthenticator) : bool := Enabled (ra_config a).

(** ** Token encoding *)

(** [SrcID(16)] [DstID(16)] [Timestamp(8)] [SigLen(1)] [Signature(N)]. *)
Definition Token_Encode (t : RelayAuthToken) : bytes :=
  let sigLen := len (Signature t) in
  let data := make_bytes (16 + 16 + 8 + 1 + sigLen) in
  let data := copy_range data 0 16 (SrcID t) in
  let data := copy_range data 16 32 (DstID t) in
  let data := put_be 8 data 32 (to_uint64 (Timestamp t)) in
  let data := set_byte data 40 (byte_of_Z sigLen) in
  copy_at data 41 (Signature t).

Definition DecodeToken (data : bytes) : res RelayAuthToken :=
  _ ← guard_err (len data <? 41) "token too short";
  src ← go_slice data 0 16;
  dst ← go_slice data 16 32;
  ts ← go_slice data 32 40;
  sl ← go_index data 40;
  let sigLen := Z_of_byte sl in
  _ ← guard_err (len data <? 41 + sigLen) "token signature truncated";
  sig ← go_slice data 41 (41 + sigLen);
  Ok (MkToken src dst (to_int64 (be_value ts)) sig).

(** ** Relay packets *)

Record RelayPacket := MkRelayPacket { rp_SrcID : bytes; rp_DstID : bytes; rp_Data : bytes }.

Definition EncodeRelayPacket (srcID dstID data : bytes) : bytes :=
  let packet := make_bytes (1 + 32 + len data) in
  let packet := set_byte packet 0 x52 in
  let packet := copy_range packet 1 17 srcID in
  let packet := copy_range packet 17 33 dstID in
  copy_at packet 33 data.

Definition DecodeRelayPacket (packet : bytes) : res RelayPacket :=
  if len packet <? 33 then Err "invalid relay packet" else
  tag ← go_index packet 0;
  _ ← guard_err (bool_decide (tag ≠ x52)) "invalid relay packet";
  src ← go_slice packet 1 17;
  dst ← go_slice packet 17 33;
  data ← go_slice_from packet 33;
  Ok (MkRelayPacket src dst data).

(** ** Normal forms *)

Lemma Token_Encode_eq t :
  len (SrcID t) = 16 → len (DstID t) = 16 →
  Token_Encode t = SrcID t ++ DstID t ++ be_bytes 8 (to_uint64 (Timestamp t))
                   ++ byte_of_Z (len (Signature t)) :: Signature t.
Proof.
  intros H1 H2. unfold Token_Encode, put_be. cbv zeta.
  pose proof (len_nonneg (Signature t)). fill. done.
Qed.

Lemma EncodeRelayPacket_eq src dst data :
  len src = 16 → len dst = 16 → EncodeRelayPacket src dst data = x52 :: src ++ dst ++ data.
Proof. intros H1 H2. unfold EncodeRelayPacket. cbv zeta. fill. done. Qed.

(** Decoding five fields laid out one after the other. *)
Lemma DecodeToken_fields src dst ts sig rest :
  len src = 16 → len dst = 16 → len ts = 8 → len sig < 256 →
  DecodeToken (src ++ dst ++ ts ++ byte_of_Z (len sig) :: sig ++ rest)
  = Ok (MkToken src dst (to_int64 (be_value ts)) sig).
Proof.
  intros H1 H2 H3 H4. pose proof (len_nonneg sig). unfold DecodeToken, guard_err.
  zcase; [len_solve|]. cbn [mbind res_bind].
  rewrite go_slice_prefix by done. cbn [mbind res_bind].
  rewrite (go_slice_mid src dst _ 16 32) by len_solve. cbn [mbind res_bind].
  rewrite (app_assoc src dst), (go_slice_mid _ ts _ 32 40) by len_solve. cbn [mbind res_bind].
  rewrite (app_assoc _ ts), (go_index_mid _ _ _ 40) by len_solve. cbn [mbind res_bind].
  rewrite Z_of_byte_of_Z, Z.mod_small by lia.
  zcase; [len_solve|]. cbn [mbind res_bind].
  rewrite (cons_middle (byte_of_Z (len sig))), app_assoc.
  rewrite go_slice_mid by len_solve. done.
Qed.

(** ** Properties *)

Definition wf_token (t : RelayAuthToken) : Prop :=
  len (SrcID t) = 16 ∧ len (DstID t) = 16 ∧ is_int64 (Timestamp t) ∧ len (Signature t) < 256.

Lemma token_timestamp_roundtrip t : is_int64 t → to_int64 (be_value (be_bytes 8 (to_uint64 t))) = t.
Proof.
  intros H. rewrite be_value_bytes. unfold to_uint64, wrap_u.
  change (8 * Z.of_nat 8) with 64. rewrite Z.mod_mod, to_int64_mod by lia. by apply to_int64_id.
Qed.

(** What is decoded is the encoding of a well-formed token. *)
Lemma decoded_token data t : DecodeToken data = Ok t → wf_token t ∧ ∃ rest, data = Token_Encode t ++ rest.
Proof.
  revert t. destruct (Z.lt_ge_cases (len data) 41) as [Hs|Hl].
  { intros t. unfold DecodeToken, guard_err. by zcase; [|lia]. }
  destruct (split_at data 16 ltac:(lia)) as (src & d1 & -> & Hsrc).
  destruct (split_at d1 16 ltac:(len_solve)) as (dst & d2 & -> & Hdst).
  destruct (split_at d2 8 ltac:(len_solve)) as (ts & [|sl d3] & -> & Hts); [len_solve|].
  pose proof (Z_of_byte_range sl).
  destruct (Z.lt_ge_cases (len d3) (Z_of_byte sl)) as [Hd|Hd].
  + intros t. unfold DecodeToken, guard_err. zcase; [len_solve|]. cbn [mbind res_bind].
    rewrite go_slice_prefix by done. cbn [mbind res_bind].
    rewrite (go_slice_mid src dst _ 16 32) by len_solve. cbn [mbind res_bind].
    rewrite (app_assoc src dst), (go_slice_mid _ ts _ 32 40) by len_solve. cbn [mbind res_bind].
    rewrite (app_assoc _ ts), (go_index_mid _ _ _ 40) by len_solve. cbn [mbind res_bind].
    zcase; [done|len_solve].
  + destruct (split_at d3 (Z_of_byte sl) ltac:(lia)) as (sig & rest & -> & Hsig).
    rewrite <- (byte_of_Z_of_byte sl), <- Hsig.
    intros t. rewrite DecodeToken_fields by (try done; lia). intros [= <-].
    split.
    * split_and!; cbn; [done|done|apply to_int64_range|lia].
    * exists rest. rewrite Token_Encode_eq by done. cbn [SrcID DstID Timestamp Signature].
      rewrite <- !app_assoc. cbn [app]. do 2 f_equal.
      assert (to_uint64 (to_int64 (be_value ts)) = be_value ts) as ->.
      { pose proof (be_value_range ts) as Hr. rewrite Hts in Hr.
        unfold to_uint64, to_int64, wrap_u, wrap_s.
        rewrite Zminus_mod_idemp_l, Z.add_simpl_r. by apply Z.mod_small. }
      by rewrite be_bytes_value.
Qed.

(** [DecodeToken] inverts [Encode] on every token with 16 byte IDs and a
    signature of at most 255 bytes, also when more bytes follow; conversely it
    accepts nothing but such encodings, reports an error for every other input
    and never indexes out of range. *)
Theorem token_codec (data : bytes) :
  (∀ t rest, wf_token t → data = Token_Encode t ++ rest → DecodeToken data = Ok t)
  ∧ (∀ t, DecodeToken data = Ok t → wf_token t ∧ ∃ rest, data = Token_Encode t ++ rest)
  ∧ DecodeToken data ≠ Panic.
Proof.
  split_and!.
  - intros [src dst ts sig] rest (H1 & H2 & H3 & H4) ->. cbn in *.
    rewrite Token_Encode_eq by done. cbn [SrcID DstID Timestamp Signature].
    rewrite <- !app_assoc. cbn [app].
    rewrite DecodeToken_fields by (try done; len_solve).
    by rewrite token_timestamp_roundtrip.
  - apply decoded_token.
  - destruct (Z.lt_ge_cases (len data) 41) as [Hs|Hl]; unfold DecodeToken, guard_err;
      zcase; try lia; [done|]. cbn [mbind res_bind].
    rewrite !go_slice_ok by lia. cbn [mbind res_bind].
    destruct (go_index_ok data 40 ltac:(lia)) as (sl & -> & _). cbn [mbind res_bind].
    pose proof (Z_of_byte_range sl).
    zcase; [done|]. cbn [mbind res_bind]. by rewrite go_slice_ok by lia.
Qed.

Lemma token_codec_witness :
  DecodeToken (Token_Encode (MkToken (make_bytes 16) (make_bytes 16) (-5) [x01; x02]) ++ [xff])
  = Ok (MkToken (make_bytes 16) (make_bytes 16) (-5) [x01; x02]).
Proof.
  eapply (token_codec _); [|reflexivity]. repeat split; vm_compute; congruence.
Defined.

(** The shared key of a network with a password. *)
Definition network_key (pw : gostring) : bytes := sha256_Sum256 (str "tenet-relay-auth:" ++ pw).

Lemma sharedKey_password c :
  RelayNetworkPassword c ≠ [] →
  sharedKey (NewRelayAuthenticator (Some c)) = network_key (RelayNetworkPassword c).
Proof. intros H. unfold NewRelayAuthenticator. cbn. by rewrite bool_decide_true. Qed.

(** What a signature has to be for [VerifyToken] to accept it. *)
Definition signature_valid (ed25519_Verify : bytes → bytes → bytes → bool)
    (a : RelayAuthenticator) (token : RelayAuthToken) (publicKey : option bytes) : Prop :=
  let message := buildMessage (SrcID token) (DstID token) (Timestamp token) in
  match publicKey with
  | Some pk => (len (Signature token) = 64 ∧ ed25519_Verify pk message (Signature token) = true)
               ∨ (sharedKey a ≠ [] ∧ Signature token = hmac_sha256 (sharedKey a) message)
  | None => sharedKey a ≠ [] ∧ Signature token = hmac_sha256 (sharedKey a) message
  end.

Lemma by_hmac_iff a token :
  let message := buildMessage (SrcID token) (DstID token) (Timestamp token) in
  (if (0 <? len (sharedKey a)) && (len (Signature token) =? 32)
   then if bool_decide (Signature token = hmac_sha256 (sharedKey a) message)
        then Ok () else Err "invalid HMAC signature"
   else Err "no valid verification method available") = Ok ()
  ↔ sharedKey a ≠ [] ∧ Signature token = hmac_sha256 (sharedKey a) message.
Proof.
  cbn zeta. split.
  - destruct (Z.ltb_spec 0 (len (sharedKey a))); [|done]. zcase; [|done].
    case_bool_decide; [|done]. intros _. split; [|done]. by intros E; rewrite E in *.
  - intros [Hk Hs]. rewrite bool_decide_true by done. rewrite Hs, len_hmac.
    zcase; [done|]. destruct Hk. apply len_nil_inv. len_facts. lia.
Qed.

Lemma VerifyToken_ok ed25519_Verify a token publicKey now :
  Enabled (ra_config a) = true →
  VerifyToken ed25519_Verify a token publicKey now = Ok ()
  ↔ token_age now (Timestamp token) ≤ ttl_seconds (ra_config a)
    ∧ signature_valid ed25519_Verify a token publicKey.
Proof.
  intros HE. unfold VerifyToken, signature_valid. rewrite HE. cbn [negb].
  pose proof (by_hmac_iff a token) as Hh. cbn zeta in Hh.
  zcase; [split; [done|lia]|].
  destruct publicKey as [pk|]; [|by rewrite Hh; naive_solver].
  destruct (Z.eqb_spec (len (Signature token)) 64) as [E|E].
  - destruct (ed25519_Verify _ _ _); [naive_solver|]. split; [done|].
    intros [_ [[_ ?]|[_ Hs]]]; [done|]. rewrite Hs, len_hmac in E. lia.
  - rewrite Hh. naive_solver.
Qed.




(** C36: A token generated from the network password, encoded, sent and decoded
    is accepted by every enabled authenticator with the same password while its
    age is within the verifier's lifetime, and expires afterwards. *)
Theorem relay_token_accepted ed25519_Verify c1 c2 srcID dstID sent now rest :
  RelayNetworkPassword c1 ≠ [] →
  RelayNetworkPassword c2 = RelayNetworkPassword c1 →
  Enabled c2 = true →
  len srcID = 16 → len dstID = 16 → is_int64 sent →
  ∃ t, GenerateTokenWithHMAC (NewRelayAuthenticator (Some c1)) srcID dstID sent = Some t
  ∧ DecodeToken (Token_Encode t ++ rest) = Ok t
  ∧ VerifyToken ed25519_Verify (NewRelayAuthenticator (Some c2)) t None now
    = if ttl_seconds c2 <? token_age now sent then Err "token expired" else Ok ().
Proof.
  intros Hpw Heq HE Hs Hd Ht. unfold GenerateTokenWithHMAC.
  rewrite sharedKey_password by done. unfold network_key at 1. rewrite len_sha256.
  cbn [Z.eqb]. eexists. split; [reflexivity|]. split.
  - rewrite Token_Encode_eq by done. cbn [SrcID DstID Timestamp Signature].
    rewrite <- !app_assoc. cbn [app].
    rewrite DecodeToken_fields by (rewrite ?len_hmac; try done; len_solve).
    by rewrite token_timestamp_roundtrip.
  - unfold VerifyToken. change (ra_config (NewRelayAuthenticator (Some c2))) with c2. rewrite HE. cbn [negb].
    cbn [Timestamp SrcID DstID Signature]. zcase; [done|].
    rewrite sharedKey_password, Heq by congruence.
    rewrite bool_decide_true by done. rewrite len_hmac. unfold network_key.
    by rewrite len_sha256.
Qed.

Definition demo_config : RelayAuthConfig := MkRelayAuthConfig true (5 * Minute) (str "pw").

Lemma relay_token_accepted_witness :
  ∃ t, GenerateTokenWithHMAC (NewRelayAuthenticator (Some demo_config)) (make_bytes 16) (make_bytes 16) 1000 = Some t
  ∧ DecodeToken (Token_Encode t ++ []) = Ok t
  ∧ VerifyToken (λ _ _ _, false) (NewRelayAuthenticator (Some demo_config)) t None 1300
    = if ttl_seconds demo_config <? token_age 1300 1000 then Err "token expired" else Ok ().
Proof.
  apply (relay_token_accepted _ demo_config demo_config); done.
Defined.


(** The default lifetime is 300 seconds; a token ages in both directions. *)
Lemma default_ttl_seconds : ttl_seconds DefaultRelayAuthConfig = 300.
Proof. reflexivity. Qed.

(** The age of a token is the distance of the clocks, except when the
    difference is [-2^63] seconds modulo [2^64], where the negation of the
    smallest [int64] stays negative. *)
Lemma token_age_abs now ts :
  is_int64 (now - ts) → now - ts ≠ min_int64 → token_age now ts = Z.abs (now - ts).
Proof.
  intros H Hm. unfold token_age. rewrite to_int64_id by done.
  zcase; [|lia]. rewrite to_int64_id; [lia|]. unfold is_int64, min_int64, max_int64 in *. lia.
Qed.

(** The freshness check of [VerifyToken] is not symmetric in the clocks at
    the far end of the range: the age of a token stamped [2^63] seconds before
    the verifier's clock wraps to the smallest [int64], so such a token with a
    valid signature never expires. *)
Theorem token_age_overflow ed25519_Verify a token publicKey now :
  Enabled (ra_config a) = true →
  0 ≤ ttl_seconds (ra_config a) →
  signature_valid ed25519_Verify a token publicKey →
  Timestamp token = now - 2 ^ 63 →
  VerifyToken ed25519_Verify a token publicKey now = Ok ().
Proof.
  intros HE Httl Hsig Ht. apply VerifyToken_ok; [done|]. split; [|done].
  unfold token_age. rewrite Ht.
  replace (now - (now - 2 ^ 63)) with (2 ^ 63) by lia.
  change (min_int64 ≤ ttl_seconds (ra_config a)). unfold min_int64. lia.
Qed.

Lemma token_age_overflow_witness :
  VerifyToken (λ _ _ _, true) (NewRelayAuthenticator None)
    (MkToken [] [] (1700000000 - 2 ^ 63) (make_bytes 64)) (Some []) 1700000000 = Ok ().
Proof.
  apply (token_age_overflow (λ _ _ _, true) (NewRelayAuthenticator None)
    (MkToken [] [] (1700000000 - 2 ^ 63) (make_bytes 64)) (Some []) 1700000000);
    [reflexivity|vm_compute; congruence|left; split; reflexivity|reflexivity].
Defined.

(** [DecodeRelayPacket] inverts [EncodeRelayPacket] for 16 byte IDs, accepts
    only such packets, and rejects everything else with an error. *)
Theorem relay_packet_codec (packet : bytes) :
  (∀ src dst data, len src = 16 → len dst = 16 → packet = EncodeRelayPacket src dst data →
     DecodeRelayPacket packet = Ok (MkRelayPacket src dst data))
  ∧ (∀ p, DecodeRelayPacket packet = Ok p →
     len (rp_SrcID p) = 16 ∧ len (rp_DstID p) = 16
     ∧ packet = EncodeRelayPacket (rp_SrcID p) (rp_DstID p) (rp_Data p))
  ∧ DecodeRelayPacket packet ≠ Panic.
Proof.
  assert (∀ src dst data, len src = 16 → len dst = 16 →
    DecodeRelayPacket (x52 :: src ++ dst ++ data) = Ok (MkRelayPacket src dst data)) as Hdec.
  { intros src dst data H1 H2. unfold DecodeRelayPacket. zcase; [len_solve|].
    change (go_index (x52 :: _) 0) with (Ok x52 : res byte). cbn [mbind res_bind].
    rewrite bool_decide_false by auto. cbn [guard_err mbind res_bind].
    change (x52 :: src ++ dst ++ data) with ([x52] ++ src ++ dst ++ data).
    rewrite (go_slice_mid [x52] src (dst ++ data) 1 17) by len_solve. cbn [mbind res_bind app].
    rewrite app_comm_cons, (go_slice_mid (x52 :: src) dst data 17 33) by len_solve. cbn [mbind res_bind].
    rewrite app_assoc, go_slice_suffix by len_solve. done. }
  assert (DecodeRelayPacket packet = Err "invalid relay packet"
    ∨ ∃ src dst data, packet = x52 :: src ++ dst ++ data ∧ len src = 16 ∧ len dst = 16) as Hcase.
  { destruct (Z.lt_ge_cases (len packet) 33).
    - left. unfold DecodeRelayPacket. by zcase; [|lia].
    - destruct packet as [|tag l]; [done|].
      destruct (decide (tag = x52)) as [->|Ht].
      + right. destruct (split_at l 16 ltac:(len_solve)) as (src & l1 & -> & ?).
        destruct (split_at l1 16 ltac:(len_solve)) as (dst & data & -> & ?). eauto 8.
      + left. unfold DecodeRelayPacket. zcase; [lia|].
        change (go_index (tag :: l) 0) with (Ok tag : res byte). cbn [mbind res_bind].
        by rewrite bool_decide_true. }
  split_and!.
  - intros src dst data H1 H2 ->. by rewrite EncodeRelayPacket_eq, Hdec.
  - intros p. destruct Hcase as [->|(src & dst & data & -> & H1 & H2)]; [done|].
    rewrite Hdec by done. intros [= <-]. cbn. by rewrite EncodeRelayPacket_eq.
  - destruct Hcase as [->|(src & dst & data & -> & H1 & H2)]; [done|]. by rewrite Hdec.
Qed.
