(* ===== verification/RelayManager.v ===== *)
(** * Relay nodes and their selection ([nat/relay.go])

    The relays a node knows, what probing measured of each, and the choice of
    the best one by a floating point score.  A [*RelayInfo] handed out by the
    manager is shared with its table, so the infos live in a store of their own
    and the table holds references.  A probe's socket is an argument: what the
    calls on it return. *)

From Stdlib Require Import SpecFloat.
From S2P Require Import Prelude Float64.

Abbreviation InfoRef := positive.

Record RelayInfo := MkRelayInfo {
  ri_ID : gostring;
  ri_Addr : gostring;
  ri_Latency : Duration;
  ri_Bandwidth : Z;
  ri_LastCheck : Time;
}.
#[global] Instance RelayInfo_eta : RecordEta RelayInfo := λ r,
  MkRelayInfo (ri_ID r) (ri_Addr r) (ri_Latency r) (ri_Bandwidth r) (ri_LastCheck r).

Record RelayMetrics := MkRelayMetrics {
  rm_Latency : Duration;
  rm_PacketLoss : float64;
  rm_Bandwidth : Z;
  rm_Reliability : float64;
}.

Definition Score (m : RelayMetrics) : float64 :=
  let latencyScore :=
    f64_div (f64_of_Z 1000)
            (f64_add (f64_of_Z (Duration_Milliseconds (rm_Latency m))) (f64_of_Z 1)) in
  let bandwidthScore := f64_div (f64_of_Z (rm_Bandwidth m)) (f64_of_Z 1000000) in
  let reliabilityScore := f64_mul (rm_Reliability m) (f64_of_Z 100) in
  f64_add (f64_add (f64_mul latencyScore (f64_lit 4 1)) (f64_mul bandwidthScore (f64_lit 3 1)))
          (f64_mul reliabilityScore (f64_lit 3 1)).

Record RelayManager := MkRelayManager {
  infos : gmap InfoRef RelayInfo;
  relays : gmap gostring InfoRef;
  relayMetrics : gmap gostring RelayMetrics;
  activeRelays : gmap gostring bool;
  probeInterval : Duration;
}.
#[global] Instance RelayManager_eta : RecordEta RelayManager := λ r,
  MkRelayManager (infos r) (relays r) (relayMetrics r) (activeRelays r) (probeInterval r).

Definition NewRelayManager : RelayManager := MkRelayManager ∅ ∅ ∅ ∅ (30 * Second).

Definition AddRelay (rm : RelayManager) (id addr : gostring) (now : Time) : RelayManager :=
  let r := fresh (dom (infos rm)) in
  rm <| infos ::= <[r := MkRelayInfo id addr 0 0 now]> |> <| relays ::= <[id := r]> |>.

Definition RemoveRelay (rm : RelayManager) (id : gostring) : RelayManager :=
  rm <| relays ::= delete id |> <| relayMetrics ::= delete id |> <| activeRelays ::= delete id |>.

(** The rating of a relay that was never probed. *)
Definition default_metrics : RelayMetrics :=
  MkRelayMetrics (100 * Millisecond) (S754_zero false) 1000000 (f64_lit 5 1).

Definition relay_score (rm : RelayManager) (id : gostring) : float64 :=
  Score (default default_metrics (relayMetrics rm !! id)).

(** One turn of the loop over the table. *)
Definition better (rm : RelayManager) (best : option InfoRef * float64) (e : gostring * InfoRef)
    : option InfoRef * float64 :=
  let score := relay_score rm e.1 in
  if f64_ltb best.2 score then (Some e.2, score) else best.

(** [order] is the table in the order [range] visits it. *)
Definition SelectBestRelay (rm : RelayManager) (order : list (gostring * InfoRef)) : res InfoRef :=
  if bool_decide (size (relays rm) = 0%nat) then Err "no relay available" else
  match (foldl (better rm) (None, f64_of_Z (-1)) order).1 with
  | None => Err "cannot select a relay"
  | Some r => Ok r
  end.

(** ** Probing *)

Record probe_io := MkProbeIO {
  dial_ok : bool;
  deadline_ok : bool;
  write_ok : bool;
  (** what successive reads return: [None] is an error, the deadline among them *)
  reads : list (option bytes);
}.

(** Reads until a datagram starts with PROBE. *)
Fixpoint await_echo (l : list (option bytes)) : res unit :=
  match l with
  | [] | None :: _ => Err "receive failed"
  | Some buf :: l' =>
      if (5 <=? len buf) && bool_decide (subslice buf 0 5 = str "PROBE") then Ok () else await_echo l'
  end.

Definition ProbeRelay (rm : RelayManager) (relay : InfoRef) (io : probe_io)
    (startTime endTime now : Time) : RelayManager * res RelayMetrics :=
  match (_ ← guard_err (negb (dial_ok io)) "dial failed";
         _ ← guard_err (negb (deadline_ok io)) "set deadline failed";
         _ ← guard_err (negb (write_ok io)) "send failed";
         await_echo (reads io)) with
  | Ok _ =>
      match infos rm !! relay with
      | None => (rm, Panic)
      | Some info =>
          let latency := Z.quot (time_Sub endTime startTime) 2 in
          let metrics := MkRelayMetrics latency (S754_zero false) 1000000 (f64_of_Z 1) in
          (rm <| relayMetrics ::= <[ri_ID info := metrics]> |>
              <| infos ::= <[relay := info <| ri_Latency := latency |> <| ri_LastCheck := now |>]> |>,
           Ok metrics)
      end
  | Err e => (rm, Err e)
  | Panic => (rm, Panic)
  end.

(** The references are collected first, then probed one after the other; [io]
    and [clock] say what each probe meets. *)
Definition ProbeAllRelays (rm : RelayManager) (order : list InfoRef)
    (io : InfoRef → probe_io) (clock : InfoRef → Time * Time * Time) : RelayManager :=
  foldl (λ rm r, let '(t0, t1, t2) := clock r in (ProbeRelay rm r (io r) t0 t1 t2).1) rm order.

(** ** Invariant: every entry of the table points at an info with its ID *)

Definition rm_wf (rm : RelayManager) : Prop :=
  ∀ id r, relays rm !! id = Some r → ∃ info, infos rm !! r = Some info ∧ ri_ID info = id.

Lemma NewRelayManager_wf : rm_wf NewRelayManager.
Proof. by intros id r H. Qed.

Lemma AddRelay_wf rm id addr now : rm_wf rm → rm_wf (AddRelay rm id addr now).
Proof.
  intros H id' r'. unfold AddRelay. cbn. set (r := fresh _).
  assert (infos rm !! r = None) as Hr by (apply not_elem_of_dom, is_fresh).
  destruct (decide (id' = id)) as [->|Hne]; simplify_map_eq.
  { intros [= <-]. eexists. by rewrite lookup_insert_eq. }
  intros Hid. destruct (H id' r' Hid) as (info & Hi & ?).
  exists info. by rewrite lookup_insert_ne by congruence.
Qed.

Lemma RemoveRelay_wf rm id : rm_wf rm → rm_wf (RemoveRelay rm id).
Proof. intros H id' r'. cbn. intros [_ Hd]%lookup_delete_Some. by apply H. Qed.

Lemma ProbeRelay_wf rm r io t0 t1 t2 : rm_wf rm → rm_wf (ProbeRelay rm r io t0 t1 t2).1.
Proof.
  intros H. unfold ProbeRelay. destruct (_ ← _; _); [|done..].
  destruct (infos rm !! r) as [info|] eqn:Hr; [|done]. intros id' r' Hid.
  destruct (H id' r' Hid) as (info' & Hi & ?). cbn.
  destruct (decide (r' = r)) as [->|]; [|by exists info'; simplify_map_eq].
  simplify_eq. eexists. rewrite lookup_insert_eq. done.
Qed.

Lemma ProbeAllRelays_wf rm order io clock : rm_wf rm → rm_wf (ProbeAllRelays rm order io clock).
Proof.
  unfold ProbeAllRelays. revert rm. induction order as [|r order IH]; intros rm H; [done|].
  cbn. apply IH. destruct (clock r) as [[t0 t1] t2]. by apply ProbeRelay_wf.
Qed.

#[export] Hint Resolve NewRelayManager_wf AddRelay_wf RemoveRelay_wf ProbeRelay_wf ProbeAllRelays_wf : core.

(** ** The order of scores *)

Lemma f64_ltb_trans a b c : f64_ltb a b = true → f64_ltb b c = true → f64_ltb a c = true.
Proof.
  unfold f64_ltb, SFltb, SFcompare.
  destruct a as [[]|[]| |[] ma ea], b as [[]|[]| |[] mb eb], c as [[]|[]| |[] mc ec]; try done;
    destruct (Z.compare_spec ea eb), (Z.compare_spec eb ec), (Z.compare_spec ea ec); try done; try lia;
    fold (Pos.compare ma mb) (Pos.compare mb mc) (Pos.compare ma mc);
    destruct (Pos.compare_spec ma mb), (Pos.compare_spec mb mc), (Pos.compare_spec ma mc); done || lia.
Qed.

Lemma f64_ltb_irrefl a : f64_ltb a a = false.
Proof.
  unfold f64_ltb, SFltb, SFcompare. destruct a as [[]|[]| |[] m e]; try done;
    rewrite Z.compare_refl; fold (Pos.compare m m); by rewrite Pos.compare_refl.
Qed.

(** What the selection loop has found after visiting [l]. *)
Lemma better_fold rm l b0 s0 :
  let '(b, s) := foldl (better rm) (b0, s0) l in
  (∀ e, e ∈ l → f64_ltb s (relay_score rm e.1) = false)
  ∧ (b = b0 ∧ s = s0
     ∨ ∃ e, e ∈ l ∧ b = Some e.2 ∧ s = relay_score rm e.1 ∧ f64_ltb s0 s = true).
Proof.
  revert b0 s0. induction l as [|e l IH]; intros b0 s0.
  { split; [intros e He; by apply elem_of_nil in He|by left]. }
  cbn [foldl]. unfold better at 2. cbn [snd].
  destruct (f64_ltb s0 (relay_score rm e.1)) eqn:E.
  - specialize (IH (Some e.2) (relay_score rm e.1)). destruct (foldl _ _ l) as [b s].
    destruct IH as [Hmax Hin]. split.
    + intros e' [->|He]%elem_of_cons; [|by apply Hmax].
      destruct Hin as [[_ ->]|(x & _ & _ & _ & Hlt)]; [apply f64_ltb_irrefl|].
      apply not_true_is_false. intros H. pose proof (f64_ltb_trans _ _ _ Hlt H) as Hc.
      by rewrite f64_ltb_irrefl in Hc.
    + right. destruct Hin as [[-> ->]|(x & Hx & -> & -> & Hlt)].
      * exists e. split_and!; try done. left.
      * exists x. split_and!; try done; [by right|by eapply f64_ltb_trans].
  - specialize (IH b0 s0). destruct (foldl _ _ l) as [b s].
    destruct IH as [Hmax Hin]. split.
    + intros e' [->|He]%elem_of_cons; [|by apply Hmax].
      destruct Hin as [[_ ->]|(x & _ & _ & _ & Hlt)]; [done|].
      apply not_true_is_false. intros H. pose proof (f64_ltb_trans _ _ _ Hlt H). congruence.
    + destruct Hin as [?|(x & ? & ? & ? & ?)]; [by left|right].
      exists x. split_and!; try done. by right.
Qed.

(** Whatever the order in which the table is visited, [SelectBestRelay]
    returns a relay of the table that no other relay outscores, the reference it
    returns points at the info registered under that ID, and it fails only when
    no relay of the table scores above -1; in particular it succeeds as soon as
    the table holds a relay that was never probed. *)
Theorem select_best_relay rm order :
  rm_wf rm →
  order ≡ₚ map_to_list (relays rm) →
  match SelectBestRelay rm order with
  | Ok r => ∃ id info, relays rm !! id = Some r ∧ infos rm !! r = Some info ∧ ri_ID info = id
      ∧ ∀ id', is_Some (relays rm !! id') → f64_ltb (relay_score rm id) (relay_score rm id') = false
  | Err _ => ∀ id, is_Some (relays rm !! id) →
      f64_ltb (f64_of_Z (-1)) (relay_score rm id) = false ∧ is_Some (relayMetrics rm !! id)
  | Panic => False
  end.
Proof.
  intros Hwf Hord. unfold SelectBestRelay.
  assert (∀ id r, relays rm !! id = Some r → (id, r) ∈ order) as Hall.
  { intros id r H. rewrite Hord. by apply elem_of_map_to_list. }
  case_bool_decide as Hsz.
  { apply map_size_empty_inv in Hsz. intros id [r Hr]. by rewrite Hsz, lookup_empty in Hr. }
  pose proof (better_fold rm order None (f64_of_Z (-1))) as Hb.
  destruct (foldl _ _ order) as [b s]. destruct Hb as [Hmax Hin]. cbn [fst].
  destruct Hin as [[-> ->]|(e & He & -> & -> & Hlt)].
  - intros id [r Hr]. specialize (Hmax (id, r) (Hall _ _ Hr)). cbn in Hmax. split; [done|].
    destruct (relayMetrics rm !! id) eqn:Em; [done|].
    unfold relay_score in Hmax. rewrite Em in Hmax. vm_compute in Hmax. done.
  - destruct e as [id r]. rewrite Hord in He. apply elem_of_map_to_list in He.
    destruct (Hwf id r He) as (info & Hi & Hid). exists id, info. split_and!; try done.
    intros id' [r' Hr']. apply (Hmax (id', r')), Hall, Hr'.
Qed.

Definition demo_manager : RelayManager :=
  let rm := AddRelay (AddRelay NewRelayManager (str "a") (str "1.2.3.4:1") 0) (str "b") (str "1.2.3.4:2") 0 in
  rm <| relayMetrics := {[ str "a" := MkRelayMetrics (20 * Millisecond) (S754_zero false) 1000000 (f64_of_Z 1) ]} |>.

Lemma demo_manager_wf : rm_wf demo_manager.
Proof.
  intros id r H. change (relays demo_manager) with
    (relays (AddRelay (AddRelay NewRelayManager (str "a") (str "1.2.3.4:1") 0) (str "b") (str "1.2.3.4:2") 0)) in H.
  revert H. apply AddRelay_wf. auto.
Qed.

Lemma select_best_relay_witness :
  SelectBestRelay demo_manager (map_to_list (relays demo_manager)) = Ok 1%positive
  ∧ match SelectBestRelay demo_manager (map_to_list (relays demo_manager)) with
    | Ok r => ∃ id info, relays demo_manager !! id = Some r ∧ infos demo_manager !! r = Some info ∧ ri_ID info = id
        ∧ ∀ id', is_Some (relays demo_manager !! id') →
          f64_ltb (relay_score demo_manager id) (relay_score demo_manager id') = false
    | Err _ => ∀ id, is_Some (relays demo_manager !! id) →
        f64_ltb (f64_of_Z (-1)) (relay_score demo_manager id) = false ∧ is_Some (relayMetrics demo_manager !! id)
    | Panic => False
    end.
Proof.
  split; [vm_compute; reflexivity|].
  apply (select_best_relay demo_manager _ demo_manager_wf). reflexivity.
Defined.
