(* ===== verification/Probe.v ===== *)
(** * NAT detection ([nat/nat.go], [nat/probe.go])

    A node learns its public address and the behaviour of its NAT by asking
    helpers which address they see.  The prober is both the server that answers
    such requests and the client that collects the answers.  The local address
    of its socket is an argument, [None] when it is not a UDP address.

    A recorded answer keeps a slice of the datagram it came in.  Datagrams are
    values here, so the file describes the prober for a caller that leaves the
    datagram alone afterwards; the read loop of the node reuses its buffer. *)

From S2P Require Import Prelude.

(** ** NAT types *)

Abbreviation NATType := Z.
Definition NATUnknown : NATType := 0.
Definition NATNone : NATType := 1.
Definition NATFullCone : NATType := 2.
Definition NATRestrictedCone : NATType := 3.
Definition NATPortRestricted : NATType := 4.
Definition NATSymmetric : NATType := 5.

Definition NATType_String (t : NATType) : string :=
  if t =? NATNone then "Public"
  else if t =? NATFullCone then "Full Cone"
  else if t =? NATRestrictedCone then "Restricted Cone"
  else if t =? NATPortRestricted then "Port Restricted Cone"
  else if t =? NATSymmetric then "Symmetric"
  else "Unknown".

(** ** IP addresses ([net.IP]) *)

Definition v4InV6Prefix : bytes := replicate 10 x00 ++ [xff; xff].

(** [nil] is the empty slice. *)
Definition To4 (ip : bytes) : bytes :=
  if len ip =? 4 then ip
  else if (len ip =? 16) && bool_decide (take 12 ip = v4InV6Prefix) then drop 12 ip
  else [].

Definition To16 (ip : bytes) : bytes :=
  if len ip =? 4 then v4InV6Prefix ++ ip else if len ip =? 16 then ip else [].

Definition IP_Equal (ip x : bytes) : bool :=
  if len ip =? len x then bool_decide (ip = x)
  else if (len ip =? 4) && (len x =? 16) then bool_decide (take 12 x = v4InV6Prefix ∧ ip = drop 12 x)
  else if (len ip =? 16) && (len x =? 4) then bool_decide (take 12 ip = v4InV6Prefix ∧ drop 12 ip = x)
  else false.

Record UDPAddr := MkUDPAddr { IP : bytes; Port : Z }.
#[global] Instance UDPAddr_eq_dec : EqDecision UDPAddr.
Proof. solve_decision. Defined.

(** The bytes of an address as the packets carry it. *)
Definition wire_ip (ip : bytes) : bytes := if bool_decide (To4 ip = []) then To16 ip else To4 ip.

(** ** State *)

Definition ProbeTypeRequest : byte := x01.
Definition ProbeTypeResponse : byte := x02.
Definition ProbeMagic : gostring := str "NATP".

Record ProbeResult := MkProbeResult {
  pr_NATType : NATType;
  pr_PublicAddr : UDPAddr;
  PortPredictable : bool;
  PortDelta : Z;
  ProbeTime : Time;
}.

Record ProbeResponse := MkProbeResponse {
  RequestID : Z;
  ObservedAddr : UDPAddr;
  FromPort : Z;
}.

(** [responseCh] is its capacity and the number of tokens in it. *)
Record pendingProbe := MkPendingProbe {
  pp_requestID : Z;
  responses : list ProbeResponse;
  responseCh : Z * Z;
  createTime : Time;
  expectedPort : Z;
}.
#[global] Instance pendingProbe_eta : RecordEta pendingProbe := λ p,
  MkPendingProbe (pp_requestID p) (responses p) (responseCh p) (createTime p) (expectedPort p).

(** A [*pendingProbe] is held by the table and by the call that waits for it. *)
Abbreviation ProbeRef := positive.

Record NATProber := MkNATProber {
  cachedResult : option ProbeResult;
  probe_store : gmap ProbeRef pendingProbe;
  pendingProbes : gmap Z ProbeRef;
  (** [receivedAt] of each request *)
  probeRequests : gmap Z Time;
  timeout : Duration;
  nextRequestID : Z;
  prober_closed : bool;
}.
#[global] Instance NATProber_eta : RecordEta NATProber := λ p,
  MkNATProber (cachedResult p) (probe_store p) (pendingProbes p) (probeRequests p) (timeout p)
    (nextRequestID p) (prober_closed p).

Definition NewNATProber : NATProber := MkNATProber None ∅ ∅ ∅ (5 * Second) 1 false.

(** [close(p.closing)] of a closed channel panics; the flag prevents it. *)
Definition NATProber_Close (p : NATProber) : NATProber :=
  if prober_closed p then p else p <| prober_closed := true |>.

Definition staleTimeout : Duration := 60 * Second.

Definition probe_stale (p : NATProber) (now : Time) (r : ProbeRef) : Prop :=
  match probe_store p !! r with
  | Some probe => staleTimeout < time_Sub now (createTime probe)
  | None => False
  end.
#[global] Instance probe_stale_dec p now r : Decision (probe_stale p now r).
Proof. unfold probe_stale. destruct (_ !! _); apply _. Defined.

Definition cleanupStaleProbes (p : NATProber) (now : Time) : NATProber :=
  p <| pendingProbes ::= filter (λ kv, ¬ probe_stale p now kv.2) |>
    <| probeRequests ::= filter (λ kv, ¬ staleTimeout < time_Sub now kv.2) |>.

(** [cleanupLoop]: a tick of its timer with the time, or the close. *)
Fixpoint cleanupLoop (p : NATProber) (ticks : list (option Time)) : NATProber :=
  match ticks with
  | [] | None :: _ => p
  | Some now :: ticks' => cleanupLoop (cleanupStaleProbes p now) ticks'
  end.

(** ** Packets *)

(** [Magic(4)] [Type(1)] [RequestID(4)] [PortCount(1)]. *)
Definition buildProbeRequest (requestID portCount : Z) : bytes :=
  let packet := make_bytes 10 in
  let packet := copy_range packet 0 4 ProbeMagic in
  let packet := set_byte packet 4 ProbeTypeRequest in
  let packet := put_be 4 packet 5 requestID in
  set_byte packet 9 (byte_of_Z portCount).

(** [Magic(4)] [Type(1)] [RequestID(4)] [ObservedPort(2)] [IPLen(1)] [IP(N)] [FromPort(2)]. *)
Definition buildProbeResponse (requestID : Z) (observedAddr : UDPAddr) (fromPort : Z) : bytes :=
  let ip := To4 (IP observedAddr) in
  let ip := if bool_decide (ip = []) then To16 (IP observedAddr) else ip in
  let ipLen := len ip in
  let packet := make_bytes (14 + ipLen) in
  let packet := copy_range packet 0 4 ProbeMagic in
  let packet := set_byte packet 4 ProbeTypeResponse in
  let packet := put_be 4 packet 5 requestID in
  let packet := put_be 2 packet 9 (to_uint16 (Port observedAddr)) in
  let packet := set_byte packet 11 (byte_of_Z ipLen) in
  let packet := copy_range packet 12 (12 + ipLen) ip in
  put_be 2 packet (12 + ipLen) (to_uint16 fromPort).

(** ** Server and client *)

(** [p.conn.LocalAddr().( *net.UDPAddr)] panics for another kind of socket. *)
Definition handleProbeRequest (local : option UDPAddr) (data : bytes) (from : UDPAddr) : res (option bytes) :=
  if len data <? 9 then Ok None else
  id ← go_slice data 5 9;
  match local with
  | None => Panic
  | Some a => Ok (Some (buildProbeResponse (be_value id) from (Port a)))
  end.

Definition add_response (probe : pendingProbe) (response : ProbeResponse) : pendingProbe :=
  let '(cap, tokens) := responseCh probe in
  probe <| responses ::= λ l, l ++ [response] |>
        <| responseCh := (cap, if tokens <? cap then tokens + 1 else tokens) |>.

Definition deliver_response (p : NATProber) (response : ProbeResponse) : NATProber :=
  match pendingProbes p !! RequestID response with
  | Some r => p <| probe_store ::= alter (λ probe, add_response probe response) r |>
  | None => p
  end.

Definition handleProbeResponse (p : NATProber) (data : bytes) : res NATProber :=
  if len data <? 15 then Ok p else
  id ← go_slice data 5 9;
  port ← go_slice data 9 11;
  il ← go_index data 11;
  let ipLen := Z_of_byte il in
  if len data <? 12 + ipLen + 2 then Ok p else
  observedIP ← go_slice data 12 (12 + ipLen);
  fp ← go_slice data (12 + ipLen) (14 + ipLen);
  let response :=
    MkProbeResponse (be_value id) (MkUDPAddr observedIP (be_value port)) (be_value fp) in
  Ok (deliver_response p response).

Definition HandleProbePacket (local : option UDPAddr) (p : NATProber) (data : bytes) (from : UDPAddr)
    : res (NATProber * option bytes) :=
  if (len data <? 8) || bool_decide (subslice data 0 4 ≠ ProbeMagic) then Ok (p, None) else
  probeType ← go_index data 4;
  if bool_decide (probeType = ProbeTypeRequest) then
    r ← handleProbeRequest local data from; Ok (p, r)
  else if bool_decide (probeType = ProbeTypeResponse) then
    p ← handleProbeResponse p data; Ok (p, None)
  else Ok (p, None).

(** ** Analysis *)

Fixpoint all_deltas (delta : Z) (ports : list Z) : bool :=
  match ports with
  | a :: (b :: _) as l => (b - a =? delta) && all_deltas delta l
  | _ => true
  end.

(** The result; the second component says whether it is cached. *)
Definition analyze (local : option UDPAddr) (responses : list ProbeResponse) (now : Time)
    : res (ProbeResult * bool) :=
  match responses with
  | [] => Err "no probe response"
  | r0 :: _ =>
      let result := λ t predictable delta, MkProbeResult t (ObservedAddr r0) predictable delta now in
      let public :=
        match local with
        | Some a => IP_Equal (IP a) (IP (ObservedAddr r0)) && (Port a =? Port (ObservedAddr r0))
        | None => false
        end in
      if public then Ok (result NATNone false 0, false) else
      if len responses =? 1 then Ok (result NATUnknown false 0, false) else
      let ports := map (λ r, Port (ObservedAddr r)) responses in
      let allSame := forallb (λ q, q =? Port (ObservedAddr r0)) ports in
      if allSame then Ok (result NATPortRestricted false 0, true) else
      match ports with
      | p0 :: p1 :: _ =>
          let delta := p1 - p0 in
          let predictable := all_deltas delta ports in
          Ok (result NATSymmetric predictable (if predictable then delta else 0), true)
      | _ => Ok (result NATSymmetric false 0, true)
      end
  end.

Definition analyzeResponses (local : option UDPAddr) (p : NATProber) (responses : list ProbeResponse)
    (now : Time) : NATProber * res ProbeResult :=
  match analyze local responses now with
  | Ok (result, cache) => (if cache then p <| cachedResult := Some result |> else p, Ok result)
  | Err e => (p, Err e)
  | Panic => (p, Panic)
  end.

(** [ProbeViaHelper] up to the wait: the prober, the probe and the datagrams. *)
Definition ProbeViaHelper_begin (p : NATProber) (helperAddrs : list UDPAddr) (now : Time)
    : res (NATProber * Z * ProbeRef * list (bytes * UDPAddr)) :=
  if len helperAddrs <? 1 then Err "at least one helper address is needed" else
  let requestID := nextRequestID p in
  let r := fresh (dom (probe_store p)) in
  let probe := MkPendingProbe requestID [] (len helperAddrs, 0) now (len helperAddrs) in
  let p := p <| nextRequestID ::= λ n, to_uint32 (n + 1) |>
             <| probe_store ::= <[r := probe]> |>
             <| pendingProbes ::= <[requestID := r]> |> in
  let packet := buildProbeRequest requestID (len helperAddrs) in
  Ok (p, requestID, r, map (λ a, (packet, a)) helperAddrs).

(** Its end, once all answers or the deadline arrived. *)
Definition ProbeViaHelper_end (local : option UDPAddr) (p : NATProber) (requestID : Z) (r : ProbeRef)
    (now : Time) : NATProber * res ProbeResult :=
  match probe_store p !! r with
  | None => (p, Panic)
  | Some probe =>
      let '(p, result) := analyzeResponses local p (responses probe) now in
      (p <| pendingProbes ::= delete requestID |>, result)
  end.

Definition GetCachedResult (p : NATProber) : option ProbeResult := cachedResult p.
Definition ClearCache (p : NATProber) : NATProber := p <| cachedResult := None |>.

(** ** Punching strategies *)

Inductive PunchStrategy :=
| StrategyDirect
| StrategyUDPPunch
| StrategyTCPPunch
| StrategyPortPredict
| StrategyRelay
| StrategyAll.
#[global] Instance PunchStrategy_eq_dec : EqDecision PunchStrategy.
Proof. solve_decision. Defined.

Definition PunchStrategy_String (s : PunchStrategy) : string :=
  match s with
  | StrategyDirect => "Direct"
  | StrategyUDPPunch => "UDP Punch"
  | StrategyTCPPunch => "TCP Punch"
  | StrategyPortPredict => "Port Predict"
  | StrategyRelay => "Relay"
  | StrategyAll => "Try All"
  end.

Definition SelectPunchStrategy (localNAT remoteNAT : NATType) : PunchStrategy :=
  if (localNAT =? NATNone) || (remoteNAT =? NATNone) then StrategyDirect
  else if (localNAT <=? NATPortRestricted) && (remoteNAT <=? NATPortRestricted) then StrategyUDPPunch
  else if ((localNAT =? NATSymmetric) && (remoteNAT <=? NATPortRestricted))
          || ((remoteNAT =? NATSymmetric) && (localNAT <=? NATPortRestricted)) then StrategyTCPPunch
  else if (localNAT =? NATSymmetric) && (remoteNAT =? NATSymmetric) then StrategyPortPredict
  else StrategyAll.

(** ** NAT information of a node *)

Record NATInfo := MkNATInfo {
  ni_Type : NATType;
  ni_PublicAddr : UDPAddr;
  ni_PortPredictable : bool;
  ni_PortDelta : Z;
  ni_LastProbe : Time;
}.

(** [Type(1)] [Port(2)] [IPLen(1)] [IP(N)] [Predictable(1)] [Delta(2)]. *)
Definition NATInfo_Encode (n : NATInfo) : bytes :=
  let ip := To4 (IP (ni_PublicAddr n)) in
  let ip := if bool_decide (ip = []) then To16 (IP (ni_PublicAddr n)) else ip in
  let ipLen := len ip in
  let data := make_bytes (7 + ipLen) in
  let data := set_byte data 0 (byte_of_Z (ni_Type n)) in
  let data := put_be 2 data 1 (to_uint16 (Port (ni_PublicAddr n))) in
  let data := set_byte data 3 (byte_of_Z ipLen) in
  let data := copy_range data 4 (4 + ipLen) ip in
  let data := if ni_PortPredictable n then set_byte data (4 + ipLen) x01 else data in
  put_be 2 data (5 + ipLen) (to_uint16 (ni_PortDelta n)).

Definition DecodeNATInfo (data : bytes) (now : Time) : res NATInfo :=
  _ ← guard_err (len data <? 7) "data too short";
  t ← go_index data 0;
  port ← go_slice data 1 3;
  il ← go_index data 3;
  let ipLen := Z_of_byte il in
  _ ← guard_err (len data <? 7 + ipLen) "data too short for the IP";
  ip ← go_slice data 4 (4 + ipLen);
  pb ← go_index data (4 + ipLen);
  delta ← go_slice data (5 + ipLen) (7 + ipLen);
  Ok (MkNATInfo (Z_of_byte t) (MkUDPAddr ip (be_value port)) (bool_decide (pb = x01)) (be_value delta) now).

(** ** Normal forms *)

Definition valid_ip (ip : bytes) : Prop := len ip = 4 ∨ len ip = 16.

Lemma len_drop_12 {A} (l : list A) : len (drop 12 l) = Z.max 0 (len l - 12).
Proof. unfold len. rewrite length_drop. lia. Qed.

Lemma len_To4 ip : len (To4 ip) = 0 ∨ len (To4 ip) = 4.
Proof.
  unfold To4. destruct (Z.eqb_spec (len ip) 4); [by right|].
  destruct (Z.eqb_spec (len ip) 16); [|by left]. case_bool_decide; [|by left].
  right. cbn [andb]. rewrite len_drop_12. lia.
Qed.

Lemma len_wire_ip ip : 0 ≤ len (wire_ip ip) ≤ 16.
Proof.
  unfold wire_ip. case_bool_decide; [|destruct (len_To4 ip); lia].
  unfold To16. repeat zcase; rewrite ?len_app; [|lia..|done].
  change (len v4InV6Prefix) with 12. lia.
Qed.

Lemma wire_ip_equal ip : valid_ip ip → IP_Equal ip (wire_ip ip) = true.
Proof.
  intros H. unfold wire_ip, To4, To16, IP_Equal.
  pose proof (len_drop_12 ip) as Hd.
  destruct H as [H|H]; rewrite H in *; cbn [Z.eqb Pos.eqb andb].
  - rewrite bool_decide_false by (intros ->; done). rewrite H. by apply bool_decide_true.
  - destruct (decide (take 12 ip = v4InV6Prefix)) as [E|E].
    + rewrite (bool_decide_true _ E).
      rewrite bool_decide_false by (intros E'; rewrite E' in Hd; done).
      rewrite Hd. cbn -[take drop]. by apply bool_decide_true.
    + rewrite (bool_decide_false _ E). rewrite bool_decide_true by done.
      rewrite H. by apply bool_decide_true.
Qed.

Lemma buildProbeRequest_eq id n :
  buildProbeRequest id n = ProbeMagic ++ ProbeTypeRequest :: be_bytes 4 id ++ [byte_of_Z n].
Proof.
  unfold buildProbeRequest, put_be. cbv zeta. change (len ProbeMagic) with 4.
  assert (len ProbeMagic = 4) by done. fill. done.
Qed.

Lemma buildProbeResponse_eq id a fp :
  buildProbeResponse id a fp
  = ProbeMagic ++ ProbeTypeResponse :: be_bytes 4 id ++ be_bytes 2 (to_uint16 (Port a))
    ++ byte_of_Z (len (wire_ip (IP a))) :: wire_ip (IP a) ++ be_bytes 2 (to_uint16 fp).
Proof.
  unfold buildProbeResponse, put_be. cbv zeta. fold (wire_ip (IP a)).
  assert (len ProbeMagic = 4) by done. pose proof (len_wire_ip (IP a)).
  fill. done.
Qed.

Lemma handleProbeResponse_fields p id a fp :
  0 ≤ id < 2 ^ 32 → 0 ≤ Port a < 65536 → 0 ≤ fp < 65536 → valid_ip (IP a) →
  handleProbeResponse p (buildProbeResponse id a fp)
  = Ok (deliver_response p (MkProbeResponse id (MkUDPAddr (wire_ip (IP a)) (Port a)) fp)).
Proof.
  intros Hid Hp Hf Hip. rewrite buildProbeResponse_eq. set (ip := wire_ip (IP a)).
  pose proof (len_wire_ip (IP a)) as Hl. fold ip in Hl.
  assert (4 ≤ len ip) as Hl4.
  { pose proof (wire_ip_equal _ Hip) as He. fold ip in He. unfold IP_Equal in He.
    destruct Hip as [H|H]; rewrite H in He; repeat zcase_in He; cbn in He; try done; lia. }
  set (A := be_bytes 4 id). set (B := be_bytes 2 (to_uint16 (Port a))). set (C := be_bytes 2 (to_uint16 fp)).
  assert (len A = 4) by apply len_be_bytes. assert (len B = 2) by apply len_be_bytes.
  assert (len C = 2) by apply len_be_bytes. assert (len ProbeMagic = 4) by done.
  unfold handleProbeResponse. zcase; [len_solve|].
  rewrite (cons_middle ProbeTypeResponse), (app_assoc ProbeMagic).
  rewrite (go_slice_mid _ A _ 5 9) by len_solve. cbn [mbind res_bind].
  rewrite (app_assoc _ A), (go_slice_mid _ B _ 9 11) by len_solve. cbn [mbind res_bind].
  rewrite (app_assoc _ B), (go_index_mid _ _ _ 11) by len_solve. cbn [mbind res_bind].
  rewrite Z_of_byte_of_Z, Z.mod_small by lia. zcase; [len_solve|].
  rewrite (cons_middle (byte_of_Z (len ip))), (app_assoc _ [_]).
  rewrite (go_slice_mid _ ip _ 12 (12 + len ip)) by len_solve. cbn [mbind res_bind].
  rewrite (app_assoc _ ip), <- (app_nil_r C), (go_slice_mid _ C [] (12 + len ip) (14 + len ip)) by len_solve.
  cbn [mbind res_bind]. unfold A, B, C. rewrite !be_value_bytes.
  rewrite !to_uint16_small, !Z.mod_small by (cbn; lia). done.
Qed.

Lemma HandleProbePacket_typed local p t body from :
  3 ≤ len body →
  HandleProbePacket local p (ProbeMagic ++ t :: body) from
  = if bool_decide (t = ProbeTypeRequest) then
      r ← handleProbeRequest local (ProbeMagic ++ t :: body) from; Ok (p, r)
    else if bool_decide (t = ProbeTypeResponse) then
      p' ← handleProbeResponse p (ProbeMagic ++ t :: body); Ok (p', None)
    else Ok (p, None).
Proof.
  intros H. assert (len ProbeMagic = 4) by done. unfold HandleProbePacket. zcase; [len_solve|].
  change (subslice (ProbeMagic ++ t :: body) 0 4) with ProbeMagic.
  rewrite bool_decide_false by auto. cbn [orb]. by rewrite go_index_mid.
Qed.

(** One probe, end to end: a helper answers a request with the address it
    saw it come from, and the prober that issued the request records under it
    that address (port unchanged, the same IP in its shortest form) and the port
    the helper answered from. *)
Theorem probe_exchange helper srv id n from clocal p r probe from' :
  0 ≤ id < 2 ^ 32 → valid_ip (IP from) → 0 ≤ Port from < 65536 → 0 ≤ Port helper < 65536 →
  pendingProbes p !! id = Some r → probe_store p !! r = Some probe →
  ∃ reply p',
    HandleProbePacket (Some helper) srv (buildProbeRequest id n) from = Ok (srv, Some reply)
    ∧ HandleProbePacket clocal p reply from' = Ok (p', None)
    ∧ probe_store p' = <[r := add_response probe
        (MkProbeResponse id (MkUDPAddr (wire_ip (IP from)) (Port from)) (Port helper))]> (probe_store p)
    ∧ pendingProbes p' = pendingProbes p
    ∧ IP_Equal (IP from) (wire_ip (IP from)) = true.
Proof.
  intros Hid Hip Hp Hh Hr Hprobe. rewrite buildProbeRequest_eq.
  assert (len ProbeMagic = 4) by done. pose proof (len_be_bytes 4 id).
  exists (buildProbeResponse id from (Port helper)).
  eexists. split_and!.
  - rewrite HandleProbePacket_typed by len_solve. rewrite bool_decide_true by done.
    unfold handleProbeRequest. zcase; [len_solve|].
    rewrite (cons_middle ProbeTypeRequest), (app_assoc ProbeMagic), go_slice_mid by len_solve.
    cbn [mbind res_bind]. by rewrite be_value_bytes, Z.mod_small.
  - rewrite buildProbeResponse_eq. rewrite HandleProbePacket_typed by len_solve.
    rewrite <- buildProbeResponse_eq, handleProbeResponse_fields by done. reflexivity.
  - unfold deliver_response. cbn [RequestID]. rewrite Hr. cbn.
    apply map_eq. intros r'. destruct (decide (r' = r)) as [->|]; by simplify_map_eq.
  - unfold deliver_response. cbn [RequestID]. by rewrite Hr.
  - by apply wire_ip_equal.
Qed.

Definition demo_prober : NATProber :=
  NewNATProber <| probe_store := {[ 1%positive := MkPendingProbe 7 [] (1, 0) 0 1 ]} |>
               <| pendingProbes := {[ 7 := 1%positive ]} |>.

Lemma probe_exchange_witness :
  ∃ reply p',
    HandleProbePacket (Some (MkUDPAddr (make_bytes 4) 9000)) NewNATProber (buildProbeRequest 7 1)
      (MkUDPAddr [xc0; xa8; x01; x02] 4242) = Ok (NewNATProber, Some reply)
    ∧ HandleProbePacket None demo_prober reply (MkUDPAddr [] 0) = Ok (p', None)
    ∧ probe_store p' = <[1%positive := add_response (MkPendingProbe 7 [] (1, 0) 0 1)
        (MkProbeResponse 7 (MkUDPAddr [xc0; xa8; x01; x02] 4242) 9000)]> (probe_store demo_prober)
    ∧ pendingProbes p' = pendingProbes demo_prober
    ∧ IP_Equal [xc0; xa8; x01; x02] [xc0; xa8; x01; x02] = true.
Proof.
  apply (probe_exchange (MkUDPAddr (make_bytes 4) 9000) NewNATProber 7 1
    (MkUDPAddr [xc0; xa8; x01; x02] 4242) None demo_prober 1); try (cbn; lia); try reflexivity.
  by left.
Defined.

(** No datagram makes a prober on a UDP socket panic, and a datagram changes
    nothing but the answers of probes that are pending: the tables, the cache
    and the request counter stay as they are, and the answers collected so far
    are kept. *)
Theorem probe_packet_safe helper p data from :
  ∃ p' reply, HandleProbePacket (Some helper) p data from = Ok (p', reply)
  ∧ pendingProbes p' = pendingProbes p ∧ probeRequests p' = probeRequests p
  ∧ cachedResult p' = cachedResult p ∧ nextRequestID p' = nextRequestID p
  ∧ (∀ r probe, probe_store p !! r = Some probe →
      ∃ probe' l, probe_store p' !! r = Some probe' ∧ responses probe' = responses probe ++ l
      ∧ (l ≠ [] → ∃ id, pendingProbes p !! id = Some r)).
Proof.
  assert (∀ p' : NATProber, p' = p → ∀ r probe, probe_store p !! r = Some probe →
    ∃ probe' l, probe_store p' !! r = Some probe' ∧ responses probe' = responses probe ++ l
    ∧ (l ≠ [] → ∃ id, pendingProbes p !! id = Some r)) as Hsame.
  { intros p' -> r probe H. exists probe, []. by rewrite app_nil_r. }
  unfold HandleProbePacket. destruct (Z.ltb_spec (len data) 8); cbn [orb]; [eauto 10|].
  case_bool_decide; [eauto 10|].
  destruct (go_index_ok data 4 ltac:(lia)) as (t & -> & _). cbn [mbind res_bind].
  case_bool_decide.
  { unfold handleProbeRequest. zcase; cbn [mbind res_bind]; [eauto 10|].
    rewrite go_slice_ok by lia. cbn [mbind res_bind]. eauto 10. }
  case_bool_decide; [|eauto 10].
  unfold handleProbeResponse. zcase; cbn [mbind res_bind]; [eauto 10|].
  rewrite !go_slice_ok by lia. cbn [mbind res_bind].
  destruct (go_index_ok data 11 ltac:(lia)) as (il & -> & _). cbn [mbind res_bind].
  pose proof (Z_of_byte_range il). zcase; cbn [mbind res_bind]; [eauto 10|].
  rewrite !go_slice_ok by lia. cbn [mbind res_bind]. set (resp := MkProbeResponse _ _ _).
  unfold deliver_response. destruct (pendingProbes p !! RequestID resp) as [r|] eqn:Hr; [|eauto 10].
  eexists _, _. split_and!; [reflexivity..|]. intros r' probe Hp. cbn.
  destruct (decide (r' = r)) as [->|].
  - rewrite lookup_alter_eq, Hp. cbn. unfold add_response.
    destruct (responseCh probe) as [cap tokens]. eexists _, [resp]. cbn. eauto.
  - exists probe, []. rewrite lookup_alter_ne by done. by rewrite app_nil_r.
Qed.

(** ** The classification *)

Lemma all_deltas_spec delta ports p0 :
  all_deltas delta (p0 :: ports) = true
  ↔ ∀ i q, (p0 :: ports) !! i = Some q → q = p0 + Z.of_nat i * delta.
Proof.
  revert p0. induction ports as [|p1 ports IH]; intros p0.
  { split; [|done]. intros _ [|i] q; cbn; [|done]. intros [= ->]. lia. }
  cbn [all_deltas]. rewrite andb_true_iff, Z.eqb_eq. rewrite (IH p1). split.
  - intros [Hd Hr] [|i] q; cbn [lookup list_lookup]; [intros [= ->]; lia|].
    intros Hq. rewrite (Hr i q Hq). lia.
  - intros H. pose proof (H 1%nat p1 eq_refl) as H1. split; [lia|].
    intros i q Hq. rewrite (H (S i) q Hq). lia.
Qed.

(** The ports helpers observed, in the order of their answers. *)
Definition observed_ports (rs : list ProbeResponse) : list Z := map (λ r, Port (ObservedAddr r)) rs.

Definition same_address (local : option UDPAddr) (a : UDPAddr) : Prop :=
  ∃ l, local = Some l ∧ IP_Equal (IP l) (IP a) = true ∧ Port l = Port a.

Lemma forallb_const_ports (f : ProbeResponse → Z) (c : Z) rs :
  forallb (λ q, q =? c) (map f rs) = true ↔ ∀ r, r ∈ rs → f r = c.
Proof.
  rewrite forallb_forall. setoid_rewrite List.in_map_iff. setoid_rewrite Z.eqb_eq. split.
  - intros H r Hr. apply H. exists r. split; [done|]. by apply list_elem_of_In.
  - intros H q (r & <- & Hr). apply H. by apply list_elem_of_In.
Qed.

(** What the analysis concludes.  Without answers it fails.  Otherwise the
    public address is the first one observed, and the NAT is: none, exactly when
    that is the local address; unknown, when there is a single answer; port
    restricted, when several helpers saw the same port; and symmetric, when two
    of them saw different ports, in which case the port is called predictable
    exactly when the observed ports form the arithmetic progression of the
    reported step. *)
Theorem analyze_classification local p rs now :
  match (analyzeResponses local p rs now).2 with
  | Err _ => rs = []
  | Panic => False
  | Ok result => ∃ r0 rest, rs = r0 :: rest ∧ pr_PublicAddr result = ObservedAddr r0 ∧
      let same := ∀ r, r ∈ rest → Port (ObservedAddr r) = Port (ObservedAddr r0) in
      (pr_NATType result = NATNone ∧ same_address local (ObservedAddr r0)
       ∨ ¬ same_address local (ObservedAddr r0) ∧
         (pr_NATType result = NATUnknown ∧ rest = []
          ∨ pr_NATType result = NATPortRestricted ∧ rest ≠ [] ∧ same
          ∨ pr_NATType result = NATSymmetric ∧ ¬ same
            ∧ (PortPredictable result = true ↔
               ∃ d, ∀ i q, observed_ports rs !! i = Some q → q = Port (ObservedAddr r0) + Z.of_nat i * d)
            ∧ (PortPredictable result = true → ∀ i q, observed_ports rs !! i = Some q →
                 q = Port (ObservedAddr r0) + Z.of_nat i * PortDelta result)))
  end.
Proof.
  unfold analyzeResponses, analyze. destruct rs as [|r0 rest]; [done|].
  set (public := match local with Some a => _ | None => _ end).
  assert (public = true ↔ same_address local (ObservedAddr r0)) as Hpub.
  { unfold public, same_address. destruct local as [l|]; [|naive_solver].
    rewrite andb_true_iff, Z.eqb_eq. naive_solver. }
  destruct public.
  { cbn. exists r0, rest. split_and!; try done. left. split; [done|]. by apply Hpub. }
  assert (¬ same_address local (ObservedAddr r0)) as Hnp by (rewrite <- Hpub; done).
  destruct rest as [|r1 rest].
  { cbn. exists r0, []. split_and!; try done. right. split; [done|]. by left. }
  replace (len (r0 :: r1 :: rest) =? 1) with false by (symmetry; apply Z.eqb_neq; len_solve).
  pose proof (forallb_const_ports (λ r, Port (ObservedAddr r)) (Port (ObservedAddr r0)) (r0 :: r1 :: rest)) as Hall.
  set (allSame := forallb _ _) in *.
  assert (allSame = true ↔ ∀ r, r ∈ r1 :: rest → Port (ObservedAddr r) = Port (ObservedAddr r0)) as Hsame.
  { rewrite Hall. split; [intros H r Hr; apply H; by right|]. intros H r [->|Hr]%elem_of_cons; auto. }
  destruct allSame.
  { cbn. exists r0, (r1 :: rest). split_and!; try done. right. split; [done|]. right; left.
    split_and!; try done. by apply Hsame. }
  cbn [map]. set (d := Port (ObservedAddr r1) - Port (ObservedAddr r0)).
  pose proof (all_deltas_spec d (observed_ports (r1 :: rest)) (Port (ObservedAddr r0))) as Hd.
  exists r0, (r1 :: rest). split_and!; try done. right. split; [done|]. right; right.
  cbn [snd pr_NATType PortPredictable PortDelta]. change (Port (ObservedAddr r0) :: Port (ObservedAddr r1) :: map _ rest)
    with (Port (ObservedAddr r0) :: observed_ports (r1 :: rest)).
  split_and!; [done|rewrite <- Hsame; done| |].
  - rewrite Hd. split; [intros H; by exists d|]. intros [d' H]. replace d with d'; [done|].
    pose proof (H 1%nat _ eq_refl). unfold d. lia.
  - intros Ht. rewrite Ht. by apply Hd.
Qed.

(** ** A probe from start to end *)

Definition prober_wf (p : NATProber) : Prop :=
  ∀ id r, pendingProbes p !! id = Some r → is_Some (probe_store p !! r).

(** The answers to one request. *)
Definition answers_to (id : Z) (rs : list ProbeResponse) : list ProbeResponse :=
  filter (λ x, RequestID x = id) rs.

Lemma deliver_responses_store rs p id r probe :
  pendingProbes p !! id = Some r → (∀ id', pendingProbes p !! id' = Some r → id' = id) →
  probe_store p !! r = Some probe →
  pendingProbes (foldl deliver_response p rs) = pendingProbes p
  ∧ ∃ probe', probe_store (foldl deliver_response p rs) !! r = Some probe'
    ∧ responses probe' = responses probe ++ answers_to id rs.
Proof.
  revert p probe. induction rs as [|x rs IH]; intros p probe Hid Hu Hr.
  { split; [done|]. exists probe. cbn. by rewrite app_nil_r. }
  cbn [foldl]. set (p1 := deliver_response p x).
  assert (pendingProbes p1 = pendingProbes p) as Hpe
    by (unfold p1, deliver_response; by case_match).
  assert (∃ probe1, probe_store p1 !! r = Some probe1
    ∧ responses probe1 = responses probe ++ answers_to id [x]) as (probe1 & Hr1 & Hresp).
  { unfold p1, deliver_response, answers_to. rewrite filter_cons, filter_nil.
    case_decide as Hx.
    - rewrite Hx, Hid. cbn. rewrite lookup_alter_eq, Hr. cbn. unfold add_response.
      destruct (responseCh probe). by eexists.
    - exists probe. rewrite app_nil_r. split; [|done].
      destruct (pendingProbes p !! RequestID x) as [r'|] eqn:E; [|done]. cbn.
      rewrite lookup_alter_ne; [done|]. intros ->. by apply Hx, Hu. }
  destruct (IH p1 probe1) as (Hp2 & probe2 & Hr2 & Hresp2); rewrite ?Hpe; try done.
  rewrite Hp2, Hpe. split; [done|]. exists probe2. split; [done|].
  rewrite Hresp2, Hresp, <- app_assoc. f_equal. unfold answers_to.
  by rewrite <- filter_app.
Qed.

(** A probe sends one request to every helper and, whatever answers arrive
    in whatever order while it waits, its verdict is the analysis of exactly the
    answers that carry its request ID; afterwards its entry is gone from the
    table. *)
Theorem probe_via_helper local p helpers t0 p1 id r out rs now :
  prober_wf p →
  ProbeViaHelper_begin p helpers t0 = Ok (p1, id, r, out) →
  out = map (λ a, (buildProbeRequest id (len helpers), a)) helpers
  ∧ let '(p2, result) := ProbeViaHelper_end local (foldl deliver_response p1 rs) id r now in
    result = (analyzeResponses local p (answers_to id rs) now).2
    ∧ pendingProbes p2 = delete id (pendingProbes p).
Proof.
  intros Hwf. unfold ProbeViaHelper_begin. zcase; [done|]. intros [= <- <- <- <-].
  split; [done|]. set (r := fresh _). set (probe := MkPendingProbe _ _ _ _ _). set (p1 := set_field pendingProbes _ _).
  assert (probe_store p !! r = None) as Hfr by (apply not_elem_of_dom, is_fresh).
  destruct (deliver_responses_store rs p1 (nextRequestID p) r probe) as (Hpend & probe' & Hr & Hresp).
  - cbn. by rewrite lookup_insert_eq.
  - intros id'. cbn. destruct (decide (id' = nextRequestID p)) as [|Hne]; [done|].
    rewrite lookup_insert_ne by done. intros Hid. destruct (Hwf _ _ Hid) as [? ?]. congruence.
  - cbn. by rewrite lookup_insert_eq.
  - unfold ProbeViaHelper_end. rewrite Hr, Hresp. cbn [responses probe app].
    unfold analyzeResponses. destruct (analyze _ _ _) as [[result cache]|e|]; cbn;
      (split; [done|]); try destruct cache; cbn; rewrite Hpend; cbn; by rewrite delete_insert_eq.
Qed.

Lemma probe_via_helper_witness :
  ∃ p1 id r out, ProbeViaHelper_begin NewNATProber [MkUDPAddr (make_bytes 4) 9000] 5 = Ok (p1, id, r, out)
  ∧ out = [(buildProbeRequest id 1, MkUDPAddr (make_bytes 4) 9000)].
Proof.
  eexists _, _, _, _. split; [reflexivity|].
  apply (probe_via_helper None NewNATProber [MkUDPAddr (make_bytes 4) 9000] 5 _ _ _ _
    [MkProbeResponse 1 (MkUDPAddr [x0a; x00; x00; x01] 4000) 9000; MkProbeResponse 8 (MkUDPAddr [] 0) 0] 6
    ltac:(by intros ???) eq_refl).
Defined.

(** ** Strategies *)

Definition valid_nat (t : NATType) : Prop := 0 ≤ t ≤ 5.

(** The strategy does not depend on which side asks, and for the NAT types
    of the program it is: direct when a side is public, TCP punching when exactly
    one side is symmetric, port prediction when both are, UDP punching in every
    other case.  In particular an unknown NAT counts as a cone and the strategy
    that tries every method is never selected. *)
Theorem punch_strategy_table l r :
  valid_nat l → valid_nat r →
  SelectPunchStrategy l r = SelectPunchStrategy r l
  ∧ SelectPunchStrategy l r
    = if decide (l = NATNone ∨ r = NATNone) then StrategyDirect
      else if decide (l = NATSymmetric ∧ r = NATSymmetric) then StrategyPortPredict
      else if decide (l = NATSymmetric ∨ r = NATSymmetric) then StrategyTCPPunch
      else StrategyUDPPunch.
Proof.
  intros Hl Hr. unfold valid_nat in *.
  assert (l = 0 ∨ l = 1 ∨ l = 2 ∨ l = 3 ∨ l = 4 ∨ l = 5) as El by lia.
  assert (r = 0 ∨ r = 1 ∨ r = 2 ∨ r = 3 ∨ r = 4 ∨ r = 5) as Er by lia.
  by destruct El as [->|[->|[->|[->|[->| ->]]]]]; destruct Er as [->|[->|[->|[->|[->| ->]]]]].
Qed.

Lemma punch_strategy_table_witness :
  SelectPunchStrategy NATUnknown NATSymmetric = SelectPunchStrategy NATSymmetric NATUnknown
  ∧ SelectPunchStrategy NATUnknown NATUnknown = StrategyUDPPunch.
Proof.
  split; [apply (punch_strategy_table NATUnknown NATSymmetric)|
          apply (punch_strategy_table NATUnknown NATUnknown)]; split; vm_compute; congruence.
Defined.

(** ** NAT information *)

Lemma NATInfo_Encode_eq n :
  NATInfo_Encode n
  = byte_of_Z (ni_Type n) :: be_bytes 2 (to_uint16 (Port (ni_PublicAddr n)))
    ++ byte_of_Z (len (wire_ip (IP (ni_PublicAddr n)))) :: wire_ip (IP (ni_PublicAddr n))
    ++ (if ni_PortPredictable n then x01 else x00) :: be_bytes 2 (to_uint16 (ni_PortDelta n)).
Proof.
  unfold NATInfo_Encode, put_be. cbv zeta. fold (wire_ip (IP (ni_PublicAddr n))).
  set (ip := wire_ip _). destruct (ni_PortPredictable n); [by fill|].
  rewrite copy_range_exact by len_solve.
  rewrite fill_byte_first, fill_next, fill_byte, fill_next by len_solve.
  replace (_ - len ip) with (1 + 2) by len_solve. rewrite make_bytes_add by lia.
  change (make_bytes 1) with [x00]. rewrite (app_assoc _ [x00]), fill_next by len_solve.
  rewrite make_bytes_0 by len_solve.
  by rewrite app_nil_r, <- !app_assoc.
Qed.

(** [DecodeNATInfo] recovers what [Encode] wrote: the type, the address in
    its shortest form, the predictable flag and the port step modulo 2^16, so
    that a negative step comes back as its 16 bit complement; and it never
    panics. *)
Theorem nat_info_codec n now data :
  (0 ≤ ni_Type n < 256 → 0 ≤ Port (ni_PublicAddr n) < 65536 →
   DecodeNATInfo (NATInfo_Encode n) now
   = Ok (MkNATInfo (ni_Type n) (MkUDPAddr (wire_ip (IP (ni_PublicAddr n))) (Port (ni_PublicAddr n)))
           (ni_PortPredictable n) (ni_PortDelta n mod 65536) now))
  ∧ DecodeNATInfo data now ≠ Panic.
Proof.
  split.
  - intros Ht Hp. rewrite NATInfo_Encode_eq. set (ip := wire_ip _).
    pose proof (len_wire_ip (IP (ni_PublicAddr n))) as Hl. fold ip in Hl.
    set (A := be_bytes 2 (to_uint16 (Port _))). set (C := be_bytes 2 (to_uint16 (ni_PortDelta n))).
    set (pb := if ni_PortPredictable n then _ else _).
    assert (len A = 2) by apply len_be_bytes. assert (len C = 2) by apply len_be_bytes.
    unfold DecodeNATInfo, guard_err. zcase; [len_solve|]. cbn [mbind res_bind].
    change (go_index (?x :: _) 0) with (Ok x). cbn [mbind res_bind].
    change (byte_of_Z (ni_Type n) :: ?l) with ([byte_of_Z (ni_Type n)] ++ l).
    rewrite (go_slice_mid _ A _ 1 3) by len_solve. cbn [mbind res_bind].
    rewrite (app_assoc _ A), (go_index_mid _ _ _ 3) by len_solve. cbn [mbind res_bind].
    rewrite (Z_of_byte_of_Z (len ip)), (Z.mod_small (len ip)) by lia.
    zcase; [len_solve|]. cbn [mbind res_bind].
    rewrite (cons_middle (byte_of_Z (len ip))), (app_assoc _ [_]).
    rewrite (go_slice_mid _ ip _ 4 (4 + len ip)) by len_solve. cbn [mbind res_bind].
    rewrite (app_assoc _ ip), (go_index_mid _ _ _ (4 + len ip)) by len_solve. cbn [mbind res_bind].
    rewrite (cons_middle pb), (app_assoc _ [pb]), <- (app_nil_r C).
    rewrite (go_slice_mid _ C [] (5 + len ip) (7 + len ip)) by len_solve. cbn [mbind res_bind].
    unfold A, C. rewrite !be_value_bytes, Z_of_byte_of_Z, (to_uint16_small (Port _)) by lia.
    rewrite (Z.mod_small (Port _)), (Z.mod_small (ni_Type n)) by (cbn; lia).
    unfold to_uint16, wrap_u. change (8 * Z.of_nat 2) with 16. rewrite Z.mod_mod by lia.
    do 2 f_equal. unfold pb. by destruct (ni_PortPredictable n).
  - unfold DecodeNATInfo, guard_err. zcase; [done|]. cbn [mbind res_bind].
    destruct (go_index_ok data 0 ltac:(lia)) as (t & -> & _). cbn [mbind res_bind].
    rewrite !go_slice_ok by lia. cbn [mbind res_bind].
    destruct (go_index_ok data 3 ltac:(lia)) as (il & -> & _). cbn [mbind res_bind].
    pose proof (Z_of_byte_range il). zcase; [done|]. cbn [mbind res_bind].
    rewrite !go_slice_ok by lia. cbn [mbind res_bind].
    by destruct (go_index_ok data (4 + Z_of_byte il) ltac:(lia)) as (pb & -> & _).
Qed.
