(* ===== verification/Mux.v ===== *)
(** * The UDP multiplexer ([transport/mux.go])

    One UDP socket serves the KCP listener, the hole puncher, the TENT protocol
    and one dedicated connection per outgoing KCP session.  The read loop
    classifies each datagram and puts it on the bounded queue of a virtual
    connection.  Virtual connections are shared objects: the mux, the handler
    table and the users of a connection refer to the same queue, so they live in
    a store.  A queue is a Go channel: a send to a closed one panics, a send in a
    [select] with a default case drops the packet when the queue is full. *)

From S2P Require Import Prelude Peer.

Definition PunchMagic : Z := 0x504E4348.

Record Packet := MkPacket { pk_Data : bytes; pk_Addr : Addr }.

Abbreviation VConnRef := positive.

(** [readChan] is its capacity, its contents and whether it is closed. *)
Record VirtualPacketConn := MkVConn {
  vc_cap : Z;
  vc_queue : list Packet;
  vc_closed : bool;
  vc_deadline : Time;
}.
#[global] Instance VConn_eta : RecordEta VirtualPacketConn := λ v,
  MkVConn (vc_cap v) (vc_queue v) (vc_closed v) (vc_deadline v).

Record UDPMux := MkUDPMux {
  vconns : gmap VConnRef VirtualPacketConn;
  kcpConn : VConnRef;
  punchConn : VConnRef;
  tentConn : VConnRef;
  kcpHandlers : gmap gostring VConnRef;
  mux_closed : bool;
}.
#[global] Instance UDPMux_eta : RecordEta UDPMux := λ m,
  MkUDPMux (vconns m) (kcpConn m) (punchConn m) (tentConn m) (kcpHandlers m) (mux_closed m).

Definition newVirtualPacketConn (bufferSize : Z) : VirtualPacketConn :=
  MkVConn bufferSize [] false time_zero.

Definition NewUDPMux : UDPMux :=
  MkUDPMux (<[1%positive := newVirtualPacketConn 128]>
             (<[2%positive := newVirtualPacketConn 16]>
               (<[3%positive := newVirtualPacketConn 128]> ∅)))
    1 2 3 ∅ false.

(** ** Classification *)

Definition isPunchPacket (data : bytes) : bool :=
  if len data <? 4 then false else bool_decide (subslice data 0 4 = [x50; x4e; x43; x48]).

Definition isTentPacket (data : bytes) : bool :=
  if len data <? 4 then false else bool_decide (subslice data 0 4 = str "TENT").

Definition isProbePacket (data : bytes) : bool :=
  if len data <? 4 then false else bool_decide (subslice data 0 4 = str "NATP").

Definition isRawRelayPacket (data : bytes) : bool :=
  match data with b :: _ => bool_decide (b = x52) | [] => false end.

(** The connection [routePacket] selects; the handler table is read here. *)
Definition route_target (m : UDPMux) (packet : Packet) : VConnRef :=
  if isPunchPacket (pk_Data packet) then punchConn m
  else if isProbePacket (pk_Data packet) || isTentPacket (pk_Data packet)
          || isRawRelayPacket (pk_Data packet) then tentConn m
  else match kcpHandlers m !! a_str (pk_Addr packet) with
       | Some h => h
       | None => kcpConn m
       end.

Definition vc_send (v : VirtualPacketConn) (packet : Packet) : res VirtualPacketConn :=
  if vc_closed v then Panic
  else if len (vc_queue v) <? vc_cap v then Ok (v <| vc_queue ::= λ q, q ++ [packet] |>)
  else Ok v.

Definition enqueuePacket (m : UDPMux) (c : VConnRef) (packet : Packet) : res UDPMux :=
  match vconns m !! c with
  | None => Panic
  | Some v => v' ← vc_send v packet; Ok (m <| vconns ::= <[c := v']> |>)
  end.

Definition routePacket (m : UDPMux) (packet : Packet) : res UDPMux :=
  enqueuePacket m (route_target m packet) packet.

(** One turn of [readLoop]: it ends when the mux is closed; a failed read is
    retried. *)
Definition readLoop_turn (m : UDPMux) (read : option Packet) : res UDPMux :=
  if mux_closed m then Ok m else
  match read with
  | None => Ok m
  | Some packet => routePacket m packet
  end.

Fixpoint readLoop (m : UDPMux) (reads : list (option Packet)) : res UDPMux :=
  match reads with
  | [] => Ok m
  | r :: reads' => m' ← readLoop_turn m r; readLoop m' reads'
  end.

(** ** Handlers *)

Definition RegisterKCPHandler (m : UDPMux) (remoteAddr : gostring) : UDPMux * VConnRef :=
  let h := fresh (dom (vconns m)) in
  (m <| vconns ::= <[h := newVirtualPacketConn 128]> |> <| kcpHandlers ::= <[remoteAddr := h]> |>, h).

Definition safeClose (m : UDPMux) (c : VConnRef) : UDPMux :=
  m <| vconns ::= alter (λ v, v <| vc_closed := true |>) c |>.

Definition UnregisterKCPHandler (m : UDPMux) (remoteAddr : gostring) : UDPMux :=
  match kcpHandlers m !! remoteAddr with
  | Some h => safeClose (m <| kcpHandlers ::= delete remoteAddr |>) h
  | None => m
  end.

(** [m.wg.Wait()]: the read loop has returned before the queues are closed. *)
Definition Mux_Close (m : UDPMux) (order : list VConnRef) : UDPMux :=
  if mux_closed m then m else
  let m := m <| mux_closed := true |> in
  foldl safeClose m ([kcpConn m; punchConn m; tentConn m] ++ order).

(** ** Reading from a virtual connection *)

Inductive read_error := ErrTimeout | ErrClosed.

(** What a [ReadFrom] into a buffer of [n] bytes may return: the [select] picks
    any case that is ready, and blocks when there is none.  [expired] says
    whether the timer of the deadline has fired. *)
Definition ReadFrom (m : UDPMux) (c : VConnRef) (n : Z) (now : Time) (expired : bool)
    : list (UDPMux * (bytes * Addr + read_error)) :=
  match vconns m !! c with
  | None => []
  | Some v =>
      if negb (time_IsZero (vc_deadline v)) && (vc_deadline v <? now) then [(m, inr ErrTimeout)] else
      (match vc_queue v with
       | p :: q => [(m <| vconns ::= <[c := v <| vc_queue := q |>]> |>,
                     inl (take (Z.to_nat n) (pk_Data p), pk_Addr p))]
       | [] => if vc_closed v then [(m, inr ErrClosed)] else []
       end)
      ++ (if negb (time_IsZero (vc_deadline v)) && expired then [(m, inr ErrTimeout)] else [])
      ++ (if mux_closed m then [(m, inr ErrClosed)] else [])
  end.

Definition VConn_Close (m : UDPMux) : UDPMux := m.

(** There is one deadline, which only reads look at. *)
Definition SetDeadline (m : UDPMux) (c : VConnRef) (t : Time) : UDPMux :=
  m <| vconns ::= alter (λ v, v <| vc_deadline := t |>) c |>.
Definition SetReadDeadline (m : UDPMux) (c : VConnRef) (t : Time) : UDPMux :=
  m <| vconns ::= alter (λ v, v <| vc_deadline := t |>) c |>.

(** ** Invariant *)

(** The connections the mux routes to. *)
Definition routed (m : UDPMux) (c : VConnRef) : Prop :=
  c = kcpConn m ∨ c = punchConn m ∨ c = tentConn m ∨ ∃ a, kcpHandlers m !! a = Some c.

Record mux_wf (m : UDPMux) : Prop := {
  wf_bound : ∀ c v, vconns m !! c = Some v → len (vc_queue v) ≤ vc_cap v;
  wf_exists : ∀ c, routed m c → is_Some (vconns m !! c);
  wf_open : mux_closed m = false → ∀ c v, routed m c → vconns m !! c = Some v → vc_closed v = false;
  wf_fixed : ∀ a c, kcpHandlers m !! a = Some c → c ≠ kcpConn m ∧ c ≠ punchConn m ∧ c ≠ tentConn m;
  wf_inj : ∀ a a' c, kcpHandlers m !! a = Some c → kcpHandlers m !! a' = Some c → a = a';
}.

(** Changes that touch only the contents of the connections. *)
Lemma mux_wf_conns m f :
  mux_wf m →
  (∀ c v, f !! c = Some v → len (vc_queue v) ≤ vc_cap v) →
  (∀ c, is_Some (vconns m !! c) → is_Some (f !! c)) →
  (mux_closed m = false → ∀ c v', routed m c → f !! c = Some v' →
     ∃ v, vconns m !! c = Some v ∧ vc_closed v' = vc_closed v) →
  mux_wf (m <| vconns := f |>).
Proof.
  intros [Hb He Ho Hf Hi] H1 H2 H3. split; try done.
  - intros c Hc. apply H2, He, Hc.
  - intros Hm c v' Hc Hv'. destruct (H3 Hm c v' Hc Hv') as (v & Hv & ->). by eapply Ho.
Qed.

Lemma route_target_routed m packet : routed m (route_target m packet).
Proof.
  unfold route_target, routed. repeat (case_match; eauto).
Qed.

Lemma vc_send_ok v packet :
  vc_closed v = false → len (vc_queue v) ≤ vc_cap v →
  ∃ v', vc_send v packet = Ok v' ∧ vc_closed v' = false ∧ vc_cap v' = vc_cap v
  ∧ vc_queue v' = take (Z.to_nat (vc_cap v)) (vc_queue v ++ [packet]).
Proof.
  intros Hc Hl. unfold vc_send. rewrite Hc. zcase; (eexists; split; [reflexivity|]).
  - split_and!; try done. cbn. rewrite take_ge; [done|].
    rewrite length_app. cbn. unfold len in *. lia.
  - split_and!; try done. rewrite take_app_le by (unfold len in *; lia).
    rewrite take_ge; [done|]. unfold len in *. lia.
Qed.

Lemma routePacket_ok m packet :
  mux_wf m → mux_closed m = false →
  ∃ v v', vconns m !! route_target m packet = Some v ∧
    routePacket m packet = Ok (m <| vconns ::= <[route_target m packet := v']> |>)
    ∧ vc_closed v' = false ∧ vc_cap v' = vc_cap v
    ∧ vc_queue v' = take (Z.to_nat (vc_cap v)) (vc_queue v ++ [packet]).
Proof.
  intros Hwf Hm. pose proof (route_target_routed m packet) as Hr.
  destruct (wf_exists _ Hwf _ Hr) as [v Hv].
  pose proof (wf_open _ Hwf Hm _ _ Hr Hv) as Ho. pose proof (wf_bound _ Hwf _ _ Hv) as Hb.
  destruct (vc_send_ok v packet Ho Hb) as (v' & Hs & ? & ? & ?).
  exists v, v'. unfold routePacket, enqueuePacket. by rewrite Hv, Hs.
Qed.

Lemma readLoop_turn_wf m r :
  mux_wf m → ∃ m', readLoop_turn m r = Ok m' ∧ mux_wf m' ∧ mux_closed m' = mux_closed m.
Proof.
  intros Hwf. unfold readLoop_turn. destruct (mux_closed m) eqn:Hm; [eauto|].
  destruct r as [packet|]; [|eauto].
  destruct (routePacket_ok m packet Hwf Hm) as (v & v' & Hv & -> & Hc & Hcap & Hq).
  eexists. split; [reflexivity|]. split; [|done].
  apply (mux_wf_conns m (<[route_target m packet := v']> (vconns m))); [done|..].
  - intros c w [[<- <-]|[_ Hw]]%lookup_insert_Some; [|by eapply wf_bound].
    rewrite Hq, Hcap. pose proof (wf_bound _ Hwf _ _ Hv).
    pose proof (len_nonneg (vc_queue v)). rewrite len_take by lia. lia.
  - intros c [w Hw]. destruct (decide (route_target m packet = c)) as [<-|]; by simplify_map_eq.
  - intros _ c w _ [[<- <-]|[_ Hw]]%lookup_insert_Some; [|eauto].
    exists v. split; [done|]. rewrite Hc. symmetry.
    by apply (wf_open _ Hwf Hm _ _ (route_target_routed m packet)).
Qed.

Lemma NewUDPMux_wf : mux_wf NewUDPMux.
Proof.
  split; cbn; try done.
  - intros c v. rewrite !lookup_insert_Some, lookup_empty.
    by intros [[_ <-]|[_ [[_ <-]|[_ [[_ <-]|[_ ?]]]]]].
  - intros c [->|[->|[->|[a Ha]]]]; [by simplify_map_eq..|done].
  - intros _ c v _. rewrite !lookup_insert_Some, lookup_empty.
    by intros [[_ <-]|[_ [[_ <-]|[_ [[_ <-]|[_ ?]]]]]].
Qed.

Lemma RegisterKCPHandler_wf m a : mux_wf m → mux_wf (RegisterKCPHandler m a).1.
Proof.
  intros [Hb He Ho Hf Hi]. cbn. set (h := fresh _).
  assert (vconns m !! h = None) as Hh by (apply not_elem_of_dom, is_fresh).
  assert (∀ c, routed m c → c ≠ h) as Hne by (intros c Hc ->; destruct (He h Hc); congruence).
  assert (∀ c, routed (m <| vconns ::= <[h := newVirtualPacketConn 128]> |> <| kcpHandlers ::= <[a := h]> |>) c
    → c = h ∨ routed m c) as Hrt.
  { intros c [?|[?|[?|[a' Ha']]]]; [right; unfold routed; naive_solver..|]. cbn in Ha'.
    apply lookup_insert_Some in Ha'. destruct Ha' as [[_ <-]|[_ Ha']]; [by left|right].
    unfold routed. eauto. }
  split; cbn.
  - intros c v [[_ <-]|[_ Hv]]%lookup_insert_Some; [done|eauto].
  - intros c [->|Hc]%Hrt; [by simplify_map_eq|]. rewrite lookup_insert_ne by (intros <-; by apply (Hne h)). eauto.
  - intros Hm c v [->|Hc]%Hrt; [by simplify_map_eq; intros [= <-]|].
    rewrite lookup_insert_ne by (intros <-; by apply (Hne h)). eauto.
  - intros a' c [[_ <-]|[_ Hc]]%lookup_insert_Some; [|eauto].
    split_and!; intros E; apply (Hne h); try done; rewrite E; unfold routed; auto.
  - assert (∀ a', kcpHandlers m !! a' ≠ Some h) as Hnone.
    { intros a' Ha'. apply (Hne h); [|done]. unfold routed. eauto. }
    intros a1 a2 c [[<- <-]|[_ H1]]%lookup_insert_Some [[<- E]|[_ H2]]%lookup_insert_Some;
      [done|by destruct (Hnone a2)|by destruct (Hnone a1); rewrite E|eauto].
Qed.

(** Closing a connection the mux no longer routes to, or any when it is closed. *)
Lemma safeClose_wf m c :
  mux_wf m → (mux_closed m = false → ¬ routed m c) → mux_wf (safeClose m c).
Proof.
  intros Hwf Hc. apply (mux_wf_conns m (alter _ c (vconns m))); [done|..].
  - intros c' v [(_ & w & Hw & ->)|[_ Hw]]%lookup_alter_Some; by eapply wf_bound in Hw.
  - intros c' H. by rewrite lookup_alter_is_Some.
  - intros Hm c' v Hr. rewrite lookup_alter_ne by (intros ->; by apply Hc). eauto.
Qed.

Lemma UnregisterKCPHandler_wf m a : mux_wf m → mux_wf (UnregisterKCPHandler m a).
Proof.
  intros Hwf. unfold UnregisterKCPHandler. destruct (kcpHandlers m !! a) as [h|] eqn:Ha; [|done].
  assert (∀ c, routed (m <| kcpHandlers ::= delete a |>) c → c ≠ h ∧ routed m c) as Hr.
  { destruct (wf_fixed _ Hwf _ _ Ha) as (H1 & H2 & H3). unfold routed. cbn.
    intros c [->|[->|[->|[a' [Hne Ha']%lookup_delete_Some]]]]; [naive_solver..|].
    split; [|eauto 6]. intros ->. by apply Hne, (wf_inj _ Hwf _ _ h). }
  apply safeClose_wf; [|intros _ H; by apply Hr in H as [? _]].
  destruct Hwf as [Hb He Ho Hf Hi]. split; cbn; try done.
  - intros c [_ Hc]%Hr. by apply He.
  - intros Hm c v [_ Hc]%Hr. by apply Ho.
  - intros a' c [_ H]%lookup_delete_Some. eauto.
  - intros a1 a2 c [_ H1]%lookup_delete_Some [_ H2]%lookup_delete_Some. eauto.
Qed.

Lemma Mux_Close_wf m order : mux_wf m → mux_wf (Mux_Close m order).
Proof.
  intros Hwf. unfold Mux_Close. destruct (mux_closed m) eqn:Hm; [done|].
  assert (∀ l m, mux_wf m → mux_closed m = true → mux_wf (foldl safeClose m l)) as Hf.
  { intros l. induction l as [|c l IH]; intros m' Hw Hc; [done|]. cbn. apply IH; [|done].
    apply safeClose_wf; [done|]. by rewrite Hc. }
  apply Hf; [|done]. destruct Hwf as [Hb He Ho Hfx Hi]. by split.
Qed.

Lemma ReadFrom_wf m c n now expired m' r :
  mux_wf m → (m', r) ∈ ReadFrom m c n now expired → mux_wf m' ∧ mux_closed m' = mux_closed m.
Proof.
  intros Hwf. unfold ReadFrom. destruct (vconns m !! c) as [v|] eqn:Hv; [|by intros ?%elem_of_nil].
  destruct (_ && _); [by intros [= -> ->]%list_elem_of_singleton|].
  rewrite !elem_of_app. intros [H|[H|H]].
  - destruct (vc_queue v) as [|p q] eqn:Hq.
    + destruct (vc_closed v); [by apply list_elem_of_singleton in H as [= -> ->]|by apply elem_of_nil in H].
    + apply list_elem_of_singleton in H as [= -> ->]. split; [|done].
      apply (mux_wf_conns m (<[c := v <| vc_queue := q |>]> (vconns m))); [done|..].
      * intros c' w [[_ <-]|[_ Hw]]%lookup_insert_Some; [|by eapply wf_bound].
        pose proof (wf_bound _ Hwf _ _ Hv) as Hb. rewrite Hq in Hb. cbn. len_solve.
      * intros c' [w Hw]. destruct (decide (c = c')) as [<-|]; by simplify_map_eq.
      * intros _ c' w _ [[<- <-]|[_ Hw]]%lookup_insert_Some; eauto.
  - destruct (_ && _); [by apply list_elem_of_singleton in H as [= -> ->]|by apply elem_of_nil in H].
  - destruct (mux_closed m) eqn:E; [by apply list_elem_of_singleton in H as [= -> ->]|by apply elem_of_nil in H].
Qed.

Lemma SetReadDeadline_wf m c t : mux_wf m → mux_wf (SetReadDeadline m c t).
Proof.
  intros Hwf. apply (mux_wf_conns m (alter _ c (vconns m))); [done|..].
  - intros c' v [(_ & w & Hw & ->)|[_ Hw]]%lookup_alter_Some; by eapply wf_bound in Hw.
  - intros c' H. by rewrite lookup_alter_is_Some.
  - intros Hm c' v Hr [(_ & w & Hw & ->)|[_ Hw]]%lookup_alter_Some; eauto.
Qed.

(** ** Runs *)

(** A turn of the read loop, or a call of a method by another goroutine, each
    taken as one step. *)
Inductive mux_step : UDPMux → UDPMux → Prop :=
| step_read m r m' : readLoop_turn m r = Ok m' → mux_step m m'
| step_register m a : mux_step m (RegisterKCPHandler m a).1
| step_unregister m a : mux_step m (UnregisterKCPHandler m a)
| step_close m order : mux_step m (Mux_Close m order)
| step_recv m c n now expired m' r : (m', r) ∈ ReadFrom m c n now expired → mux_step m m'
| step_deadline m c t : mux_step m (SetReadDeadline m c t)
| step_both_deadlines m c t : mux_step m (SetDeadline m c t).

Lemma mux_step_wf m m' : mux_wf m → mux_step m m' → mux_wf m'.
Proof.
  intros Hwf Hs. destruct Hs as [m r m' H|m a|m a|m order|m c n now expired m' r H|m c t|m c t].
  - destruct (readLoop_turn_wf m r Hwf) as (? & ? & ? & ?). congruence.
  - by apply RegisterKCPHandler_wf.
  - by apply UnregisterKCPHandler_wf.
  - by apply Mux_Close_wf.
  - by eapply ReadFrom_wf.
  - by apply SetReadDeadline_wf.
  - by apply SetReadDeadline_wf.
Qed.

Lemma mux_steps_wf m m' : mux_wf m → rtc mux_step m m' → mux_wf m'.
Proof. intros Hwf Hs. induction Hs; eauto using mux_step_wf. Qed.

(** C29: In every state reached from a new mux by turns of the read loop and by
    calls of the methods, each of them uninterrupted, no queue exceeds its
    capacity and the read loop does not panic on any datagram. *)
Theorem mux_safe m :
  rtc mux_step NewUDPMux m →
  (∀ c v, vconns m !! c = Some v → len (vc_queue v) ≤ vc_cap v)
  ∧ ∀ r, ∃ m', readLoop_turn m r = Ok m'.
Proof.
  intros H%mux_steps_wf; [|apply NewUDPMux_wf]. split; [apply H|].
  intros r. destruct (readLoop_turn_wf m r H) as (m' & ? & _). eauto.
Qed.

Lemma mux_safe_witness :
  rtc mux_step NewUDPMux (UnregisterKCPHandler (RegisterKCPHandler NewUDPMux (str "1.2.3.4:9")).1 (str "1.2.3.4:9"))
  ∧ ∃ m', readLoop_turn (UnregisterKCPHandler (RegisterKCPHandler NewUDPMux (str "1.2.3.4:9")).1 (str "1.2.3.4:9"))
            (Some (MkPacket (str "TENT") (MkAddr AddrUDP (str "1.2.3.4:9")))) = Ok m'.
Proof.
  assert (rtc mux_step NewUDPMux
    (UnregisterKCPHandler (RegisterKCPHandler NewUDPMux (str "1.2.3.4:9")).1 (str "1.2.3.4:9"))) as H.
  { eapply rtc_l; [apply step_register|]. apply rtc_once, step_unregister. }
  split; [exact H|]. apply (mux_safe _ H).
Defined.

Lemma take_take_app {A} k (a b : list A) : take k (take k a ++ b) = take k (a ++ b).
Proof.
  destruct (decide (length a ≤ k)%nat); [by rewrite (take_ge a)|].
  rewrite !take_app_le, take_take, Nat.min_id by (rewrite ?length_take; lia). done.
Qed.

(** The queues after the read loop has taken a burst of datagrams. *)
Lemma readLoop_queues pks m :
  mux_wf m → mux_closed m = false →
  ∃ m', readLoop m (Some <$> pks) = Ok m' ∧
  ∀ c v, vconns m !! c = Some v → ∃ v', vconns m' !! c = Some v'
    ∧ vc_queue v' = take (Z.to_nat (vc_cap v)) (vc_queue v ++ filter (λ pk, route_target m pk = c) pks).
Proof.
  revert m. induction pks as [|pk pks IH]; intros m Hwf Hm.
  { eexists. split; [reflexivity|]. intros c v Hv. exists v. split; [done|].
    cbn. rewrite app_nil_r, take_ge; [done|]. pose proof (wf_bound _ Hwf _ _ Hv). unfold len in *. lia. }
  cbn [fmap list_fmap readLoop].
  destruct (readLoop_turn_wf m (Some pk) Hwf) as (m1 & Hturn & Hwf1 & Hm1). rewrite Hturn. cbn [mbind res_bind].
  destruct (IH m1 Hwf1) as (m' & Hrun & Hq); [congruence|]. exists m'. split; [done|].
  unfold readLoop_turn in Hturn. rewrite Hm in Hturn.
  destruct (routePacket_ok m pk Hwf Hm) as (v0 & v1 & Hv0 & Hrt & Hc & Hcap & Hq1).
  rewrite Hrt in Hturn. injection Hturn as <-. intros c v Hv. rewrite filter_cons.
  case_decide as E.
  - rewrite <- E, Hv0 in Hv. injection Hv as <-.
    destruct (Hq c v1) as (v' & Hv' & Hqv'); [cbn; rewrite <- E; by rewrite lookup_insert_eq|].
    exists v'. split; [done|]. rewrite (cons_middle pk), (app_assoc (vc_queue v0)).
    rewrite Hqv', Hq1, Hcap, (list_filter_iff _ (λ p, route_target m p = c)) by done.
    apply take_take_app.
  - destruct (Hq c v) as (v' & Hv' & Hqv'); [cbn; by rewrite lookup_insert_ne|].
    exists v'. split; [done|]. rewrite Hqv'. by rewrite (list_filter_iff _ (λ p, route_target m p = c)).
Qed.

(** Demultiplexing is lossless up to the capacity and keeps the order: after
    a burst of datagrams the queue of each connection is what it held followed
    by exactly the datagrams routed to it, in the order of arrival, cut off at
    the capacity; no datagram is queued anywhere else. *)
Theorem mux_queues pks m :
  rtc mux_step NewUDPMux m → mux_closed m = false →
  ∃ m', readLoop m (Some <$> pks) = Ok m' ∧
  ∀ c v, vconns m !! c = Some v → ∃ v', vconns m' !! c = Some v'
    ∧ vc_queue v' = take (Z.to_nat (vc_cap v)) (vc_queue v ++ filter (λ pk, route_target m pk = c) pks).
Proof. intros H%mux_steps_wf Hm; [by apply readLoop_queues|apply NewUDPMux_wf]. Qed.

Lemma mux_queues_witness :
  mux_closed NewUDPMux = false ∧
  ∃ m', readLoop NewUDPMux (Some <$> [MkPacket (str "TENT1") (MkAddr AddrUDP []); MkPacket (str "kcp") (MkAddr AddrUDP [])]) = Ok m' ∧
  ∀ c v, vconns NewUDPMux !! c = Some v → ∃ v', vconns m' !! c = Some v'
    ∧ vc_queue v' = take (Z.to_nat (vc_cap v)) (vc_queue v ++ filter (λ pk, route_target NewUDPMux pk = c)
        [MkPacket (str "TENT1") (MkAddr AddrUDP []); MkPacket (str "kcp") (MkAddr AddrUDP [])]).
Proof. split; [reflexivity|]. apply (mux_queues _ NewUDPMux (rtc_refl _ _) eq_refl). Defined.

(** C40: Looking up a handler and sending to it are two steps of the read loop,
    and [UnregisterKCPHandler] closes the queue: when it runs between them, for
    the very handler the datagram is routed to, the send panics. *)
Theorem unregister_race m packet :
  rtc mux_step NewUDPMux m →
  kcpHandlers m !! a_str (pk_Addr packet) = Some (route_target m packet) →
  enqueuePacket (UnregisterKCPHandler m (a_str (pk_Addr packet))) (route_target m packet) packet = Panic.
Proof.
  intros Hr%mux_steps_wf Ha; [|apply NewUDPMux_wf].
  destruct (wf_exists _ Hr (route_target m packet)) as [v Hv]; [apply route_target_routed|].
  unfold UnregisterKCPHandler. rewrite Ha. unfold enqueuePacket. cbn.
  by rewrite lookup_alter_eq, Hv.
Qed.

Lemma unregister_race_witness :
  let m := (RegisterKCPHandler NewUDPMux (str "h")).1 in
  let packet := MkPacket (str "kcp data") (MkAddr AddrUDP (str "h")) in
  enqueuePacket (UnregisterKCPHandler m (str "h")) (route_target m packet) packet = Panic.
Proof.
  apply (unregister_race (RegisterKCPHandler NewUDPMux (str "h")).1
    (MkPacket (str "kcp data") (MkAddr AddrUDP (str "h")))); [|reflexivity].
  apply rtc_once, step_register.
Defined.

(** A datagram from an address with a dedicated KCP connection reaches it
    exactly when its bytes do not look like one of the other protocols.  As a
    KCP datagram begins with the low byte of its conversation number, every
    datagram of a conversation whose low byte is 0x52 (the letter R) goes to the
    TENT connection instead. *)
Theorem kcp_datagram_routing m packet h :
  rtc mux_step NewUDPMux m →
  kcpHandlers m !! a_str (pk_Addr packet) = Some h →
  (route_target m packet = h ↔
   isPunchPacket (pk_Data packet) = false ∧ isProbePacket (pk_Data packet) = false
   ∧ isTentPacket (pk_Data packet) = false ∧ isRawRelayPacket (pk_Data packet) = false)
  ∧ (∀ rest, pk_Data packet = x52 :: rest → route_target m packet = tentConn m).
Proof.
  intros Hr%mux_steps_wf Ha; [|apply NewUDPMux_wf].
  destruct (wf_fixed _ Hr _ _ Ha) as (H1 & H2 & H3). split.
  - unfold route_target. rewrite Ha. repeat case_match; split; intros; try done;
      destruct (isProbePacket _), (isTentPacket _), (isRawRelayPacket _), (isPunchPacket _); naive_solver.
  - intros rest E. unfold route_target. replace (isPunchPacket (pk_Data packet)) with false.
    + replace (isRawRelayPacket (pk_Data packet)) with true by (by rewrite E; cbn; rewrite bool_decide_true).
      by rewrite orb_true_r.
    + unfold isPunchPacket. rewrite E. symmetry. case_match; [done|].
      apply bool_decide_false. unfold subslice. cbn. by destruct rest.
Qed.

Lemma kcp_datagram_routing_witness :
  let m := (RegisterKCPHandler NewUDPMux (str "h")).1 in
  route_target m (MkPacket (str "RRRR") (MkAddr AddrUDP (str "h"))) = tentConn m.
Proof.
  eapply (kcp_datagram_routing (RegisterKCPHandler NewUDPMux (str "h")).1
    (MkPacket (str "RRRR") (MkAddr AddrUDP (str "h")))); [|reflexivity|reflexivity].
  apply rtc_once, step_register.
Defined.
