(* ===== verification/HolePunch.v ===== *)
(** * UDP hole punching ([nat/holepunch.go])

    [Punch] runs two threads: the caller sends punch packets at intervals and waits on
    a channel; a receiver reads datagrams from the same socket and puts the address of
    the first one that matches on the channel.  The model is a transition function on
    the states of both threads and the channel; a list of events (writes, timers, reads,
    in any interleaving) drives it. *)

From S2P Require Import Prelude Peer Probe Mux.

(** ** Configuration *)

Record HolePunchConfig := MkHolePunchConfig { Attempts : Z; hp_Interval : Duration; hp_Timeout : Duration }.

Definition DefaultHolePunchConfig : HolePunchConfig := MkHolePunchConfig 10 (100 * Millisecond) (5 * Second).

(** The configuration of [NewHolePuncher]. *)
Definition NewHolePuncher (config : option HolePunchConfig) : HolePunchConfig := default DefaultHolePunchConfig config.

Record HolePunchResult := MkHolePunchResult { Success : bool; PeerAddr : UDPAddr; Latency : Duration }.

(** ** The packet *)

(** [for i := 0; i < 8; i++ { punchPacket[20+i] = byte(timestamp >> (i * 8)) }]. *)
Fixpoint put_timestamp (k : nat) (i : Z) (timestamp : Z) (packet : bytes) : bytes :=
  match k with
  | O => packet
  | S k' => put_timestamp k' (i + 1) timestamp
              (set_byte packet (20 + i) (byte_of_Z (Z.shiftr timestamp (i * 8))))
  end.

Definition punch_packet (peerID : bytes) (timestamp : Z) : bytes :=
  let punchPacket := make_bytes 28 in
  let punchPacket := copy_range punchPacket 0 4 [x50; x4e; x43; x48] in
  let punchPacket := copy_range punchPacket 4 20 (subslice peerID 0 16) in
  put_timestamp 8 0 timestamp punchPacket.

(** ** The threads *)

(** The caller: before the write of attempt [i], in the [select] after it, in the last
    [select], or returned. *)
Inductive sender :=
| Sending (i : Z)
| Waiting (i : Z)
| LastWait
| Returned (result : option HolePunchResult * option string).

(** The receiver: in [ReadFrom], or returned.  [stopChan] is looked at between two
    reads. *)
Inductive receiver := Reading | Exited.

Record punch := MkPunch {
  pn_sender : sender;
  pn_receiver : receiver;
  receiveChan : option UDPAddr;
  pn_stopped : bool;
  pn_written : list bytes;
}.
#[global] Instance punch_eta : RecordEta punch := λ p,
  MkPunch (pn_sender p) (pn_receiver p) (receiveChan p) (pn_stopped p) (pn_written p).

Inductive punch_event :=
| Write (ok : bool)                                      (** the caller writes *)
| Receive (latency : Duration)                           (** the caller takes from the channel *)
| Timer                                                  (** the timer of its [select] fires *)
| Read (got : option (bytes * option UDPAddr)).          (** [ReadFrom] returns; [None] is an error,
                                                             and an address may not be a UDP one *)

Section punching.
Context (config : HolePunchConfig) (peerPublicAddr : UDPAddr) (packet : bytes).

(** The head of the loop over the attempts. *)
Definition next_attempt (i : Z) : sender := if i <? Attempts config then Sending i else LastWait.

(** Returning closes [stopChan]. *)
Definition return_with (result : option HolePunchResult * option string) (p : punch) : punch :=
  p <| pn_sender := Returned result |> <| pn_stopped := true |>.

(** The datagrams the receiver takes for a response. *)
Definition punch_response (data : bytes) (addr : option UDPAddr) : bool :=
  match addr with
  | Some a => IP_Equal (IP a) (IP peerPublicAddr) && (Port a =? Port peerPublicAddr) && isPunchPacket data
  | None => false
  end.

(** [None]: the event cannot happen in this state. *)
Definition punch_step (p : punch) (ev : punch_event) : option punch :=
  match ev, pn_sender p, pn_receiver p with
  | Write ok, Sending i, _ =>
      Some (if (ok : bool)
            then p <| pn_written ::= λ l, l ++ [packet] |> <| pn_sender := Waiting i |>
            else return_with (None, Some "write punch packet failed"%string) p)
  | Receive latency, (Waiting _ | LastWait), _ =>
      a ← receiveChan p;
      Some (return_with (Some (MkHolePunchResult true a latency), None) p <| receiveChan := None |>)
  | Timer, Waiting i, _ => Some (p <| pn_sender := next_attempt (i + 1) |>)
  | Timer, LastWait, _ =>
      Some (return_with (Some (MkHolePunchResult false peerPublicAddr 0), Some "punch timeout"%string) p)
  | Read got, _, Reading =>
      match got with
      | None => Some (p <| pn_receiver := Exited |>)
      | Some (data, addr) =>
          if punch_response data addr
          then Some (p <| receiveChan ::= λ c, match c with Some a => Some a | None => addr end |>
                       <| pn_receiver := Exited |>)
          else Some (if pn_stopped p then p <| pn_receiver := Exited |> else p)
      end
  | _, _, _ => None
  end.

Definition punch_start : punch := MkPunch (next_attempt 0) Reading None false [].

Fixpoint punch_run (p : punch) (evs : list punch_event) : option punch :=
  match evs with
  | [] => Some p
  | ev :: evs' => p' ← punch_step p ev; punch_run p' evs'
  end.
End punching.

(** The time of the last wait; the multiplication wraps. *)
Definition punch_remaining (config : HolePunchConfig) : Duration :=
  let remaining := to_int64 (hp_Timeout config - to_int64 (Attempts config * hp_Interval config)) in
  if remaining <? 0 then 0 else remaining.

(** [Punch]: the argument checks, then the threads.  The result is that of the run if
    the caller has returned by then. *)
Definition Punch (config : HolePunchConfig) (peerPublicAddr : option UDPAddr) (peerID : bytes) (timestamp : Z)
    (evs : list punch_event) : option (option HolePunchResult * option string) :=
  match peerPublicAddr with
  | None => Some (None, Some "peerPublicAddr is nil"%string)
  | Some addr =>
      if len peerID <? 16 then Some (None, Some "peerID too short"%string) else
      p ← punch_run config addr (punch_packet peerID timestamp) (punch_start config) evs;
      match pn_sender p with
      | Returned r => Some r
      | _ => None
      end
  end.

(** ** Retries *)

(** [results i] is what the [i]-th call of [Punch] returns; the result and the number
    of calls. *)
Fixpoint punch_retry (k : nat) (results : nat → option HolePunchResult * option string) (i : nat)
    : option HolePunchResult * nat :=
  match k with
  | O => (None, i)
  | S k' =>
      match results i with
      | (Some r, None) => if Success r then (Some r, S i) else punch_retry k' results (S i)
      | _ => punch_retry k' results (S i)
      end
  end.

(** [None] stands for the error, which wraps the last one. *)
Definition PunchWithRetry (maxRetries : Z) (results : nat → option HolePunchResult * option string)
    : option HolePunchResult * nat :=
  punch_retry (Z.to_nat maxRetries) results 0.

(** ** The coordinator *)

Record PunchCoordinator := MkPunchCoordinator {
  pc_config : HolePunchConfig;
  pc_puncher : HolePunchConfig;
  syncInterval : Duration;
}.

Definition NewPunchCoordinator : PunchCoordinator :=
  MkPunchCoordinator DefaultHolePunchConfig (NewHolePuncher None) (500 * Millisecond).

(** The time slept, and the result of the punch. *)
Definition SchedulePunch (pc : PunchCoordinator) (peerPublicAddr : option UDPAddr) (peerID : bytes) (startAt now : Time)
    (timestamp : Z) (evs : list punch_event) : Duration * option (option HolePunchResult * option string) :=
  let waitDuration := time_Sub startAt now in
  (if 0 <? waitDuration then waitDuration else 0,
   Punch (pc_puncher pc) peerPublicAddr peerID timestamp evs).

(** ** The packet *)

Fixpoint le_bytes (n : nat) (i : Z) (z : Z) : bytes :=
  match n with
  | O => []
  | S n' => byte_of_Z (Z.shiftr z (i * 8)) :: le_bytes n' (i + 1) z
  end.

Lemma len_le_bytes n i z : len (le_bytes n i z) = Z.of_nat n.
Proof. revert i. induction n as [|n IH]; intros i; [done|]. cbn [le_bytes]. rewrite len_cons, IH. lia. Qed.

Lemma put_timestamp_fill k : ∀ i ts a,
  len a = 20 + i → put_timestamp k i ts (a ++ make_bytes (Z.of_nat k)) = a ++ le_bytes k i ts.
Proof.
  induction k as [|k IH]; intros i ts a Ha; cbn [put_timestamp le_bytes]; [done|].
  rewrite fill_byte by lia. replace (Z.of_nat (S k) - 1) with (Z.of_nat k) by lia.
  rewrite IH by (rewrite len_app, len_cons, len_nil; lia). by rewrite <- app_assoc.
Qed.

(** Magic, peer ID, little-endian timestamp. *)
Lemma punch_packet_eq peerID ts :
  16 ≤ len peerID → punch_packet peerID ts = [x50; x4e; x43; x48] ++ subslice peerID 0 16 ++ le_bytes 8 0 ts.
Proof.
  intros H. unfold punch_packet. cbv zeta.
  assert (len (subslice peerID 0 16) = 16) as Hid by (rewrite len_subslice by lia; lia).
  assert (len [x50; x4e; x43; x48] = 4) as Hm by done. set (m := [x50; x4e; x43; x48]) in *.
  rewrite (copy_range_exact (make_bytes 28)) by lia. rewrite fill_first, Hm by lia.
  rewrite copy_range_exact by lia. rewrite fill_next, Hid by lia.
  change (28 - 4 - 16) with (Z.of_nat 8). rewrite put_timestamp_fill by (rewrite len_app; lia).
  by rewrite <- app_assoc.
Qed.

Lemma punch_packet_recognised peerID ts : 16 ≤ len peerID → isPunchPacket (punch_packet peerID ts) = true.
Proof.
  intros H. rewrite punch_packet_eq by done. unfold isPunchPacket.
  destruct (Z.ltb_spec (len ([x50; x4e; x43; x48] ++ subslice peerID 0 16 ++ le_bytes 8 0 ts)) 4) as [Hl|_].
  - rewrite !len_app, len_le_bytes in Hl. change (len [x50; x4e; x43; x48]) with 4 in Hl. len_facts. lia.
  - by rewrite (subslice_mid [] [x50; x4e; x43; x48] (subslice peerID 0 16 ++ le_bytes 8 0 ts)) by done.
Qed.

(** ** Runs *)

Section runs.
Context (config : HolePunchConfig) (peer : UDPAddr) (packet : bytes).

Definition total_attempts : Z := Z.max 0 (Attempts config).

(** The reads among the events, and whether a write failed. *)
Definition reads (evs : list punch_event) : list (bytes * option UDPAddr) :=
  omap (λ ev, match ev with Read got => got | _ => None end) evs.

Definition write_failed (evs : list punch_event) : Prop := Write false ∈ evs.

(** A response from [a] was read. *)
Definition heard (R : list (bytes * option UDPAddr)) (a : UDPAddr) : Prop :=
  ∃ data, (data, Some a) ∈ R ∧ punch_response peer data (Some a) = true.

(** What the caller has done: the packets written, and the result. *)
Definition sender_inv (R : list (bytes * option UDPAddr)) (failed : Prop) (s : sender) (written : list bytes) : Prop :=
  ∃ k, written = replicate (Z.to_nat k) packet ∧ 0 ≤ k ≤ total_attempts ∧
  match s with
  | Sending i => k = i ∧ i < Attempts config
  | Waiting i => k = i + 1
  | LastWait => k = total_attempts
  | Returned (Some r, None) => Success r = true ∧ heard R (PeerAddr r)
  | Returned (Some r, Some _) => Success r = false ∧ k = total_attempts
  | Returned (None, Some _) => failed
  | Returned (None, None) => False
  end.

(** What the receiver has done: the channel holds a response that was read, and only a
    response stops it from reading. *)
Definition receiver_inv (R : list (bytes * option UDPAddr)) (p : punch) : Prop :=
  (∀ a, receiveChan p = Some a → heard R a)
  ∧ (∀ a, heard R a → match pn_sender p with Returned _ => True | _ => is_Some (receiveChan p) end)
  ∧ (pn_receiver p = Reading → receiveChan p = None ∧ ∀ a, ~ heard R a).

Definition punch_inv (R : list (bytes * option UDPAddr)) (failed : Prop) (p : punch) : Prop :=
  sender_inv R failed (pn_sender p) (pn_written p) ∧ receiver_inv R p.

Lemma next_attempt_inv R f i :
  0 ≤ i ≤ total_attempts → sender_inv R f (next_attempt config i) (replicate (Z.to_nat i) packet).
Proof.
  unfold next_attempt, sender_inv. intros H. exists i. split; [done|]. split; [done|].
  unfold total_attempts in *. zcase; lia.
Qed.

Lemma punch_start_inv : punch_inv [] False (punch_start config).
Proof.
  split; [apply (next_attempt_inv [] False 0); unfold total_attempts; lia|].
  assert (∀ a, ~ heard [] a) as Hn by (by intros a (d & ?%not_elem_of_nil & _)).
  split_and!; cbn; [done| |done]. intros a Ha. by destruct (Hn a).
Qed.

Lemma sender_inv_mono R R' (f f' : Prop) s w :
  (∀ a, heard R a → heard R' a) → (f → f') → sender_inv R f s w → sender_inv R' f' s w.
Proof.
  intros HR Hf (k & Hw & Hk & Hs). exists k. split; [done|]. split; [done|].
  destruct s as [| | |[[r|] [e|]]]; try done; [naive_solver|by auto].
Qed.

(** A step of the caller that leaves the channel alone. *)
Lemma caller_inv R (f f' : Prop) s' w' b p :
  (f → f') → sender_inv R f' s' w' → punch_inv R f p →
  (∀ r, pn_sender p ≠ Returned r) →
  punch_inv R f' (p <| pn_sender := s' |> <| pn_written := w' |> <| pn_stopped := b |>).
Proof.
  intros Hf Hs [_ (H1 & H2 & H3)] Hr. split; [done|]. split_and!; cbn; [done| |done].
  intros a Ha. specialize (H2 a Ha). destruct (pn_sender p); try done; try by destruct s'. by destruct (Hr result).
Qed.

Lemma write_inv R (f : Prop) ok p p' :
  punch_inv R f p → punch_step config peer packet p (Write ok) = Some p' → punch_inv R (f ∨ ok = false) p'.
Proof.
  intros Hp. pose proof Hp as [(k & Hw & Hk & Hs) _]. unfold punch_step.
  destruct (pn_sender p) as [i|i| |r] eqn:Es; try done. destruct Hs as [-> Hi].
  assert (∀ r, pn_sender p ≠ Returned r) by congruence.
  destruct ok; intros [= <-].
  - refine (caller_inv R f _ (Waiting i) (pn_written p ++ [packet]) (pn_stopped p) p _ _ Hp _); [by left| |done].
    exists (i + 1). rewrite Hw. unfold total_attempts in *. split_and!; [|lia..].
    replace (Z.to_nat (i + 1)) with (Z.to_nat i + 1)%nat by lia. by rewrite replicate_add.
  - refine (caller_inv R f _ (Returned _) (pn_written p) true p _ _ Hp _); [by left| |done].
    exists i. split_and!; [done|lia..|by right].
Qed.

Lemma timer_inv R (f : Prop) p p' :
  punch_inv R f p → punch_step config peer packet p Timer = Some p' → punch_inv R f p'.
Proof.
  intros Hp. pose proof Hp as [(k & Hw & Hk & Hs) _]. unfold punch_step.
  destruct (pn_sender p) as [i|i| |r] eqn:Es; try done; intros [= <-];
    assert (∀ r, pn_sender p ≠ Returned r) by congruence.
  - refine (caller_inv R f f (next_attempt config (i + 1)) (pn_written p) (pn_stopped p) p _ _ Hp _); [done| |done].
    rewrite Hw, Hs. apply next_attempt_inv. lia.
  - refine (caller_inv R f f (Returned _) (pn_written p) true p _ _ Hp _); [done| |done]. by exists k.
Qed.

Lemma receive_inv R (f : Prop) lat p p' :
  punch_inv R f p → punch_step config peer packet p (Receive lat) = Some p' → punch_inv R f p'.
Proof.
  intros [(k & Hw & Hk & Hs) (H1 & H2 & H3)]. unfold punch_step.
  destruct (receiveChan p) as [a|] eqn:Ea; [|by destruct (pn_sender p)].
  intros Hstep.
  assert (p' = return_with (Some (MkHolePunchResult true a lat), None) p <| receiveChan := None |>) as ->.
  { destruct (pn_sender p); try done; by injection Hstep as <-. }
  split; [|split_and!; cbn; [done|done|]].
  - exists k. split; [done|]. split; [done|]. split; [done|by apply H1].
  - intros Hr. destruct (H3 Hr) as [? ?]. congruence.
Qed.

Lemma heard_snoc R x a : heard (R ++ [x]) a ↔ heard R a ∨ (x.2 = Some a ∧ punch_response peer x.1 (Some a) = true).
Proof.
  unfold heard. setoid_rewrite elem_of_app. setoid_rewrite list_elem_of_singleton. destruct x as [d b]. cbn. split.
  - intros (d' & [?|[= -> ->]] & ?); [left; by eauto|by right].
  - intros [(d' & ? & ?)|[-> ?]]; [exists d'; by auto|exists d; by auto].
Qed.

Lemma read_inv R (f : Prop) got p p' :
  punch_inv R f p → punch_step config peer packet p (Read got) = Some p' →
  punch_inv (R ++ option_list got) f p'.
Proof.
  intros [Hs (H1 & H2 & H3)]. unfold punch_step. destruct (pn_receiver p) eqn:Er; [|by destruct (pn_sender p)].
  destruct (H3 eq_refl) as [Hnone Hno]. destruct got as [[data addr]|].
  - assert (sender_inv (R ++ [(data, addr)]) f (pn_sender p) (pn_written p)) as Hs'.
    { eapply sender_inv_mono; [|done|done]. intros a Ha. apply heard_snoc. by left. }
    destruct (punch_response peer data addr) eqn:Hresp; intros Hstep.
    + destruct addr as [a|]; [|done].
      assert (p' = p <| receiveChan := Some a |> <| pn_receiver := Exited |>) as ->.
      { destruct p. cbn in *. subst. by destruct pn_sender0; injection Hstep as <-. }
      split; [done|]. split_and!; cbn; [|by intros; destruct (pn_sender p)|done].
      intros a' [= <-]. apply heard_snoc. by right.
    + assert (∀ a, ~ heard (R ++ [(data, addr)]) a) as Hno'.
      { intros a [Ha|[Ha Hra]]%heard_snoc; [by apply (Hno a)|]. cbn [fst snd] in *. subst. congruence. }
      assert (∃ r, p' = p <| pn_receiver := r |>) as [r ->].
      { exists (if pn_stopped p then Exited else Reading). destruct p as [snd rcv ch st w]; cbn in *; subst rcv.
        by destruct snd, st; injection Hstep as <-. }
      split; [done|]. split_and!; cbn; [congruence| |done]. intros a Ha. by destruct (Hno' a).
  - rewrite app_nil_r. intros Hstep.
    assert (p' = p <| pn_receiver := Exited |>) as -> by (by destruct (pn_sender p); injection Hstep as <-).
    split; [done|]. by split_and!; cbn.
Qed.

Lemma punch_run_inv evs : ∀ R (f : Prop) p p',
  punch_inv R f p → punch_run config peer packet p evs = Some p' → punch_inv (R ++ reads evs) (f ∨ write_failed evs) p'.
Proof.
  induction evs as [|ev evs IH]; intros R f p p' Hp Hrun.
  - cbn in Hrun. simplify_eq. cbn. rewrite app_nil_r. destruct Hp as [Hs Hr]. split; [|done].
    by eapply sender_inv_mono; [| |done]; auto.
  - cbn [punch_run] in Hrun. destruct (punch_step config peer packet p ev) as [p1|] eqn:Hstep; [|done]. cbn in Hrun.
    assert (punch_inv (R ++ reads [ev]) (f ∨ ev = Write false) p1) as Hp1.
    { destruct ev as [ok|lat| |got]; cbn.
      - rewrite app_nil_r. destruct (write_inv _ _ _ _ _ Hp Hstep) as [Hs Hr]. split; [|done].
        eapply sender_inv_mono; [done| |done]. naive_solver.
      - rewrite app_nil_r. destruct (receive_inv _ _ _ _ _ Hp Hstep) as [Hs Hr]. split; [|done].
        eapply sender_inv_mono; [done| |done]. naive_solver.
      - rewrite app_nil_r. destruct (timer_inv _ _ _ _ Hp Hstep) as [Hs Hr]. split; [|done].
        eapply sender_inv_mono; [done| |done]. naive_solver.
      - assert (option_list got = match got with Some y => [y] | None => [] end) as Ho by by destruct got.
        destruct (read_inv _ _ _ _ _ Hp Hstep) as [Hs Hr].
        replace (match got with Some y => [y] | None => [] end) with (option_list got) by done.
        split; [|done]. eapply sender_inv_mono; [done| |done]. naive_solver. }
    destruct (IH _ _ _ _ Hp1 Hrun) as [Hs Hr].
    assert ((R ++ reads [ev]) ++ reads evs = R ++ reads (ev :: evs)) as <-.
    { rewrite <- app_assoc. f_equal. by destruct ev as [| | |[]]. }
    split; [|done]. eapply sender_inv_mono; [done| |done].
    unfold write_failed. rewrite elem_of_cons. naive_solver.
Qed.

(** ** Termination *)

(** How much the caller still has to do. *)
Definition caller_measure (s : sender) : Z :=
  match s with
  | Sending i => 2 * (Attempts config - i) + 1
  | Waiting i => 2 * (Attempts config - i)
  | LastWait => 1
  | Returned _ => 0
  end.

Definition caller_event (ev : punch_event) : bool := match ev with Read _ => false | _ => true end.

Definition measure_ok (s : sender) : Prop :=
  match s with Sending i | Waiting i => i < Attempts config | _ => True end.

Lemma punch_step_measure p ev p' :
  measure_ok (pn_sender p) → punch_step config peer packet p ev = Some p' →
  measure_ok (pn_sender p') ∧
  caller_measure (pn_sender p') ≤ caller_measure (pn_sender p) - (if caller_event ev then 1 else 0).
Proof.
  intros Hok. unfold punch_step.
  destruct ev as [ok|lat| |got].
  4: { destruct (pn_sender p) eqn:Es, (pn_receiver p), got as [[d a]|]; try done;
       try destruct (punch_response peer d a), (pn_stopped p); intros [= <-]; cbn in *; rewrite ?Es; cbn; lia. }
  all: destruct (pn_sender p) as [i|i| |r] eqn:Es; try done; cbn [measure_ok] in Hok.
  - destruct ok; intros [= <-]; cbn; lia.
  - destruct (receiveChan p); [|done]. intros [= <-]. cbn. lia.
  - destruct (receiveChan p); [|done]. intros [= <-]. cbn. lia.
  - intros [= <-]. unfold next_attempt. cbn. zcase; cbn; lia.
  - intros [= <-]. cbn. lia.
Qed.

Lemma measure_nonneg s : measure_ok s → 0 ≤ caller_measure s.
Proof. destruct s; cbn; lia. Qed.

Lemma punch_run_measure evs : ∀ p p',
  measure_ok (pn_sender p) → punch_run config peer packet p evs = Some p' →
  measure_ok (pn_sender p') ∧
  caller_measure (pn_sender p') ≤ caller_measure (pn_sender p) - len (filter (λ ev, caller_event ev = true) evs).
Proof.
  induction evs as [|ev evs IH]; intros p p' Hok Hrun.
  { cbn in Hrun. simplify_eq. cbn. rewrite len_nil. split; [done|lia]. }
  cbn [punch_run] in Hrun. destruct (punch_step _ _ _ p ev) as [p1|] eqn:Hstep; [|done]. cbn in Hrun.
  destruct (punch_step_measure _ _ _ Hok Hstep) as [Hok1 Hm]. destruct (IH p1 p' Hok1 Hrun) as [Hok' Hm'].
  split; [done|]. rewrite filter_cons. destruct (decide _) as [E|E]; rewrite ?len_cons.
  - rewrite E in Hm. lia.
  - apply not_true_is_false in E. rewrite E in Hm. lia.
Qed.

(** The caller can always go on by itself until it returns. *)
Lemma caller_progress p :
  (∀ r, pn_sender p ≠ Returned r) →
  ∃ ev p', caller_event ev = true ∧ punch_step config peer packet p ev = Some p'.
Proof.
  intros Hr. destruct (pn_sender p) as [i|i| |r] eqn:Es; [exists (Write true)|exists Timer|exists Timer|by destruct (Hr r)];
    eexists; unfold punch_step; rewrite Es; by split.
Qed.

End runs.

(** ** Properties *)

(** C18: whatever happens on the network, a UDP hole punch writes only the punch packet and at most Attempts of them; it
    reports success only with an address from which a punch packet was received and which has the peer's IP address and port;
    it reports a timeout only after all attempts, and another error only when a write failed. *)
Theorem punch_outcome config peer peerID timestamp evs p :
  let packet := punch_packet peerID timestamp in
  punch_run config peer packet (punch_start config) evs = Some p →
  ∃ k, pn_written p = replicate (Z.to_nat k) packet ∧ 0 ≤ k ≤ Z.max 0 (Attempts config) ∧
  ∀ result err, pn_sender p = Returned (result, err) →
    match result, err with
    | Some r, None => Success r = true ∧ ∃ data, Read (Some (data, Some (PeerAddr r))) ∈ evs
        ∧ isPunchPacket data = true ∧ IP_Equal (IP (PeerAddr r)) (IP peer) = true ∧ Port (PeerAddr r) = Port peer
    | Some r, Some _ => Success r = false ∧ k = Z.max 0 (Attempts config)
    | None, Some _ => Write false ∈ evs
    | None, None => False
    end.
Proof.
  intros packet Hrun. destruct (punch_run_inv _ _ _ _ _ _ _ _ (punch_start_inv config peer packet) Hrun)
    as [(k & Hw & Hk & Hs) _].
  exists k. split; [done|]. split; [done|]. intros result err Hret. rewrite Hret in Hs.
  destruct result as [r|], err as [e|]; try done.
  - destruct Hs as [Hsucc (data & Hin & Hresp)]. split; [done|]. exists data.
    unfold punch_response in Hresp. rewrite !andb_true_iff in Hresp. destruct Hresp as [[? ?%Z.eqb_eq] ?].
    split_and!; try done. apply list_elem_of_omap in Hin as (ev & Hev & Hx). destruct ev; naive_solver.
  - by destruct Hs.
Qed.

(** A UDP hole punch terminates: the caller takes at most 2 * Attempts + 1 steps (writes, timer expirations, the receipt of
    the response) in any run, and as long as it has not returned one of its own steps is possible; no run of the caller is
    stuck or endless, whatever the receiver does. *)
Theorem punch_terminates config peer packet evs p :
  punch_run config peer packet (punch_start config) evs = Some p →
  len (filter (λ ev, caller_event ev = true) evs) ≤ 2 * Z.max 0 (Attempts config) + 1
  ∧ ((∃ result, pn_sender p = Returned result)
     ∨ ∃ ev p', caller_event ev = true ∧ punch_step config peer packet p ev = Some p').
Proof.
  intros Hrun. split.
  - assert (measure_ok config (pn_sender (punch_start config))) as Hok
      by (cbn; unfold next_attempt; zcase; cbn; lia).
    destruct (punch_run_measure config peer packet evs _ _ Hok Hrun) as [Hok' Hm].
    pose proof (measure_nonneg config _ Hok'). cbn [punch_start pn_sender] in Hm. unfold next_attempt in Hm.
    zcase_in Hm; cbn [caller_measure] in Hm; lia.
  - destruct (pn_sender p) eqn:Es; [right; apply caller_progress; congruence..|by eauto].
Qed.

(** C39: a response is not lost: when a punch packet from the peer has been read and the call has not returned, the address is on
    the channel, and the caller's next receipt (after the write it may be about to do) makes the punch succeed. *)
Theorem punch_response_delivered config peer packet evs p data a latency :
  punch_run config peer packet (punch_start config) evs = Some p →
  Read (Some (data, Some a)) ∈ evs → punch_response peer data (Some a) = true →
  (∀ result, pn_sender p ≠ Returned result) →
  ∃ a' p', punch_run config peer packet p
      (match pn_sender p with Sending _ => [Write true; Receive latency] | _ => [Receive latency] end) = Some p'
    ∧ pn_sender p' = Returned (Some (MkHolePunchResult true a' latency), None)
    ∧ IP_Equal (IP a') (IP peer) = true ∧ Port a' = Port peer.
Proof.
  intros Hrun Hin Hresp Hnr.
  destruct (punch_run_inv _ _ _ _ _ _ _ _ (punch_start_inv config peer packet) Hrun) as [_ (H1 & H2 & _)].
  assert (heard peer ([] ++ reads evs) a) as Hh.
  { exists data. split; [|done]. apply list_elem_of_omap. by exists (Read (Some (data, Some a))). }
  specialize (H2 a Hh). destruct (receiveChan p) as [a'|] eqn:Ea; 
    [|destruct (pn_sender p) as [| | |r] eqn:Es; [by destruct H2..|by destruct (Hnr r)]].
  destruct (H1 a' eq_refl) as (data' & _ & Hresp'). unfold punch_response in Hresp'.
  rewrite !andb_true_iff in Hresp'. destruct Hresp' as [[? ?%Z.eqb_eq] _].
  exists a'. destruct (pn_sender p) as [i|i| |r] eqn:Es; [..|by destruct (Hnr r)];
    cbn [punch_run]; unfold punch_step; rewrite Es; cbn; rewrite Ea; cbn; eauto.
Qed.

(** None of the first [n] calls succeeded. *)
Definition no_success (results : nat → option HolePunchResult * option string) (n : nat) : Prop :=
  ∀ j r, (j < n)%nat → results j = (Some r, None) → Success r = false.

Lemma no_success_S results i :
  no_success results i → (∀ r, results i = (Some r, None) → Success r = false) → no_success results (S i).
Proof.
  intros Hn Hi j r Hj Hr. destruct (decide (j = i)) as [->|]; [by apply Hi|]. apply (Hn j); [lia|done].
Qed.

Lemma punch_retry_spec results k : ∀ i, no_success results i →
  match punch_retry k results i with
  | (Some r, calls) => (i < calls ≤ i + k)%nat ∧ results (calls - 1)%nat = (Some r, None) ∧ Success r = true
      ∧ no_success results (calls - 1)
  | (None, calls) => calls = (i + k)%nat ∧ no_success results calls
  end.
Proof.
  induction k as [|k IH]; intros i Hi; cbn [punch_retry]; [by rewrite Nat.add_0_r|].
  assert ((∀ r, results i = (Some r, None) → Success r = false) →
    match punch_retry k results (S i) with
    | (Some r, calls) => (i < calls ≤ i + S k)%nat ∧ results (calls - 1)%nat = (Some r, None) ∧ Success r = true
        ∧ no_success results (calls - 1)
    | (None, calls) => calls = (i + S k)%nat ∧ no_success results calls
    end) as Hrec.
  { intros Hr. specialize (IH (S i) (no_success_S _ _ Hi Hr)).
    destruct (punch_retry k results (S i)) as [[r|] calls]; destruct IH as [? ?]; (split; [lia|done]). }
  destruct (results i) as [[r|] [e|]] eqn:Er; try (by apply Hrec).
  destruct (Success r) eqn:Es; [|apply Hrec; by intros r' [= <-]].
  replace (S i - 1)%nat with i by lia. split; [lia|done].
Qed.

(** PunchWithRetry calls Punch at most maxRetries times and returns the first success, if there is one among those calls. *)
Lemma punch_with_retry_spec maxRetries results :
  match PunchWithRetry maxRetries results with
  | (Some r, calls) => (0 < calls)%nat ∧ Z.of_nat calls ≤ maxRetries
      ∧ results (calls - 1)%nat = (Some r, None) ∧ Success r = true ∧ no_success results (calls - 1)
  | (None, calls) => Z.of_nat calls = Z.max 0 maxRetries ∧ no_success results calls
  end.
Proof.
  unfold PunchWithRetry. pose proof (punch_retry_spec results (Z.to_nat maxRetries) 0 ltac:(intros ? ?; lia)) as H.
  destruct (punch_retry _ _ _) as [[r|] calls].
  - destruct H as (? & ? & ? & ?). split_and!; try done; lia.
  - destruct H as (-> & ?). split; [lia|done].
Qed.

Module PunchWitness.
Definition peer : UDPAddr := MkUDPAddr [xc0; x00; x02; x07] 9000.
Definition mapped : UDPAddr := MkUDPAddr (v4InV6Prefix ++ [xc0; x00; x02; x07]) 9000.
Definition cfg : HolePunchConfig := MkHolePunchConfig 2 (100 * Millisecond) Second.
Definition id : bytes := replicate 16 x01.
Definition events : list punch_event :=
  [Write true; Read (Some (str "junk", Some peer)); Timer; Read (Some (punch_packet id 7, Some mapped))].
Definition state : punch :=
  MkPunch (Sending 1) Exited (Some mapped) false [punch_packet id 5].

Lemma punch_outcome_witness :
  ∃ k, [punch_packet id 5; punch_packet id 5] = replicate (Z.to_nat k) (punch_packet id 5) ∧ 0 ≤ k ≤ 2.
Proof.
  destruct (punch_outcome cfg peer id 5 (events ++ [Write true; Receive 3])
    (MkPunch (Returned (Some (MkHolePunchResult true mapped 3), None)) Exited None true [punch_packet id 5; punch_packet id 5]))
    as (k & Hw & Hk & _); [vm_compute; reflexivity|]. exists k. split; [exact Hw|exact Hk].
Defined.

Lemma punch_terminates_witness : len (filter (λ ev, caller_event ev = true) events) ≤ 5.
Proof.
  exact (proj1 (punch_terminates cfg peer (punch_packet id 5) events state ltac:(vm_compute; reflexivity))).
Defined.

Lemma punch_response_delivered_witness :
  ∃ a' p', punch_run cfg peer (punch_packet id 5) state [Write true; Receive 3] = Some p'
    ∧ pn_sender p' = Returned (Some (MkHolePunchResult true a' 3), None)
    ∧ IP_Equal (IP a') (IP peer) = true ∧ Port a' = Port peer.
Proof.
  apply (punch_response_delivered cfg peer (punch_packet id 5) events state (punch_packet id 7) mapped 3).
  - vm_compute. reflexivity.
  - unfold events. do 3 right. left.
  - vm_compute. reflexivity.
  - discriminate.
Defined.
End PunchWitness.
