(* ===== verification/Socket.v ===== *)
(** * Socket options ([transport/socket.go], [transport/socket_unix.go])

    The [Control] functions that the TCP listener and the TCP dialer give to the
    net package, which calls them on a new socket before it binds it.  A node
    listens on a port and dials from the same port, so both sockets need the
    options.  The system calls are a parameter. *)

From S2P Require Import Prelude.

Inductive sockopt := SO_REUSEADDR | SO_REUSEPORT.
#[global] Instance sockopt_eq_dec : EqDecision sockopt.
Proof. solve_decision. Defined.
#[global] Instance sockopt_countable : Countable sockopt.
Proof.
  refine (inj_countable' (λ o, match o with SO_REUSEADDR => true | SO_REUSEPORT => false end)
            (λ b, if b : bool then SO_REUSEADDR else SO_REUSEPORT) _). by intros [].
Defined.

(** The options that are on. *)
Definition socket := gset sockopt.

(** What the system does: [sys_control] is the error of [RawConn.Control], which then
    does not call the function; [sys_setsockopt] is the error of [setsockopt(..., 1)]. *)
Class Sys := {
  sys_control : option string;
  sys_setsockopt : sockopt → option string;
}.

Section control.
Context {S : Sys}.

Definition SetsockoptInt (o : sockopt) (fd : socket) : socket * option string :=
  match sys_setsockopt o with
  | Some e => (fd, Some e)
  | None => ({[o]} ∪ fd, None)
  end.

(** [c.Control(f)]: the error of the call, or what [f] did. *)
Definition Control {A} (f : socket → socket * A) (fd : socket) : socket * (string + A) :=
  match sys_control with
  | Some e => (fd, inl e)
  | None => let '(fd, a) := f fd in (fd, inr a)
  end.

(** ** Unix *)

(** The function given to [Control]; it returns [opErr]. *)
Definition unix_options (fd : socket) : socket * option string :=
  let '(fd, err) := SetsockoptInt SO_REUSEADDR fd in
  match err with
  | Some e => (fd, Some e)
  | None => SetsockoptInt SO_REUSEPORT fd
  end.

Definition unix_Control (fd : socket) : socket * option string :=
  let '(fd, r) := Control unix_options fd in
  match r with
  | inl e => (fd, Some e)
  | inr opErr => (fd, opErr)
  end.

(** ** Windows *)

(** The result of [SetsockoptInt] is not looked at. *)
Definition windows_Control (fd : socket) : socket * option string :=
  let '(fd, r) := Control (λ fd, ((SetsockoptInt SO_REUSEADDR fd).1, ())) fd in
  match r with
  | inl e => (fd, Some e)
  | inr _ => (fd, None)
  end.

(** ** The configurations *)

(** [net.ListenConfig] and [net.Dialer]: a local address and the function to call. *)
Record net_config := MkNetConfig { nc_localAddr : option gostring; nc_Control : socket → socket * option string }.

Definition unix_ListenConfig : net_config := MkNetConfig None unix_Control.
Definition unix_DialConfig (localAddr : gostring) : net_config := MkNetConfig (Some localAddr) unix_Control.
Definition windows_ListenConfig : net_config := MkNetConfig None windows_Control.
Definition windows_DialConfig (localAddr : gostring) : net_config := MkNetConfig (Some localAddr) windows_Control.

(** What the net package does with a configuration: a new socket, or an error. *)
Definition open_socket (c : net_config) : socket + string :=
  let '(fd, err) := nc_Control c ∅ in
  match err with Some e => inr e | None => inl fd end.

(** ** What a successful call guarantees *)

Lemma SetsockoptInt_None o fd fd' : SetsockoptInt o fd = (fd', None) → fd' = {[o]} ∪ fd.
Proof. unfold SetsockoptInt. destruct (sys_setsockopt o); congruence. Qed.

(** On Unix a socket that opens has both options. *)
Lemma unix_socket fd : open_socket unix_ListenConfig = inl fd → fd = {[SO_REUSEADDR; SO_REUSEPORT]}.
Proof.
  unfold open_socket, unix_ListenConfig, nc_Control, unix_Control, Control, unix_options. destruct sys_control; [done|].
  destruct (SetsockoptInt SO_REUSEADDR ∅) as [fd1 [e|]] eqn:E1; [done|].
  destruct (SetsockoptInt SO_REUSEPORT fd1) as [fd2 [e|]] eqn:E2; [done|]. intros [= <-].
  apply SetsockoptInt_None in E1, E2. set_solver.
Qed.

(** Which two sockets may be bound to one port is the system's rule; on Unix two sockets that
    both have [SO_REUSEPORT] may. *)
Theorem unix_listen_and_dial (may_share : socket → socket → Prop) addr fd1 fd2 :
  (∀ a b : socket, SO_REUSEPORT ∈ a → SO_REUSEPORT ∈ b → may_share a b) →
  open_socket unix_ListenConfig = inl fd1 → open_socket (unix_DialConfig addr) = inl fd2 → may_share fd1 fd2.
Proof. intros Hrule H1 H2. apply unix_socket in H1, H2. subst. apply Hrule; set_solver. Qed.

(** On Unix an option that cannot be set is an error; on Windows it is not noticed. *)
Theorem reuseaddr_refused e :
  sys_control = None → sys_setsockopt SO_REUSEADDR = Some e →
  open_socket unix_ListenConfig = inr e ∧ open_socket windows_ListenConfig = inl ∅.
Proof.
  intros Hc He. unfold open_socket, unix_ListenConfig, windows_ListenConfig, nc_Control, unix_Control, windows_Control, Control,
    unix_options, SetsockoptInt. by rewrite Hc, He.
Qed.
End control.

(** A system where everything succeeds, with the rule of Linux. *)
Module SocketWitness.
#[local] Instance all_ok : Sys := {| sys_control := None; sys_setsockopt _ := None |}.

Example listener_options : open_socket unix_ListenConfig = inl ({[SO_REUSEPORT]} ∪ ({[SO_REUSEADDR]} ∪ ∅)).
Proof. reflexivity. Qed.
End SocketWitness.
