(* ===== verification/TcpPunch.v ===== *)
(** * TCP hole punching ([nat/tcp_punch.go])

    [Punch] starts two workers, one dialing the peer from the listening port and one
    accepting on it, and returns the first connection either of them puts on a channel
    of capacity two.  The model is a transition function on the three threads, driven by
    events; it keeps account of every connection that is established. *)

From S2P Require Import Prelude Peer.

(** ** State *)

Inductive dialer :=
| DLoop                        (** at the head of the retry loop *)
| DDialing                     (** in [DialContext] *)
| DSleeping                    (** in the [select] before the next try *)
| DGot (c : ConnRef)           (** in the [select] that hands the connection over *)
| DExit.

Inductive acceptor :=
| LStart                       (** before [Listen] *)
| LLoop
| LAccepting                   (** in [Accept] *)
| LGot (c : ConnRef)
| LExit.

Inductive caller :=
| CWaiting
| CReturned (conn : option ConnRef) (err : option string).

Record tcp_punch := MkTcpPunch {
  tp_dialer : dialer;
  tp_acceptor : acceptor;
  tp_caller : caller;
  resultChan : list ConnRef;
  ctx_done : bool;               (** [ctx] is cancelled *)
  tp_closed : list ConnRef;      (** the connections closed *)
  tp_seen : list ConnRef;        (** the connections established *)
}.
#[global] Instance tcp_punch_eta : RecordEta tcp_punch := λ p,
  MkTcpPunch (tp_dialer p) (tp_acceptor p) (tp_caller p) (resultChan p) (ctx_done p) (tp_closed p) (tp_seen p).

(** A new connection; [tcp] is whether it is a [*net.TCPConn]. *)
Inductive attempt := Established (c : ConnRef) (tcp : bool) | Failed.

Inductive tcp_event :=
| DialTurn                       (** the head of the dial loop *)
| DialResult (r : attempt)
| DialTimer                      (** 100 ms are over *)
| DialCancelled                  (** [ctx.Done] in the dialer's [select] *)
| DialPut                        (** the dialer's send on the channel *)
| ListenResult (ok : bool)
| AcceptTurn
| AcceptResult (r : attempt)
| AcceptCancelled
| AcceptPut
| Take                           (** the caller receives from the channel *)
| CallerCancelled                (** [ctx.Done] in the caller's [select] *)
| GlobalTimeout                  (** 10 s are over *)
| ParentCancel.                  (** the context the caller was given is cancelled *)

(** [make(chan *net.TCPConn, 2)]. *)
Definition chan_capacity : Z := 2.

Definition tcp_punch_start : tcp_punch := MkTcpPunch DLoop LStart CWaiting [] false [] [].

(** [conn.Close()]. *)
Definition close_conn (c : ConnRef) (p : tcp_punch) : tcp_punch := p <| tp_closed ::= cons c |>.

(** Returning runs the deferred [cancel()]. *)
Definition caller_returns (conn : option ConnRef) (err : option string) (p : tcp_punch) : tcp_punch :=
  p <| tp_caller := CReturned conn err |> <| ctx_done := true |>.

(** The dialer's part; [None]: the event cannot happen. *)
Definition dialer_step (p : tcp_punch) (ev : tcp_event) : option tcp_punch :=
  match tp_dialer p, ev with
  | DLoop, DialTurn => Some (p <| tp_dialer := if ctx_done p then DExit else DDialing |>)
  | DDialing, DialResult (Established c tcp) =>
      if bool_decide (c ∈ tp_seen p) then None else
      let p := p <| tp_seen ::= cons c |> in
      Some (if tcp : bool then p <| tp_dialer := DGot c |> else close_conn c p <| tp_dialer := DLoop |>)
  | DDialing, DialResult Failed => Some (p <| tp_dialer := DSleeping |>)
  | DSleeping, DialTimer => Some (p <| tp_dialer := DLoop |>)
  | DSleeping, DialCancelled => if ctx_done p then Some (p <| tp_dialer := DExit |>) else None
  | DGot c, DialPut =>
      if len (resultChan p) <? chan_capacity
      then Some (p <| resultChan ::= λ l, l ++ [c] |> <| tp_dialer := DExit |>) else None
  | DGot c, DialCancelled => if ctx_done p then Some (close_conn c p <| tp_dialer := DExit |>) else None
  | _, _ => None
  end.

(** The acceptor's part: an [Accept] that times out or fails goes back to the head of
    the loop, where the context is looked at. *)
Definition acceptor_step (p : tcp_punch) (ev : tcp_event) : option tcp_punch :=
  match tp_acceptor p, ev with
  | LStart, ListenResult ok => Some (p <| tp_acceptor := if ok : bool then LLoop else LExit |>)
  | LLoop, AcceptTurn => Some (p <| tp_acceptor := if ctx_done p then LExit else LAccepting |>)
  | LAccepting, AcceptResult (Established c tcp) =>
      if bool_decide (c ∈ tp_seen p) then None else
      let p := p <| tp_seen ::= cons c |> in
      Some (if tcp : bool then p <| tp_acceptor := LGot c |> else close_conn c p <| tp_acceptor := LLoop |>)
  | LAccepting, AcceptResult Failed => Some (p <| tp_acceptor := LLoop |>)
  | LGot c, AcceptPut =>
      if len (resultChan p) <? chan_capacity
      then Some (p <| resultChan ::= λ l, l ++ [c] |> <| tp_acceptor := LExit |>) else None
  | LGot c, AcceptCancelled => if ctx_done p then Some (close_conn c p <| tp_acceptor := LExit |>) else None
  | _, _ => None
  end.

Definition caller_step (p : tcp_punch) (ev : tcp_event) : option tcp_punch :=
  match tp_caller p, ev with
  | CWaiting, Take =>
      match resultChan p with
      | c :: rest => Some (caller_returns (Some c) None (p <| resultChan := rest |>))
      | [] => None
      end
  | CWaiting, CallerCancelled =>
      if ctx_done p then Some (caller_returns None (Some "context canceled"%string) p) else None
  | CWaiting, GlobalTimeout => Some (caller_returns None (Some "tcp hole punch timeout"%string) p)
  | _, ParentCancel => Some (p <| ctx_done := true |>)
  | _, _ => None
  end.

Definition tcp_step (p : tcp_punch) (ev : tcp_event) : option tcp_punch :=
  match ev with
  | DialTurn | DialResult _ | DialTimer | DialCancelled | DialPut => dialer_step p ev
  | ListenResult _ | AcceptTurn | AcceptResult _ | AcceptCancelled | AcceptPut => acceptor_step p ev
  | _ => caller_step p ev
  end.

Fixpoint tcp_run (p : tcp_punch) (evs : list tcp_event) : option tcp_punch :=
  match evs with
  | [] => Some p
  | ev :: evs' => p' ← tcp_step p ev; tcp_run p' evs'
  end.

(** The nil check, then the threads. *)
Definition TCP_Punch (peerAddr : option gostring) (evs : list tcp_event) : option (option ConnRef * option string) :=
  match peerAddr with
  | None => Some (None, Some "peerAddr is nil"%string)
  | Some _ =>
      p ← tcp_run tcp_punch_start evs;
      match tp_caller p with CReturned conn err => Some (conn, err) | CWaiting => None end
  end.

(** ** Accounting *)

Definition held (p : tcp_punch) : list ConnRef :=
  (match tp_dialer p with DGot c => [c] | _ => [] end) ++ (match tp_acceptor p with LGot c => [c] | _ => [] end).

Definition returned (p : tcp_punch) : list ConnRef :=
  match tp_caller p with CReturned (Some c) _ => [c] | _ => [] end.

Definition exits (p : tcp_punch) : Z :=
  (match tp_dialer p with DExit => 1 | _ => 0 end) + (match tp_acceptor p with LExit => 1 | _ => 0 end).

(** Every established connection is in exactly one place, and a worker hands over at
    most one. *)
Record tcp_inv (p : tcp_punch) : Prop := {
  ti_nodup : NoDup (tp_seen p);
  ti_places : tp_seen p ≡ₚ tp_closed p ++ resultChan p ++ held p ++ returned p;
  ti_count : len (resultChan p) + len (returned p) ≤ exits p;
  ti_caller : match tp_caller p with
              | CReturned (Some _) err => err = None
              | CReturned None err => is_Some err
              | CWaiting => True
              end;
}.

Lemma tcp_start_inv : tcp_inv tcp_punch_start.
Proof. split; [constructor|done|done|done]. Qed.

(** Evaluates the places of the connections in a state given by its fields, and closes
    the goals of the invariant. *)
Ltac account :=
  unfold held, returned, exits, close_conn, caller_returns in *; cbn in *;
  first [done | by apply NoDup_cons | (repeat match goal with H : _ ≡ₚ _ |- _ => rewrite H; clear H end; solve_Permutation)
        | (rewrite ?len_app, ?len_cons, ?len_nil in *; len_facts; repeat case_match; lia)].

Lemma dialer_step_inv p ev p' : tcp_inv p → dialer_step p ev = Some p' → tcp_inv p'.
Proof.
  destruct p as [d a c ch ctx cl seen]. intros [Hn Hp Hc Hr] Hs. unfold dialer_step in Hs. cbn in *.
  destruct d, ev; try done; try (destruct r as [x [|]|]; [case_bool_decide; [done|]..|]);
    try (destruct (len ch <? chan_capacity); [|done]); try (destruct ctx; try done); injection Hs as <-; split; account.
Qed.

Lemma acceptor_step_inv p ev p' : tcp_inv p → acceptor_step p ev = Some p' → tcp_inv p'.
Proof.
  destruct p as [d a c ch ctx cl seen]. intros [Hn Hp Hc Hr] Hs. unfold acceptor_step in Hs. cbn in *.
  destruct a, ev; try done; try (destruct r as [x [|]|]; [case_bool_decide; [done|]..|]); try (destruct ok);
    try (destruct (len ch <? chan_capacity); [|done]); try (destruct ctx; try done); injection Hs as <-; split; account.
Qed.

Lemma caller_step_inv p ev p' : tcp_inv p → caller_step p ev = Some p' → tcp_inv p'.
Proof.
  destruct p as [d a c ch ctx cl seen]. intros [Hn Hp Hc Hr] Hs. unfold caller_step in Hs. cbn in *.
  destruct c, ev; try done; try (destruct ch as [|x ch]; [done|]); try (destruct ctx; try done);
    injection Hs as <-; split; account.
Qed.

Lemma tcp_run_inv evs : ∀ p p', tcp_inv p → tcp_run p evs = Some p' → tcp_inv p'.
Proof.
  induction evs as [|ev evs IH]; intros p p' Hp Hrun; [by injection Hrun as <-|].
  cbn [tcp_run] in Hrun. destruct (tcp_step p ev) as [p1|] eqn:Hs; [|done]. apply (IH p1); [|done].
  destruct ev; cbn [tcp_step] in Hs; eauto using dialer_step_inv, acceptor_step_inv, caller_step_inv.
Qed.

(** C19: TCP hole punching accounts for every connection: in any interleaving of the two workers and the caller, each
    established connection is in exactly one place (closed, on the channel, held by a worker, or returned); the caller returns
    a connection, open and its own, or an error, never both; and at most two connections are handed over in total. *)
Theorem tcp_punch_connections evs p :
  tcp_run tcp_punch_start evs = Some p →
  NoDup (tp_closed p ++ resultChan p ++ held p ++ returned p)
  ∧ (∀ c, c ∈ tp_seen p ↔ c ∈ tp_closed p ++ resultChan p ++ held p ++ returned p)
  ∧ len (resultChan p) + len (returned p) ≤ 2
  ∧ ∀ conn err, tp_caller p = CReturned conn err →
      match conn with
      | Some c => err = None ∧ c ∈ tp_seen p ∧ (c ∉ tp_closed p) ∧ (c ∉ resultChan p)
      | None => is_Some err
      end.
Proof.
  intros Hrun. destruct (tcp_run_inv _ _ _ tcp_start_inv Hrun) as [Hn Hp Hc Hr].
  assert (NoDup (tp_closed p ++ resultChan p ++ held p ++ returned p)) as Hnd by (by rewrite <- Hp).
  split_and!; [done|intros c; by rewrite Hp| |].
  - unfold exits in Hc. destruct (tp_dialer p), (tp_acceptor p); lia.
  - intros conn err Hret. rewrite Hret in Hr. destruct conn as [c|]; [|done].
    assert (returned p = [c]) as Hc' by (unfold returned; by rewrite Hret). rewrite Hc' in *.
    assert (c ∈ [c]) as Hin by by left.
    split; [done|]. split; [rewrite Hp, !elem_of_app; by auto|].
    apply NoDup_app in Hnd as (_ & Hd1 & Hnd). apply NoDup_app in Hnd as (_ & Hd2 & _).
    split; intros Hx; [apply (Hd1 c Hx)|apply (Hd2 c Hx)]; rewrite !elem_of_app; by auto.
Qed.

(** No thread does anything more. *)
Lemma finished_stuck p evs p' c :
  tp_dialer p = DExit → tp_acceptor p = LExit → tp_caller p = CReturned (Some c) None →
  tcp_run p evs = Some p' → tp_closed p' = tp_closed p ∧ resultChan p' = resultChan p.
Proof.
  revert p. induction evs as [|ev evs IH]; intros p Hd Ha Hc Hrun; [by injection Hrun as <-|].
  cbn [tcp_run] in Hrun. destruct (tcp_step p ev) as [p1|] eqn:Hs; [|done].
  destruct ev; cbn [tcp_step] in Hs; unfold dialer_step, acceptor_step, caller_step in Hs;
    rewrite ?Hd, ?Ha, ?Hc in Hs; try done. injection Hs as <-.
  by apply IH in Hrun.
Qed.

Definition both_succeed (c1 c2 : ConnRef) : list tcp_event :=
  [DialTurn; DialResult (Established c1 true); ListenResult true; AcceptTurn; AcceptResult (Established c2 true);
   DialPut; AcceptPut; Take].

(** When the dial and the accept both succeed before the caller has taken the first connection, the second one is put on
    the channel too and is leaked: the call returns the first connection, all threads are finished, and in no continuation is
    the second connection taken or closed. *)
Theorem tcp_punch_leak c1 c2 :
  c1 ≠ c2 →
  ∃ p, tcp_run tcp_punch_start (both_succeed c1 c2) = Some p
  ∧ tp_caller p = CReturned (Some c1) None
  ∧ ∀ evs p', tcp_run p evs = Some p' → c2 ∈ tp_seen p ∧ tp_closed p' = [] ∧ resultChan p' = [c2].
Proof.
  intros Hne. exists (MkTcpPunch DExit LExit (CReturned (Some c1) None) [c2] true [] [c2; c1]). split_and!.
  - assert (c2 ∉ [c1]) as Hn by (by rewrite list_elem_of_singleton).
    unfold both_succeed. cbn -[bool_decide].
    rewrite (bool_decide_false (c1 ∈ [])) by apply not_elem_of_nil. cbn -[bool_decide].
    by rewrite (bool_decide_false (c2 ∈ [c1])).
  - done.
  - intros evs p' Hrun. split; [by left|]. by apply (finished_stuck _ _ _ c1) in Hrun.
Qed.

Lemma tcp_punch_connections_witness :
  ∃ p, tcp_run tcp_punch_start (both_succeed 1 2) = Some p ∧ len (resultChan p) + len (returned p) ≤ 2.
Proof.
  eexists. split; [reflexivity|].
  eapply (proj1 (proj2 (proj2 (tcp_punch_connections (both_succeed 1 2) _ ltac:(reflexivity))))).
Defined.

Lemma tcp_punch_leak_witness :
  ∃ p, tcp_run tcp_punch_start (both_succeed 1 2) = Some p ∧ tp_caller p = CReturned (Some 1%positive) None.
Proof.
  destruct (tcp_punch_leak 1 2 ltac:(discriminate)) as (p & Hp & Hc & _). exists p. split; [exact Hp|exact Hc].
Defined.
