(* ===== verification/Metrics.v ===== *)
(** * Runtime metrics ([metrics/metrics.go])

    The counters of a node.  Each is an [int64] updated atomically, so an
    increment wraps; the snapshot derives averages and rates from them. *)

From Stdlib Require Import SpecFloat.
From S2P Require Import Prelude Float64.

Record Collector := MkCollector {
  connectionsTotal : Z;
  connectionsFailed : Z;
  connectionsActive : Z;
  disconnectsTotal : Z;
  handshakesTotal : Z;
  handshakesFailed : Z;
  handshakeLatencyNs : Z;
  handshakeCount : Z;
  bytesSent : Z;
  bytesReceived : Z;
  packetsSent : Z;
  packetsRecv : Z;
  punchAttemptsUDP : Z;
  punchSuccessUDP : Z;
  punchAttemptsTCP : Z;
  punchSuccessTCP : Z;
  relayPackets : Z;
  relayBytes : Z;
  relayConnects : Z;
  relayAuthFailed : Z;
  errorsTotal : Z;
  reconnectAttempts : Z;
  reconnectSuccess : Z;
  reconnectFailed : Z;
  reconnectGaveUp : Z;
  fastRehandshakeAttempts : Z;
  fastRehandshakeSuccess : Z;
  fastRehandshakeFailed : Z;
  startTime : Time;
}.
#[global] Instance Collector_eta : RecordEta Collector := λ c,
  MkCollector (connectionsTotal c) (connectionsFailed c) (connectionsActive c) (disconnectsTotal c)
    (handshakesTotal c) (handshakesFailed c) (handshakeLatencyNs c) (handshakeCount c)
    (bytesSent c) (bytesReceived c) (packetsSent c) (packetsRecv c)
    (punchAttemptsUDP c) (punchSuccessUDP c) (punchAttemptsTCP c) (punchSuccessTCP c)
    (relayPackets c) (relayBytes c) (relayConnects c) (relayAuthFailed c)
    (errorsTotal c) (reconnectAttempts c) (reconnectSuccess c) (reconnectFailed c)
    (reconnectGaveUp c) (fastRehandshakeAttempts c) (fastRehandshakeSuccess c) (fastRehandshakeFailed c) (startTime c).

Definition NewCollector (now : Time) : Collector :=
  MkCollector 0 0 0 0 0 0 0 0 0 0 0 0 0 0 0 0 0 0 0 0 0 0 0 0 0 0 0 0 now.

(** [atomic.AddInt64]. *)
Definition add_int64 (n x : Z) : Z := to_int64 (x + n).

Definition IncConnectionsTotal (c : Collector) : Collector := c <| connectionsTotal ::= add_int64 1 |>.
Definition IncConnectionsFailed (c : Collector) : Collector := c <| connectionsFailed ::= add_int64 1 |>.
Definition IncDisconnectsTotal (c : Collector) : Collector := c <| disconnectsTotal ::= add_int64 1 |>.
Definition IncHandshakesTotal (c : Collector) : Collector := c <| handshakesTotal ::= add_int64 1 |>.
Definition IncHandshakesFailed (c : Collector) : Collector := c <| handshakesFailed ::= add_int64 1 |>.
Definition IncPunchAttemptUDP (c : Collector) : Collector := c <| punchAttemptsUDP ::= add_int64 1 |>.
Definition IncPunchSuccessUDP (c : Collector) : Collector := c <| punchSuccessUDP ::= add_int64 1 |>.
Definition IncPunchAttemptTCP (c : Collector) : Collector := c <| punchAttemptsTCP ::= add_int64 1 |>.
Definition IncPunchSuccessTCP (c : Collector) : Collector := c <| punchSuccessTCP ::= add_int64 1 |>.
Definition IncRelayPackets (c : Collector) : Collector := c <| relayPackets ::= add_int64 1 |>.
Definition IncRelayConnects (c : Collector) : Collector := c <| relayConnects ::= add_int64 1 |>.
Definition IncRelayAuthFailed (c : Collector) : Collector := c <| relayAuthFailed ::= add_int64 1 |>.
Definition IncErrorsTotal (c : Collector) : Collector := c <| errorsTotal ::= add_int64 1 |>.
Definition IncReconnectAttempts (c : Collector) : Collector := c <| reconnectAttempts ::= add_int64 1 |>.
Definition IncReconnectSuccess (c : Collector) : Collector := c <| reconnectSuccess ::= add_int64 1 |>.
Definition IncReconnectFailed (c : Collector) : Collector := c <| reconnectFailed ::= add_int64 1 |>.
Definition IncReconnectGaveUp (c : Collector) : Collector := c <| reconnectGaveUp ::= add_int64 1 |>.
Definition IncFastRehandshakeAttempts (c : Collector) : Collector := c <| fastRehandshakeAttempts ::= add_int64 1 |>.
Definition IncFastRehandshakeSuccess (c : Collector) : Collector := c <| fastRehandshakeSuccess ::= add_int64 1 |>.
Definition IncFastRehandshakeFailed (c : Collector) : Collector := c <| fastRehandshakeFailed ::= add_int64 1 |>.

Definition SetConnectionsActive (c : Collector) (n : Z) : Collector := c <| connectionsActive := n |>.

Definition RecordHandshakeLatency (c : Collector) (d : Duration) : Collector :=
  c <| handshakeLatencyNs ::= add_int64 d |> <| handshakeCount ::= add_int64 1 |>.

Definition Collector_AddBytesSent (c : Collector) (n : Z) : Collector :=
  c <| bytesSent ::= add_int64 n |> <| packetsSent ::= add_int64 1 |>.

Definition Collector_AddBytesReceived (c : Collector) (n : Z) : Collector :=
  c <| bytesReceived ::= add_int64 n |> <| packetsRecv ::= add_int64 1 |>.

Definition AddRelayBytes (c : Collector) (n : Z) : Collector := c <| relayBytes ::= add_int64 n |>.

(** The counters of the snapshot are those of the collector; these are the
    fields [GetSnapshot] computes. *)
Record Snapshot := MkSnapshot {
  Counters : Collector;
  Uptime : Duration;
  AvgHandshakeLatency : Duration;
  PunchSuccessRate : float64;
  ReconnectRate : float64;
}.

Definition rate (success attempts : Z) : float64 :=
  if 0 <? attempts then f64_div (f64_of_Z success) (f64_of_Z attempts) else S754_zero false.

Definition GetSnapshot (c : Collector) (now : Time) : Snapshot :=
  let count := handshakeCount c in
  let totalAttempts := to_int64 (punchAttemptsUDP c + punchAttemptsTCP c) in
  let totalSuccess := to_int64 (punchSuccessUDP c + punchSuccessTCP c) in
  MkSnapshot c (time_Sub now (startTime c))
    (if 0 <? count then Z.quot (handshakeLatencyNs c) count else 0)
    (rate totalSuccess totalAttempts)
    (rate (reconnectSuccess c) (reconnectAttempts c)).

Definition Collector_Reset (c : Collector) (now : Time) : Collector :=
  c<| connectionsTotal := 0 |> <| connectionsFailed := 0 |> <| connectionsActive := 0 |> <| disconnectsTotal := 0 |>
    <| handshakesTotal := 0 |> <| handshakesFailed := 0 |> <| handshakeLatencyNs := 0 |> <| handshakeCount := 0 |>
    <| bytesSent := 0 |> <| bytesReceived := 0 |> <| packetsSent := 0 |> <| packetsRecv := 0 |>
    <| punchAttemptsUDP := 0 |> <| punchSuccessUDP := 0 |> <| punchAttemptsTCP := 0 |> <| punchSuccessTCP := 0 |>
    <| relayPackets := 0 |> <| relayBytes := 0 |> <| relayConnects := 0 |> <| relayAuthFailed := 0 |>
    <| errorsTotal := 0 |> <| reconnectAttempts := 0 |> <| reconnectSuccess := 0 |> <| reconnectFailed := 0 |>
    <| reconnectGaveUp := 0 |> <| fastRehandshakeAttempts := 0 |> <| fastRehandshakeSuccess := 0 |> <| fastRehandshakeFailed := 0 |> <| startTime := now |>.

(** ** Averages *)

(** The latencies a collector has recorded. *)
Definition record_all (c : Collector) (ds : list Duration) : Collector := foldl RecordHandshakeLatency c ds.

Definition zsum (ds : list Z) : Z := foldr Z.add 0 ds.

Lemma record_all_sum ds c :
  is_int64 (handshakeLatencyNs c) → is_int64 (handshakeCount c) →
  (∀ k, is_int64 (handshakeLatencyNs c + zsum (take k ds))) →
  is_int64 (handshakeCount c + len ds) → 0 ≤ handshakeCount c →
  handshakeLatencyNs (record_all c ds) = handshakeLatencyNs c + zsum ds
  ∧ handshakeCount (record_all c ds) = handshakeCount c + len ds.
Proof.
  revert c. induction ds as [|d ds IH]; intros c H1 H2 Hk Hn H0; cbn [record_all foldl zsum foldr].
  { unfold record_all, zsum, len; cbn; lia. }
  pose proof (Hk 1%nat) as Hd. cbn in Hd. rewrite Z.add_0_r in Hd. rewrite len_cons in *.
  assert (is_int64 (handshakeCount c + 1)) as Hc
    by (unfold is_int64, min_int64, max_int64 in *; pose proof (len_nonneg ds); lia).
  destruct (IH (RecordHandshakeLatency c d)) as [E1 E2]; cbn; unfold add_int64.
  - apply to_int64_range.
  - apply to_int64_range.
  - intros k. rewrite to_int64_id by done. rewrite <- Z.add_assoc. apply (Hk (S k)).
  - rewrite to_int64_id by done. by rewrite <- Z.add_assoc.
  - rewrite to_int64_id by done. lia.
  - fold (record_all (RecordHandshakeLatency c d) ds). rewrite E1, E2. cbn. unfold add_int64.
    rewrite !to_int64_id by done. fold (zsum ds). lia.
Qed.

(** The average latency a snapshot reports after any non-empty series of
    recorded handshakes is their mean rounded towards zero, as long as the sums
    stay within 64 bits; before the first one it is zero, and the success rates
    are zero as long as nothing was attempted. *)
Theorem snapshot_average now ds now' :
  (∀ k, is_int64 (zsum (take k ds))) → len ds ≤ max_int64 →
  let s := GetSnapshot (record_all (NewCollector now) ds) now' in
  AvgHandshakeLatency s = (if decide (ds = []) then 0 else Z.quot (zsum ds) (len ds))
  ∧ PunchSuccessRate s = S754_zero false ∧ ReconnectRate s = S754_zero false.
Proof.
  intros Hk Hn. destruct (record_all_sum ds (NewCollector now)) as [E1 E2]; try done.
  { cbn. unfold is_int64, min_int64. pose proof (len_nonneg ds). lia. }
  assert (∀ c, punchAttemptsUDP (record_all c ds) = punchAttemptsUDP c
    ∧ punchAttemptsTCP (record_all c ds) = punchAttemptsTCP c
    ∧ reconnectAttempts (record_all c ds) = reconnectAttempts c) as Hsame.
  { clear. induction ds as [|d ds IH]; [done|]. intros c. apply (IH (RecordHandshakeLatency c d)). }
  destruct (Hsame (NewCollector now)) as (E3 & E4 & E5).
  cbn zeta. unfold GetSnapshot. cbn [AvgHandshakeLatency PunchSuccessRate ReconnectRate].
  rewrite E1, E2, E3, E4, E5. cbn [NewCollector handshakeCount handshakeLatencyNs Z.add].
  split; [|done]. destruct ds as [|d ds]; [done|]. rewrite decide_False by done.
  zcase; [done|len_solve].
Qed.

Lemma snapshot_average_witness :
  AvgHandshakeLatency (GetSnapshot (record_all (NewCollector 0) [10; 25]) 100)
  = if decide ([10; 25] = []) then 0 else Z.quot (zsum [10; 25]) (len [10; 25]).
Proof.
  apply (snapshot_average 0 [10; 25] 100); [|vm_compute; congruence].
  intros [|[|[|k]]]; split; vm_compute; congruence.
Defined.

(** [Reset] sets every counter back to what a new collector has, so the
    snapshot after it is the snapshot of a collector created at that moment. *)
Theorem collector_reset c now now' : GetSnapshot (Collector_Reset c now) now' = GetSnapshot (NewCollector now) now'.
Proof. by destruct c. Qed.
