(* ===== verification/Reconnect.v ===== *)
(** * Reconnection ([node/reconnect.go])

    The manager keeps one entry per peer it tries to reach again; a goroutine
    per entry runs [reconnectLoop].  An entry is shared between the table and
    its goroutine, so entries live in a store.  The loop is cut at the places
    where it sleeps or connects: each piece is a function of what the goroutine
    observes there ([loop_env]), and [loop_run] chains the pieces. *)

From Stdlib Require Import SpecFloat.
From S2P Require Import Prelude Float64 Metrics.

(** ** Configuration *)

Record ReconnectConfig := MkReconnectConfig {
  rc_Enabled : bool;
  MaxRetries : Z;
  InitialDelay : Duration;
  MaxDelay : Duration;
  BackoffMultiplier : float64;
  JitterFactor : float64;
  ReconnectTimeout : Duration;
}.
#[global] Instance ReconnectConfig_eta : RecordEta ReconnectConfig := λ c,
  MkReconnectConfig (rc_Enabled c) (MaxRetries c) (InitialDelay c) (MaxDelay c) (BackoffMultiplier c)
    (JitterFactor c) (ReconnectTimeout c).

Definition DefaultReconnectConfig : ReconnectConfig :=
  MkReconnectConfig true 10 Second (5 * Minute) (f64_of_Z 2) (f64_lit 2 1) (30 * Second).

Inductive ReconnectState :=
| ReconnectStateIdle
| ReconnectStateWaiting
| ReconnectStateConnecting
| ReconnectStateSuccess
| ReconnectStateFailed.
#[global] Instance ReconnectState_eq_dec : EqDecision ReconnectState.
Proof. solve_decision. Defined.

Definition ReconnectState_String (s : ReconnectState) : string :=
  match s with
  | ReconnectStateIdle => "Idle"
  | ReconnectStateWaiting => "Waiting"
  | ReconnectStateConnecting => "Connecting"
  | ReconnectStateSuccess => "Success"
  | ReconnectStateFailed => "Failed"
  end.

(** ** State *)

Abbreviation EntryRef := positive.

(** [cancelled] is the state of the entry's context. *)
Record reconnectEntry := MkEntry {
  re_peerID : gostring;
  re_addr : gostring;
  re_state : ReconnectState;
  re_attempt : Z;
  re_maxRetries : Z;
  re_nextRetry : Time;
  re_lastError : option string;
  re_disconnectAt : Time;
  re_cancelled : bool;
}.
#[global] Instance reconnectEntry_eta : RecordEta reconnectEntry := λ e,
  MkEntry (re_peerID e) (re_addr e) (re_state e) (re_attempt e) (re_maxRetries e) (re_nextRetry e)
    (re_lastError e) (re_disconnectAt e) (re_cancelled e).

(** The callbacks: which function is set, if any. *)
Abbreviation HandlerRef := positive.

Record rc_callbacks := MkCallbacks {
  onReconnecting : option HandlerRef;
  onReconnected : option HandlerRef;
  onGaveUp : option HandlerRef;
}.
#[global] Instance rc_callbacks_eta : RecordEta rc_callbacks := λ c,
  MkCallbacks (onReconnecting c) (onReconnected c) (onGaveUp c).

Definition no_callbacks : rc_callbacks := MkCallbacks None None None.

(** [loops] are the entries whose goroutine was started. *)
Record ReconnectManager := MkReconnectManager {
  rcm_config : ReconnectConfig;
  entry_store : gmap EntryRef reconnectEntry;
  entries : gmap gostring EntryRef;
  loops : list EntryRef;
  rcm_closing : bool;
  rcm_callbacks : rc_callbacks;
}.
#[global] Instance ReconnectManager_eta : RecordEta ReconnectManager := λ m,
  MkReconnectManager (rcm_config m) (entry_store m) (entries m) (loops m) (rcm_closing m) (rcm_callbacks m).

Definition NewReconnectManager (config : option ReconnectConfig) : ReconnectManager :=
  MkReconnectManager (default DefaultReconnectConfig config) ∅ ∅ [] false no_callbacks.

Definition SetOnReconnecting (rm : ReconnectManager) (handler : option HandlerRef) : ReconnectManager :=
  rm <| rcm_callbacks ::= λ c, c <| onReconnecting := handler |> |>.
Definition SetOnReconnected (rm : ReconnectManager) (handler : option HandlerRef) : ReconnectManager :=
  rm <| rcm_callbacks ::= λ c, c <| onReconnected := handler |> |>.
Definition SetOnGaveUp (rm : ReconnectManager) (handler : option HandlerRef) : ReconnectManager :=
  rm <| rcm_callbacks ::= λ c, c <| onGaveUp := handler |> |>.

Definition ScheduleReconnect (rm : ReconnectManager) (peerID addr : gostring) (now : Time) : ReconnectManager :=
  if negb (rc_Enabled (rcm_config rm)) || bool_decide (addr = []) then rm else
  let busy :=
    match entries rm !! peerID ≫= λ r, entry_store rm !! r with
    | Some entry => bool_decide (re_state entry = ReconnectStateConnecting)
                    || bool_decide (re_state entry = ReconnectStateWaiting)
    | None => false
    end in
  if busy then rm else
  let r := fresh (dom (entry_store rm)) in
  let entry := MkEntry peerID addr ReconnectStateWaiting 0 (MaxRetries (rcm_config rm)) time_zero None now false in
  rm <| entry_store ::= <[r := entry]> |> <| entries ::= <[peerID := r]> |> <| loops ::= λ l, l ++ [r] |>.

Definition cancel_entry (rm : ReconnectManager) (r : EntryRef) : ReconnectManager :=
  rm <| entry_store ::= alter (λ e, e <| re_cancelled := true |>) r |>.

Definition CancelReconnect (rm : ReconnectManager) (peerID : gostring) : ReconnectManager :=
  match entries rm !! peerID with
  | Some r => cancel_entry rm r <| entries ::= delete peerID |>
  | None => rm
  end.

Definition CancelAll (rm : ReconnectManager) : ReconnectManager :=
  foldl (λ rm kv, cancel_entry rm kv.2 <| entries ::= delete kv.1 |>) rm (map_to_list (entries rm)).

Record ReconnectInfo := MkReconnectInfo {
  rn_PeerID : gostring;
  rn_Addr : gostring;
  rn_State : ReconnectState;
  rn_Attempt : Z;
  rn_MaxRetries : Z;
  rn_NextRetry : Time;
  rn_LastError : option string;
  rn_DisconnectAt : Time;
}.

Definition info_of (e : reconnectEntry) : ReconnectInfo :=
  MkReconnectInfo (re_peerID e) (re_addr e) (re_state e) (re_attempt e) (re_maxRetries e) (re_nextRetry e)
    (re_lastError e) (re_disconnectAt e).

Definition GetReconnectInfo (rm : ReconnectManager) (peerID : gostring) : option ReconnectInfo :=
  r ← entries rm !! peerID; info_of <$> entry_store rm !! r.

Definition GetAllReconnectInfo (rm : ReconnectManager) : list ReconnectInfo :=
  omap (λ kv, info_of <$> entry_store rm !! kv.2) (map_to_list (entries rm)).

Definition ReconnectManager_Close (rm : ReconnectManager) : ReconnectManager :=
  CancelAll (rm <| rcm_closing := true |>).

(** ** Backoff *)

(** [rnd] is what [randFloat] returns. *)
Definition backoff_float (config : ReconnectConfig) (minDelay maxDelay : Duration) (attempt : Z)
    (rnd : float64) : float64 :=
  let delay := f64_mul (f64_of_Z minDelay) (f64_pow (BackoffMultiplier config) (attempt - 1)) in
  let delay :=
    if f64_ltb (S754_zero false) (JitterFactor config) then
      let jitter := f64_mul (f64_mul delay (JitterFactor config))
                            (f64_sub (f64_mul (f64_of_Z 2) rnd) (f64_of_Z 1)) in
      f64_add delay jitter
    else delay in
  let delay := if f64_ltb delay (f64_of_Z minDelay) then f64_of_Z minDelay else delay in
  if f64_ltb (f64_of_Z maxDelay) delay then f64_of_Z maxDelay else delay.

(** The bounds after the fallbacks for values that are not positive. *)
Definition backoff_bounds (config : ReconnectConfig) : Duration * Duration :=
  let minDelay := InitialDelay config in
  let maxDelay := MaxDelay config in
  let maxDelay := if maxDelay <=? 0 then minDelay else maxDelay in
  let minDelay := if minDelay <=? 0 then Millisecond else minDelay in
  let maxDelay := if maxDelay <? minDelay then minDelay else maxDelay in
  (minDelay, maxDelay).

Definition calculateBackoff (config : ReconnectConfig) (attempt : Z) (rnd : float64) : Duration :=
  let attempt := if attempt <? 1 then 1 else attempt in
  let '(minDelay, maxDelay) := backoff_bounds config in
  f64_trunc (backoff_float config minDelay maxDelay attempt rnd).

(** ** The loop *)

Inductive rc_event :=
| EvReconnecting (peerID : gostring) (attempt : Z) (delay : Duration)
| EvConnect (addr : gostring)
| EvMetric (f : Collector → Collector)
| EvReconnected (peerID : gostring) (attempts : Z)
| EvGaveUp (peerID : gostring) (attempts : Z) (lastErr : option string).

(** Where a goroutine stands: at the head of the loop, asleep before an attempt,
    asleep before the check that follows a successful connect, returned. *)
Inductive loop_pc := PcTop | PcDelay | PcConfirm | PcDone.
#[global] Instance loop_pc_eq_dec : EqDecision loop_pc.
Proof. solve_decision. Defined.

(** What it finds when it gets there. *)
Record loop_env := MkLoopEnv {
  le_connected : bool;       (** [isPeerConnected(peerID)] *)
  le_now : Time;
  le_rand : float64;
  le_connect : option string; (** the error of [ConnectContext], if any *)
  le_timer : bool            (** the timer wins over a cancellation *)
}.

Definition isPeerConnected (ids : list gostring) (peerID : gostring) : bool :=
  existsb (λ id, bool_decide (id = peerID)) ids.

Definition update_entry (rm : ReconnectManager) (r : EntryRef) (f : reconnectEntry → reconnectEntry)
    : ReconnectManager := rm <| entry_store ::= alter f r |>.

Definition handleReconnectSuccess (rm : ReconnectManager) (r : EntryRef) (e : reconnectEntry)
    : ReconnectManager * list rc_event :=
  (update_entry rm r (λ e, e <| re_state := ReconnectStateSuccess |>) <| entries ::= delete (re_peerID e) |>,
   [EvMetric IncReconnectSuccess; EvReconnected (re_peerID e) (re_attempt e)]).

Definition handleReconnectFailed (rm : ReconnectManager) (r : EntryRef) (e : reconnectEntry)
    : ReconnectManager * list rc_event :=
  (update_entry rm r (λ e, e <| re_state := ReconnectStateFailed |>) <| entries ::= delete (re_peerID e) |>,
   [EvGaveUp (re_peerID e) (to_int64 (re_attempt e - 1)) (re_lastError e)]).

(** The callback that reports an event, called in a goroutine of its own if it is set. *)
Definition callback_of (c : rc_callbacks) (ev : rc_event) : option HandlerRef :=
  match ev with
  | EvReconnecting _ _ _ => onReconnecting c
  | EvReconnected _ _ => onReconnected c
  | EvGaveUp _ _ _ => onGaveUp c
  | EvConnect _ | EvMetric _ => None
  end.

(** From one sleep to the next. *)
Definition loop_step (rm : ReconnectManager) (r : EntryRef) (pc : loop_pc) (env : loop_env)
    : ReconnectManager * loop_pc * list rc_event :=
  match entry_store rm !! r with
  | None => (rm, PcDone, [])
  | Some e =>
      let timer := match pc with PcTop => false | _ => le_timer env end in
      if (re_cancelled e || rcm_closing rm) && negb timer then (rm, PcDone, []) else
      match pc with
      | PcTop =>
          if le_connected env then
            let '(rm, ev) := handleReconnectSuccess rm r e in (rm, PcDone, ev)
          else
          let attempt := to_int64 (re_attempt e + 1) in
          let e := e <| re_attempt := attempt |> in
          let rm := update_entry rm r (λ e, e <| re_attempt := attempt |>) in
          if (0 <? MaxRetries (rcm_config rm)) && (MaxRetries (rcm_config rm) <? attempt) then
            let '(rm, ev) := handleReconnectFailed rm r e in (rm, PcDone, ev)
          else
          let delay := calculateBackoff (rcm_config rm) attempt (le_rand env) in
          let nextRetry := time_Add (le_now env) delay in
          (update_entry rm r (λ e, e <| re_state := ReconnectStateWaiting |> <| re_nextRetry := nextRetry |>),
           PcDelay, [EvReconnecting (re_peerID e) attempt delay])
      | PcDelay =>
          if le_connected env then
            let '(rm, ev) := handleReconnectSuccess rm r e in (rm, PcDone, ev)
          else
          let rm := update_entry rm r (λ e, e <| re_state := ReconnectStateConnecting |>) in
          match le_connect env with
          | Some err =>
              (update_entry rm r (λ e, e <| re_lastError := Some err |>), PcTop,
               [EvConnect (re_addr e); EvMetric IncReconnectAttempts; EvMetric IncReconnectFailed])
          | None => (rm, PcConfirm, [EvConnect (re_addr e); EvMetric IncReconnectAttempts])
          end
      | PcConfirm =>
          if le_connected env then
            let '(rm, ev) := handleReconnectSuccess rm r e in (rm, PcDone, ev)
          else (rm, PcTop, [])
      | PcDone => (rm, PcDone, [])
      end
  end.

(** The goroutine on a sequence of observations. *)
Fixpoint loop_run (rm : ReconnectManager) (r : EntryRef) (pc : loop_pc) (envs : list loop_env)
    : ReconnectManager * loop_pc * list rc_event :=
  match envs with
  | [] => (rm, pc, [])
  | env :: envs' =>
      let '(rm, pc, ev) := loop_step rm r pc env in
      let '(rm, pc, ev') := loop_run rm r pc envs' in
      (rm, pc, ev ++ ev')
  end.

(** ** Termination *)

Definition is_connect (ev : rc_event) : bool := match ev with EvConnect _ => true | _ => false end.

Definition connects (evs : list rc_event) : Z := len (filter (λ ev, is_connect ev = true) evs).

Lemma connects_app a b : connects (a ++ b) = connects a + connects b.
Proof. unfold connects. by rewrite filter_app, len_app. Qed.

(** Steps left, and connection attempts left, with [k] retries. *)
Definition loop_measure (k attempt : Z) (pc : loop_pc) : Z :=
  match pc with
  | PcTop => 3 * (k - attempt) + 1
  | PcDelay => 3 * (k - attempt) + 3
  | PcConfirm => 3 * (k - attempt) + 2
  | PcDone => 0
  end.

Definition attempts_left (k attempt : Z) (pc : loop_pc) : Z :=
  match pc with
  | PcDelay => k - attempt + 1
  | PcDone => 0
  | _ => k - attempt
  end.

(** The entry keeps its identity, the table loses it only when the loop ends. *)
Lemma update_entry_lookup rm r f e :
  entry_store rm !! r = Some e → entry_store (update_entry rm r f) !! r = Some (f e).
Proof. intros H. cbn. by rewrite lookup_alter_eq, H. Qed.

(** Closes the arithmetic of one branch of the loop; [n] connects were made. *)
Ltac loop_arith n :=
  try change (connects _) with n;
  first [done | lia | by left | by right | right; lia].

(** One step: it ends, or makes progress with the attempts it has left. *)
Lemma loop_step_progress rm r pc env e k :
  entry_store rm !! r = Some e → MaxRetries (rcm_config rm) = k → 0 < k < max_int64 →
  0 ≤ re_attempt e ≤ k → pc ≠ PcDone →
  let '(rm', pc', ev) := loop_step rm r pc env in
  MaxRetries (rcm_config rm') = k ∧ rcm_closing rm' = rcm_closing rm
  ∧ (∃ e', entry_store rm' !! r = Some e' ∧ re_peerID e' = re_peerID e ∧ re_cancelled e' = re_cancelled e
     ∧ (pc' = PcDone ∨ 0 ≤ re_attempt e' ≤ k)
     ∧ loop_measure k (re_attempt e') pc' < loop_measure k (re_attempt e) pc
     ∧ connects ev + attempts_left k (re_attempt e') pc' ≤ attempts_left k (re_attempt e) pc
     ∧ (re_cancelled e = false → rcm_closing rm = false → le_connected env = false →
        connects ev + attempts_left k (re_attempt e') pc' = attempts_left k (re_attempt e) pc
        ∧ (pc' = PcDone → entries rm' !! re_peerID e = None
           ∧ ∃ err, ev = [EvGaveUp (re_peerID e) k err]))).
Proof.
  intros He Hk Hkr Ha Hpc. unfold loop_step. rewrite He.
  assert (∀ x, 0 ≤ x ≤ k + 1 → to_int64 x = x) as Hid
    by (intros; apply to_int64_id; unfold is_int64, min_int64, max_int64 in *; lia).
  destruct ((re_cancelled e || rcm_closing rm) && _) eqn:Hcl.
  { split; [done|]. split; [done|]. exists e. split_and!; try done; [by left|..].
    - destruct pc; cbn; done || lia.
    - change (connects []) with 0. destruct pc; cbn; done || lia.
    - intros Hc Hcl'. by rewrite Hc, Hcl' in Hcl. }
  destruct pc; [..|done].
  - destruct (le_connected env).
    { cbn. split; [done|]. split; [done|]. eexists. rewrite lookup_alter_eq, He. split; [done|]. cbn.
      split_and!; try loop_arith 0; done. }
    rewrite (Hid (re_attempt e + 1)) by lia. cbn. rewrite Hk.
    destruct (Z.ltb_spec 0 k); [|lia]. cbn.
    destruct (Z.ltb_spec k (re_attempt e + 1)); cbn.
    + split; [done|]. split; [done|]. rewrite lookup_alter_eq, lookup_alter_eq, He. eexists. split; [done|]. cbn.
      split_and!; try loop_arith 0.
      intros _ _ _. split; [change (connects _) with 0; lia|]. intros _. rewrite lookup_delete_eq. split; [done|].
      exists (re_lastError e). rewrite Hid by lia. do 2 f_equal. lia.
    + split; [done|]. split; [done|]. rewrite lookup_alter_eq, lookup_alter_eq, He. eexists. split; [done|]. cbn.
      split_and!; try loop_arith 0.
      intros _ _ _. split; [change (connects _) with 0; lia|done].
  - destruct (le_connected env).
    { cbn. split; [done|]. split; [done|]. eexists. rewrite lookup_alter_eq, He. split; [done|]. cbn.
      split_and!; try loop_arith 0; done. }
    destruct (le_connect env); cbn; (split; [done|]); (split; [done|]);
      rewrite ?lookup_alter_eq, He; (eexists; split; [done|]); cbn;
      (split_and!; try loop_arith 1);
      intros _ _ _; (split; [change (connects _) with 1; lia|done]).
  - destruct (le_connected env); cbn.
    { split; [done|]. split; [done|]. eexists. rewrite lookup_alter_eq, He. split; [done|]. cbn.
      split_and!; try loop_arith 0; done. }
    split; [done|]. split; [done|]. exists e. split_and!; loop_arith 0.
Qed.

Lemma loop_run_done rm r envs : loop_run rm r PcDone envs = (rm, PcDone, []).
Proof.
  revert rm. induction envs as [|env envs IH]; intros rm; [done|]. cbn [loop_run].
  assert (loop_step rm r PcDone env = (rm, PcDone, [])) as ->.
  { unfold loop_step. destruct (entry_store rm !! r); [|done]. by destruct (_ && _). }
  by rewrite IH.
Qed.

Lemma loop_run_spec envs rm r pc e k :
  entry_store rm !! r = Some e → MaxRetries (rcm_config rm) = k → 0 < k < max_int64 →
  0 ≤ re_attempt e ≤ k → pc ≠ PcDone →
  let '(rm', pc', ev) := loop_run rm r pc envs in
  connects ev ≤ attempts_left k (re_attempt e) pc
  ∧ (loop_measure k (re_attempt e) pc ≤ len envs → pc' = PcDone
     ∧ (re_cancelled e = false → rcm_closing rm = false → Forall (λ env, le_connected env = false) envs →
        connects ev = attempts_left k (re_attempt e) pc ∧ entries rm' !! re_peerID e = None
        ∧ ∃ ev' err, ev = ev' ++ [EvGaveUp (re_peerID e) k err])).
Proof.
  revert rm pc e. induction envs as [|env envs IH]; intros rm pc e He Hk Hkr Ha Hpc.
  { cbn [loop_run]. change (connects []) with 0. change (len (@nil loop_env)) with 0. destruct pc; cbn; done || lia. }
  cbn [loop_run]. pose proof (loop_step_progress rm r pc env e k He Hk Hkr Ha Hpc) as Hs.
  destruct (loop_step rm r pc env) as [[rm1 pc1] ev1].
  destruct Hs as (Hk1 & Hcl1 & e1 & He1 & Hid1 & Hca1 & Ha1 & Hm & Hc & Hfail).
  destruct (decide (pc1 = PcDone)) as [->|Hne].
  - rewrite loop_run_done, app_nil_r. cbn [attempts_left] in *. split; [lia|]. intros _. split; [done|].
    intros Hca Hcl Hall. inversion_clear Hall as [|? ? Hx _]. destruct (Hfail Hca Hcl Hx) as [Hceq Hd].
    destruct (Hd eq_refl) as (Hent & err & Hev). split; [lia|]. split; [done|]. exists [], err. done.
  - destruct Ha1 as [|Ha1]; [done|].
    specialize (IH rm1 pc1 e1 He1 Hk1 Hkr Ha1 Hne).
    destruct (loop_run rm1 r pc1 envs) as [[rm2 pc2] ev2]. destruct IH as [IHc IHd].
    rewrite connects_app. split; [lia|]. rewrite len_cons. intros Hlen.
    destruct IHd as [-> IHf]; [lia|]. split; [done|]. intros Hca Hcl Hall.
    inversion_clear Hall as [|? ? Hx Hall']. destruct (Hfail Hca Hcl Hx) as [Hceq _].
    destruct IHf as (Hc2 & Hent & ev' & err & ->); [congruence|congruence|done|].
    rewrite Hid1 in *. split; [lia|]. split; [done|]. exists (ev1 ++ ev'), err. by rewrite app_assoc.
Qed.

(** C27: A reconnect task with a retry limit ends: after at most three
    observations per retry and one more the goroutine has returned, it never
    connects more often than the limit allows, and when the peer never comes
    back and nobody cancels the task it connects exactly that often, removes its
    entry and reports that it gave up after that many attempts. *)
Theorem reconnect_terminates rm r e envs k :
  entry_store rm !! r = Some e → re_attempt e = 0 →
  MaxRetries (rcm_config rm) = k → 0 < k < max_int64 → 3 * k + 1 ≤ len envs →
  let '(rm', pc', ev) := loop_run rm r PcTop envs in
  pc' = PcDone ∧ connects ev ≤ k
  ∧ (re_cancelled e = false → rcm_closing rm = false → Forall (λ env, le_connected env = false) envs →
     connects ev = k ∧ entries rm' !! re_peerID e = None
     ∧ ∃ ev' err, ev = ev' ++ [EvGaveUp (re_peerID e) k err]).
Proof.
  intros He H0 Hk Hkr Hlen.
  pose proof (loop_run_spec envs rm r PcTop e k He Hk Hkr ltac:(lia) ltac:(done)) as H.
  destruct (loop_run rm r PcTop envs) as [[rm' pc'] ev]. cbn [attempts_left loop_measure] in H.
  rewrite H0, Z.sub_0_r in H. destruct H as [Hc Hd]. destruct (Hd ltac:(lia)). done.
Qed.

Definition demo_manager2 : ReconnectManager :=
  ScheduleReconnect (NewReconnectManager (Some (DefaultReconnectConfig <| MaxRetries := 2 |>)))
    (str "peer") (str "1.2.3.4:5") 7.

Definition demo_env : loop_env := MkLoopEnv false 8 (f64_lit 5 1) (Some "refused"%string) true.

Lemma reconnect_terminates_witness :
  ∃ r e, entry_store demo_manager2 !! r = Some e ∧
  let '(rm', pc', ev) := loop_run demo_manager2 r PcTop (replicate 7 demo_env) in
  pc' = PcDone ∧ connects ev ≤ 2
  ∧ (re_cancelled e = false → rcm_closing demo_manager2 = false →
     Forall (λ env, le_connected env = false) (replicate 7 demo_env) →
     connects ev = 2 ∧ entries rm' !! re_peerID e = None
     ∧ ∃ ev' err, ev = ev' ++ [EvGaveUp (re_peerID e) 2 err]).
Proof.
  exists 1%positive. eexists. split; [reflexivity|].
  apply reconnect_terminates; [reflexivity|reflexivity|reflexivity|split; reflexivity|].
  vm_compute. congruence.
Defined.

(** ** Scheduling *)

(** Scheduling is idempotent while a task is pending: a second call for the
    same peer, with whatever address and at whatever time, changes nothing, so a
    peer never has two reconnect goroutines from repeated disconnect reports;
    after [CancelReconnect] a new task may start. *)
Theorem schedule_idempotent rm peerID addr addr' now now' :
  let rm1 := ScheduleReconnect rm peerID addr now in
  rc_Enabled (rcm_config rm) = true → addr ≠ [] →
  ScheduleReconnect rm1 peerID addr' now' = rm1
  ∧ (∃ r, entries rm1 !! peerID = Some r)
  ∧ entries (CancelReconnect rm1 peerID) !! peerID = None
  ∧ (∀ other, other ≠ peerID → entries rm1 !! other = entries rm !! other).
Proof.
  cbn zeta. intros HE Ha.
  set (busy m := match entries m !! peerID ≫= λ r, entry_store m !! r with
    | Some entry => bool_decide (re_state entry = ReconnectStateConnecting)
                    || bool_decide (re_state entry = ReconnectStateWaiting)
    | None => false end).
  assert (∀ m a t, rc_Enabled (rcm_config m) = true → busy m = true → ScheduleReconnect m peerID a t = m) as Hbusy.
  { intros m a t Hm Hb. unfold ScheduleReconnect. rewrite Hm. cbn [negb orb].
    case_bool_decide; [done|]. unfold busy in Hb. by rewrite Hb. }
  assert (∀ m, busy m = true → ∃ r, entries m !! peerID = Some r) as Hr.
  { intros m. unfold busy. destruct (entries m !! peerID); [eauto|done]. }
  assert (∀ m, entries (CancelReconnect m peerID) !! peerID = None) as Hcancel.
  { intros m. unfold CancelReconnect. destruct (entries m !! peerID) eqn:E; [|done].
    cbn. apply lookup_delete_eq. }
  destruct (busy rm) eqn:Eb.
  { rewrite (Hbusy rm addr now) by done. auto. }
  assert (busy (ScheduleReconnect rm peerID addr now) = true
    ∧ rc_Enabled (rcm_config (ScheduleReconnect rm peerID addr now)) = true
    ∧ ∀ other, other ≠ peerID → entries (ScheduleReconnect rm peerID addr now) !! other = entries rm !! other)
    as (H1 & H2 & H3).
  { unfold ScheduleReconnect. rewrite HE. cbn [negb orb]. rewrite bool_decide_false by done.
    unfold busy in Eb. rewrite Eb. unfold busy. cbn. rewrite lookup_insert_eq. cbn.
    rewrite lookup_insert_eq. split; [done|]. split; [done|]. intros. by apply lookup_insert_ne. }
  auto.
Qed.

Lemma schedule_idempotent_witness :
  ScheduleReconnect demo_manager2 (str "peer") (str "other") 99 = demo_manager2.
Proof.
  apply (schedule_idempotent (NewReconnectManager (Some (DefaultReconnectConfig <| MaxRetries := 2 |>)))
    (str "peer") (str "1.2.3.4:5") (str "other") 7 99); [reflexivity|done].
Defined.

(** ** Backoff *)

(** The delay before an attempt is the integer part of a float that is not
    below the smallest delay and not above the largest, or of NaN; the bounds
    themselves are ordered and positive whatever the configuration. *)
Theorem backoff_clamped config attempt rnd :
  let '(lo, hi) := backoff_bounds config in
  0 < lo ∧ lo ≤ hi
  ∧ ∃ d, calculateBackoff config attempt rnd = f64_trunc d
      ∧ (d = f64_of_Z lo ∨ d = f64_of_Z hi ∨ d = S754_nan
         ∨ f64_ltb d (f64_of_Z lo) = false ∧ f64_ltb (f64_of_Z hi) d = false).
Proof.
  unfold calculateBackoff. destruct (backoff_bounds config) as [lo hi] eqn:E.
  assert (0 < lo ∧ lo ≤ hi) as [? ?].
  { unfold backoff_bounds, Millisecond in E. repeat zcase_in E; simplify_eq; lia. }
  split; [done|]. split; [done|]. eexists. split; [reflexivity|]. unfold backoff_float.
  set (d0 := if f64_ltb (S754_zero false) (JitterFactor config) then _ else _).
  destruct (f64_ltb d0 (f64_of_Z lo)) eqn:E1; destruct (f64_ltb (f64_of_Z hi) _) eqn:E2; auto 6.
Qed.

(** With the default configuration the bounds are one second and five minutes,
    and without jitter the delays double. *)
Example backoff_default_bounds : backoff_bounds DefaultReconnectConfig = (Second, 5 * Minute).
Proof. reflexivity. Qed.

Example backoff_doubles :
  map (λ n, calculateBackoff (DefaultReconnectConfig <| JitterFactor := S754_zero false |>) n (S754_zero false))
    [1; 2; 3; 4; 9; 10; 20] = map (Z.mul Second) [1; 2; 4; 8; 256; 300; 300].
Proof. reflexivity. Qed.

(** The clamp does not catch NaN: with the default backoff and jitter, once
    the power has overflowed to infinity (attempt 1100), a draw below one half
    makes the jitter minus infinity, the sum is NaN, both comparisons are false
    and the delay is the conversion of NaN, the smallest integer, so the loop
    retries at once; a draw above one half is clamped to the largest delay. *)
Theorem backoff_nan_after_overflow :
  calculateBackoff DefaultReconnectConfig 1100 (f64_lit 25 2) = min_int64
  ∧ calculateBackoff DefaultReconnectConfig 1100 (f64_lit 75 2) = 5 * Minute.
Proof. split; reflexivity. Qed.
