(* ===== verification/Config.v ===== *)
(** * Node configuration ([node/config.go])

    The configuration, its defaults, its options and its validation.  The logger
    is not modelled (it has no effect on the node); [resolvable] stands for
    [net.ResolveUDPAddr] succeeding on an address. *)

From Stdlib Require Import SpecFloat.
From S2P Require Import Prelude Float64 Reconnect Identity.

Record KCPConfig := MkKCPConfig {
  NoDelay : Z; Interval : Z; Resend : Z; NC : Z; SndWnd : Z; RcvWnd : Z; MTU : Z; StreamMode : bool }.

Definition DefaultKCPConfig : KCPConfig := MkKCPConfig 0 30 2 1 64 64 1350 true.

Record Config := MkConfig {
  NetworkPassword : gostring;
  ListenPort : Z;
  DialTimeout : Duration;
  HeartbeatInterval : Duration;
  HeartbeatTimeout : Duration;
  EnableHolePunch : bool;
  EnableRelay : bool;
  RelayNodes : list gostring;
  MaxPeers : Z;
  EnableRelayAuth : bool;
  RelayAuthTTL : Duration;
  cfg_Identity : option Identity;
  cfg_KCPConfig : option KCPConfig;
  EnableReconnect : bool;
  cfg_ReconnectConfig : option ReconnectConfig;
  MaxConsecutiveDecryptFailures : Z;
  FastRehandshakeBaseBackoff : Duration;
  FastRehandshakeMaxBackoff : Duration;
  FastRehandshakeWindow : Duration;
  FastRehandshakeMaxAttemptsWindow : Z;
  FastRehandshakeFailThreshold : Z;
  FastRehandshakePendingTTL : Duration;
  Channels : list gostring;
}.
#[global] Instance Config_eta : RecordEta Config := λ c,
  MkConfig (NetworkPassword c) (ListenPort c) (DialTimeout c) (HeartbeatInterval c) (HeartbeatTimeout c)
    (EnableHolePunch c) (EnableRelay c) (RelayNodes c) (MaxPeers c) (EnableRelayAuth c) (RelayAuthTTL c)
    (cfg_Identity c) (cfg_KCPConfig c) (EnableReconnect c) (cfg_ReconnectConfig c)
    (MaxConsecutiveDecryptFailures c) (FastRehandshakeBaseBackoff c) (FastRehandshakeMaxBackoff c)
    (FastRehandshakeWindow c) (FastRehandshakeMaxAttemptsWindow c) (FastRehandshakeFailThreshold c)
    (FastRehandshakePendingTTL c) (Channels c).

Definition DefaultConfig : Config :=
  MkConfig [] 0 (10 * Second) (5 * Second) (30 * Second) true true [] 50 true (5 * Minute)
    None None true None 16 (500 * Millisecond) (8 * Second) (30 * Second) 6 3 (30 * Second) [].

(** [if c { errs = append(errs, e) }]. *)
Definition err_if (c : bool) (e : string) : list string := if c then [e] else [].

Definition validate_reconnect (rc : ReconnectConfig) : list string :=
  err_if (MaxRetries rc <? 0) "ReconnectConfig.MaxRetries must be >= 0"
  ++ err_if (InitialDelay rc <=? 0) "ReconnectConfig.InitialDelay must be positive"
  ++ err_if (MaxDelay rc <=? 0) "ReconnectConfig.MaxDelay must be positive"
  ++ err_if ((0 <? InitialDelay rc) && (0 <? MaxDelay rc) && (MaxDelay rc <? InitialDelay rc))
       "ReconnectConfig.MaxDelay must be >= ReconnectConfig.InitialDelay"
  ++ err_if (f64_ltb (BackoffMultiplier rc) (f64_of_Z 1)) "ReconnectConfig.BackoffMultiplier must be >= 1"
  ++ err_if (f64_ltb (JitterFactor rc) (f64_of_Z 0) || f64_ltb (f64_of_Z 1) (JitterFactor rc))
       "ReconnectConfig.JitterFactor must be in [0,1]"
  ++ err_if (ReconnectTimeout rc <=? 0) "ReconnectConfig.ReconnectTimeout must be positive".

Definition Validate (resolvable : gostring → bool) (c : Config) : list string :=
  err_if (bool_decide (NetworkPassword c = [])) "NetworkPassword is required"
  ++ err_if ((ListenPort c <? 0) || (65535 <? ListenPort c)) "ListenPort must be between 0 and 65535"
  ++ err_if (DialTimeout c <=? 0) "DialTimeout must be positive"
  ++ err_if (HeartbeatInterval c <=? 0) "HeartbeatInterval must be positive"
  ++ err_if (HeartbeatTimeout c <=? 0) "HeartbeatTimeout must be positive"
  ++ err_if (HeartbeatTimeout c <=? HeartbeatInterval c) "HeartbeatTimeout must be greater than HeartbeatInterval"
  ++ err_if (HeartbeatTimeout c <? to_int64 (2 * HeartbeatInterval c))
       "HeartbeatTimeout should be at least 2x HeartbeatInterval for reliability"
  ++ err_if (MaxPeers c <? 1) "MaxPeers must be at least 1"
  ++ err_if (EnableRelayAuth c && (RelayAuthTTL c <=? 0))
       "RelayAuthTTL must be positive when EnableRelayAuth is true"
  ++ err_if (MaxConsecutiveDecryptFailures c <=? 0) "MaxConsecutiveDecryptFailures must be positive"
  ++ err_if (FastRehandshakeBaseBackoff c <=? 0) "FastRehandshakeBaseBackoff must be positive"
  ++ err_if (FastRehandshakeMaxBackoff c <=? 0) "FastRehandshakeMaxBackoff must be positive"
  ++ err_if (FastRehandshakeMaxBackoff c <? FastRehandshakeBaseBackoff c)
       "FastRehandshakeMaxBackoff must be >= FastRehandshakeBaseBackoff"
  ++ err_if (FastRehandshakeWindow c <=? 0) "FastRehandshakeWindow must be positive"
  ++ err_if (FastRehandshakeMaxAttemptsWindow c <=? 0) "FastRehandshakeMaxAttemptsWindow must be positive"
  ++ err_if (FastRehandshakeFailThreshold c <=? 0) "FastRehandshakeFailThreshold must be positive"
  ++ err_if (FastRehandshakePendingTTL c <=? 0) "FastRehandshakePendingTTL must be positive"
  ++ match cfg_ReconnectConfig c with Some rc => validate_reconnect rc | None => [] end
  ++ concat (map (λ addr, err_if (negb (resolvable addr)) "invalid relay address") (RelayNodes c)).

(** ** Options *)

Definition Option := Config → Config.

Definition WithNetworkPassword (v : gostring) : Option := λ c, c <| NetworkPassword := v |>.
Definition WithListenPort (v : Z) : Option := λ c, c <| ListenPort := v |>.
Definition WithDialTimeout (v : Duration) : Option := λ c, c <| DialTimeout := v |>.
Definition WithHeartbeatInterval (v : Duration) : Option := λ c, c <| HeartbeatInterval := v |>.
Definition WithEnableHolePunch (v : bool) : Option := λ c, c <| EnableHolePunch := v |>.
Definition WithEnableRelay (v : bool) : Option := λ c, c <| EnableRelay := v |>.
Definition WithMaxPeers (v : Z) : Option := λ c, c <| MaxPeers := v |>.
Definition WithRelayNodes (v : list gostring) : Option := λ c, c <| RelayNodes := v |>.
Definition WithEnableRelayAuth (v : bool) : Option := λ c, c <| EnableRelayAuth := v |>.
Definition WithRelayAuthTTL (v : Duration) : Option := λ c, c <| RelayAuthTTL := v |>.
Definition WithIdentity (v : option Identity) : Option := λ c, c <| cfg_Identity := v |>.
Definition WithKCPConfig (v : option KCPConfig) : Option := λ c, c <| cfg_KCPConfig := v |>.
Definition WithEnableReconnect (v : bool) : Option := λ c, c <| EnableReconnect := v |>.
Definition WithReconnectConfig (v : option ReconnectConfig) : Option := λ c, c <| cfg_ReconnectConfig := v |>.

Definition WithReconnectMaxRetries (maxRetries : Z) : Option := λ c,
  let rc := default DefaultReconnectConfig (cfg_ReconnectConfig c) in
  c <| cfg_ReconnectConfig := Some (rc <| MaxRetries := maxRetries |>) |>.

Definition WithReconnectBackoff (initialDelay maxDelay : Duration) (multiplier : float64) : Option := λ c,
  let rc := default DefaultReconnectConfig (cfg_ReconnectConfig c) in
  c <| cfg_ReconnectConfig := Some (rc <| InitialDelay := initialDelay |> <| MaxDelay := maxDelay |>
                                       <| BackoffMultiplier := multiplier |>) |>.

Definition WithMaxConsecutiveDecryptFailures (v : Z) : Option := λ c, c <| MaxConsecutiveDecryptFailures := v |>.

Definition WithFastRehandshakeBackoff (baseDelay maxDelay : Duration) : Option := λ c,
  c <| FastRehandshakeBaseBackoff := baseDelay |> <| FastRehandshakeMaxBackoff := maxDelay |>.

Definition WithFastRehandshakeWindow (window : Duration) (maxAttempts : Z) : Option := λ c,
  c <| FastRehandshakeWindow := window |> <| FastRehandshakeMaxAttemptsWindow := maxAttempts |>.

Definition WithFastRehandshakeFailThreshold (v : Z) : Option := λ c, c <| FastRehandshakeFailThreshold := v |>.
Definition WithFastRehandshakePendingTTL (v : Duration) : Option := λ c, c <| FastRehandshakePendingTTL := v |>.

Definition WithChannelID (channelName : gostring) : Option := λ c,
  if bool_decide (channelName ∈ Channels c) then c else c <| Channels ::= λ l, l ++ [channelName] |>.

(** ** Properties *)

Lemma err_if_nil c e : err_if c e = [] ↔ c = false.
Proof. unfold err_if. destruct c; naive_solver. Qed.

Lemma concat_nil {A} (l : list (list A)) : concat l = [] ↔ Forall (λ x, x = []) l.
Proof.
  induction l as [|x l IH]; [done|]. cbn. rewrite Forall_cons, <- IH. split.
  - intros H. by apply app_eq_nil in H.
  - intros [-> ->]. done.
Qed.

(** The conditions on the reconnect parameters. *)
Definition valid_reconnect (rc : ReconnectConfig) : Prop :=
  0 ≤ MaxRetries rc ∧ 0 < InitialDelay rc ∧ InitialDelay rc ≤ MaxDelay rc
  ∧ f64_ltb (BackoffMultiplier rc) (f64_of_Z 1) = false
  ∧ f64_ltb (JitterFactor rc) (f64_of_Z 0) = false ∧ f64_ltb (f64_of_Z 1) (JitterFactor rc) = false
  ∧ 0 < ReconnectTimeout rc.

Definition valid_config (resolvable : gostring → bool) (c : Config) : Prop :=
  NetworkPassword c ≠ [] ∧ 0 ≤ ListenPort c ≤ 65535 ∧ 0 < DialTimeout c
  ∧ 0 < HeartbeatInterval c ∧ HeartbeatInterval c < HeartbeatTimeout c
  ∧ to_int64 (2 * HeartbeatInterval c) ≤ HeartbeatTimeout c
  ∧ 1 ≤ MaxPeers c ∧ (EnableRelayAuth c = true → 0 < RelayAuthTTL c)
  ∧ 0 < MaxConsecutiveDecryptFailures c
  ∧ 0 < FastRehandshakeBaseBackoff c ∧ FastRehandshakeBaseBackoff c ≤ FastRehandshakeMaxBackoff c
  ∧ 0 < FastRehandshakeWindow c ∧ 0 < FastRehandshakeMaxAttemptsWindow c
  ∧ 0 < FastRehandshakeFailThreshold c ∧ 0 < FastRehandshakePendingTTL c
  ∧ (∀ rc, cfg_ReconnectConfig c = Some rc → valid_reconnect rc)
  ∧ (∀ addr, addr ∈ RelayNodes c → resolvable addr = true).

(** Turns a list of absent errors into the conditions they test. *)
Ltac no_errors :=
  rewrite ?app_nil, ?err_if_nil, ?orb_false_iff, ?andb_false_iff, ?Z.ltb_ge, ?Z.leb_gt.

Lemma app_nil {A} (a b : list A) : a ++ b = [] ↔ a = [] ∧ b = [].
Proof. split; [apply app_eq_nil|by intros [-> ->]]. Qed.

Lemma validate_reconnect_nil rc : validate_reconnect rc = [] ↔ valid_reconnect rc.
Proof.
  unfold validate_reconnect, valid_reconnect. no_errors.
  split; [intros (? & ? & ? & [[|]|] & ? & ? & ?); split_and!; try tauto; lia|].
  intros (? & ? & ? & ? & ? & ? & ?). split_and!; try done; try lia.
Qed.

(** [Validate] reports no error exactly for the configurations it means to
    accept: a password, a port in range, positive timings, a heartbeat timeout
    beyond the interval and at least its (64 bit) double, a peer limit, ordered
    backoffs, sane reconnect parameters and resolvable relay addresses. *)
Theorem validate_iff resolvable c : Validate resolvable c = [] ↔ valid_config resolvable c.
Proof.
  unfold Validate, valid_config. no_errors. rewrite bool_decide_eq_false, concat_nil, Forall_map, Forall_forall.
  assert ((match cfg_ReconnectConfig c with Some rc => validate_reconnect rc | None => [] end = []) ↔
    ∀ rc, cfg_ReconnectConfig c = Some rc → valid_reconnect rc) as ->.
  { destruct (cfg_ReconnectConfig c); [rewrite validate_reconnect_nil|]; naive_solver. }
  assert ((∀ x, x ∈ RelayNodes c → err_if (negb (resolvable x)) "invalid relay address" = []) ↔
    ∀ addr, addr ∈ RelayNodes c → resolvable addr = true) as ->.
  { setoid_rewrite err_if_nil. setoid_rewrite negb_false_iff. done. }
  destruct (EnableRelayAuth c); intuition (try lia; try done; auto).
Qed.

(** The defaults with a password are accepted. *)
Lemma default_config_valid resolvable pw :
  pw ≠ [] → Validate resolvable (WithNetworkPassword pw DefaultConfig) = [].
Proof. intros H. unfold Validate. cbn. by rewrite bool_decide_false. Qed.

(** Options never introduce a duplicate channel. *)
Lemma WithChannelID_NoDup ch c : NoDup (Channels c) → NoDup (Channels (WithChannelID ch c)).
Proof.
  intros H. unfold WithChannelID. case_bool_decide as E; [done|]. cbn.
  apply NoDup_app. split_and!; [done|set_solver|apply NoDup_singleton].
Qed.
