(* ===== verification/KcpManager.v ===== *)
(** * The KCP layer ([node/kcp.go], [node/kcp_transport.go])

    [NodeState] has the transport as the node sees it: a map from peers to
    addresses and effects.  Here is the layer below: KCP sessions as shared objects
    (the manager's table, the transport's table and the read loops refer to the same
    session), the manager, the transport with its mux, and the read loop as it is
    driven by arriving data, timeouts and errors.  The kcp-go library is a
    third-party package: whether one of its calls succeeds is an argument. *)

From S2P Require Import Prelude Protocol Stream Peer Identity Config Mux.

Abbreviation KRef := positive.

(** ** Sessions *)

(** The calls [configureSession] and the deadlines make on a [kcp.UDPSession]. *)
Inductive kcp_setting :=
| SetNoDelay (nodelay interval resend nc : Z)
| SetWindowSize (sndwnd rcvwnd : Z)
| SetMtu (mtu : Z)
| SetStreamMode (enable : bool)
| SetReadDeadline (t : Time)
| SetWriteDeadline (t : Time).

(** A [*KCPSession]; [ks_out] is what was written to the [kcp.UDPSession] below it,
    which [ks_under_closed] says is closed. *)
Record KCPSession := MkKCPSession {
  peerAddr : gostring;
  ks_config : KCPConfig;
  ks_settings : list kcp_setting;
  ks_out : bytes;
  ks_closed : bool;
  ks_under_closed : bool;
}.
#[global] Instance KCPSession_eta : RecordEta KCPSession := λ s,
  MkKCPSession (peerAddr s) (ks_config s) (ks_settings s) (ks_out s) (ks_closed s) (ks_under_closed s).

(** [ok] is whether the write of the library succeeds. *)
Definition KCPSession_Write (s : KCPSession) (b : bytes) (ok : bool) : KCPSession * option string :=
  if ks_closed s then (s, Some "use of closed network connection"%string)
  else if ok then (s <| ks_out ::= λ o, o ++ b |>, None) else (s, Some "write failed"%string).

(** [got] is what the library's read returns. *)
Definition KCPSession_Read (s : KCPSession) (got : option bytes) : option bytes :=
  if ks_closed s then None else got.

(** Closing the library's session twice is an error, which the flag prevents. *)
Definition KCPSession_Close (s : KCPSession) : KCPSession * option string :=
  if ks_closed s then (s, None)
  else (s <| ks_closed := true |> <| ks_under_closed := true |>,
        if ks_under_closed s then Some "io: read/write on closed pipe"%string else None).

Definition KCPSession_SetReadDeadline (s : KCPSession) (t : Time) : KCPSession :=
  s <| ks_settings ::= λ l, l ++ [SetReadDeadline t] |>.

Definition KCPSession_SetWriteDeadline (s : KCPSession) (t : Time) : KCPSession :=
  s <| ks_settings ::= λ l, l ++ [SetWriteDeadline t] |>.

Definition KCPSession_RemoteAddr (s : KCPSession) : gostring := peerAddr s.
Definition KCPSession_GetRTT (s : KCPSession) : Z := 0.
Definition KCPSession_GetRTTVar (s : KCPSession) : Z := 0.

(** ** The manager *)

(** [m.listener] is absent, open or closed. *)
Record KCPManager := MkKCPManager {
  km_listener : option bool;
  km_sessions : gmap gostring KRef;
  km_config : KCPConfig;
  km_closing : bool;
}.
#[global] Instance KCPManager_eta : RecordEta KCPManager := λ m,
  MkKCPManager (km_listener m) (km_sessions m) (km_config m) (km_closing m).

(** The layer: the sessions, the manager, the mux and the transport. *)
Record Layer := MkLayer {
  ks_heap : gmap KRef KCPSession;
  kt_manager : KCPManager;
  kt_mux : UDPMux;
  kt_sessions : gmap gostring KRef;
  kt_closing : bool;
}.
#[global] Instance Layer_eta : RecordEta Layer := λ l,
  MkLayer (ks_heap l) (kt_manager l) (kt_mux l) (kt_sessions l) (kt_closing l).

Definition NewKCPManager (config : option KCPConfig) : KCPManager :=
  MkKCPManager None ∅ (default DefaultKCPConfig config) false.

(** A listener whose buffers cannot be set is closed but stays installed. *)
Definition Manager_Listen (listen_ok rbuf_ok wbuf_ok : bool) (m : KCPManager) : KCPManager * option string :=
  if negb listen_ok then (m, Some "listen failed"%string)
  else if negb rbuf_ok then (m <| km_listener := Some false |>, Some "set read buffer failed"%string)
  else if negb wbuf_ok then (m <| km_listener := Some false |>, Some "set write buffer failed"%string)
  else (m <| km_listener := Some true |>, None).

Definition ListenOnConn (serve_ok : bool) (m : KCPManager) : KCPManager * option string :=
  if serve_ok then (m <| km_listener := Some true |>, None) else (m, Some "serve failed"%string).

Definition configureSession (cfg : KCPConfig) (s : KCPSession) : KCPSession :=
  s <| ks_settings ::= λ l, l ++
    [SetNoDelay (NoDelay cfg) (Interval cfg) (Resend cfg) (NC cfg); SetWindowSize (SndWnd cfg) (RcvWnd cfg);
     SetMtu (MTU cfg); SetStreamMode (StreamMode cfg); SetReadDeadline time_zero; SetWriteDeadline time_zero] |>.

(** The end of [Accept] and of every [Dial]: the session is configured, wrapped and
    stored under its address, over whatever is stored there. *)
Definition add_session (addr : gostring) (l : Layer) : Layer * KRef :=
  let r := fresh (dom (ks_heap l)) in
  let cfg := km_config (kt_manager l) in
  let s := configureSession cfg (MkKCPSession addr cfg [] [] false false) in
  (l <| ks_heap ::= <[r := s]> |>
     <| kt_manager ::= λ m, m <| km_sessions ::= <[addr := r]> |> |>, r).

(** [accepted] is the remote address of the session the library accepts. *)
Definition Manager_Accept (accepted : option gostring) (l : Layer) : Layer * (string + KRef) :=
  match km_listener (kt_manager l) with
  | None => (l, inl "use of closed network connection"%string)
  | Some _ =>
      match accepted with
      | None => (l, inl "accept failed"%string)
      | Some addr => let '(l', r) := add_session addr l in (l', inr r)
      end
  end.

(** [dialed] is the remote address of the session the library dials. *)
Definition Manager_Dial (dialed : option gostring) (l : Layer) : Layer * (string + KRef) :=
  match dialed with
  | None => (l, inl "dial failed"%string)
  | Some addr => let '(l', r) := add_session addr l in (l', inr r)
  end.

(** [resolved] is the address the remote address resolves to.  The boolean of the
    result says that the local UDP connection was closed again. *)
Definition DialWithLocalAddr (local_ok : bool) (resolved : option gostring) (dial_ok conn_ok : bool) (l : Layer)
    : Layer * bool * (string + KRef) :=
  if negb local_ok then (l, false, inl "resolve failed"%string) else
  match resolved with
  | None => (l, false, inl "resolve failed"%string)
  | Some raddr =>
      if negb dial_ok then (l, false, inl "dial failed"%string)
      else if negb conn_ok then (l, true, inl "new connection failed"%string)
      else let '(l', r) := add_session raddr l in (l', false, inr r)
  end.

Definition DialWithConn (resolved : option gostring) (conn_ok : bool) (l : Layer) : Layer * (string + KRef) :=
  match resolved with
  | None => (l, inl "resolve failed"%string)
  | Some raddr =>
      if negb conn_ok then (l, inl "new connection failed"%string)
      else let '(l', r) := add_session raddr l in (l', inr r)
  end.

Definition GetSession (m : KCPManager) (addr : gostring) : option KRef := km_sessions m !! addr.

(** [session.Close()] on a shared session. *)
Definition close_ref (r : KRef) (l : Layer) : Layer := l <| ks_heap ::= alter (λ s, (KCPSession_Close s).1) r |>.

Definition Manager_RemoveSession (addr : gostring) (l : Layer) : Layer :=
  match km_sessions (kt_manager l) !! addr with
  | Some r => close_ref r l <| kt_manager ::= λ m, m <| km_sessions ::= delete addr |> |>
  | None => l
  end.

(** Closing a closed channel panics. *)
Definition Manager_Close (l : Layer) : option Layer :=
  if km_closing (kt_manager l) then None else
  let l := l <| kt_manager ::= λ m, m <| km_closing := true |> |> in
  let l := foldr (λ e, close_ref e.2) l (map_to_list (km_sessions (kt_manager l))) in
  Some (l <| kt_manager ::= λ m, m <| km_sessions := ∅ |> <| km_listener ::= fmap (λ _, false) |> |>).

(** ** The transport *)

Definition NewKCPTransport (config : option KCPConfig) (mux : UDPMux) : Layer :=
  MkLayer ∅ (NewKCPManager (Some (default DefaultKCPConfig config))) mux ∅ false.

(** The accept loop is started when the result is no error. *)
Definition Transport_Start (serve_ok : bool) (l : Layer) : Layer * option string :=
  let '(m, err) := ListenOnConn serve_ok (kt_manager l) in
  (l <| kt_manager := m |>, match err with Some _ => Some "KCP listen failed"%string | None => None end).

(** What happens during one turn of [acceptLoop]: the library accepts a session or
    fails, and the transport may have been closed by then. *)
Record accept_event := AcceptEvent { ae_session : option gostring; ae_closing : bool }.

(** The sessions handed to [handleSession], until the loop returns or the events
    are over. *)
Fixpoint acceptLoop (events : list accept_event) (l : Layer) : Layer * list KRef :=
  match events with
  | [] => (l, [])
  | ev :: events' =>
      if kt_closing l then (l, []) else
      let '(l, r) := Manager_Accept (ae_session ev) l in
      let l := l <| kt_closing ::= orb (ae_closing ev) |> in
      match r with
      | inl _ => acceptLoop events' l
      | inr s => let '(l', rs) := acceptLoop events' l in (l', s :: rs)
      end
  end.

(** [resolved] and [conn_ok] are for [DialWithConn].  [None] is the panic of
    [peerID[:8]]. *)
Definition Transport_UpgradePeer (peerID remoteAddrStr : gostring) (resolved : option gostring) (conn_ok : bool)
    (l : Layer) : option (Layer * (string + KRef)) :=
  let '(mux, handler) := RegisterKCPHandler (kt_mux l) remoteAddrStr in
  let '(l, r) := DialWithConn resolved conn_ok (l <| kt_mux := mux |>) in
  match r with
  | inl _ => Some (l <| kt_mux ::= λ m, UnregisterKCPHandler m remoteAddrStr |>, inl "KCP dial failed"%string)
  | inr s =>
      let l := l <| kt_sessions ::= <[peerID := s]> |> in
      if len peerID <? 8 then None else Some (l, inr s)
  end.

Definition Transport_Send (peerID : gostring) (data : bytes) (ok : bool) (l : Layer) : Layer * option string :=
  match kt_sessions l !! peerID with
  | None => (l, Some "no KCP session"%string)
  | Some r =>
      match ks_heap l !! r with
      | None => (l, Some "no KCP session"%string)
      | Some s =>
          let frame := make_bytes (2 + len data) in
          let frame := put_be 2 frame 0 (to_uint16 (len data)) in
          let frame := copy_at frame 2 data in
          let '(s', err) := KCPSession_Write s frame ok in
          (l <| ks_heap ::= <[r := s']> |>, match err with Some _ => Some "write failed"%string | None => None end)
      end
  end.

Definition Transport_HasSession (peerID : gostring) (l : Layer) : bool :=
  bool_decide (is_Some (kt_sessions l !! peerID)).

(** The address of a shared session. *)
Definition addr_of (l : Layer) (r : KRef) : gostring := default [] (peerAddr <$> ks_heap l !! r).

Definition Transport_RemoveSession (peerID : gostring) (l : Layer) : Layer :=
  match kt_sessions l !! peerID with
  | None => l
  | Some r =>
      let raddr := addr_of l r in
      close_ref r (l <| kt_sessions ::= delete peerID |>) <| kt_mux ::= λ m, UnregisterKCPHandler m raddr |>
  end.

Definition Transport_GetRTT (peerID : gostring) (l : Layer) : Z :=
  match kt_sessions l !! peerID ≫= λ r, ks_heap l !! r with
  | Some s => KCPSession_GetRTT s
  | None => 0
  end.

Definition Transport_Close (l : Layer) : option Layer :=
  if kt_closing l then None else
  match Manager_Close (l <| kt_closing := true |>) with
  | None => None
  | Some l => Some (foldr (λ e, Transport_RemoveSession e.1) l (map_to_list (kt_sessions l)))
  end.

(** ** The read loop, driven by events *)

Inductive read_event :=
| Arrived (chunk : bytes)
| TimedOut
| ReadFailed
| TransportClosing.

(** Where [handleSession] waits: in [io.ReadFull] of the header or of the body,
    with what it has read so far; or it has returned, closing its session. *)
Inductive read_state :=
| InHeader (got : bytes)
| InBody (length : Z) (got : bytes)
| Returned.

Record reader := MkReader { rd_state : read_state; rd_closing : bool }.

Definition loop_head (closing : bool) : reader := MkReader (if closing then Returned else InHeader []) closing.

Definition read_byte (r : reader) (b : byte) : reader * list (byte * bytes) :=
  match rd_state r with
  | Returned => (r, [])
  | InHeader got =>
      let header := got ++ [b] in
      if len header <? 2 then (MkReader (InHeader header) (rd_closing r), []) else
      let length := DecodeTCPFrameLength header in
      if length =? 0 then (loop_head (rd_closing r), [])
      else (MkReader (InBody length []) (rd_closing r), [])
  | InBody length got =>
      let buf := got ++ [b] in
      if len buf <? length then (MkReader (InBody length buf) (rd_closing r), [])
      else (loop_head (rd_closing r), option_list (frame_packet buf))
  end.

Fixpoint read_bytes (r : reader) (l : bytes) : reader * list (byte * bytes) :=
  match l with
  | [] => (r, [])
  | b :: l' =>
      let '(r, ps) := read_byte r b in
      let '(r, ps') := read_bytes r l' in (r, ps ++ ps')
  end.

(** The deadline of a header is one second and a timeout starts the loop over; the
    deadline of a body is five seconds and a timeout ends the loop. *)
Definition read_event_step (r : reader) (ev : read_event) : reader * list (byte * bytes) :=
  match ev, rd_state r with
  | Arrived chunk, _ => read_bytes r chunk
  | TimedOut, InHeader _ => (loop_head (rd_closing r), [])
  | TimedOut, _ | ReadFailed, _ => (MkReader Returned (rd_closing r), [])
  | TransportClosing, _ => (MkReader (rd_state r) true, [])
  end.

(** The packets handed to [handlePacket]. *)
Fixpoint session_loop (r : reader) (evs : list read_event) : reader * list (byte * bytes) :=
  match evs with
  | [] => (r, [])
  | ev :: evs' =>
      let '(r, ps) := read_event_step r ev in
      let '(r, ps') := session_loop r evs' in (r, ps ++ ps')
  end.

Definition start_reader : reader := MkReader (InHeader []) false.

(** ** The read loop and the stream *)

(** No read fails, the transport stays open, and a read times out only between
    frames. *)
Fixpoint calm (r : reader) (evs : list read_event) : Prop :=
  match evs with
  | [] => True
  | ev :: evs' =>
      match ev with
      | Arrived _ => True
      | TimedOut => rd_state r = InHeader []
      | _ => False
      end ∧ calm (read_event_step r ev).1 evs'
  end.

Definition arrived (evs : list read_event) : bytes :=
  evs ≫= λ ev, match ev with Arrived chunk => chunk | _ => [] end.

Lemma read_bytes_app r a b :
  read_bytes r (a ++ b)
  = ((read_bytes (read_bytes r a).1 b).1, (read_bytes r a).2 ++ (read_bytes (read_bytes r a).1 b).2).
Proof.
  revert r. induction a as [|c a IH]; intros r; [cbn; by destruct (read_bytes r b)|].
  cbn [app read_bytes]. destruct (read_byte r c) as [r1 ps]. rewrite IH.
  destruct (read_bytes r1 a) as [r2 ps2]. cbn [fst snd]. by rewrite app_assoc.
Qed.

Lemma read_byte_open r b : rd_closing (read_byte r b).1 = rd_closing r.
Proof. unfold read_byte. destruct (rd_state r); repeat zcase; done. Qed.

Lemma read_bytes_open r l : rd_closing (read_bytes r l).1 = rd_closing r.
Proof.
  revert r. induction l as [|b l IH]; intros r; [done|]. cbn [read_bytes].
  destruct (read_byte r b) as [r1 ps] eqn:E. destruct (read_bytes r1 l) as [r2 ps2] eqn:E2. cbn [fst].
  change r2 with (r2, ps2).1. rewrite <- E2, IH. change r1 with (r1, ps).1. by rewrite <- E, read_byte_open.
Qed.

(** Calm events are one long read. *)
Lemma session_loop_calm r evs :
  rd_closing r = false → calm r evs → session_loop r evs = read_bytes r (arrived evs).
Proof.
  revert r. induction evs as [|ev evs IH]; intros r Ho; [done|]. intros [He Hc]. cbn [session_loop].
  change (arrived (ev :: evs)) with ((match ev with Arrived chunk => chunk | _ => [] end) ++ arrived evs).
  destruct ev as [chunk| | |]; [| |done..].
  - rewrite read_bytes_app. cbn [read_event_step] in *. destruct (read_bytes r chunk) as [r1 ps] eqn:E.
    cbn [fst snd] in *. rewrite IH; [by destruct (read_bytes r1 _)| |done].
    change r1 with (r1, ps).1. by rewrite <- E, read_bytes_open.
  - cbn [read_event_step] in *. rewrite He in *. cbn [fst] in Hc. rewrite IH by done.
    destruct r as [st cl]. cbn in *. subst st cl. cbn. by destruct (read_bytes _ _).
Qed.

(** Reading a body of which [need] bytes are still to come. *)
Lemma read_body n got l :
  len got < n →
  read_bytes (MkReader (InBody n got) false) l
  = if len got + len l <? n then (MkReader (InBody n (got ++ l)) false, [])
    else let k := Z.to_nat (n - len got) in
         ((read_bytes start_reader (drop k l)).1,
          option_list (frame_packet (got ++ take k l)) ++ (read_bytes start_reader (drop k l)).2).
Proof.
  revert got. induction l as [|b l IH]; intros got Hg.
  - rewrite len_nil. zcase; [|lia]. cbn [read_bytes]. by rewrite app_nil_r.
  - cbn [read_bytes read_byte rd_state rd_closing]. rewrite len_app, !len_cons, len_nil.
    pose proof (len_nonneg l). destruct (Z.ltb_spec (len got + (1 + 0)) n).
    + rewrite IH by (rewrite len_app, len_cons, len_nil; lia). rewrite len_app, len_cons, len_nil.
      replace (len got + (1 + 0) + len l) with (len got + (1 + len l)) by lia.
      cbv zeta. zcase; rewrite <- app_assoc; [done|].
      replace (Z.to_nat (n - len got)) with (S (Z.to_nat (n - (len got + (1 + 0))))) by lia. done.
    + replace (Z.to_nat (n - len got)) with 1%nat by lia. zcase; [lia|].
      cbn [take drop]. rewrite drop_0. change (loop_head false) with start_reader.
      by destruct (read_bytes start_reader l).
Qed.

Lemma read_header a b l :
  read_bytes start_reader (a :: b :: l)
  = let n := DecodeTCPFrameLength [a; b] in
    if n =? 0 then read_bytes start_reader l else read_bytes (MkReader (InBody n []) false) l.
Proof.
  cbv zeta. cbn [read_bytes]. change (read_byte start_reader a) with (MkReader (InHeader [a]) false, @nil (byte * bytes)).
  cbv beta iota.
  assert (read_byte (MkReader (InHeader [a]) false) b
          = (if DecodeTCPFrameLength [a; b] =? 0 then start_reader
             else MkReader (InBody (DecodeTCPFrameLength [a; b]) []) false, [])) as ->.
  { unfold read_byte. cbn [rd_state rd_closing app]. change (len [a; b] <? 2) with false. cbv iota.
    by destruct (_ =? 0). }
  destruct (_ =? 0); by destruct (read_bytes _ l).
Qed.

(** The read loop dispatches what [Stream.handleSession] reads off the stream. *)
Lemma read_bytes_stream l :
  (read_bytes start_reader l).2 = (handleSession (S (length l)) l).1.
Proof.
  induction l as [l IH] using (induction_ltof1 _ length). unfold ltof in IH.
  destruct l as [|a [|b l]]; [done..|].
  rewrite read_header. cbv zeta. cbn [handleSession]. unfold read_frame.
  destruct (Z.ltb_spec (len (a :: b :: l)) 2) as [Hl|_]; [len_solve|].
  replace (DecodeTCPFrameLength (a :: b :: l)) with (DecodeTCPFrameLength [a; b]) by done.
  cbn [drop]. rewrite drop_0. pose proof (len_nonneg l).
  assert (0 ≤ DecodeTCPFrameLength [a; b]) by (rewrite DecodeTCPFrameLength_eq; apply be_value_range).
  destruct (Z.eqb_spec (DecodeTCPFrameLength [a; b]) 0).
  - rewrite IH by (cbn; lia). by rewrite (handleSession_fuel_enough _ (length (a :: b :: l))) by (cbn; lia).
  - rewrite read_body by (rewrite len_nil; lia). rewrite len_nil, Z.add_0_l, Z.sub_0_r. zcase; [done|].
    cbv zeta. cbn [app snd].
    rewrite IH by (rewrite length_drop; cbn; lia).
    rewrite (handleSession_fuel_enough _ (length (a :: b :: l))) by (rewrite ?length_drop; cbn; lia).
    destruct (handleSession _ (drop _ l)), (frame_packet _); done.
Qed.

(** C17: the event-driven read loop of a KCP session is equivalent to reading the stream at once: however the bytes are cut
    into chunks, and with any timeouts between frames, handleSession dispatches exactly the packets of the concatenated
    stream, in order. *)
Theorem session_loop_stream evs :
  calm start_reader evs →
  (session_loop start_reader evs).2 = (handleSession (S (length (arrived evs))) (arrived evs)).1.
Proof. intros Hc. by rewrite session_loop_calm, read_bytes_stream. Qed.

Lemma session_loop_stream_witness :
  (session_loop start_reader
    [Arrived [x00]; Arrived ([x06] ++ str "TE"); Arrived (str "NT" ++ [x04; x0a]); TimedOut; Arrived [x00]]).2
  = [(x04, [x0a])].
Proof.
  rewrite session_loop_stream; [reflexivity|]. repeat split.
Defined.

(** A timeout after the first byte of a header costs the session its framing: the byte is dropped, the second byte and
    the first of the magic are taken for a length, and neither the packet (of less than 256 bytes) nor what follows is
    dispatched before more than 84 + 256 * length bytes have arrived. *)
Theorem header_timeout_loses_packets t payload more :
  5 + len payload < 256 →
  5 + len payload + len more ≤ 84 + 256 * (5 + len payload) →
  session_loop start_reader
    [Arrived [x00]; TimedOut; Arrived (drop 1 (kcp_send_frame (MagicBytes ++ t :: payload)) ++ more)]
  = (MkReader (InBody (84 + 256 * (5 + len payload)) (str "ENT" ++ t :: payload ++ more)) false, []).
Proof.
  intros Hn Hm. pose proof (len_nonneg payload). pose proof (len_nonneg more).
  rewrite kcp_send_frame_eq, EncodeTCPFrame_eq, be_bytes_2.
  change MagicBytes with (x54 :: str "ENT"). cbn [app drop].
  set (n := len _). assert (n = 5 + len payload) as Hlen by (unfold n; rewrite len_cons, len_app, len_cons; change (len (str "ENT")) with 3; lia).
  assert (∀ l, session_loop start_reader [Arrived [x00]; TimedOut; Arrived l] = read_bytes start_reader l) as ->.
  { intros l. cbn -[read_bytes]. change (read_bytes start_reader [x00]) with (MkReader (InHeader [x00]) false, @nil (byte * bytes)).
    cbn -[read_bytes]. change (loop_head false) with start_reader.
    destruct (read_bytes start_reader l). by rewrite app_nil_r. }
  rewrite read_header. cbv zeta.
  assert (DecodeTCPFrameLength [byte_of_Z n; x54] = 84 + 256 * (5 + len payload)) as ->.
  { rewrite DecodeTCPFrameLength_eq, !be_value_cons, Z_of_byte_of_Z, Z.mod_small by lia.
    rewrite !len_cons, len_nil. cbn. lia. }
  zcase; [lia|]. rewrite read_body by (rewrite len_nil; lia). rewrite len_nil, Z.add_0_l.
  zcase; [by rewrite <- app_assoc|].
  rewrite !len_app, len_cons in *. change (len (str "ENT")) with 3 in *. lia.
Qed.

Lemma header_timeout_loses_packets_witness :
  session_loop start_reader
    [Arrived [x00]; TimedOut; Arrived (drop 1 (kcp_send_frame (MagicBytes ++ x04 :: [x0a])) ++ [x01])]
  = (MkReader (InBody 1620 (str "ENT" ++ [x04; x0a; x01])) false, []).
Proof. apply (header_timeout_loses_packets x04 [x0a] [x01]); vm_compute; [reflexivity|discriminate]. Defined.

(** ** The invariant of the layer *)

Lemma alter_insert_lookup {A} (f : A → A) (m : gmap KRef A) r x :
  m !! r = Some x → alter f r m = <[r := f x]> m.
Proof.
  intros H. apply map_eq. intros r'. destruct (decide (r = r')) as [<-|].
  - by rewrite lookup_alter_eq, lookup_insert_eq, H.
  - by rewrite lookup_alter_ne, lookup_insert_ne.
Qed.

Definition config_calls (cfg : KCPConfig) : list kcp_setting :=
  ks_settings (configureSession cfg (MkKCPSession [] cfg [] [] false false)).

(** A session carries the configuration of the manager, applied before any
    deadline, and its flag agrees with the session of the library. *)
Definition session_wf (cfg : KCPConfig) (s : KCPSession) : Prop :=
  ks_config s = cfg ∧ ks_under_closed s = ks_closed s ∧ ∃ rest, ks_settings s = config_calls cfg ++ rest.

Record layer_wf (l : Layer) : Prop := {
  wf_heap : ∀ r s, ks_heap l !! r = Some s → session_wf (km_config (kt_manager l)) s;
  wf_manager : ∀ a r, km_sessions (kt_manager l) !! a = Some r →
    ∃ s, ks_heap l !! r = Some s ∧ peerAddr s = a;
  wf_transport : ∀ p r, kt_sessions l !! p = Some r → is_Some (ks_heap l !! r);
}.

(** Everything that happens to the layer. *)
Inductive layer_step : Layer → Layer → Prop :=
| step_start ok l : layer_step l (Transport_Start ok l).1
| step_listen a b c l : layer_step l (l <| kt_manager := (Manager_Listen a b c (kt_manager l)).1 |>)
| step_accept acc l : layer_step l (Manager_Accept acc l).1
| step_dial d l : layer_step l (Manager_Dial d l).1
| step_dial_local a r b c l : layer_step l (DialWithLocalAddr a r b c l).1.1
| step_dial_conn r ok l : layer_step l (DialWithConn r ok l).1
| step_upgrade p a r ok l l' res : Transport_UpgradePeer p a r ok l = Some (l', res) → layer_step l l'
| step_send p data ok l : layer_step l (Transport_Send p data ok l).1
| step_deadline r t l : layer_step l (l <| ks_heap ::= alter (λ s, KCPSession_SetReadDeadline s t) r |>)
| step_remove p l : layer_step l (Transport_RemoveSession p l)
| step_manager_remove a l : layer_step l (Manager_RemoveSession a l)
| step_session_end r l : layer_step l (close_ref r l)
| step_close l l' : Transport_Close l = Some l' → layer_step l l'.

Lemma config_wf addr cfg : session_wf cfg (configureSession cfg (MkKCPSession addr cfg [] [] false false)).
Proof. split_and!; [done..|]. exists []. by rewrite app_nil_r. Qed.

(** A change of one session that keeps its address keeps the invariant. *)
Lemma layer_wf_alter f r l :
  (∀ s cfg, session_wf cfg s → session_wf cfg (f s) ∧ peerAddr (f s) = peerAddr s) →
  layer_wf l → layer_wf (l <| ks_heap ::= alter f r |>).
Proof.
  intros Hf [Hh Hm Ht]. split; cbn.
  - intros r' s [[<- (s0 & Hs & ->)]|[? Hs]]%lookup_alter_Some; [|by eauto]. apply Hf; eauto.
  - intros a r' (s & Hs & <-)%Hm. destruct (decide (r = r')) as [<-|].
    + exists (f s). rewrite lookup_alter_eq, Hs. split; [done|]. by eapply Hf, Hh.
    + exists s. by rewrite lookup_alter_ne.
  - intros p r' Hr. rewrite lookup_alter. destruct (decide (r = r')); [|by eauto].
    subst. by rewrite fmap_is_Some; eauto.
Qed.

Lemma layer_wf_close r l : layer_wf l → layer_wf (close_ref r l).
Proof.
  apply layer_wf_alter. intros s cfg (? & ? & ?). unfold KCPSession_Close, session_wf.
  destruct (ks_closed s) eqn:E; cbn; [by rewrite E|done].
Qed.

Lemma layer_wf_add addr l l' r :
  layer_wf l → add_session addr l = (l', r) → layer_wf l' ∧ is_Some (ks_heap l' !! r).
Proof.
  intros [Hh Hm Ht]. unfold add_session. cbv zeta. set (r0 := fresh _). intros [= <- <-].
  assert (ks_heap l !! r0 = None) as Hf by (apply not_elem_of_dom, is_fresh).
  split; [split; cbn|cbn; rewrite lookup_insert_eq; eauto].
  - intros r' s [[_ <-]|[_ Hs]]%lookup_insert_Some; [apply config_wf|by eauto].
  - intros a r' [[<- <-]|[_ Hr]]%lookup_insert_Some; [rewrite lookup_insert_eq; eauto|].
    destruct (Hm a r' Hr) as (s & Hs & <-). exists s. by rewrite lookup_insert_ne by congruence.
  - intros p r' Hr. rewrite lookup_insert_is_Some. destruct (decide (r0 = r')); eauto.
Qed.

Lemma layer_wf_unset p l : layer_wf l → layer_wf (l <| kt_sessions ::= delete p |>).
Proof. intros [Hh Hm Ht]. split; cbn; [done..|]. intros q r [_ Hr]%lookup_delete_Some. by eauto. Qed.

Lemma layer_wf_set p r l : is_Some (ks_heap l !! r) → layer_wf l → layer_wf (l <| kt_sessions ::= <[p := r]> |>).
Proof.
  intros Hs [Hh Hm Ht]. split; cbn; [done..|].
  intros q r' [[_ <-]|[_ Hr]]%lookup_insert_Some; by eauto.
Qed.

Lemma layer_wf_mux f l : layer_wf l → layer_wf (l <| kt_mux ::= f |>).
Proof. intros [Hh Hm Ht]. by split. Qed.

Lemma layer_wf_remove p l : layer_wf l → layer_wf (Transport_RemoveSession p l).
Proof.
  intros Hwf. unfold Transport_RemoveSession. destruct (kt_sessions l !! p); [|done].
  by apply layer_wf_mux, layer_wf_close, layer_wf_unset.
Qed.

Lemma layer_wf_manager_close l l' : layer_wf l → Manager_Close l = Some l' → layer_wf l'.
Proof.
  intros Hwf. unfold Manager_Close. destruct (km_closing _); [done|]. cbv zeta. intros [= <-].
  set (l1 := l <| kt_manager ::= _ |>).
  assert (layer_wf l1) as H1 by (destruct Hwf; by split).
  assert (∀ es : list (gostring * KRef), layer_wf (foldr (λ e, close_ref e.2) l1 es)) as H2.
  { intros es. induction es as [|e es IH]; [done|]. by apply layer_wf_close. }
  specialize (H2 (map_to_list (km_sessions (kt_manager l1)))). destruct H2 as [Hh Hm Ht].
  split; cbn; [done| |done]. intros a r. by rewrite lookup_empty.
Qed.

Lemma layer_wf_dial_conn r ok l l' x :
  layer_wf l → DialWithConn r ok l = (l', x) →
  layer_wf l' ∧ match x with inr s => is_Some (ks_heap l' !! s) | inl _ => l' = l end.
Proof.
  intros Hwf. unfold DialWithConn. destruct r as [a|]; [|by intros [= <- <-]].
  destruct ok; cbn [negb]; [|by intros [= <- <-]].
  destruct (add_session a l) as [l1 s] eqn:E. intros [= <- <-]. by eapply layer_wf_add.
Qed.

Lemma layer_wf_upgrade p a r ok l l' x :
  layer_wf l → Transport_UpgradePeer p a r ok l = Some (l', x) → layer_wf l'.
Proof.
  intros Hwf. unfold Transport_UpgradePeer. destruct (RegisterKCPHandler _ _) as [mux h].
  destruct (DialWithConn _ _ _) as [l1 y] eqn:E.
  apply layer_wf_dial_conn in E as [H1 Hy]; [|by apply layer_wf_mux].
  destruct y as [e|s].
  - intros [= <- <-]. by apply layer_wf_mux.
  - destruct (_ <? _); [done|]. intros [= <- <-]. by apply layer_wf_set.
Qed.

Lemma layer_wf_send p data ok l : layer_wf l → layer_wf (Transport_Send p data ok l).1.
Proof.
  intros Hwf. unfold Transport_Send. destruct (kt_sessions l !! p) as [r|]; [|done].
  destruct (ks_heap l !! r) as [s|] eqn:Es; [|done]. cbv zeta.
  set (frame := copy_at _ _ _).
  assert (l <| ks_heap ::= <[r := (KCPSession_Write s frame ok).1]> |>
          = l <| ks_heap ::= alter (λ s, (KCPSession_Write s frame ok).1) r |>) as E
    by (destruct l; unfold set_field; cbn in *; f_equal; by rewrite (alter_insert_lookup _ _ _ _ Es)).
  destruct (KCPSession_Write s frame ok) as [s' err]. cbn [fst] in *. rewrite E.
  apply layer_wf_alter; [|done]. clear. intros s cfg (? & ? & ?). unfold KCPSession_Write, session_wf.
  destruct (ks_closed s) eqn:E, ok; cbn; rewrite ?E; done.
Qed.

Lemma layer_wf_remove_all es l :
  layer_wf l → layer_wf (foldr (λ e : gostring * KRef, Transport_RemoveSession e.1) l es).
Proof. intros Hwf. induction es as [|e es IH]; [done|]. by apply layer_wf_remove. Qed.

Lemma layer_step_wf l l' : layer_step l l' → layer_wf l → layer_wf l'.
Proof.
  intros Hstep Hwf. destruct Hstep.
  - unfold Transport_Start, ListenOnConn. destruct Hwf, ok; by split.
  - unfold Manager_Listen. destruct Hwf, a, b, c; by split.
  - unfold Manager_Accept. destruct (km_listener _), acc as [a|]; [|done..].
    destruct (add_session a l) eqn:E. by eapply layer_wf_add.
  - unfold Manager_Dial. destruct d as [a|]; [|done]. destruct (add_session a l) eqn:E. by eapply layer_wf_add.
  - unfold DialWithLocalAddr. destruct a, r as [r|]; [|done..]. destruct b, c; [|done..].
    cbn [negb]. destruct (add_session r l) eqn:E. by eapply layer_wf_add.
  - destruct (DialWithConn r ok l) eqn:E. by eapply layer_wf_dial_conn.
  - by eapply layer_wf_upgrade.
  - by apply layer_wf_send.
  - apply layer_wf_alter; [|done]. intros s cfg (? & ? & rest & Hr). split; [|done]. split_and!; [done..|].
    cbn. rewrite Hr, <- app_assoc. eauto.
  - by apply layer_wf_remove.
  - unfold Manager_RemoveSession. destruct (km_sessions _ !! a) as [r|]; [|done].
    destruct (layer_wf_close r l Hwf) as [Hh Hm Ht]. split; cbn; [done| |done].
    intros a' r' [_ Hr]%lookup_delete_Some. by apply Hm.
  - by apply layer_wf_close.
  - revert H. unfold Transport_Close. destruct (kt_closing l); [done|].
    destruct (Manager_Close _) as [l1|] eqn:E; [|done]. intros [= <-].
    apply layer_wf_remove_all. eapply layer_wf_manager_close; [|done]. destruct Hwf; by split.
Qed.

Definition layer_reachable (config : option KCPConfig) (l : Layer) : Prop :=
  ∃ mux, rtc layer_step (NewKCPTransport config mux) l.

Lemma layer_reachable_wf config l : layer_reachable config l → layer_wf l.
Proof.
  intros (mux & Hr). assert (layer_wf (NewKCPTransport config mux)) as H0 by (split; cbn; intros *; by rewrite lookup_empty).
  revert H0. induction Hr as [|l1 l2 l3 Hs _ IH]; [done|]. intros. by apply IH, (layer_step_wf l1).
Qed.

(** ** Closing *)

Definition is_closed (l : Layer) (r : KRef) : Prop :=
  ∃ s, ks_heap l !! r = Some s ∧ ks_closed s = true.

Lemma close_ref_closed r l : is_Some (ks_heap l !! r) → is_closed (close_ref r l) r.
Proof.
  intros [s Hs]. exists (KCPSession_Close s).1. cbn. rewrite lookup_alter_eq, Hs. split; [done|].
  unfold KCPSession_Close. by destruct (ks_closed s) eqn:?.
Qed.

Lemma close_ref_keeps r r' l : is_closed l r' → is_closed (close_ref r l) r'.
Proof.
  intros (s & Hs & Hc). destruct (decide (r = r')) as [<-|].
  - apply close_ref_closed. by eexists.
  - exists s. split; [|done]. cbn. by rewrite lookup_alter_ne.
Qed.

Lemma close_ref_dom r r' l : is_Some (ks_heap (close_ref r l) !! r') ↔ is_Some (ks_heap l !! r').
Proof.
  cbn. rewrite lookup_alter. destruct (decide (r = r')); [subst; by rewrite fmap_is_Some|done].
Qed.

Lemma remove_keeps p r l : is_closed l r → is_closed (Transport_RemoveSession p l) r.
Proof.
  unfold Transport_RemoveSession. destruct (kt_sessions l !! p) as [r'|]; [|done].
  intros Hc. apply (close_ref_keeps r' r (l <| kt_sessions ::= delete p |>)), Hc.
Qed.

Lemma remove_sessions p l : kt_sessions (Transport_RemoveSession p l) = delete p (kt_sessions l).
Proof.
  unfold Transport_RemoveSession. destruct (kt_sessions l !! p) eqn:E; [done|]. by rewrite delete_id.
Qed.

Lemma remove_closes p r l :
  layer_wf l → kt_sessions l !! p = Some r → is_closed (Transport_RemoveSession p l) r.
Proof.
  intros Hwf Hp. unfold Transport_RemoveSession. rewrite Hp.
  apply (close_ref_closed r (l <| kt_sessions ::= delete p |>)). by apply (wf_transport l Hwf p).
Qed.

Lemma unregister_handlers m a : kcpHandlers (UnregisterKCPHandler m a) = delete a (kcpHandlers m).
Proof.
  unfold UnregisterKCPHandler. destruct (kcpHandlers m !! a) eqn:E; [done|]. by rewrite delete_id.
Qed.

Lemma close_addr r r' l : addr_of (close_ref r l) r' = addr_of l r'.
Proof.
  unfold addr_of, close_ref. cbn. rewrite lookup_alter. destruct (decide (r = r')) as [<-|]; [|done].
  destruct (ks_heap l !! r) as [s|]; [|done]. cbn. unfold KCPSession_Close. by destruct (ks_closed s).
Qed.

Lemma remove_addr p r l : addr_of (Transport_RemoveSession p l) r = addr_of l r.
Proof.
  unfold Transport_RemoveSession. destruct (kt_sessions l !! p) as [r'|]; [|done].
  by transitivity (addr_of (close_ref r' l) r); [|apply close_addr].
Qed.

Lemma remove_handlers p r l :
  kt_sessions l !! p = Some r →
  kcpHandlers (kt_mux (Transport_RemoveSession p l)) = delete (addr_of l r) (kcpHandlers (kt_mux l)).
Proof. intros Hp. unfold Transport_RemoveSession. rewrite Hp. apply unregister_handlers. Qed.

Lemma remove_all_closes es l :
  layer_wf l → NoDup es.*1 → (∀ p r, (p, r) ∈ es → kt_sessions l !! p = Some r) →
  let l' := foldr (λ e : gostring * KRef, Transport_RemoveSession e.1) l es in
  (∀ p r, (p, r) ∈ es → is_closed l' r) ∧ (∀ r, is_closed l r → is_closed l' r)
  ∧ kt_sessions l' = foldr delete (kt_sessions l) es.*1 ∧ kt_manager l' = kt_manager l ∧ kt_closing l' = kt_closing l
  ∧ (∀ p r, (p, r) ∈ es → kcpHandlers (kt_mux l') !! addr_of l r = None) ∧ (∀ r, addr_of l' r = addr_of l r).
Proof.
  intros Hwf. induction es as [|[p r] es IH]; intros Hnd Hin; cbv zeta.
  { split_and!; [intros ?? []%not_elem_of_nil|done..|intros ?? []%not_elem_of_nil|done]. }
  cbn [fmap list_fmap fst] in Hnd. apply NoDup_cons in Hnd as [Hp Hnd].
  destruct IH as (IH1 & IH2 & IH3 & IH4 & IH5 & IH6 & IH7); [done|intros; apply Hin; by constructor|].
  cbn [foldr fst fmap list_fmap]. set (l1 := foldr _ l es) in *.
  assert (kt_sessions l1 !! p = Some r) as Hl1.
  { rewrite IH3, lookup_foldr_delete_not_elem_of by done. apply Hin. by left. }
  assert (layer_wf l1) as Hwf1 by by apply layer_wf_remove_all.
  split_and!.
  - intros p' r' [Heq|Hin']%elem_of_cons; [|by eapply remove_keeps, IH1].
    simplify_eq. by apply remove_closes.
  - intros r' Hc. by apply remove_keeps, IH2.
  - by rewrite remove_sessions, IH3.
  - unfold Transport_RemoveSession. by rewrite Hl1.
  - unfold Transport_RemoveSession. by rewrite Hl1.
  - intros p' r' Hin'. rewrite (remove_handlers p r l1), lookup_delete_None by done. apply elem_of_cons in Hin' as [Heq|Hin'].
    + simplify_eq. left. apply IH7.
    + right. by eapply IH6.
  - intros r'. by rewrite remove_addr.
Qed.

Lemma close_all_manager es l :
  let l' := foldr (λ e : gostring * KRef, close_ref e.2) l es in
  kt_manager l' = kt_manager l ∧ kt_sessions l' = kt_sessions l ∧ kt_closing l' = kt_closing l
  ∧ (∀ r, addr_of l' r = addr_of l r) ∧ (∀ r, is_closed l r → is_closed l' r)
  ∧ ∀ a r, (a, r) ∈ es → is_Some (ks_heap l !! r) → is_closed l' r.
Proof.
  induction es as [|[a r] es IH]; cbv zeta.
  { split_and!; [done..|]. intros ?? []%not_elem_of_nil. }
  destruct IH as (IH1 & IH2 & IH3 & IH4 & IH5 & IH6). cbn [foldr snd]. set (l1 := foldr _ l es) in *.
  split_and!; [done..|intros; by rewrite close_addr|intros; by apply close_ref_keeps, IH5|].
  intros a' r' [Heq|Hin]%elem_of_cons Hs; [simplify_eq|by eapply close_ref_keeps, IH6].
  apply close_ref_closed. unfold l1. clear -Hs.
  induction es as [|e es IH]; [done|]. by apply close_ref_dom.
Qed.

Lemma close_flags l l' :
  Transport_Close l = Some l' →
  kt_closing l = false ∧ km_closing (kt_manager l') = true ∧ kt_closing l' = true.
Proof.
  unfold Transport_Close. destruct (kt_closing l); [done|].
  unfold Manager_Close. cbn [kt_manager set_field]. destruct (km_closing _); [done|]. cbv zeta.
  set (l0 := set_field kt_manager (λ m, m <| km_closing := true |>) _). intros [= <-].
  pose proof (close_all_manager (map_to_list (km_sessions (kt_manager l0))) l0) as (Em & _ & Ec & _).
  set (l1 := foldr _ l0 _) in *.
  set (l2 := l1 <| kt_manager ::= _ |>). split; [done|].
  assert (km_closing (kt_manager l2) = true ∧ kt_closing l2 = true) as H3.
  { change (km_closing (kt_manager l1) = true ∧ kt_closing l1 = true). by rewrite Em, Ec. }
  set (es := map_to_list _). clearbody es l2. clear -H3.
  induction es as [|e es IH]; [done|]. cbn [foldr]. unfold Transport_RemoveSession at 1 3.
  by destruct (kt_sessions _ !! _).
Qed.

Lemma close_panics l : km_closing (kt_manager l) = kt_closing l → Transport_Close l = None → kt_closing l = true.
Proof.
  intros Ha. unfold Transport_Close. destruct (kt_closing l); [done|]. unfold Manager_Close.
  cbn [kt_manager set_field]. by rewrite Ha.
Qed.

Lemma delete_all_empty {A} (m : gmap gostring A) : foldr delete m (map_to_list m).*1 = ∅.
Proof.
  apply map_empty. intros i. destruct (m !! i) as [x|] eqn:E.
  - apply lookup_foldr_delete. apply list_elem_of_fmap. exists (i, x). split; [done|].
    by apply elem_of_map_to_list.
  - rewrite lookup_foldr_delete_not_elem_of; [done|]. intros ([j y] & -> & Hj)%list_elem_of_fmap.
    apply elem_of_map_to_list in Hj. cbn in *. congruence.
Qed.

Lemma close_effect l l' :
  layer_wf l → Transport_Close l = Some l' →
  (∀ a r, km_sessions (kt_manager l) !! a = Some r → is_closed l' r)
  ∧ (∀ p r, kt_sessions l !! p = Some r → is_closed l' r ∧ kcpHandlers (kt_mux l') !! addr_of l r = None)
  ∧ kt_sessions l' = ∅ ∧ km_sessions (kt_manager l') = ∅ ∧ km_listener (kt_manager l') ≠ Some true.
Proof.
  intros Hwf. unfold Transport_Close. destruct (kt_closing l); [done|].
  destruct (Manager_Close _) as [l2|] eqn:Hmc; [|done]. intros [= <-].
  assert (layer_wf l2) as Hwf2 by (eapply layer_wf_manager_close; [|done]; destruct Hwf; by split).
  revert Hmc. unfold Manager_Close. cbn [kt_manager set_field]. destruct (km_closing _); [done|]. cbv zeta.
  set (l0 := set_field kt_manager (λ m, m <| km_closing := true |>) _). intros [= Hl2].
  pose proof (close_all_manager (map_to_list (km_sessions (kt_manager l0))) l0) as (_ & E2 & _ & E4 & _ & E6).
  set (l1 := foldr _ l0 _) in *.
  destruct (remove_all_closes (map_to_list (kt_sessions l2)) l2 Hwf2 (NoDup_fst_map_to_list _)) as
    (R1 & R2 & R3 & R4 & _ & R6 & _); [by intros p r ?%elem_of_map_to_list|].
  set (l3 := foldr _ l2 _) in *. split_and!.
  - intros a r Hr. apply R2. rewrite <- Hl2. refine (E6 a r _ _); [apply elem_of_map_to_list; exact Hr|].
    destruct (wf_manager l Hwf a r Hr) as (s & Hs & _). by eexists.
  - intros p r Hr. assert ((p, r) ∈ map_to_list (kt_sessions l2)) as Hin.
    { apply elem_of_map_to_list. rewrite <- Hl2. cbn. by rewrite E2. }
    split; [by eapply R1|]. rewrite <- (R6 p r Hin). f_equal. rewrite <- Hl2.
    by transitivity (addr_of l1 r); [rewrite E4|].
  - rewrite R3. apply delete_all_empty.
  - rewrite R4, <- Hl2. done.
  - rewrite R4, <- Hl2. cbn. by destruct (km_listener _).
Qed.

(** The two [closing] channels are closed together. *)
Lemma closing_agree config l : layer_reachable config l → km_closing (kt_manager l) = kt_closing l.
Proof.
  intros (mux & Hr). assert (km_closing (kt_manager (NewKCPTransport config mux)) = kt_closing (NewKCPTransport config mux)) as H0 by done.
  revert H0. induction Hr as [|l1 l2 l3 Hs _ IH]; [done|]. intros H0. apply IH. clear IH.
  assert (∀ r ok l l' x, DialWithConn r ok l = (l', x) →
    km_closing (kt_manager l') = km_closing (kt_manager l) ∧ kt_closing l' = kt_closing l) as Hdial.
  { intros r ok l l' x. unfold DialWithConn. destruct r, ok; by intros [= <- <-]. }
  destruct Hs as [ok l|a b c l|acc l|d l|a r b c l|r ok l|p a r ok l l' x Hx|p data ok l|r t l|p l|a l|r l|l l' Hx].
  - by destruct ok.
  - by destruct a, b, c.
  - unfold Manager_Accept. by destruct (km_listener _), acc.
  - by destruct d.
  - by destruct a, r, b, c.
  - by destruct r, ok.
  - revert Hx. unfold Transport_UpgradePeer. destruct (RegisterKCPHandler _ _).
    destruct (DialWithConn _ _ _) as [l1 [e|y]] eqn:E; apply Hdial in E as [E1 E2]; cbn in E1, E2.
    + intros [= <- <-]. cbn. congruence.
    + destruct (_ <? _); [done|]. intros [= <- <-]. cbn. congruence.
  - unfold Transport_Send. destruct (kt_sessions l !! p); [|done]. destruct (ks_heap l !! _); [|done].
    cbv zeta. by destruct (KCPSession_Write _ _ _).
  - done.
  - unfold Transport_RemoveSession. by destruct (kt_sessions l !! p).
  - unfold Manager_RemoveSession. by destruct (km_sessions _ !! a).
  - done.
  - apply close_flags in Hx as (_ & -> & ->). done.
Qed.

(** Closing the transport, in any state it can reach, panics exactly when it has been closed before; otherwise every
    session in the transport's or the manager's table is closed, both tables are empty, the listener is closed, the mux no
    longer routes to the peers' handlers, and every later send fails without reaching a session. *)
Theorem kcp_transport_close config l :
  layer_reachable config l →
  match Transport_Close l with
  | None => kt_closing l = true
  | Some l' =>
      kt_closing l = false
      ∧ (∀ a r, km_sessions (kt_manager l) !! a = Some r → is_closed l' r)
      ∧ (∀ p r, kt_sessions l !! p = Some r →
           is_closed l' r ∧ kcpHandlers (kt_mux l') !! addr_of l r = None)
      ∧ kt_sessions l' = ∅ ∧ km_sessions (kt_manager l') = ∅ ∧ km_listener (kt_manager l') ≠ Some true
      ∧ (∀ p data ok, Transport_Send p data ok l' = (l', Some "no KCP session"%string))
      ∧ Transport_Close l' = None
  end.
Proof.
  intros Hreach. pose proof (layer_reachable_wf _ _ Hreach) as Hwf. pose proof (closing_agree _ _ Hreach) as Hagree.
  destruct (Transport_Close l) as [l'|] eqn:Hclose; [|by eapply close_panics].
  destruct (close_flags _ _ Hclose) as (Hl & Hm' & Hl').
  destruct (close_effect l l' Hwf Hclose) as (H1 & H2 & H3 & H4 & H5).
  split_and!; [done..| |].
  - intros p data ok. unfold Transport_Send. by rewrite H3, lookup_empty.
  - unfold Transport_Close. by rewrite Hl'.
Qed.

(** Two peers whose sessions have the same address (a node that came back under a new identity while the old peer is
    still known) share one handler of the mux: removing the session of the one leaves the session of the other in place and
    open, but its datagrams now go to the listener's queue instead of to it. *)
Theorem remove_shared_address p q rp rq s l pkt :
  kt_sessions l !! p = Some rp → kt_sessions l !! q = Some rq → p ≠ q → rp ≠ rq →
  ks_heap l !! rq = Some s → ks_closed s = false → addr_of l rp = peerAddr s →
  a_str (pk_Addr pkt) = peerAddr s → isPunchPacket (pk_Data pkt) = false →
  isProbePacket (pk_Data pkt) || isTentPacket (pk_Data pkt) || isRawRelayPacket (pk_Data pkt) = false →
  let l' := Transport_RemoveSession p l in
  Transport_HasSession q l' = true ∧ ks_heap l' !! rq = Some s
  ∧ route_target (kt_mux l') pkt = kcpConn (kt_mux l').
Proof.
  intros Hp Hq Hpq Hr Hs Hc Ha Hpkt Hpunch Htent. cbv zeta. split_and!.
  - unfold Transport_HasSession. apply bool_decide_eq_true. rewrite remove_sessions, lookup_delete_ne by done. by eexists.
  - unfold Transport_RemoveSession. rewrite Hp. cbn. by rewrite lookup_alter_ne.
  - unfold route_target. by rewrite Hpunch, Htent, (remove_handlers p rp l Hp), Ha, Hpkt, lookup_delete_eq.
Qed.

(** ** A concrete layer *)

Module KcpWitness.
Definition addr : gostring := str "192.0.2.7:9000".
Definition old_peer : gostring := str "0011223344556677".
Definition new_peer : gostring := str "8899aabbccddeeff".

Definition upgraded (p : gostring) (l : Layer) : Layer :=
  match Transport_UpgradePeer p addr (Some addr) true l with Some (l', _) => l' | None => l end.

Definition layer1 : Layer := upgraded old_peer (NewKCPTransport None NewUDPMux).
Definition layer2 : Layer := upgraded new_peer layer1.

Lemma layer2_reachable : layer_reachable None layer2.
Proof.
  exists NewUDPMux. eapply rtc_l; [|eapply rtc_l; [|apply rtc_refl]].
  - by eapply (step_upgrade old_peer addr (Some addr) true _ layer1).
  - by eapply (step_upgrade new_peer addr (Some addr) true _ layer2).
Qed.

Lemma kcp_transport_close_witness :
  ∃ l', Transport_Close layer2 = Some l' ∧ is_closed l' 1%positive ∧ is_closed l' 2%positive.
Proof.
  pose proof (kcp_transport_close None layer2 layer2_reachable) as H.
  destruct (Transport_Close layer2) as [l'|] eqn:E; [|discriminate H].
  destruct H as (_ & _ & H & _). exists l'. split; [done|].
  split; [apply (H old_peer)|apply (H new_peer)]; reflexivity.
Defined.

Lemma remove_shared_address_witness :
  Transport_HasSession new_peer (Transport_RemoveSession old_peer layer2) = true.
Proof.
  refine (proj1 (remove_shared_address old_peer new_peer 1 2
    (configureSession DefaultKCPConfig (MkKCPSession addr DefaultKCPConfig [] [] false false)) layer2
    (MkPacket [x01; x00] (MkAddr AddrUDP addr)) _ _ _ _ _ _ _ _ _ _)); done.
Defined.
End KcpWitness.
