(* ===== verification/NodeState.v ===== *)
(** * The state of a node and its effects ([node/node.go], [node/send_path.go])

    A handler of the node is a state transformer that may panic.  Peers and
    sessions are shared objects and live in stores; a Go error is a returned
    value.  What a handler does to the outside world (socket writes, callbacks,
    goroutines it starts) is appended to the log of the node, and the answers of
    the world (does a write succeed, what time is it, which random bytes are
    drawn) come from an instance of [World], so every run is a function of it.
    Locks protect single steps of the code and do not appear. *)

From S2P Require Import Identity.
From S2P Require Import Prelude Protocol Sha256 Session Peer RelayAuth RelayManager Metrics Reconnect Config.

(** ** Effects *)

(** The loops of a running node: [handleRead], [acceptTCP], [heartbeatLoop]. *)
Inductive background_loop := ReadLoop | AcceptLoop | HeartbeatLoop.

(** A goroutine started by a handler; it runs later, as a step of its own. *)
Inductive task :=
| TaskSyncChannels (peerID : gostring)
| TaskDiscoveryRequest (p : PeerRef)
| TaskRehandshake (peerID : gostring) (p : PeerRef)
| TaskExpireHandshake (stateKey : gostring)
| TaskConnect (addr : gostring)
| TaskChannelUpdate (peerID : gostring) (payload : bytes)
| TaskConnected (peerID : gostring) (delay : Duration)
| TaskDisconnected (peerID : gostring)
| TaskKCPSession (peerID addr : gostring)
| TaskHandleTCP (c : ConnRef)
| TaskRelayFallback (remoteAddr addrKey : gostring)
| TaskLateUpgrade (tcpHandshakePacket : bytes)
| TaskUserConnect (addr : gostring)
| TaskReconnectCallback (handler : HandlerRef) (ev : rc_event)
| TaskLoop (l : background_loop).

Inductive effect :=
| TCPWrite (c : ConnRef) (frame : bytes)
| UDPWrite (a : Addr) (packet : bytes)
| KCPWrite (peerID : gostring) (frame : bytes)
| KCPRegister (addr : gostring)
| KCPUnregister (addr : gostring)
| KCPDial (addr : gostring)
| KCPClose (addr : gostring)
| ConnClose (c : ConnRef)
| MuxClose
| ListenerClose
| ProberClose
| OnReceive (peerID : gostring) (data : bytes)
| Go (t : task).

(** What the node cannot decide by itself. *)
Class World := {
  io_ok : list effect → effect → bool;   (** does this operation succeed, after these *)
  clock : nat → Time;                    (** successive readings of the clock *)
  entropy : nat → bytes;                 (** successive draws of the noise package, an ephemeral key each *)
  entropy_len : ∀ k, len (entropy k) = 32;
  resolve_udp : gostring → option Addr;  (** [net.ResolveUDPAddr] *)
  resolve_tcp : gostring → option Addr;  (** [net.ResolveTCPAddr] *)
  bound_addr : gostring;                 (** the local address of the UDP socket, printed *)
}.

(** ** State *)

(** [KCPTransport]: the sessions by peer, each with its remote address. *)
Record KCPTransport := MkKCPTransport { kcp_sessions : gmap gostring gostring }.
#[global] Instance KCPTransport_eta : RecordEta KCPTransport := λ k, MkKCPTransport (kcp_sessions k).

Section state.
Context {NL : Noise}.

(** Callbacks are represented by whether they are set.  [n_started] says that the
    socket, the mux, the listener and the prober of the node exist; the mux and
    the prober have their own files.  The last three fields are not of the code:
    the log of effects, and how often the clock was read and randomness drawn. *)
Record Node := MkNode {
  n_Config : Config;
  n_Identity : Identity;
  Peers : PeerStore;
  peer_heap : gmap PeerRef Peer;
  sess_heap : gmap SessRef Session;
  LocalAddr : option gostring;
  localPeerID : gostring;
  pendingHandshakes : gmap gostring HandshakeState;
  addrToPeer : gmap gostring gostring;
  has_onReceive : bool;
  has_onPeerConnected : bool;
  has_onPeerDisconnected : bool;
  n_started : bool;
  n_closing : bool;
  n_relayManager : option RelayManager.RelayManager;
  relayAddrSet : gset gostring;
  relayForward : gmap gostring Addr;
  relayPendingTarget : gmap gostring Addr;
  relayInbound : gset gostring;
  n_metrics : Collector;
  relayAuth : option RelayAuthenticator;
  kcpTransport : option KCPTransport;
  n_reconnectManager : option ReconnectManager;
  n_reconnectCallbacks : rc_callbacks;
  discoveryConnectSem : Z;
  discoveryConnectSeen : gmap gostring Time;
  localChannelSet : gset bytes;
  n_log : list effect;
  n_ticks : nat;
  n_draws : nat;
}.

#[global] Instance Node_eta : RecordEta Node := λ n,
  MkNode (n_Config n) (n_Identity n) (Peers n) (peer_heap n) (sess_heap n) (LocalAddr n) (localPeerID n)
    (pendingHandshakes n) (addrToPeer n) (has_onReceive n) (has_onPeerConnected n)
    (has_onPeerDisconnected n) (n_started n) (n_closing n) (n_relayManager n) (relayAddrSet n) (relayForward n)
    (relayPendingTarget n) (relayInbound n) (n_metrics n) (relayAuth n) (kcpTransport n)
    (n_reconnectManager n) (n_reconnectCallbacks n) (discoveryConnectSem n) (discoveryConnectSeen n) (localChannelSet n)
    (n_log n) (n_ticks n) (n_draws n).

End state.

(** ** The monad *)

(** [None] is a panic. *)
Definition M `{Noise} (A : Type) : Type := Node → option (A * Node).

#[global] Instance M_ret `{Noise} : MRet M := λ A a n, Some (a, n).
#[global] Instance M_bind `{Noise} : MBind M := λ A B f m n,
  match m n with
  | Some (a, n') => f a n'
  | None => None
  end.

Section ops.
Context {NL : Noise} {W : World}.

Definition panic {A} : M A := λ n, None.
Definition get : M Node := λ n, Some (n, n).
Definition modify (f : Node → Node) : M unit := λ n, Some ((), f n).

(** [l[i:j]] and the like inside a handler. *)
Definition lift {A} (r : res A) : M A := λ n,
  match r with Ok a => Some (a, n) | Err _ | Panic => None end.

Definition emit (e : effect) : M unit := modify (λ n, n <| n_log ::= λ l, l ++ [e] |>).

(** An operation of the outside world and whether it succeeded. *)
Definition io (e : effect) : M bool := λ n,
  Some (io_ok (n_log n) e, n <| n_log ::= λ l, l ++ [e] |>).

Definition go (t : task) : M unit := emit (Go t).

Definition time_Now : M Time := λ n, Some (clock (n_ticks n), n <| n_ticks ::= S |>).
Definition draw : M bytes := λ n, Some (entropy (n_draws n), n <| n_draws ::= S |>).

(** Seconds and nanoseconds since 1970. *)
Definition unix_epoch : Z := 62135596800.
Definition Unix (t : Time) : Z := t / Second - unix_epoch.
Definition UnixNano (t : Time) : Z := to_int64 (t - unix_epoch * Second).

Definition count (f : Collector → Collector) : M unit := modify (λ n, n <| n_metrics ::= f |>).

(** The object behind a [*peer.Peer]. *)
Definition peer_of (r : PeerRef) : M Peer := λ n,
  match peer_heap n !! r with Some p => Some (p, n) | None => None end.

Definition put_peer (r : PeerRef) (p : Peer) : M unit :=
  modify (λ n, n <| peer_heap ::= <[r := p]> |>).

Definition update_peer (r : PeerRef) (f : Peer → Peer) : M unit := p ← peer_of r; put_peer r (f p).

(** A method of the peer that also returns a value. *)
Definition on_peer {A} (r : PeerRef) (f : Peer → Peer * A) : M A :=
  p ← peer_of r; let '(p', a) := f p in _ ← put_peer r p'; mret a.

(** [peer.Close], [UpgradeTransport]: the closed objects. *)
Definition peer_effect_M (e : peer_effect) : M unit :=
  match e with
  | CloseConn c => emit (ConnClose c)
  | CloseSession s => modify (λ n, n <| sess_heap ::= heap_close s |>)
  end.

Fixpoint peer_effects (es : list peer_effect) : M unit :=
  match es with
  | [] => mret ()
  | e :: es' => _ ← peer_effect_M e; peer_effects es'
  end.

(** [n.Peers.Get(peerID)]. *)
Definition get_peer (peerID : gostring) : M (option PeerRef) := n ← get; mret (PeerStore_Get (Peers n) peerID).

(** [peerID[:8]], which the log messages evaluate. *)
Definition short8 (peerID : gostring) : M unit := _ ← lift (go_slice peerID 0 8); mret ().

(** [shortPeerID] never panics. *)
Definition shortPeerID (peerID : gostring) : gostring :=
  if 8 <? len peerID then subslice peerID 0 8 else peerID.

Definition Node_ID (n : Node) : gostring := hex_EncodeToString (id_ID (n_Identity n)).

(** ** Sending *)

(** An error is [Some message]. *)
Definition writeTCPPacket (conn : ConnRef) (packet : bytes) : M (option string) :=
  let frame := EncodeTCPFrame packet in
  ok ← io (TCPWrite conn frame);
  mret (if ok : bool then None else Some "write failed"%string).

Definition sendRaw (conn : option ConnRef) (addr : option Addr) (transport : string) (packet : bytes)
    : M (option string) :=
  match conn, bool_decide (transport = "tcp"%string) with
  | Some c, true =>
      err ← writeTCPPacket c packet;
      mret (match err with Some _ => Some "TCP write error"%string | None => None end)
  | _, _ =>
      match addr with
      | Some a =>
          if bool_decide (a_kind a = AddrUDP) then
            ok ← io (UDPWrite a packet);
            mret (if ok : bool then None else Some "UDP write error"%string)
          else mret (Some "unsupported transport or invalid address"%string)
      | None => mret (Some "unsupported transport or invalid address"%string)
      end
  end.

(** ** The KCP transport ([node/kcp_transport.go]) *)

Definition HasSession (k : KCPTransport) (peerID : gostring) : bool :=
  bool_decide (is_Some (kcp_sessions k !! peerID)).

Definition KCP_Send (k : KCPTransport) (peerID : gostring) (data : bytes) : M (option string) :=
  match kcp_sessions k !! peerID with
  | None => mret (Some "no KCP session"%string)
  | Some _ =>
      let frame := make_bytes (2 + len data) in
      let frame := put_be 2 frame 0 (to_uint16 (len data)) in
      let frame := copy_at frame 2 data in
      ok ← io (KCPWrite peerID frame);
      mret (if ok : bool then None else Some "write failed"%string)
  end.

Definition UpgradePeer (k : KCPTransport) (peerID : gostring) (remoteAddr : Addr) : M (option string) :=
  let remoteAddrStr := a_str remoteAddr in
  _ ← emit (KCPRegister remoteAddrStr);
  ok ← io (KCPDial remoteAddrStr);
  if negb ok then _ ← emit (KCPUnregister remoteAddrStr); mret (Some "KCP dial failed"%string) else
  _ ← modify (λ n, n <| kcpTransport := Some (MkKCPTransport (<[peerID := remoteAddrStr]> (kcp_sessions k))) |>
                     <| addrToPeer ::= <[remoteAddrStr := peerID]> |>);
  _ ← short8 peerID;
  _ ← go (TaskKCPSession peerID remoteAddrStr);
  mret None.

Definition RemoveSession (k : KCPTransport) (peerID : gostring) : M unit :=
  match kcp_sessions k !! peerID with
  | None => mret ()
  | Some raddr =>
      _ ← modify (λ n, n <| kcpTransport := Some (MkKCPTransport (delete peerID (kcp_sessions k))) |>);
      _ ← emit (KCPClose raddr);
      emit (KCPUnregister raddr)
  end.

End ops.

(** ** Running handlers: the equations proofs rewrite with *)

Section run.
Context {NL : Noise} {W : World}.

Lemma bind_run {A B} (m : M A) (f : A → M B) n a n' : m n = Some (a, n') → (m ≫= f) n = f a n'.
Proof. intros H. unfold mbind, M_bind. by rewrite H. Qed.

Lemma bind_Some {A B} (m : M A) (f : A → M B) n b n2 :
  (m ≫= f) n = Some (b, n2) ↔ ∃ a n1, m n = Some (a, n1) ∧ f a n1 = Some (b, n2).
Proof. unfold mbind, M_bind. destruct (m n) as [[a n1]|]; naive_solver. Qed.

Lemma bind_ext {A B} (m : M A) (f g : A → M B) n : (∀ a n', f a n' = g a n') → (m ≫= f) n = (m ≫= g) n.
Proof. intros H. unfold mbind, M_bind. destruct (m n) as [[a n']|]; [apply H|done]. Qed.

Lemma bind_assoc {A B C} (m : M A) (f : A → M B) (g : B → M C) n :
  ((m ≫= f) ≫= g) n = (m ≫= λ a, f a ≫= g) n.
Proof. unfold mbind, M_bind. by destruct (m n) as [[a n']|]. Qed.

Lemma ret_bind {A B} (a : A) (f : A → M B) n : (mret a ≫= f) n = f a n.
Proof. done. Qed.

Lemma ret_run {A} (a : A) n : (mret a : M A) n = Some (a, n).
Proof. done. Qed.

Lemma get_bind {B} (f : Node → M B) n : (get ≫= f) n = f n n.
Proof. done. Qed.

Lemma modify_bind {B} g (f : unit → M B) n : (modify g ≫= f) n = f () (g n).
Proof. done. Qed.

Lemma lift_bind {A B} (a : A) (f : A → M B) n : (lift (Ok a) ≫= f) n = f a n.
Proof. done. Qed.

Lemma emit_bind {B} e (f : unit → M B) n : (emit e ≫= f) n = f () (n <| n_log ::= λ l, l ++ [e] |>).
Proof. done. Qed.

Lemma go_bind {B} t (f : unit → M B) n : (go t ≫= f) n = f () (n <| n_log ::= λ l, l ++ [Go t] |>).
Proof. done. Qed.

Lemma io_bind {B} e (f : bool → M B) n :
  (io e ≫= f) n = f (io_ok (n_log n) e) (n <| n_log ::= λ l, l ++ [e] |>).
Proof. done. Qed.

Lemma now_bind {B} (f : Time → M B) n : (time_Now ≫= f) n = f (clock (n_ticks n)) (n <| n_ticks ::= S |>).
Proof. done. Qed.

Lemma draw_bind {B} (f : bytes → M B) n : (draw ≫= f) n = f (entropy (n_draws n)) (n <| n_draws ::= S |>).
Proof. done. Qed.

Lemma count_bind {B} g (f : unit → M B) n : (count g ≫= f) n = f () (n <| n_metrics ::= g |>).
Proof. done. Qed.

Lemma get_peer_bind {B} id (f : option PeerRef → M B) n : (get_peer id ≫= f) n = f (Peers n !! id) n.
Proof. done. Qed.

Lemma peer_of_bind {B} r p (f : Peer → M B) n : peer_heap n !! r = Some p → (peer_of r ≫= f) n = f p n.
Proof. intros H. apply bind_run. unfold peer_of. by rewrite H. Qed.

Lemma update_peer_run r g p n :
  peer_heap n !! r = Some p → update_peer r g n = Some ((), n <| peer_heap ::= <[r := g p]> |>).
Proof. intros H. unfold update_peer. by rewrite (peer_of_bind r p). Qed.

Lemma update_peer_bind {B} r g p (f : unit → M B) n :
  peer_heap n !! r = Some p → (update_peer r g ≫= f) n = f () (n <| peer_heap ::= <[r := g p]> |>).
Proof. intros H. by apply bind_run, update_peer_run. Qed.

Lemma on_peer_bind {A B} r (g : Peer → Peer * A) p (f : A → M B) n :
  peer_heap n !! r = Some p →
  (on_peer r g ≫= f) n = f (g p).2 (n <| peer_heap ::= <[r := (g p).1]> |>).
Proof.
  intros H. apply bind_run. unfold on_peer. rewrite (peer_of_bind r p) by done. by destruct (g p).
Qed.

Lemma short8_bind {B} id (f : unit → M B) n : 8 ≤ len id → (short8 id ≫= f) n = f () n.
Proof. intros H. apply bind_run. unfold short8. by rewrite go_slice_ok, lift_bind by lia. Qed.

Lemma short8_run id n : 8 ≤ len id → short8 id n = Some ((), n).
Proof. intros H. unfold short8. by rewrite go_slice_ok, lift_bind by lia. Qed.

End run.

Create Rewrite HintDb run.
#[export] Hint Rewrite @ret_bind @ret_run @get_bind @modify_bind @lift_bind @emit_bind @go_bind @io_bind @now_bind @draw_bind
  @count_bind @get_peer_bind : run.

(** Runs a handler as far as the state determines it. *)
Ltac run := repeat first [progress autorewrite with run | progress cbv beta iota].

(** ** What a handler leaves alone *)

(** Whenever the code returns, the part [π] of the state is what it was. *)
Definition preserves `{Noise} {T A} (π : Node → T) (m : M A) : Prop :=
  ∀ n a n', m n = Some (a, n') → π n' = π n.

Section preserves.
Context {NL : Noise} {W : World} {T : Type} (π : Node → T).

Lemma preserves_ret {A} (a : A) : preserves π (mret a).
Proof. by intros n b n' [= <- <-]. Qed.

Lemma preserves_panic {A} : preserves π (panic : M A).
Proof. done. Qed.

Lemma preserves_bind {A B} (m : M A) (f : A → M B) :
  preserves π m → (∀ a, preserves π (f a)) → preserves π (m ≫= f).
Proof. intros Hm Hf n b n2 (a & n1 & H1 & H2)%bind_Some. rewrite (Hf a n1 b n2 H2). by apply (Hm n a n1). Qed.

Lemma preserves_get : preserves π get.
Proof. by intros n a n' [= <- <-]. Qed.

Lemma preserves_modify g : (∀ n, π (g n) = π n) → preserves π (modify g).
Proof. intros Hg n a n' [= <- <-]. apply Hg. Qed.

Lemma preserves_io e : (∀ n, π (n <| n_log ::= λ l, l ++ [e] |>) = π n) → preserves π (io e).
Proof. intros Hg n a n' [= <- <-]. apply Hg. Qed.

Lemma preserves_time_Now : (∀ n, π (n <| n_ticks ::= S |>) = π n) → preserves π time_Now.
Proof. intros Hg n a n' [= <- <-]. apply Hg. Qed.

Lemma preserves_draw : (∀ n, π (n <| n_draws ::= S |>) = π n) → preserves π draw.
Proof. intros Hg n a n' [= <- <-]. apply Hg. Qed.

Lemma preserves_lift {A} (r : res A) : preserves π (lift r).
Proof. intros n a n'. unfold lift. destruct r; try done. by intros [= <- <-]. Qed.

Lemma preserves_get_peer id : preserves π (get_peer id).
Proof. apply preserves_bind; [apply preserves_get|intros; apply preserves_ret]. Qed.

Lemma preserves_peer_of r : preserves π (peer_of r).
Proof. intros n a n'. unfold peer_of. destruct (peer_heap n !! r); [|done]. by intros [= <- <-]. Qed.

Lemma preserves_on_peer {A} r (f : Peer → Peer * A) :
  (∀ n p, π (n <| peer_heap ::= <[r := p]> |>) = π n) → preserves π (on_peer r f).
Proof.
  intros Hg. apply preserves_bind; [apply preserves_peer_of|]. intros p. destruct (f p) as [p' a].
  apply preserves_bind; [by apply preserves_modify|intros; apply preserves_ret].
Qed.

Lemma preserves_update_peer r f :
  (∀ n p, π (n <| peer_heap ::= <[r := p]> |>) = π n) → preserves π (update_peer r f).
Proof. intros Hg. apply preserves_bind; [apply preserves_peer_of|intros; by apply preserves_modify]. Qed.

Lemma preserves_peer_effects es :
  (∀ n f, π (n <| n_log ::= f |>) = π n) → (∀ n f, π (n <| sess_heap ::= f |>) = π n) → preserves π (peer_effects es).
Proof.
  intros H1 H2. induction es as [|[] es IH]; cbn [peer_effects peer_effect_M]; [apply preserves_ret|..];
    (apply preserves_bind; [by apply preserves_modify|done]).
Qed.

End preserves.

(** Follows the code down to its effects; what is left are calls that need a lemma
    of their own, which the database [preserves] may have. *)
Create HintDb preserves.
#[export] Hint Resolve preserves_ret preserves_panic preserves_get preserves_lift preserves_get_peer preserves_peer_of : preserves.

Ltac preserving := repeat (cbv beta iota zeta; match goal with
  | |- preserves _ (mbind _ _) => apply preserves_bind; [|intros ?]
  | |- preserves _ (modify _) => apply preserves_modify; by intros
  | |- preserves _ (emit _) => apply preserves_modify; by intros
  | |- preserves _ (go _) => apply preserves_modify; by intros
  | |- preserves _ (count _) => apply preserves_modify; by intros
  | |- preserves _ (io _) => apply preserves_io; by intros
  | |- preserves _ time_Now => apply preserves_time_Now; by intros
  | |- preserves _ draw => apply preserves_draw; by intros
  | |- preserves _ (on_peer _ _) => apply preserves_on_peer; by intros
  | |- preserves _ (update_peer _ _) => apply preserves_update_peer; by intros
  | |- preserves _ (peer_effects _) => apply preserves_peer_effects; by intros
  | |- preserves _ (short8 _) => unfold short8
  | |- preserves _ (match ?x with _ => _ end) => destruct x
  | |- preserves _ _ => solve [eauto with preserves]
  end).
