(* ===== verification/NodeChannel.v ===== *)
(** * Channels and application frames ([node/node_channel.go])

    User data travels in application frames: a type byte, then for user data the
    SHA-256 of the channel name and the data.  A frame longer than
    [MaxPayloadSize] is cut into fragments; every fragment is sealed on its own
    and sent as one data packet over TCP or KCP. *)

From S2P Require Import Prelude Protocol Sha256 Session Peer Metrics Reconnect Config NodeState.

Definition OpCodeJoin : byte := x01.
Definition OpCodeLeave : byte := x02.
Definition AppFrameTypeUserWithChannel : byte := x02.
Definition AppFrameTypeChannelUpdate : byte := x01.

Definition FrameTypeSingle : byte := x01.
Definition FrameTypeFirst : byte := x02.
Definition FrameTypeMiddle : byte := x03.
Definition FrameTypeLast : byte := x04.

Definition MaxPayloadSize : Z := 60 * 1024.
Definition MaxReassemblySize : Z := 50 * 1024 * 1024.

Definition hashChannelName (name : gostring) : bytes := sha256_Sum256 name.

Section channel.
Context {NL : Noise} {W : World}.

(** ** Sending *)

(** Where [sendFunc] writes. *)
Inductive send_path := ViaTCP (c : ConnRef) | ViaKCP (peerID : gostring).

Definition sendFunc (path : send_path) (packet : bytes) : M (option string) :=
  match path with
  | ViaTCP c => writeTCPPacket c packet
  | ViaKCP peerID =>
      n ← get;
      match kcpTransport n with
      | Some k => KCP_Send k peerID packet
      | None => panic
      end
  end.

(** The choice of the path: [inr] is the error [sendAppFrame] returns. *)
Definition choose_path (r : PeerRef) : M (send_path + string) :=
  p ← peer_of r;
  n ← get;
  let '(transport, addr, conn) := GetTransportInfo p in
  match conn, bool_decide (transport = "tcp"%string) with
  | Some c, true => mret (inl (ViaTCP c))
  | _, _ =>
      match kcpTransport n with
      | Some k =>
          if HasSession k (ID p) then mret (inl (ViaKCP (ID p))) else
          if bool_decide (transport = "udp"%string) then
            match addr with
            | Some a =>
                if bool_decide (a_kind a = AddrUDP) then
                  err ← UpgradePeer k (ID p) a;
                  mret (match err with
                        | Some _ => inr "failed to upgrade to kcp for data transport"%string
                        | None => inl (ViaKCP (ID p))
                        end)
                else mret (inr "udp transport has invalid address type"%string)
            | None => mret (inr "udp transport has invalid address type"%string)
            end
          else mret (inr "no send path"%string)
      | None =>
          if bool_decide (transport = "udp"%string) then
            match addr with
            | Some a =>
                if bool_decide (a_kind a = AddrUDP)
                then mret (inr "reliable data transport unavailable: udp peer without kcp"%string)
                else mret (inr "udp transport has invalid address type"%string)
            | None => mret (inr "udp transport has invalid address type"%string)
            end
          else mret (inr "no send path"%string)
      end
  end.

(** [session.Encrypt] on the shared session. *)
Definition session_encrypt (sr : SessRef) (plaintext : bytes) : M (res bytes) := λ n,
  match sess_heap n !! sr with
  | None => None
  | Some s =>
      let '(s', out) := Session_Encrypt s plaintext in
      Some (out, n <| sess_heap ::= <[sr := s']> |>)
  end.

Definition sendFrame (r : PeerRef) (sr : SessRef) (path : send_path) (frameType : byte) (fragmentData : bytes)
    : M (option string) :=
  let plainFrame := make_bytes (1 + len fragmentData) in
  let plainFrame := set_byte plainFrame 0 frameType in
  let plainFrame := copy_at plainFrame 1 fragmentData in
  encrypted ← session_encrypt sr plainFrame;
  match encrypted with
  | Ok encrypted =>
      let packet := make_bytes (5 + len encrypted) in
      let packet := copy_range packet 0 4 (str "TENT") in
      let packet := set_byte packet 4 PacketTypeData in
      let packet := copy_at packet 5 encrypted in
      _ ← update_peer r (λ p, AddBytesSent p (len fragmentData));
      _ ← count (λ c, Collector_AddBytesSent c (len fragmentData));
      sendFunc path packet
  | Err e => mret (Some e)
  | Panic => panic
  end.

(** The loop over the middle fragments and the last one; every turn takes
    [max > 0] bytes, so the length of the payload bounds the turns. *)
Fixpoint send_rest (fuel : nat) (max : Z) (send : byte → bytes → M (option string)) (payload : bytes) (offset : Z)
    : M (option string) :=
  match fuel with
  | O => panic
  | S fuel =>
      if max <? len payload - offset then
        fragment ← lift (go_slice payload offset (offset + max));
        err ← send FrameTypeMiddle fragment;
        match err with
        | Some e => mret (Some e)
        | None => send_rest fuel max send payload (offset + max)
        end
      else
        fragment ← lift (go_slice_from payload offset);
        send FrameTypeLast fragment
  end.

Definition send_fragments (max : Z) (send : byte → bytes → M (option string)) (payload : bytes) : M (option string) :=
  if max <? len payload then
    fragment ← lift (go_slice payload 0 max);
    err ← send FrameTypeFirst fragment;
    match err with
    | Some e => mret (Some e)
    | None => send_rest (length payload) max send payload max
    end
  else send FrameTypeSingle payload.

Definition sendAppFrame (peerID : gostring) (appFrameType : byte) (data : bytes) : M (option string) :=
  n ← get;
  if bool_decide (peerID = Node_ID n) then mret (Some "cannot send to the local node"%string) else
  found ← get_peer peerID;
  match found with
  | None => mret (Some "peer not found"%string)
  | Some r =>
      p ← peer_of r;
      match GetSession p with
      | None => mret (Some "no session"%string)
      | Some sr =>
          path ← choose_path r;
          match path with
          | inr e => mret (Some e)
          | inl path =>
              let payload := make_bytes (1 + len data) in
              let payload := set_byte payload 0 appFrameType in
              let payload := copy_at payload 1 data in
              send_fragments MaxPayloadSize (sendFrame r sr path) payload
          end
      end
  end.

Definition isChannelSubscribed (n : Node) (channelHash : bytes) : bool :=
  if len channelHash =? 32 then bool_decide (channelHash ∈ localChannelSet n) else false.

Definition Send (channelName peerID : gostring) (data : bytes) : M (option string) :=
  let channelHash := hashChannelName channelName in
  n ← get;
  if negb (isChannelSubscribed n channelHash) then mret (Some "channel not subscribed"%string) else
  let frame := make_bytes (32 + len data) in
  let frame := copy_range frame 0 32 channelHash in
  let frame := copy_at frame 32 data in
  sendAppFrame peerID AppFrameTypeUserWithChannel frame.

(** ** Membership *)

Definition channel_update_payload (opcode : byte) (channelHash : bytes) : bytes :=
  let payload := make_bytes (1 + 32) in
  let payload := set_byte payload 0 opcode in
  copy_at payload 1 channelHash.

(** One goroutine per peer. *)
Fixpoint go_each (ids : list gostring) (payload : bytes) : M unit :=
  match ids with
  | [] => mret ()
  | id :: ids' => _ ← go (TaskChannelUpdate id payload); go_each ids' payload
  end.

Definition broadcastChannelUpdate (opcode : byte) (channelHash : bytes) : M unit :=
  n ← get;
  go_each (PeerStore_IDs (Peers n)) (channel_update_payload opcode channelHash).

(** The body of that goroutine. *)
Definition run_channel_update (peerID : gostring) (payload : bytes) : M unit :=
  _ ← sendAppFrame peerID AppFrameTypeChannelUpdate payload; mret ().

Definition JoinChannel (name : gostring) : M unit :=
  n ← get;
  if bool_decide (name ∈ Channels (n_Config n)) then mret () else
  _ ← modify (λ n, n <| n_Config ::= λ c, c <| Channels ::= λ l, l ++ [name] |> |>
                     <| localChannelSet ::= λ s, {[hashChannelName name]} ∪ s |>);
  broadcastChannelUpdate OpCodeJoin (hashChannelName name).

(** The first occurrence is removed. *)
Fixpoint remove_first (name : gostring) (l : list gostring) : list gostring :=
  match l with
  | [] => []
  | ch :: l' => if bool_decide (ch = name) then l' else ch :: remove_first name l'
  end.

Definition LeaveChannel (name : gostring) : M unit :=
  n ← get;
  if bool_decide (name ∈ Channels (n_Config n)) then
    _ ← modify (λ n, n <| n_Config ::= λ c, c <| Channels ::= remove_first name |> |>
                       <| localChannelSet ::= λ s, s ∖ {[hashChannelName name]} |>);
    broadcastChannelUpdate OpCodeLeave (hashChannelName name)
  else mret ().

Definition in_channel (n : Node) (channelName id : gostring) : bool :=
  match PeerStore_Get (Peers n) id ≫= λ r, peer_heap n !! r with
  | Some p => HasRemoteChannel p (hashChannelName channelName)
  | None => false
  end.

Definition GetPeersInChannel (n : Node) (channelName : gostring) : list gostring :=
  filter (λ id, in_channel n channelName id = true) (PeerStore_IDs (Peers n)).

Fixpoint broadcast_to (channelName : gostring) (ids : list gostring) (data : bytes) (successCount : Z) : M Z :=
  match ids with
  | [] => mret successCount
  | id :: ids' =>
      err ← Send channelName id data;
      broadcast_to channelName ids' data (match err with None => successCount + 1 | Some _ => successCount end)
  end.

Definition Broadcast (channelName : gostring) (data : bytes) : M Z :=
  n ← get; broadcast_to channelName (GetPeersInChannel n channelName) data 0.

Fixpoint sync_each (peerID : gostring) (channels : list gostring) : M unit :=
  match channels with
  | [] => mret ()
  | ch :: channels' =>
      err ← sendAppFrame peerID AppFrameTypeChannelUpdate (channel_update_payload OpCodeJoin (hashChannelName ch));
      _ ← (match err with Some _ => short8 peerID | None => mret () end);
      sync_each peerID channels'
  end.

Definition syncChannelsWithPeer (peerID : gostring) : M unit :=
  n ← get; sync_each peerID (Channels (n_Config n)).

(** ** Receiving *)

Definition processChannelUpdate (r : PeerRef) (payload : bytes) : M unit :=
  if len payload <? 33 then mret () else
  opcode ← lift (go_index payload 0);
  hash ← lift (go_slice payload 1 33);
  n ← get;
  let matchesLocal := (len hash =? 32) && bool_decide (hash ∈ localChannelSet n) in
  if matchesLocal then
    if bool_decide (opcode = OpCodeJoin) then
      _ ← update_peer r (λ p, AddRemoteChannel p hash);
      p ← peer_of r; short8 (ID p)
    else if bool_decide (opcode = OpCodeLeave) then
      _ ← update_peer r (λ p, RemoveRemoteChannel p hash);
      p ← peer_of r; short8 (ID p)
    else mret ()
  else mret ().

Definition handleAppFrame (peerID : gostring) (r : PeerRef) (data : bytes) : M unit :=
  match data with
  | [] => mret ()
  | appFrameType :: payload =>
      if bool_decide (appFrameType = AppFrameTypeUserWithChannel) then
        if len payload <? 32 then short8 peerID else
        channelHash ← lift (go_slice payload 0 32);
        userData ← lift (go_slice_from payload 32);
        n ← get;
        if negb (isChannelSubscribed n channelHash) then short8 peerID else
        if has_onReceive n then emit (OnReceive peerID userData) else mret ()
      else if bool_decide (appFrameType = AppFrameTypeChannelUpdate) then
        processChannelUpdate r payload
      else mret ()
  end.

End channel.
