(* ===== verification/NodeHeartbeat.v ===== *)
(** * Liveness of peers ([node/heartbeat.go])

    Heartbeats, the removal of peers that stopped answering, and the cleanup of
    mappings that outlived their peer. *)

From S2P Require Import Prelude Protocol Session Peer Metrics Reconnect Config NodeState.

Section heartbeat.
Context {NL : Noise} {W : World}.

(** The heartbeat and its acknowledgement, built by hand in this file. *)
Definition heartbeat_packet (packetType : byte) (now : Time) : bytes :=
  let packet := make_bytes 13 in
  let packet := copy_range packet 0 4 MagicBytes in
  let packet := set_byte packet 4 packetType in
  put_timestamp_at packet 5 (UnixNano now).

Fixpoint send_heartbeats_to (ids : list gostring) : M unit :=
  match ids with
  | [] => mret ()
  | peerID :: ids' =>
      found ← get_peer peerID;
      _ ← (match found with
           | None => mret ()
           | Some r =>
               p ← peer_of r;
               now ← time_Now;
               let packet := heartbeat_packet PacketTypeHeartbeat now in
               let '(transport, addr, conn) := GetTransportInfo p in
               _ ← sendRaw conn addr transport packet; mret ()
           end);
      send_heartbeats_to ids'
  end.

Definition sendHeartbeats : M unit := n ← get; send_heartbeats_to (PeerStore_IDs (Peers n)).

Definition removePeerWithReconnect (peerID : gostring) (shouldReconnect : bool) : M unit :=
  found ← get_peer peerID;
  match found with
  | None => mret ()
  | Some r =>
      _ ← count IncDisconnectsTotal;
      p ← peer_of r;
      let originalAddr := GetOriginalAddr p in
      n ← get;
      _ ← (match kcpTransport n with Some k => RemoveSession k peerID | None => mret () end);
      closed ← on_peer r Peer_Close;
      _ ← peer_effects closed;
      _ ← modify (λ n, n <| addrToPeer ::= filter (λ kv, kv.2 ≠ peerID) |>);
      _ ← modify (λ n, n <| Peers ::= λ ps, PeerStore_Remove ps peerID |>);
      n ← get;
      _ ← (if has_onPeerDisconnected n then go (TaskDisconnected peerID) else mret ());
      n ← get;
      match n_reconnectManager n with
      | Some rm =>
          if shouldReconnect && bool_decide (originalAddr ≠ []) then
            now ← time_Now;
            modify (λ n, n <| n_reconnectManager := Some (ScheduleReconnect rm peerID originalAddr now) |>)
          else mret ()
      | None => mret ()
      end
  end.

Definition removePeer (peerID : gostring) : M unit := removePeerWithReconnect peerID true.

Fixpoint check_timeouts (now : Time) (ids : list gostring) : M unit :=
  match ids with
  | [] => mret ()
  | peerID :: ids' =>
      found ← get_peer peerID;
      _ ← (match found with
           | None => mret ()
           | Some r =>
               p ← peer_of r;
               n ← get;
               if HeartbeatTimeout (n_Config n) <? time_Sub now (GetLastSeen p) then
                 _ ← short8 peerID; removePeer peerID
               else mret ()
           end);
      check_timeouts now ids'
  end.

Definition checkHeartbeatTimeouts : M unit :=
  n ← get; now ← time_Now; check_timeouts now (PeerStore_IDs (Peers n)).

(** [if p, exists := n.Peers.Get(n.addrToPeer[addr]) { p.UpdateLastSeen() }]. *)
Definition touch_source (remoteAddr : Addr) : M unit :=
  n ← get;
  match addrToPeer n !! a_str remoteAddr with
  | None => mret ()
  | Some peerID =>
      found ← get_peer peerID;
      match found with
      | None => mret ()
      | Some r => now ← time_Now; update_peer r (λ p, UpdateLastSeen p now)
      end
  end.

Definition processHeartbeat (conn : option ConnRef) (remoteAddr : Addr) (transport : string) : M unit :=
  _ ← touch_source remoteAddr;
  now ← time_Now;
  _ ← sendRaw conn (Some remoteAddr) transport (heartbeat_packet PacketTypeHeartbeatAck now);
  mret ().

Definition processHeartbeatAck (remoteAddr : Addr) : M unit := touch_source remoteAddr.

(** [time.Now().Unix() - hs.CreatedAt() > 60]. *)
Definition handshake_stale (now : Z) (h : HandshakeState) : bool := 60 <? now - createdAt h.

(** Is some peer reached at this address? *)
Definition peer_at (n : Node) (addr : gostring) : bool :=
  existsb (λ id, match PeerStore_Get (Peers n) id ≫= λ r, peer_heap n !! r with
                 | Some p => match Peer_Addr p with
                             | Some a => bool_decide (a_str a = addr)
                             | None => false
                             end
                 | None => false
                 end) (PeerStore_IDs (Peers n)).

Definition cleanup (now : Z) (n : Node) : Node :=
  let n := n <| addrToPeer ::= filter (λ kv, is_Some (Peers n !! kv.2)) |> in
  let n := n <| pendingHandshakes ::= filter (λ kv, handshake_stale now kv.2 = false) |> in
  let n := n <| relayForward ::= filter (λ kv, peer_at n kv.1 = true) |> in
  let n := n <| relayInbound ::= filter (λ a, is_Some (addrToPeer n !! a)) |> in
  n <| relayPendingTarget ::= filter (λ kv, is_Some (addrToPeer n !! kv.1)) |>.

Definition cleanupStaleMappings : M unit := now ← time_Now; modify (cleanup (Unix now)).

End heartbeat.
