(* ===== verification/NodeRecv.v ===== *)
(** * Receiving data and recovering a lost session ([node/data_flow.go], [node/rehandshake.go])

    A data packet is opened with the session of the peer its source address
    belongs to, its fragment is handed to the reassembly of that peer, and a
    complete application frame is dispatched.  Repeated failures to decrypt start
    a new handshake on the same transport. *)

From S2P Require Import Identity.
From S2P Require Import Prelude Protocol Sha256 Session Peer Metrics Reconnect Config NodeState NodeChannel.
From S2P Require Import NodeHeartbeat.

Section recv.
Context {NL : Noise} {W : World}.

(** ** The fast re-handshake *)

Definition stateKey_of (transport : string) (addr : gostring) : gostring := str transport ++ str "://" ++ addr.

Definition errFastRehandshakeBusy : string := "pending handshake exists".

Definition sendFastRehandshake (r : PeerRef) : M (option string) :=
  p ← peer_of r;
  let '(transport, addr, conn) := GetTransportInfo p in
  match addr with
  | None => mret (Some "peer address is nil"%string)
  | Some a =>
      if bool_decide (transport ≠ "tcp"%string) && bool_decide (transport ≠ "udp"%string)
      then mret (Some "unsupported transport for re-handshake"%string) else
      n ← get;
      rnd ← draw;
      now ← time_Now;
      match NewInitiatorHandshake (NoisePrivateKey (n_Identity n)) (NoisePublicKey (n_Identity n))
              (NetworkPassword (n_Config n)) rnd (Unix now) with
      | Panic => panic
      | Err e => mret (Some e)
      | Ok (hs, msg) =>
          let stateKey := stateKey_of transport (a_str a) in
          n ← get;
          if bool_decide (is_Some (pendingHandshakes n !! stateKey)) then mret (Some errFastRehandshakeBusy) else
          _ ← modify (λ n, n <| pendingHandshakes ::= <[stateKey := hs]> |>);
          let packet := BuildHandshakePacket msg in
          err ← sendRaw conn (Some a) transport packet;
          match err with
          | Some e => _ ← modify (λ n, n <| pendingHandshakes ::= delete stateKey |>); mret (Some e)
          | None => _ ← go (TaskExpireHandshake stateKey); mret None
          end
      end
  end.

(** The goroutine [triggerFastRehandshake] starts. *)
Definition run_rehandshake (peerID : gostring) (r : PeerRef) : M unit :=
  n ← get;
  _ ← (if n_closing n then mret () else
       _ ← count IncFastRehandshakeAttempts;
       err ← sendFastRehandshake r;
       n ← get;
       let cfg := n_Config n in
       match err with
       | Some e =>
           if bool_decide (e = errFastRehandshakeBusy) then mret () else
           now ← time_Now;
           res ← on_peer r (λ p, RecordRehandshakeFailure p now (FastRehandshakeBaseBackoff cfg)
                                   (FastRehandshakeMaxBackoff cfg));
           _ ← count IncFastRehandshakeFailed;
           if FastRehandshakeFailThreshold cfg <=? res.1 then removePeerWithReconnect peerID true else mret ()
       | None =>
           now ← time_Now;
           _ ← update_peer r (λ p, RecordRehandshakeSuccess p now (FastRehandshakeBaseBackoff cfg));
           count IncFastRehandshakeSuccess
       end);
  update_peer r EndRehandshake.

Definition triggerFastRehandshake (peerID : gostring) (r : PeerRef) : M unit :=
  began ← on_peer r TryBeginRehandshake;
  if negb began then mret () else
  n ← get;
  let cfg := n_Config n in
  now ← time_Now;
  res ← on_peer r (λ p, ReserveRehandshakeAttempt p now (FastRehandshakeWindow cfg)
                          (FastRehandshakeMaxAttemptsWindow cfg));
  if negb (res.1 : bool) then update_peer r EndRehandshake else
  _ ← update_peer r ResetDecryptFailures;
  p ← peer_of r;
  let targetAddr :=
    if bool_decide (GetOriginalAddr p = []) then
      match Peer_Addr p with Some a => a_str a | None => [] end
    else GetOriginalAddr p in
  if bool_decide (targetAddr = []) then
    _ ← update_peer r EndRehandshake;
    removePeerWithReconnect peerID true
  else go (TaskRehandshake peerID r).

(** ** Data packets *)

Definition peer_decrypt (r : PeerRef) (payload : bytes) : M (res bytes) := λ n,
  match peer_heap n !! r with
  | None => None
  | Some p =>
      let '(σ, out) := Peer_Decrypt p (sess_heap n) payload in
      Some (out, n <| sess_heap := σ |>)
  end.

(** What a decrypted fragment leads to. *)
Definition handle_frame (peerID : gostring) (r : PeerRef) (frameType : byte) (frameData : bytes) : M unit :=
  if bool_decide (frameType = FrameTypeSingle) then
    _ ← update_peer r ResetReassembly;
    handleAppFrame peerID r frameData
  else if bool_decide (frameType = FrameTypeFirst) then
    now ← time_Now;
    update_peer r (λ p, StartReassembly p frameData now)
  else if bool_decide (frameType = FrameTypeMiddle) then
    now ← time_Now;
    _ ← on_peer r (λ p, AppendReassembly p frameData MaxReassemblySize now);
    mret ()
  else if bool_decide (frameType = FrameTypeLast) then
    res ← on_peer r (λ p, FinishReassembly p frameData MaxReassemblySize);
    let '(completeData, ok, overflow) := res in
    if ok : bool then handleAppFrame peerID r completeData else mret ()
  else mret ().

Definition decrypt_failed (peerID : gostring) (r : PeerRef) : M unit :=
  failures ← on_peer r IncDecryptFailures;
  _ ← short8 peerID;
  _ ← count IncErrorsTotal;
  n ← get;
  if MaxConsecutiveDecryptFailures (n_Config n) <=? failures then
    _ ← short8 peerID; triggerFastRehandshake peerID r
  else mret ().

Definition processData (remoteAddr : Addr) (payload : bytes) : M unit :=
  n ← get;
  match addrToPeer n !! a_str remoteAddr with
  | None => mret ()
  | Some peerID =>
      found ← get_peer peerID;
      match found with
      | None => mret ()
      | Some r =>
          out ← peer_decrypt r payload;
          match out with
          | Panic => panic
          | Err _ => decrypt_failed peerID r
          | Ok plaintext =>
              _ ← update_peer r ResetDecryptFailures;
              match plaintext with
              | [] => mret ()
              | frameType :: frameData =>
                  _ ← update_peer r (λ p, AddBytesReceived p (len frameData));
                  _ ← count (λ c, Collector_AddBytesReceived c (len frameData));
                  handle_frame peerID r frameType frameData
              end
          end
      end
  end.

End recv.
