(* ===== verification/NodeHandshake.v ===== *)
(** * Handshakes and relayed connections ([node/handshake.go], [node/relay_handler.go])

    [processHandshake] drives the Noise state of a remote address and, once a
    session exists, creates the peer or moves an existing one to the new
    transport.  A node can also be reached through a relay: the sender wraps its
    packets, the relay forwards them and the target unwraps them. *)

From S2P Require Import Identity.
From S2P Require Import Prelude Protocol Sha256 Session Peer RelayAuth RelayManager Metrics Reconnect Config.
From S2P Require Import NodeState NodeChannel NodeHeartbeat NodeRecv.

Section handshake.
Context {NL : Noise} {W : World}.

(** ** Relay candidates and relay packets *)

Definition getRelayAuthenticator : M RelayAuthenticator :=
  n ← get;
  match relayAuth n with
  | Some a => mret a
  | None =>
      let a := NewRelayAuthenticator (Some (MkRelayAuthConfig (EnableRelayAuth (n_Config n))
                 (RelayAuthTTL (n_Config n)) (NetworkPassword (n_Config n)))) in
      _ ← modify (λ n, n <| relayAuth := Some a |>);
      mret a
  end.

Definition registerRelayCandidate (peerID : gostring) (remoteAddr : Addr) : M unit :=
  n ← get;
  match n_relayManager n with
  | None => mret ()
  | Some rm =>
      if bool_decide (a_kind remoteAddr ≠ AddrUDP) then mret () else
      let addrStr := a_str remoteAddr in
      if bool_decide (addrStr ∈ relayAddrSet n) then mret () else
      now ← time_Now;
      modify (λ n, n <| relayAddrSet ::= λ s, {[addrStr]} ∪ s |>
                     <| n_relayManager := Some (AddRelay rm peerID addrStr now) |>)
  end.

(** [Mode(1)] [AddrLen(1)] [Addr] [AuthTokenLen(1)] [AuthToken] [Inner]. *)
Definition relay_payload (mode : byte) (addrStr authTokenData inner : bytes) : bytes :=
  let payloadLen := 2 + len addrStr + 1 + len authTokenData + len inner in
  let payload := make_bytes payloadLen in
  let payload := set_byte payload 0 mode in
  let payload := set_byte payload 1 (byte_of_Z (len addrStr)) in
  let payload := copy_at payload 2 addrStr in
  let offset := 2 + len addrStr in
  let payload := set_byte payload offset (byte_of_Z (len authTokenData)) in
  let offset := offset + 1 in
  let payload := copy_at payload offset authTokenData in
  let offset := offset + len authTokenData in
  copy_at payload offset inner.

Definition relay_token : M bytes :=
  n ← get;
  if EnableRelayAuth (n_Config n) then
    auth ← getRelayAuthenticator;
    now ← time_Now;
    match GenerateTokenWithHMAC auth (id_ID (n_Identity n)) (make_bytes 16) (Unix now) with
    | Some token => mret (Token_Encode token)
    | None => mret []
    end
  else mret [].

Definition buildRelayPacket (mode : byte) (targetAddr : option Addr) (inner : bytes) : M (bytes + string) :=
  match targetAddr with
  | None => mret (inr "no target address"%string)
  | Some targetAddr =>
      let addrStr := a_str targetAddr in
      if 255 <? len addrStr then mret (inr "target address too long"%string) else
      authTokenData ← relay_token;
      let authTokenData := if 255 <? len authTokenData then take 255 authTokenData else authTokenData in
      let payload := relay_payload mode addrStr authTokenData inner in
      let packet := make_bytes (5 + len payload) in
      let packet := copy_range packet 0 4 (str "TENT") in
      let packet := set_byte packet 4 PacketTypeRelay in
      mret (inl (copy_at packet 5 payload))
  end.

(** The handshake packet, built by hand where a connection is opened. *)
Definition handshake_packet (msg : bytes) : bytes :=
  let packet := make_bytes (5 + len msg) in
  let packet := copy_range packet 0 4 (str "TENT") in
  let packet := set_byte packet 4 PacketTypeHandshake in
  copy_at packet 5 msg.

(** A fresh initiator handshake for this node. *)
Definition new_initiator : M (res (HandshakeState * bytes)) :=
  n ← get;
  rnd ← draw;
  now ← time_Now;
  mret (NewInitiatorHandshake (NoisePrivateKey (n_Identity n)) (NoisePublicKey (n_Identity n))
          (NetworkPassword (n_Config n)) rnd (Unix now)).

Definition connectViaRelay (targetAddrStr : gostring) : M (option string) :=
  n ← get;
  match n_relayManager n with
  | None => mret (Some "relay manager not initialised"%string)
  | Some rm =>
      match resolve_udp targetAddrStr with
      | None => mret (Some "cannot resolve the target"%string)
      | Some targetAddr =>
          match SelectBestRelay rm (map_to_list (relays rm)) with
          | Panic => panic
          | Err e => mret (Some e)
          | Ok ref =>
              match infos rm !! ref with
              | None => panic
              | Some relay =>
                  hsr ← new_initiator;
                  match hsr with
                  | Panic => panic
                  | Err e => mret (Some e)
                  | Ok (hs, msg) =>
                      relayPacket ← buildRelayPacket RelayModeForward (Some targetAddr) (handshake_packet msg);
                      match relayPacket with
                      | inr e => mret (Some e)
                      | inl relayPacket =>
                          _ ← modify (λ n, n <| pendingHandshakes ::= <[str "udp://" ++ ri_Addr relay := hs]> |>
                                             <| relayPendingTarget ::= <[ri_Addr relay := targetAddr]> |>);
                          ok ← io (UDPWrite (MkAddr AddrUDP (ri_Addr relay)) relayPacket);
                          mret (if ok : bool then None else Some "UDP write error"%string)
                      end
                  end
              end
          end
      end
  end.

(** ** The handshake handler *)

Definition peerID_of_key (remotePub : bytes) : gostring := hex_EncodeToString (take 16 (sha256_Sum256 remotePub)).

(** A new [*crypto.Session]. *)
Definition alloc_session (s : Session) : M SessRef := λ n,
  let r := fresh (dom (sess_heap n)) in Some (r, n <| sess_heap ::= <[r := s]> |>).

Definition alloc_peer (p : Peer) : M PeerRef := λ n,
  let r := fresh (dom (peer_heap n)) in Some (r, n <| peer_heap ::= <[r := p]> |>).

Definition handleExistingPeer (existingPeer : PeerRef) (conn : option ConnRef) (remoteAddr : Addr)
    (transport : string) (session : SessRef) (addrStr peerID stateKey : gostring) : M unit :=
  p ← peer_of existingPeer;
  if bool_decide (transport = "tcp"%string) && bool_decide (Transport p ≠ "tcp"%string) then
    _ ← short8 peerID;
    now ← time_Now;
    closed ← on_peer existingPeer (λ p, UpgradeTransport p (Some remoteAddr) conn transport (Some session) now);
    _ ← peer_effects closed;
    _ ← modify (λ n, n <| addrToPeer ::= <[addrStr := peerID]> |> <| pendingHandshakes ::= delete stateKey |>);
    _ ← registerRelayCandidate peerID remoteAddr;
    go (TaskSyncChannels peerID)
  else
  n ← get;
  _ ← (match relayPendingTarget n !! addrStr with
       | Some target =>
           _ ← update_peer existingPeer (λ p, SetLinkMode p "relay" (Some target));
           modify (λ n, n <| relayPendingTarget ::= delete addrStr |>)
       | None =>
           if bool_decide (addrStr ∈ relayInbound n) then
             _ ← update_peer existingPeer (λ p, SetLinkMode p "relay" None);
             modify (λ n, n <| relayInbound ::= λ s, s ∖ {[addrStr]} |>)
           else mret ()
       end);
  _ ← modify (λ n, n <| pendingHandshakes ::= delete stateKey |>);
  now ← time_Now;
  closed ← on_peer existingPeer (λ p, UpgradeTransport p (Some remoteAddr) conn transport (Some session) now);
  _ ← peer_effects closed;
  now ← time_Now;
  _ ← update_peer existingPeer (λ p, UpdateLastSeen p now);
  registerRelayCandidate peerID remoteAddr.

(** A session with an unknown peer. *)
Definition handle_new_peer (conn : option ConnRef) (remoteAddr : Addr) (transport : string) (session : SessRef)
    (addrStr peerID stateKey : gostring) (responded : bool) : M unit :=
  n ← get;
  let pending := relayPendingTarget n !! addrStr in
  let inbound := bool_decide (addrStr ∈ relayInbound n) in
  let linkMode := if bool_decide (is_Some pending) || inbound then "relay"%string else "p2p"%string in
  _ ← modify (λ n, n <| pendingHandshakes ::= delete stateKey |> <| relayPendingTarget ::= delete addrStr |>
                     <| relayInbound ::= λ s, s ∖ {[addrStr]} |>);
  let onConnected := has_onPeerConnected n in
  n ← get;
  if (0 <? MaxPeers (n_Config n)) && (MaxPeers (n_Config n) <=? PeerStore_Count (Peers n)) then short8 peerID else
  now ← time_Now;
  r ← alloc_peer (NewPeer peerID (Some remoteAddr) addrStr conn transport linkMode pending (Some session) now);
  _ ← modify (λ n, n <| Peers ::= λ ps, PeerStore_Add ps peerID r |>);
  _ ← count IncHandshakesTotal;
  _ ← count IncConnectionsTotal;
  _ ← modify (λ n, n <| addrToPeer ::= <[addrStr := peerID]> |>);
  _ ← registerRelayCandidate peerID remoteAddr;
  _ ← go (TaskDiscoveryRequest r);
  _ ← go (TaskSyncChannels peerID);
  if onConnected then
    go (TaskConnected peerID
          (if bool_decide (transport = "udp"%string) && responded then 200 * Millisecond else 0))
  else mret ().

Definition get_or_create_handshake (stateKey : gostring) : M (option HandshakeState) :=
  n ← get;
  match pendingHandshakes n !! stateKey with
  | Some hs => mret (Some hs)
  | None =>
      rnd ← draw;
      now ← time_Now;
      match NewResponderHandshake (NoisePrivateKey (n_Identity n)) (NoisePublicKey (n_Identity n))
              (NetworkPassword (n_Config n)) rnd (Unix now) with
      | Panic => panic
      | Err _ => mret None
      | Ok hs => _ ← modify (λ n, n <| pendingHandshakes ::= <[stateKey := hs]> |>); mret (Some hs)
      end
  end.

Definition processHandshake (conn : option ConnRef) (remoteAddr : Addr) (transport : string) (payload : bytes)
    : M unit :=
  let addrStr := a_str remoteAddr in
  let stateKey := stateKey_of transport addrStr in
  found ← get_or_create_handshake stateKey;
  match found with
  | None => mret ()
  | Some hs =>
      let '(hs', out) := ProcessMessage hs payload in
      _ ← modify (λ n, n <| pendingHandshakes ::= <[stateKey := hs']> |>);
      match out with
      | Panic => panic
      | Err _ =>
          n ← get;
          if bool_decide (is_Some (addrToPeer n !! addrStr)) then mret () else
          _ ← count IncHandshakesFailed;
          modify (λ n, n <| pendingHandshakes ::= delete stateKey |>)
      | Ok (response, session) =>
          _ ← (match response with
               | Some msg => _ ← sendRaw conn (Some remoteAddr) transport (BuildHandshakePacket msg); mret ()
               | None => mret ()
               end);
          match session with
          | None => mret ()
          | Some s =>
              let peerID := peerID_of_key (RemotePublicKey s) in
              sr ← alloc_session s;
              existing ← get_peer peerID;
              match existing with
              | Some r => handleExistingPeer r conn remoteAddr transport sr addrStr peerID stateKey
              | None => handle_new_peer conn remoteAddr transport sr addrStr peerID stateKey
                          (bool_decide (is_Some response))
              end
          end
      end
  end.

End handshake.
