(* ===== verification/NodeDiscovery.v ===== *)
(** * Peer discovery ([node/discovery.go])

    A node tells a connected peer which peers it knows; the receiver connects to
    those it does not know, at most eight at a time and at most once per ten
    seconds and candidate, remembering at most 1024 candidates. *)

From S2P Require Import Prelude Protocol Session Peer Metrics Reconnect Config NodeState NodeChannel.

Definition discoveryConnectConcurrencyLimit : Z := 8.
Definition discoveryConnectCooldown : Duration := 10 * Second.
Definition discoveryConnectPruneThreshold : Z := 256.
Definition discoveryConnectSeenHardLimit : Z := 1024.

(** ** Candidates seen recently *)

Definition pruneDiscoveryConnectSeenLocked (now : Time) (seen : gmap gostring Time) : gmap gostring Time :=
  filter (λ kv, time_Before now kv.2 = true) seen.

(** [sort.Slice] by deadline: any order of equal deadlines will do, insertion
    sort is one. *)
Fixpoint insert_seen (e : gostring * Time) (l : list (gostring * Time)) : list (gostring * Time) :=
  match l with
  | [] => [e]
  | x :: l' => if time_Before x.2 e.2 then x :: insert_seen e l' else e :: l
  end.

Definition sort_seen (l : list (gostring * Time)) : list (gostring * Time) := foldr insert_seen [] l.

Definition trimDiscoveryConnectSeenLocked (targetSize : Z) (seen : gmap gostring Time) : gmap gostring Time :=
  let targetSize := if targetSize <? 0 then 0 else targetSize in
  if Z.of_nat (size seen) <=? targetSize then seen else
  let entries := sort_seen (map_to_list seen) in
  let removeCount := Z.of_nat (size seen) - targetSize in
  foldr (λ e m, delete e.1 m) seen (take (Z.to_nat removeCount) entries).

(** ** Entries of a response *)

Definition discovery_entry (pid addr : gostring) : bytes :=
  let entry := make_bytes (1 + len pid + 1 + len addr) in
  let entry := set_byte entry 0 (byte_of_Z (len pid)) in
  let entry := copy_range entry 1 (1 + len pid) pid in
  let entry := set_byte entry (1 + len pid) (byte_of_Z (len addr)) in
  copy_at entry (2 + len pid) addr.

Definition discovery_payload (entries : list (gostring * gostring)) : bytes :=
  let count := len entries in
  let body := concat (map (λ e, discovery_entry e.1 e.2) entries) in
  let payload := make_bytes (2 + len body) in
  let payload := set_byte payload 0 (byte_of_Z (Z.shiftr count 8)) in
  let payload := set_byte payload 1 (byte_of_Z (Z.land count 0xff)) in
  copy_at payload 2 body.

(** The entries the parsing loop visits, up to the first truncated one. *)
Fixpoint discovery_parse (count : nat) (payload : bytes) (offset : Z) : res (list (gostring * gostring)) :=
  match count with
  | O => Ok []
  | S count =>
      if len payload <=? offset then Ok [] else
      pl ← go_index payload offset;
      let pidLen := Z_of_byte pl in
      let offset := offset + 1 in
      if len payload <? offset + pidLen then Ok [] else
      peerID ← go_slice payload offset (offset + pidLen);
      let offset := offset + pidLen in
      if len payload <=? offset then Ok [] else
      al ← go_index payload offset;
      let addrLen := Z_of_byte al in
      let offset := offset + 1 in
      if len payload <? offset + addrLen then Ok [] else
      addrStr ← go_slice payload offset (offset + addrLen);
      rest ← discovery_parse count payload (offset + addrLen);
      Ok ((peerID, addrStr) :: rest)
  end.

(** [int(payload[0])<<8 | int(payload[1])]. *)
Definition discovery_entries (payload : bytes) : res (list (gostring * gostring)) :=
  if len payload <? 2 then Ok [] else
  c0 ← go_index payload 0;
  c1 ← go_index payload 1;
  let count := Z.lor (Z.shiftl (Z_of_byte c0) 8) (Z_of_byte c1) in
  discovery_parse (Z.to_nat count) payload 2.

Section discovery.
Context {NL : Noise} {W : World}.

Definition sendDiscoveryRequest (r : PeerRef) : M unit :=
  let packet := make_bytes 5 in
  let packet := copy_range packet 0 4 (str "TENT") in
  let packet := set_byte packet 4 PacketTypeDiscoveryReq in
  p ← peer_of r;
  let '(transport, addr, conn) := GetTransportInfo p in
  _ ← sendRaw conn addr transport packet; mret ().

Definition isDiscoverySourceAuthenticated (n : Node) (remoteAddr : Addr) : bool :=
  match addrToPeer n !! a_str remoteAddr with
  | Some peerID => bool_decide (is_Some (PeerStore_Get (Peers n) peerID))
  | None => false
  end.

(** The peers that fit an entry. *)
Definition known_peers (n : Node) : list (gostring * gostring) :=
  omap (λ pid, match PeerStore_Get (Peers n) pid ≫= λ r, peer_heap n !! r with
               | Some p =>
                   match Peer_Addr p with
                   | Some a => if (255 <? len pid) || (255 <? len (a_str a)) then None else Some (pid, a_str a)
                   | None => None
                   end
               | None => None
               end) (PeerStore_IDs (Peers n)).

Definition processDiscoveryRequest (conn : option ConnRef) (remoteAddr : Addr) (transport : string) : M unit :=
  n ← get;
  if negb (isDiscoverySourceAuthenticated n remoteAddr) then mret () else
  let payload := discovery_payload (known_peers n) in
  let packet := make_bytes (5 + len payload) in
  let packet := copy_range packet 0 4 (str "TENT") in
  let packet := set_byte packet 4 PacketTypeDiscoveryResp in
  let packet := copy_at packet 5 payload in
  _ ← sendRaw conn (Some remoteAddr) transport packet; mret ().

Definition tryBeginDiscoveryConnect (peerID addr : gostring) : M bool :=
  let key := peerID ++ str "|" ++ addr in
  now ← time_Now;
  n ← get;
  let seen := discoveryConnectSeen n in
  let seen := if discoveryConnectPruneThreshold <? Z.of_nat (size seen)
              then pruneDiscoveryConnectSeenLocked now seen else seen in
  let recent := match seen !! key with Some until => time_Before now until | None => false end in
  if recent then
    _ ← modify (λ n, n <| discoveryConnectSeen := seen |>); mret false
  else
  let seen :=
    if discoveryConnectSeenHardLimit <=? Z.of_nat (size seen) then
      let seen := pruneDiscoveryConnectSeenLocked now seen in
      if discoveryConnectSeenHardLimit <=? Z.of_nat (size seen)
      then trimDiscoveryConnectSeenLocked (discoveryConnectSeenHardLimit - 1) seen else seen
    else seen in
  let seen := <[key := time_Add now discoveryConnectCooldown]> seen in
  if discoveryConnectSem n <? discoveryConnectConcurrencyLimit then
    _ ← modify (λ n, n <| discoveryConnectSeen := seen |> <| discoveryConnectSem ::= λ s, s + 1 |>); mret true
  else
    _ ← modify (λ n, n <| discoveryConnectSeen := delete key seen |>); mret false.

Definition endDiscoveryConnect : M unit :=
  modify (λ n, n <| discoveryConnectSem ::= λ s, if 0 <? s then s - 1 else s |>).

Fixpoint connect_discovered (entries : list (gostring * gostring)) : M unit :=
  match entries with
  | [] => mret ()
  | (peerID, addrStr) :: entries' =>
      n ← get;
      _ ← (if bool_decide (peerID = localPeerID n) then mret () else
           if bool_decide (is_Some (PeerStore_Get (Peers n) peerID)) then mret () else
           began ← tryBeginDiscoveryConnect peerID addrStr;
           if began : bool then go (TaskConnect addrStr) else mret ());
      connect_discovered entries'
  end.

Definition processDiscoveryResponse (remoteAddr : Addr) (payload : bytes) : M unit :=
  n ← get;
  if negb (isDiscoverySourceAuthenticated n remoteAddr) then mret () else
  entries ← lift (discovery_entries payload);
  connect_discovered entries.

(** ** The response codec *)

Lemma discovery_entry_eq pid addr :
  discovery_entry pid addr = byte_of_Z (len pid) :: pid ++ byte_of_Z (len addr) :: addr.
Proof. unfold discovery_entry. fill. done. Qed.

Lemma discovery_payload_eq entries :
  discovery_payload entries
  = byte_of_Z (Z.shiftr (len entries) 8) :: byte_of_Z (Z.land (len entries) 0xff)
    :: concat (map (λ e, discovery_entry e.1 e.2) entries).
Proof. unfold discovery_payload. fill. done. Qed.

Definition fits_entry (e : gostring * gostring) : Prop := len e.1 ≤ 255 ∧ len e.2 ≤ 255.

(** One turn of the parsing loop on an entry at the offset. *)
Lemma discovery_parse_entry count pre pid addr post :
  fits_entry (pid, addr) →
  discovery_parse (S count) (pre ++ discovery_entry pid addr ++ post) (len pre)
  = (rest ← discovery_parse count (pre ++ discovery_entry pid addr ++ post) (len (pre ++ discovery_entry pid addr));
     Ok ((pid, addr) :: rest)).
Proof.
  intros [Hp Ha]. cbn [fst snd] in *. rewrite discovery_entry_eq.
  assert (Z_of_byte (byte_of_Z (len pid)) = len pid) as Ep by (rewrite Z_of_byte_of_Z; apply Z.mod_small; len_solve).
  assert (Z_of_byte (byte_of_Z (len addr)) = len addr) as Ea by (rewrite Z_of_byte_of_Z; apply Z.mod_small; len_solve).
  set (bp := byte_of_Z (len pid)) in *. set (ba := byte_of_Z (len addr)) in *.
  set (payload := pre ++ _).
  assert (len payload = len pre + 1 + len pid + 1 + len addr + len post) as Hlen by (unfold payload; len_solve).
  cbn [discovery_parse]. rewrite (proj2 (Z.leb_gt _ _)) by len_solve.
  rewrite (go_index_at payload pre bp (pid ++ ba :: addr ++ post)) by (reassoc || done).
  cbn [mbind res_bind]. rewrite Ep, (proj2 (Z.ltb_ge _ _)) by len_solve.
  rewrite (go_slice_at payload (pre ++ [bp]) pid (ba :: addr ++ post)) by (reassoc || len_solve).
  cbn [mbind res_bind]. rewrite (proj2 (Z.leb_gt _ _)) by len_solve.
  rewrite (go_index_at payload (pre ++ bp :: pid) ba (addr ++ post)) by (reassoc || len_solve).
  cbn [mbind res_bind]. rewrite Ea, (proj2 (Z.ltb_ge _ _)) by len_solve.
  rewrite (go_slice_at payload (pre ++ bp :: pid ++ [ba]) addr post) by (reassoc || len_solve).
  cbn [mbind res_bind]. do 2 f_equal. len_solve.
Qed.

Definition entries_body (es : list (gostring * gostring)) : bytes :=
  concat (map (λ e, discovery_entry e.1 e.2) es).

Lemma discovery_parse_entries es : ∀ count pre,
  Forall fits_entry es →
  discovery_parse count (pre ++ entries_body es) (len pre) = Ok (take count es).
Proof.
  induction es as [|[pid addr] es IH]; intros count pre Hes.
  - rewrite take_nil. destruct count; [done|]. cbn [discovery_parse]. unfold entries_body. cbn.
    rewrite app_nil_r. by rewrite (proj2 (Z.leb_le _ _)) by lia.
  - inversion_clear Hes as [|? ? He Hes']. destruct count as [|count]; [done|].
    change (entries_body ((pid, addr) :: es)) with (discovery_entry pid addr ++ entries_body es).
    rewrite discovery_parse_entry by done. rewrite app_assoc, IH by done. done.
Qed.

Lemma known_peers_fit n : Forall fits_entry (known_peers n).
Proof.
  apply Forall_forall. intros e (pid & _ & He)%list_elem_of_omap. revert He.
  destruct (PeerStore_Get _ _ ≫= _) as [p|]; [|done]. destruct (Peer_Addr p) as [a|]; [|done].
  destruct (Z.ltb_spec 255 (len pid)), (Z.ltb_spec 255 (len (a_str a))); cbn; intros; simplify_eq.
  by split.
Qed.

(** Discovery responses are read back as they were written.  The payload a
    node builds from the peers it knows parses to those entries, in order; the
    count field has sixteen bits, so a list of [k] entries is cut to the first
    [k mod 65536]. *)
Theorem discovery_roundtrip n :
  discovery_entries (discovery_payload (known_peers n))
  = Ok (take (Z.to_nat (len (known_peers n) mod 65536)) (known_peers n)).
Proof.
  pose proof (known_peers_fit n) as Hfit. set (es := known_peers n) in *.
  rewrite discovery_payload_eq. fold (entries_body es).
  unfold discovery_entries. rewrite (proj2 (Z.ltb_ge _ _)) by len_solve.
  cbn [go_index]. change (go_index (?a :: ?b :: ?l) 0) with (Ok a). 
  rewrite (go_index_at _ [byte_of_Z (Z.shiftr (len es) 8)] (byte_of_Z (Z.land (len es) 0xff)) (entries_body es)) by done.
  cbn [mbind res_bind]. rewrite lor_shiftl_byte, !Z_of_byte_of_Z.
  change 0xff with (Z.ones 8). rewrite Z.land_ones, Z.shiftr_div_pow2 by lia. change (2 ^ 8) with 256.
  rewrite Z.mod_mod by lia.
  replace ((len es / 256) mod 256 * 256 + len es mod 256) with (len es mod 65536)
    by (change 65536 with (256 * 256); rewrite (split_mod (len es) 256 256) by lia; lia).
  exact (discovery_parse_entries es _ [_; _] Hfit).
Qed.

(** ** Admission of candidates *)

Lemma insert_seen_perm e l : insert_seen e l ≡ₚ e :: l.
Proof.
  induction l as [|x l IH]; [done|]. cbn. destruct (time_Before _ _); [|done].
  rewrite IH. apply Permutation_swap.
Qed.

Lemma sort_seen_perm l : sort_seen l ≡ₚ l.
Proof. induction l as [|e l IH]; [done|]. cbn. by rewrite insert_seen_perm, IH. Qed.

Lemma size_delete_some (k : gostring) (m : gmap gostring Time) :
  is_Some (m !! k) → size (delete k m) = pred (size m).
Proof. intros [v Hv]. rewrite map_size_delete. by rewrite Hv. Qed.

Lemma delete_keys_lookup (l : list (gostring * Time)) (m : gmap gostring Time) k :
  k ∉ l.*1 → foldr (λ e m, delete e.1 m) m l !! k = m !! k.
Proof.
  induction l as [|[k' v] l IH]; [done|]. cbn. rewrite not_elem_of_cons. intros [Hne Hl].
  rewrite lookup_delete_ne by done. auto.
Qed.

Lemma size_delete_keys (l : list (gostring * Time)) (m : gmap gostring Time) :
  NoDup l.*1 → (∀ e, e ∈ l → m !! e.1 = Some e.2) →
  size (foldr (λ e m, delete e.1 m) m l) = (size m - length l)%nat.
Proof.
  induction l as [|[k v] l IH]; intros Hnd Hin; cbn; [lia|]. inversion_clear Hnd as [|? ? Hk Hnd'].
  rewrite size_delete_some, IH; [lia|done|..].
  - intros e He. apply Hin. by right.
  - rewrite delete_keys_lookup by done. exists v. apply (Hin (k, v)). by left.
Qed.

(** Trimming reaches its target exactly and only removes. *)
Lemma trim_size target seen :
  0 ≤ target → Z.of_nat (size (trimDiscoveryConnectSeenLocked target seen)) = Z.min target (Z.of_nat (size seen)).
Proof.
  intros Ht. unfold trimDiscoveryConnectSeenLocked. rewrite (proj2 (Z.ltb_ge _ _)) by lia.
  destruct (Z.leb_spec (Z.of_nat (size seen)) target); [lia|].
  pose proof (sort_seen_perm (map_to_list seen)) as Hp.
  rewrite size_delete_keys, length_take, Hp, length_map_to_list; [lia|..].
  - rewrite fmap_take. eapply sublist_NoDup; [|apply sublist_take]. rewrite Hp. apply NoDup_fst_map_to_list.
  - intros [k v] (i & Hi%list_elem_of_lookup_2 & _)%elem_of_take. rewrite Hp in Hi. by apply elem_of_map_to_list.
Qed.

Lemma delete_keys_subseteq (l : list (gostring * Time)) (m : gmap gostring Time) :
  foldr (λ e m, delete e.1 m) m l ⊆ m.
Proof. induction l as [|e l IH]; cbn; [done|]. etrans; [apply delete_subseteq|done]. Qed.

Lemma trim_subseteq target seen : trimDiscoveryConnectSeenLocked target seen ⊆ seen.
Proof. unfold trimDiscoveryConnectSeenLocked. destruct (Z.of_nat _ <=? _); [done|]. apply delete_keys_subseteq. Qed.

Lemma prune_subseteq now seen : pruneDiscoveryConnectSeenLocked now seen ⊆ seen.
Proof. apply map_filter_subseteq. Qed.

(** Pruning keeps what has not expired. *)
Lemma prune_lookup now seen k until :
  pruneDiscoveryConnectSeenLocked now seen !! k = Some until ↔ seen !! k = Some until ∧ now < until.
Proof.
  unfold pruneDiscoveryConnectSeenLocked, time_Before. rewrite map_lookup_filter_Some. cbn. by rewrite Z.ltb_lt.
Qed.

(** The table after the entries that must go are gone. *)
Definition evict (now : Time) (seen : gmap gostring Time) : gmap gostring Time :=
  if discoveryConnectSeenHardLimit <=? Z.of_nat (size seen) then
    let seen := pruneDiscoveryConnectSeenLocked now seen in
    if discoveryConnectSeenHardLimit <=? Z.of_nat (size seen)
    then trimDiscoveryConnectSeenLocked (discoveryConnectSeenHardLimit - 1) seen else seen
  else seen.

Lemma evict_spec now seen :
  evict now seen ⊆ seen ∧ Z.of_nat (size (evict now seen)) < discoveryConnectSeenHardLimit.
Proof.
  unfold evict. cbv zeta. zcase; [|done]. pose proof (prune_subseteq now seen). zcase; [|done].
  split; [by etrans; [apply trim_subseteq|]|].
  rewrite trim_size by (unfold discoveryConnectSeenHardLimit; lia). lia.
Qed.

Definition candidate_key (peerID addr : gostring) : gostring := peerID ++ str "|" ++ addr.

Definition cooling (n : Node) (key : gostring) (now : Time) : bool :=
  match discoveryConnectSeen n !! key with Some until => now <? until | None => false end.

Definition pruned (n : Node) (now : Time) : gmap gostring Time :=
  if discoveryConnectPruneThreshold <? Z.of_nat (size (discoveryConnectSeen n))
  then pruneDiscoveryConnectSeenLocked now (discoveryConnectSeen n) else discoveryConnectSeen n.

Lemma pruned_subseteq n now : pruned n now ⊆ discoveryConnectSeen n.
Proof. unfold pruned. zcase; [apply prune_subseteq|done]. Qed.

(** Pruning first does not change the answer. *)
Lemma cooling_pruned n key now :
  match pruned n now !! key with Some until => time_Before now until | None => false end = cooling n key now.
Proof.
  unfold cooling, pruned, time_Before. zcase; [|done].
  destruct (pruneDiscoveryConnectSeenLocked _ _ !! key) as [u|] eqn:E.
  - apply prune_lookup in E as [-> ?]. done.
  - destruct (discoveryConnectSeen n !! key) as [u|] eqn:Hu; [|done]. symmetry. apply Z.ltb_ge.
    destruct (Z.le_gt_cases u now); [done|]. by rewrite (proj2 (prune_lookup now _ _ u)) in E by done.
Qed.

Lemma tryBegin_run n peerID addr :
  let now := clock (n_ticks n) in
  let key := candidate_key peerID addr in
  let next := <[key := now + discoveryConnectCooldown]> (evict now (pruned n now)) in
  tryBeginDiscoveryConnect peerID addr n
  = if cooling n key now then Some (false, n <| n_ticks ::= S |> <| discoveryConnectSeen := pruned n now |>) else
    if discoveryConnectSem n <? discoveryConnectConcurrencyLimit
    then Some (true, n <| n_ticks ::= S |> <| discoveryConnectSeen := next |> <| discoveryConnectSem ::= λ s, s + 1 |>)
    else Some (false, n <| n_ticks ::= S |> <| discoveryConnectSeen := delete key next |>).
Proof.
  intros now key next. rewrite <- cooling_pruned. unfold tryBeginDiscoveryConnect.
  rewrite now_bind, get_bind. cbv zeta.
  change (discoveryConnectSeen (n <| n_ticks ::= S |>)) with (discoveryConnectSeen n).
  change (discoveryConnectSem (n <| n_ticks ::= S |>)) with (discoveryConnectSem n).
  fold now. fold (pruned n now). fold (evict now (pruned n now)). fold (candidate_key peerID addr). fold key.
  destruct (match pruned n now !! key with Some _ => _ | None => _ end); [done|]. by destruct (_ <? _).
Qed.

(** C24: Connecting to discovered peers is throttled.  A candidate is admitted
    exactly if its last attempt is more than the cooldown ago and fewer than
    eight attempts are running; admission takes a slot and starts the cooldown;
    refusal leaves the slots alone; and the table never exceeds its limit of 1024
    entries, inventing none. *)
Theorem discovery_admission n peerID addr :
  let now := clock (n_ticks n) in
  let key := candidate_key peerID addr in
  let admitted := negb (cooling n key now) && (discoveryConnectSem n <? discoveryConnectConcurrencyLimit) in
  Z.of_nat (size (discoveryConnectSeen n)) ≤ discoveryConnectSeenHardLimit →
  discoveryConnectSem n ≤ discoveryConnectConcurrencyLimit →
  ∃ n', tryBeginDiscoveryConnect peerID addr n = Some (admitted, n')
  ∧ Z.of_nat (size (discoveryConnectSeen n')) ≤ discoveryConnectSeenHardLimit
  ∧ discoveryConnectSem n' = discoveryConnectSem n + (if admitted then 1 else 0)
  ∧ discoveryConnectSem n' ≤ discoveryConnectConcurrencyLimit
  ∧ (admitted = true → discoveryConnectSeen n' !! key = Some (now + discoveryConnectCooldown))
  ∧ (∀ k until, k ≠ key → discoveryConnectSeen n' !! k = Some until → discoveryConnectSeen n !! k = Some until).
Proof.
  intros now key admitted Hsize Hsem. rewrite tryBegin_run. fold now key. subst admitted.
  pose proof (pruned_subseteq n now) as Hpr. destruct (evict_spec now (pruned n now)) as [Hev Hes].
  assert (∀ k u, k ≠ key → <[key := now + discoveryConnectCooldown]> (evict now (pruned n now)) !! k = Some u →
    discoveryConnectSeen n !! k = Some u) as Hold.
  { intros k u Hk. rewrite lookup_insert_ne by done. intros Hu. by do 2 (eapply lookup_weaken; [|done]). }
  assert (Z.of_nat (size (<[key := now + discoveryConnectCooldown]> (evict now (pruned n now))))
          ≤ Z.of_nat (size (evict now (pruned n now))) + 1) as Hins by (rewrite map_size_insert; case_match; unfold id; lia).
  destruct (cooling n key now); cbn [negb andb].
  { eexists. split; [reflexivity|]. cbn. split_and!; try done; [|lia|].
    - pose proof (map_subseteq_size _ _ Hpr). lia.
    - intros k u _ Hu. by eapply lookup_weaken. }
  destruct (Z.ltb_spec (discoveryConnectSem n) discoveryConnectConcurrencyLimit); (eexists; split; [reflexivity|]); cbn.
  - split_and!; try done; try lia. intros _. apply lookup_insert_eq.
  - split_and!; try done; try lia.
    + rewrite map_size_delete. case_match; unfold id; lia.
    + intros k u Hk. rewrite lookup_delete_ne by done. by apply Hold.
Qed.

End discovery.
