(* ===== verification/NodeDispatch.v ===== *)
(** * Packet dispatch ([node/node.go], [node/relay_handler.go], [node/udp_io.go]) *)

From S2P Require Import Prelude Protocol Stream Sha256 Session Peer RelayAuth RelayManager Metrics Reconnect.
From S2P Require Import Config Probe NodeState NodeChannel NodeHeartbeat NodeRecv NodeHandshake NodeDiscovery.

Section dispatch.
Context {NL : Noise} {W : World}.

Definition handlePacket (conn : option ConnRef) (remoteAddr : Addr) (transport : string) (packetType : byte)
    (payload : bytes) : M unit :=
  if bool_decide (packetType = PacketTypeHandshake) then processHandshake conn remoteAddr transport payload
  else if bool_decide (packetType = PacketTypeData) then processData remoteAddr payload
  else if bool_decide (packetType = PacketTypeDiscoveryReq) then processDiscoveryRequest conn remoteAddr transport
  else if bool_decide (packetType = PacketTypeDiscoveryResp) then processDiscoveryResponse remoteAddr payload
  else if bool_decide (packetType = PacketTypeHeartbeat) then processHeartbeat conn remoteAddr transport
  else if bool_decide (packetType = PacketTypeHeartbeatAck) then processHeartbeatAck remoteAddr
  else mret ().

(** The fields of a relayed payload: mode, target, token, inner packet. *)
Definition parse_relay (payload : bytes) : res (option (byte * gostring * bytes * bytes)) :=
  if len payload <? 3 then Ok None else
  mode ← go_index payload 0;
  al ← go_index payload 1;
  let addrLen := Z_of_byte al in
  if len payload <? 2 + addrLen + 1 then Ok None else
  addrStr ← go_slice payload 2 (2 + addrLen);
  let offset := 2 + addrLen in
  tl ← go_index payload offset;
  let authTokenLen := Z_of_byte tl in
  let offset := offset + 1 in
  if len payload <? offset + authTokenLen then Ok None else
  authTokenData ← go_slice payload offset (offset + authTokenLen);
  let offset := offset + authTokenLen in
  inner ← go_slice_from payload offset;
  if len inner =? 0 then Ok None else
  Ok (Some (mode, addrStr, authTokenData, inner)).

(** [EnableRelayAuth && authTokenLen > 0]: a packet without a token is not
    checked.  [ed25519.Verify] is not reached: the public key is nil. *)
Definition relay_authorized (authTokenData : bytes) : M bool :=
  n ← get;
  if EnableRelayAuth (n_Config n) && (0 <? len authTokenData) then
    auth ← getRelayAuthenticator;
    match DecodeToken authTokenData with
    | Panic => panic
    | Err _ => _ ← count IncRelayAuthFailed; mret false
    | Ok token =>
        now ← time_Now;
        match VerifyToken (λ _ _ _, false) auth token None (Unix now) with
        | Ok _ => mret true
        | _ => _ ← count IncRelayAuthFailed; mret false
        end
    end
  else mret true.

Definition handleRelayPacket (origin : Addr) (payload : bytes) : M unit :=
  n ← get;
  if negb (EnableRelay (n_Config n)) then mret () else
  parsed ← lift (parse_relay payload);
  match parsed with
  | None => mret ()
  | Some (mode, addrStr, authTokenData, inner) =>
      authorized ← relay_authorized authTokenData;
      if negb authorized then mret () else
      match resolve_udp addrStr with
      | None => mret ()
      | Some targetAddr =>
          if bool_decide (mode = RelayModeForward) then
            _ ← modify (λ n, n <| relayForward ::= <[a_str targetAddr := origin]> |>);
            forwardPacket ← buildRelayPacket RelayModeTarget (Some targetAddr) inner;
            match forwardPacket with
            | inr _ => mret ()
            | inl forwardPacket => _ ← io (UDPWrite targetAddr forwardPacket); mret ()
            end
          else if bool_decide (mode = RelayModeTarget) then
            if (len inner <? 5) || bool_decide (subslice inner 0 4 ≠ str "TENT") then mret () else
            packetType ← lift (go_index inner 4);
            innerPayload ← lift (go_slice_from inner 5);
            _ ← modify (λ n, n <| relayInbound ::= λ s, {[a_str origin]} ∪ s |>);
            handlePacket None origin "udp" packetType innerPayload
          else mret ()
      end
  end.

(** One datagram of the TENT connection; [probe] is the prober of the node with
    what it answers. *)
Definition handleRead_turn (probe : bytes → option bytes) (addr : Addr) (buf : bytes) : M unit :=
  if bool_decide (a_kind addr ≠ AddrUDP) then mret () else
  if len buf <? 4 then mret () else
  if bool_decide (subslice buf 0 4 = str "NATP") then
    match probe buf with
    | Some resp => if 0 <? len resp then _ ← io (UDPWrite addr resp); mret () else mret ()
    | None => mret ()
    end
  else
  if len buf <? 5 then mret () else
  if bool_decide (subslice buf 0 4 ≠ str "TENT") then mret () else
  packetType ← lift (go_index buf 4);
  payload ← lift (go_slice_from buf 5);
  if bool_decide (packetType = PacketTypeRelay) then handleRelayPacket addr payload else
  n ← get;
  match (if EnableRelay (n_Config n) then relayForward n !! a_str addr else None) with
  | Some originAddr => _ ← io (UDPWrite originAddr buf); mret ()
  | None => handlePacket None addr "udp" packetType payload
  end.

(** The packets a read loop takes off a stream, dispatched one after the other. *)
Fixpoint dispatch_all (conn : option ConnRef) (remoteAddr : Addr) (transport : string) (ps : list (byte * bytes))
    : M unit :=
  match ps with
  | [] => mret ()
  | (packetType, payload) :: ps' =>
      _ ← handlePacket conn remoteAddr transport packetType payload;
      dispatch_all conn remoteAddr transport ps'
  end.

(** What [handleTCP] has done after these bytes arrived on its connection. *)
Definition receive_tcp (conn : ConnRef) (remoteAddr : Addr) (stream : bytes) : M unit :=
  dispatch_all (Some conn) remoteAddr "tcp" (handleTCP (S (length stream)) stream).1.

(** And for a KCP session. *)
Definition receive_kcp (remoteAddr : Addr) (stream : bytes) : M unit :=
  dispatch_all None remoteAddr "kcp" (handleSession (S (length stream)) stream).1.

(** ** Relayed packets *)

Lemma relay_payload_eq mode addr tok inner :
  relay_payload mode addr tok inner
  = mode :: byte_of_Z (len addr) :: addr ++ byte_of_Z (len tok) :: tok ++ inner.
Proof. unfold relay_payload. fill. done. Qed.

Lemma Z_of_byte_small z : 0 ≤ z ≤ 255 → Z_of_byte (byte_of_Z z) = z.
Proof. intros. rewrite Z_of_byte_of_Z. apply Z.mod_small. lia. Qed.

(** What one side wraps the other unwraps. *)
Lemma parse_relay_payload mode addr tok inner :
  len addr ≤ 255 → len tok ≤ 255 → inner ≠ [] →
  parse_relay (relay_payload mode addr tok inner) = Ok (Some (mode, addr, tok, inner)).
Proof.
  intros Ha Ht Hi. rewrite relay_payload_eq.
  assert (Z_of_byte (byte_of_Z (len addr)) = len addr) as Ea by (apply Z_of_byte_small; len_solve).
  assert (Z_of_byte (byte_of_Z (len tok)) = len tok) as Et by (apply Z_of_byte_small; len_solve).
  assert (0 < len inner) as Hpos by (destruct inner; [done|len_solve]).
  set (ba := byte_of_Z (len addr)) in *. set (bt := byte_of_Z (len tok)) in *. set (payload := mode :: _).
  assert (len payload = 2 + len addr + 1 + len tok + len inner) as Hlen by (unfold payload; len_solve).
  unfold parse_relay. rewrite (proj2 (Z.ltb_ge _ _)) by len_solve.
  rewrite (go_index_at payload [] mode (ba :: addr ++ bt :: tok ++ inner) 0) by (reassoc || done).
  rewrite (go_index_at payload [mode] ba (addr ++ bt :: tok ++ inner) 1) by (reassoc || done).
  cbn [mbind res_bind]. rewrite Ea, (proj2 (Z.ltb_ge _ _)) by len_solve.
  rewrite (go_slice_at payload [mode; ba] addr (bt :: tok ++ inner)) by (reassoc || len_solve).
  rewrite (go_index_at payload (mode :: ba :: addr) bt (tok ++ inner)) by (reassoc || len_solve).
  cbn [mbind res_bind]. rewrite Et, (proj2 (Z.ltb_ge _ _)) by len_solve.
  rewrite (go_slice_at payload (mode :: ba :: addr ++ [bt]) tok inner) by (reassoc || len_solve).
  rewrite (go_slice_from_at payload (mode :: ba :: addr ++ bt :: tok) inner) by (reassoc || len_solve).
  cbn [mbind res_bind]. by rewrite (proj2 (Z.eqb_neq _ _)) by lia.
Qed.

(** What checking and making tokens leave alone. *)
Definition relay_frame (n n' : Node) : Prop :=
  n_Config n' = n_Config n ∧ relayForward n' = relayForward n ∧ n_log n' = n_log n.

Lemma getRelayAuthenticator_run n : ∃ a n', getRelayAuthenticator n = Some (a, n') ∧ relay_frame n n'.
Proof. unfold getRelayAuthenticator. run. destruct (relayAuth n); run; by eexists _, _. Qed.

Lemma relay_token_run n : ∃ tok n', relay_token n = Some (tok, n') ∧ relay_frame n n'.
Proof.
  unfold relay_token. run. destruct (EnableRelayAuth _); [|by eexists _, _].
  destruct (getRelayAuthenticator_run n) as (a & n1 & Ha & Hf). rewrite (bind_run _ _ _ _ _ Ha), now_bind.
  by destruct (GenerateTokenWithHMAC _ _ _ _); eexists _, _.
Qed.

Lemma relay_authorized_frame tok n b n1 : relay_authorized tok n = Some (b, n1) → relay_frame n n1.
Proof.
  unfold relay_authorized. run. destruct (_ && _); [|by intros [= <- <-]].
  destruct (getRelayAuthenticator_run n) as (a & n2 & Ha & Hf). rewrite (bind_run _ _ _ _ _ Ha).
  destruct (DecodeToken tok); [|by intros [= <- <-]|done]. rewrite now_bind.
  by destruct (VerifyToken _ _ _ _ _); intros [= <- <-].
Qed.

Definition tent_packet (t : byte) (payload : bytes) : bytes := MagicBytes ++ t :: payload.

Lemma buildRelayPacket_run mode target inner n :
  len (a_str target) ≤ 255 →
  ∃ tok n', buildRelayPacket mode (Some target) inner n
    = Some (inl (tent_packet PacketTypeRelay (relay_payload mode (a_str target) tok inner)), n')
  ∧ len tok ≤ 255 ∧ relay_frame n n'.
Proof.
  intros Hl. unfold buildRelayPacket. cbv zeta. rewrite (proj2 (Z.ltb_ge _ _)) by lia.
  destruct (relay_token_run n) as (tok & n' & Htok & Hf). rewrite (bind_run _ _ _ _ _ Htok).
  exists (if 255 <? len tok then take 255 tok else tok), n'. split_and!; [|zcase; [|lia]|done].
  - set (payload := relay_payload _ _ _ _). assert (len (str "TENT") = 4) by done. fill. done.
  - change 255%nat with (Z.to_nat 255). rewrite len_take by lia. lia.
Qed.

(** A datagram with the magic bytes reaches its handler. *)
Lemma handleRead_tent probe addr t payload n :
  a_kind addr = AddrUDP →
  handleRead_turn probe addr (tent_packet t payload) n
  = (if bool_decide (t = PacketTypeRelay) then handleRelayPacket addr payload else
     n ← get;
     match (if EnableRelay (n_Config n) then relayForward n !! a_str addr else None) with
     | Some originAddr => _ ← io (UDPWrite originAddr (tent_packet t payload)); mret ()
     | None => handlePacket None addr "udp" t payload
     end) n.
Proof.
  intros Hk. unfold handleRead_turn. rewrite bool_decide_false by (intros []; done).
  assert (len (tent_packet t payload) = 5 + len payload) as Hl by (unfold tent_packet; cbn [app MagicBytes]; len_solve).
  rewrite !(proj2 (Z.ltb_ge _ _)) by len_solve.
  assert (subslice (tent_packet t payload) 0 4 = str "TENT") as Hs by done. rewrite Hs.
  rewrite bool_decide_false by done. rewrite bool_decide_false by (intros []; done).
  rewrite (go_index_at _ MagicBytes t payload) by done.
  rewrite (go_slice_from_at _ (MagicBytes ++ [t]) payload) by (unfold tent_packet; reassoc || done).
  rewrite !lift_bind. by destruct (bool_decide (t = _)).
Qed.

Lemma handleRelayPacket_forward n n1 origin target tok inner :
  EnableRelay (n_Config n) = true → resolve_udp (a_str target) = Some target →
  len (a_str target) ≤ 255 → len tok ≤ 255 → inner ≠ [] → relay_authorized tok n = Some (true, n1) →
  ∃ tok' n', handleRelayPacket origin (relay_payload RelayModeForward (a_str target) tok inner) n = Some ((), n')
  ∧ n_Config n' = n_Config n ∧ relayForward n' = <[a_str target := origin]> (relayForward n) ∧ len tok' ≤ 255
  ∧ n_log n' = n_log n ++
      [UDPWrite target (tent_packet PacketTypeRelay (relay_payload RelayModeTarget (a_str target) tok' inner))].
Proof.
  intros Hen Hres Hla Hlt Hin Hauth. unfold handleRelayPacket. rewrite get_bind, Hen. cbn [negb].
  rewrite parse_relay_payload, lift_bind by done. rewrite (bind_run _ _ _ _ _ Hauth), Hres. cbn [negb].
  destruct (relay_authorized_frame _ _ _ _ Hauth) as (Hc & Hf & Hl).
  rewrite bool_decide_true by done. rewrite modify_bind.
  match goal with |- context [(buildRelayPacket _ _ _ ≫= _) ?n2] =>
    destruct (buildRelayPacket_run RelayModeTarget target inner n2 Hla) as (tok' & n3 & Hb & Ht & Hc3 & Hf3 & Hl3) end.
  rewrite (bind_run _ _ _ _ _ Hb), io_bind. exists tok'. eexists. split; [reflexivity|].
  cbn in *. rewrite Hc3, Hf3, Hl3. cbn. by rewrite Hc, Hf, Hl.
Qed.

(** The relay sends what comes from [target] back to [origin]. *)
Definition stands (target origin : Addr) (n : Node) : Prop :=
  EnableRelay (n_Config n) = true ∧ relayForward n !! a_str target = Some origin.

(** C21: A relay carries packets both ways.  A forward request whose token is
    accepted makes the relay send the inner packet to the target, wrapped so that
    the target unwraps exactly that packet, and remember the requester for the target;
    from then on, in any state in which this entry stands (a later request for the same
    target replaces it, the cleanup of stale mappings may drop it), a datagram of the target
    that is not itself a relay packet goes back to the requester unchanged, and the
    entry stands again.  A request without a token counts as accepted
    whatever [EnableRelayAuth] says. *)
Theorem relay_forwarding n n1 probe origin target tok inner :
  EnableRelay (n_Config n) = true → a_kind origin = AddrUDP → a_kind target = AddrUDP →
  resolve_udp (a_str target) = Some target → len (a_str target) ≤ 255 → len tok ≤ 255 → inner ≠ [] →
  relay_authorized tok n = Some (true, n1) →
  relay_authorized [] n = Some (true, n) ∧
  ∃ wrapped n',
    handleRead_turn probe origin (tent_packet PacketTypeRelay (relay_payload RelayModeForward (a_str target) tok inner)) n
      = Some ((), n')
    ∧ n_log n' = n_log n ++ [UDPWrite target (tent_packet PacketTypeRelay wrapped)]
    ∧ (∃ tok', parse_relay wrapped = Ok (Some (RelayModeTarget, a_str target, tok', inner)))
    ∧ stands target origin n'
    ∧ ∀ n2 t reply, stands target origin n2 → t ≠ PacketTypeRelay →
        ∃ n3, handleRead_turn probe target (tent_packet t reply) n2 = Some ((), n3)
        ∧ n_log n3 = n_log n2 ++ [UDPWrite origin (tent_packet t reply)] ∧ stands target origin n3.
Proof.
  intros Hen Ho Htk Hres Hla Hlt Hin Hauth. split.
  { unfold relay_authorized. rewrite get_bind. by rewrite andb_false_r. }
  destruct (handleRelayPacket_forward n n1 origin target tok inner) as (tok' & n' & Hrun & Hc & Hf & Ht & Hl); try done.
  eexists _, n'. rewrite handleRead_tent, bool_decide_true by done. split; [done|]. split; [done|].
  split; [exists tok'; by apply parse_relay_payload|].
  split; [split; [by rewrite Hc|by rewrite Hf, lookup_insert_eq]|]. intros n2 t reply [Hen2 Hf2] Hne.
  rewrite handleRead_tent, bool_decide_false by done. rewrite get_bind, Hen2, Hf2, io_bind.
  by eexists.
Qed.

End dispatch.
