(* ===== verification/NodeConnect.v ===== *)
(** * Opening connections and background goroutines ([node/connect_flow.go])

    [connectContext] prepares one handshake for UDP and one for TCP, punches with
    both and takes what succeeds first.  What its workers and timers report is a
    sequence of events; the pieces of code between two events are the steps of
    the model.  The file also gives the bodies of the goroutines the handlers
    start. *)

From S2P Require Import Prelude Protocol Sha256 Session Peer RelayAuth RelayManager Metrics Reconnect Config.
From S2P Require Import NodeState NodeChannel NodeHeartbeat NodeRecv NodeHandshake NodeDiscovery NodeDispatch.

Section connect.
Context {NL : Noise} {W : World}.

(** What reaches the loop of [awaitConnectResult]; [UdpPunch] is a datagram the
    UDP worker sends meanwhile. *)
Inductive connect_event :=
| UdpPunch
| TcpConnected (c : ConnRef)
| TcpFailed (e : string)
| UdpDone
| ConnectTimeout
| CtxDone
| NodeClosing.

Definition resolveConnectAddrs (remoteAddr : gostring) : M ((Addr * Addr) + string) :=
  n ← get;
  if negb (n_started n) then mret (inr "node not started"%string) else
  match resolve_udp remoteAddr with
  | None => mret (inr "cannot resolve"%string)
  | Some u =>
      match resolve_tcp remoteAddr with
      | None => mret (inr "cannot resolve"%string)
      | Some t => mret (inl (u, t))
      end
  end.

(** The UDP and the TCP handshake with their packets. *)
Definition buildInitiatorHandshakePackets
    : M ((HandshakeState * HandshakeState * bytes * bytes) + string) :=
  udp ← new_initiator;
  match udp with
  | Panic => panic
  | Err e => mret (inr e)
  | Ok (udpState, udpMsg) =>
      tcp ← new_initiator;
      match tcp with
      | Panic => panic
      | Err e => mret (inr e)
      | Ok (tcpState, tcpMsg) =>
          mret (inl (udpState, tcpState, handshake_packet udpMsg, handshake_packet tcpMsg))
      end
  end.

Definition registerPendingHandshakes (u t : Addr) (udpState tcpState : HandshakeState) : M unit :=
  modify (λ n, n <| pendingHandshakes ::= λ m,
    <[str "tcp://" ++ a_str t := tcpState]> (<[str "udp://" ++ a_str u := udpState]> m) |>).

Definition scheduleRelayFallback (remoteAddr : gostring) (u : Addr) : M unit :=
  n ← get;
  if negb (EnableRelay (n_Config n)) then mret () else go (TaskRelayFallback remoteAddr (a_str u)).

(** The connect timer fired: the last resort is a relay. *)
Definition connect_timed_out (remoteAddr : gostring) (tcpPunchErr : option string) : M (option string) :=
  n ← get;
  let failed := match tcpPunchErr with Some e => Some e | None => Some "connect timeout"%string end in
  match n_relayManager n with
  | None => mret failed
  | Some _ =>
      err ← connectViaRelay remoteAddr;
      match err with None => mret None | Some _ => mret failed end
  end.

(** The timer always fires: a list that ends without a decisive event is read as
    ending in [ConnectTimeout]. *)
Fixpoint awaitConnectResult (remoteAddr : gostring) (u : Addr) (udpPacket tcpPacket : bytes)
    (tcpPunchErr : option string) (evs : list connect_event) : M (option string) :=
  match evs with
  | [] | ConnectTimeout :: _ => connect_timed_out remoteAddr tcpPunchErr
  | UdpPunch :: evs' =>
      _ ← io (UDPWrite u udpPacket);
      awaitConnectResult remoteAddr u udpPacket tcpPacket tcpPunchErr evs'
  | CtxDone :: _ => mret (Some "context done"%string)
  | NodeClosing :: _ => mret (Some "node is closing"%string)
  | TcpConnected c :: _ =>
      err ← writeTCPPacket c tcpPacket;
      match err with
      | Some e => _ ← emit (ConnClose c); mret (Some e)
      | None => _ ← go (TaskHandleTCP c); mret None
      end
  | TcpFailed e :: evs' => awaitConnectResult remoteAddr u udpPacket tcpPacket (Some e) evs'
  | UdpDone :: _ =>
      _ ← scheduleRelayFallback remoteAddr u;
      _ ← go (TaskLateUpgrade tcpPacket);
      mret None
  end.

(** The deferred cancellation of the workers leaves no trace in the state.  The workers are
    started just before the handshakes are registered; a reply that overtakes the
    registration is outside the model. *)
Definition connectContext (remoteAddr : gostring) (evs : list connect_event) : M (option string) :=
  addrs ← resolveConnectAddrs remoteAddr;
  match addrs with
  | inr e => mret (Some e)
  | inl (u, t) =>
      packets ← buildInitiatorHandshakePackets;
      match packets with
      | inr e => mret (Some e)
      | inl (udpState, tcpState, udpPacket, tcpPacket) =>
          _ ← registerPendingHandshakes u t udpState tcpState;
          awaitConnectResult remoteAddr u udpPacket tcpPacket None evs
      end
  end.

Definition Node_Connect (addrStr : gostring) (evs : list connect_event) : M (option string) := connectContext addrStr evs.

(** The connection a late upgrade may get; without one it gives up. *)
Definition awaitLateTCPUpgrade (tcpPacket : bytes) (result : option ConnRef) : M unit :=
  match result with
  | None => mret ()
  | Some c =>
      err ← writeTCPPacket c tcpPacket;
      match err with
      | Some _ => emit (ConnClose c)
      | None => go (TaskHandleTCP c)
      end
  end.

(** ** Goroutines *)

(** What the environment contributes to the run of a goroutine. *)
Record task_env := MkTaskEnv {
  te_events : list connect_event;   (** for a connect *)
  te_conn : option ConnRef;         (** for a late upgrade *)
}.

Definition run_task (env : task_env) (t : task) : M unit :=
  match t with
  | TaskSyncChannels peerID => syncChannelsWithPeer peerID
  | TaskDiscoveryRequest r => sendDiscoveryRequest r
  | TaskRehandshake peerID r => run_rehandshake peerID r
  | TaskExpireHandshake stateKey => modify (λ n, n <| pendingHandshakes ::= delete stateKey |>)
  | TaskConnect addr => _ ← connectContext addr (te_events env); endDiscoveryConnect
  | TaskUserConnect addr => _ ← connectContext addr (te_events env); mret ()
  | TaskChannelUpdate peerID payload => run_channel_update peerID payload
  | TaskRelayFallback remoteAddr addrKey =>
      n ← get;
      if bool_decide (is_Some (addrToPeer n !! addrKey)) then mret () else
      _ ← connectViaRelay remoteAddr; mret ()
  | TaskLateUpgrade tcpPacket => awaitLateTCPUpgrade tcpPacket (te_conn env)
  | TaskConnected _ _ | TaskDisconnected _ | TaskKCPSession _ _ | TaskHandleTCP _ | TaskReconnectCallback _ _ | TaskLoop _ => mret ()
  end.

End connect.
