(* ===== verification/NodeReconnect.v ===== *)
(** * The reconnect loop on the node ([node/reconnect.go])

    [Reconnect] follows one goroutine of the manager against what it observes.
    Here the goroutine runs on the node itself: what it observes is the peer
    store, an attempt is a [ConnectContext] of the node, the counters are the
    node's, and the callbacks are started as goroutines.  [turn_refines]
    connects the two: a turn on the node changes the manager as a step of the
    loop in [Reconnect] does, so what is proved of a step there holds of the node. *)

From S2P Require Import Prelude Protocol Sha256 Session Peer RelayAuth RelayManager Metrics Float64 Reconnect Config.
From S2P Require Import NodeState NodeChannel NodeHeartbeat NodeRecv NodeHandshake NodeDiscovery NodeDispatch NodeConnect.

Section reconnect.
Context {NL : Noise} {W : World}.

(** What the environment contributes to a turn. *)
Record turn_env := MkTurnEnv {
  tn_rand : float64;                 (** what [randFloat] returns *)
  tn_timer : bool;                   (** the timer wins over a cancellation *)
  tn_events : list connect_event;    (** for the attempt *)
}.

(** A write to the manager under its lock. *)
Definition on_manager (f : ReconnectManager → ReconnectManager) : M unit :=
  modify (λ n, n <| n_reconnectManager ::= fmap f |>).

(** [if callback != nil { go callback(...) }]. *)
Definition start_callback (ev : rc_event) : M unit :=
  n ← get;
  match n_reconnectManager n ≫= λ rm, callback_of (rcm_callbacks rm) ev with
  | Some h => go (TaskReconnectCallback h ev)
  | None => mret ()
  end.

Definition node_reconnect_success (r : EntryRef) (e : reconnectEntry) : M loop_pc :=
  _ ← on_manager (λ rm, update_entry rm r (λ e, e <| re_state := ReconnectStateSuccess |>)
                          <| entries ::= delete (re_peerID e) |>);
  _ ← count IncReconnectSuccess;
  _ ← start_callback (EvReconnected (re_peerID e) (re_attempt e));
  mret PcDone.

Definition node_reconnect_failed (r : EntryRef) (e : reconnectEntry) : M loop_pc :=
  _ ← on_manager (λ rm, update_entry rm r (λ e, e <| re_state := ReconnectStateFailed |>)
                          <| entries ::= delete (re_peerID e) |>);
  _ ← start_callback (EvGaveUp (re_peerID e) (to_int64 (re_attempt e - 1)) (re_lastError e));
  mret PcDone.

(** The head of the loop: up to the sleep before the attempt. *)
Definition turn_top (rm : ReconnectManager) (r : EntryRef) (e : reconnectEntry) (env : turn_env) : M loop_pc :=
  let attempt := to_int64 (re_attempt e + 1) in
  _ ← on_manager (λ rm, update_entry rm r (λ e, e <| re_attempt := attempt |>));
  if (0 <? MaxRetries (rcm_config rm)) && (MaxRetries (rcm_config rm) <? attempt) then
    node_reconnect_failed r (e <| re_attempt := attempt |>)
  else
  let delay := calculateBackoff (rcm_config rm) attempt (tn_rand env) in
  now ← time_Now;
  _ ← on_manager (λ rm, update_entry rm r (λ e,
        e <| re_state := ReconnectStateWaiting |> <| re_nextRetry := time_Add now delay |>));
  _ ← start_callback (EvReconnecting (re_peerID e) attempt delay);
  mret PcDelay.

(** The attempt: up to the sleep that follows it, or back to the head. *)
Definition turn_attempt (r : EntryRef) (e : reconnectEntry) (env : turn_env) : M loop_pc :=
  _ ← on_manager (λ rm, update_entry rm r (λ e, e <| re_state := ReconnectStateConnecting |>));
  err ← connectContext (re_addr e) (tn_events env);
  match err with
  | Some msg =>
      _ ← on_manager (λ rm, update_entry rm r (λ e, e <| re_lastError := Some msg |>));
      _ ← count IncReconnectAttempts;
      _ ← count IncReconnectFailed;
      mret PcTop
  | None => _ ← count IncReconnectAttempts; mret PcConfirm
  end.

(** One pass through the loop body from where the goroutine stands. *)
Definition turn_from (rm : ReconnectManager) (r : EntryRef) (e : reconnectEntry) (connected : bool) (pc : loop_pc)
    (env : turn_env) : M loop_pc :=
  let timer := match pc with PcTop => false | _ => tn_timer env end in
  if (re_cancelled e || rcm_closing rm) && negb timer then mret PcDone else
  match pc with
  | PcTop => if connected then node_reconnect_success r e else turn_top rm r e env
  | PcDelay => if connected then node_reconnect_success r e else turn_attempt r e env
  | PcConfirm => if connected then node_reconnect_success r e else mret PcTop
  | PcDone => mret PcDone
  end.

(** [reconnectLoop] from one sleep to the next. *)
Definition reconnect_turn (r : EntryRef) (pc : loop_pc) (env : turn_env) : M loop_pc :=
  n ← get;
  match n_reconnectManager n ≫= λ rm, pair rm <$> entry_store rm !! r with
  | None => mret PcDone
  | Some (rm, e) => turn_from rm r e (isPeerConnected (PeerStore_IDs (Peers n)) (re_peerID e)) pc env
  end.

(** ** The node's loop and the manager's *)

(** An attempt leaves the manager alone. *)
Lemma preserves_new_initiator : preserves n_reconnectManager new_initiator.
Proof. unfold new_initiator. preserving. Qed.

Lemma preserves_connectViaRelay a : preserves n_reconnectManager (connectViaRelay a).
Proof. unfold connectViaRelay, buildRelayPacket, relay_token, getRelayAuthenticator. preserving. all: apply preserves_new_initiator. Qed.

Lemma preserves_connectContext a evs : preserves n_reconnectManager (connectContext a evs).
Proof.
  unfold connectContext, resolveConnectAddrs, buildInitiatorHandshakePackets, registerPendingHandshakes. preserving.
  1, 2: apply preserves_new_initiator.
  match goal with |- preserves _ (awaitConnectResult _ _ _ _ ?o _) => generalize o end.
  induction evs as [|[| | | | | |] evs IH]; intros o; cbn [awaitConnectResult];
    unfold connect_timed_out, writeTCPPacket, scheduleRelayFallback; preserving; auto using preserves_connectViaRelay.
Qed.

(** Started with the manager [rm], the code ends in a manager and at a position that satisfy [Q]. *)
Definition drives (rm : ReconnectManager) (m : M loop_pc) (Q : ReconnectManager → loop_pc → Prop) : Prop :=
  ∀ n pc n', n_reconnectManager n = Some rm → m n = Some (pc, n') → ∃ rm', n_reconnectManager n' = Some rm' ∧ Q rm' pc.

Lemma drives_on_manager rm f m Q : drives (f rm) m Q → drives rm (on_manager f ≫= λ _, m) Q.
Proof. intros Hm n a n' Hrm. unfold on_manager. rewrite modify_bind. apply Hm. cbn. by rewrite Hrm. Qed.

Lemma drives_frame {A} rm (m : M A) f Q :
  preserves n_reconnectManager m → (∀ a, drives rm (f a) Q) → drives rm (m ≫= f) Q.
Proof. intros Hm Hf n a n' Hrm (x & n1 & H1 & H2)%bind_Some. eapply Hf; [|exact H2]. by rewrite (Hm _ _ _ H1). Qed.

Lemma drives_ret rm pc (Q : ReconnectManager → loop_pc → Prop) : Q rm pc → drives rm (mret pc) Q.
Proof. intros HQ n a n' Hrm [= <- <-]. eauto. Qed.

Lemma preserves_start_callback ev : preserves n_reconnectManager (start_callback ev).
Proof. unfold start_callback. preserving. Qed.

End reconnect.

(** Follows a piece of the loop; what remains is [Q] of the manager it ends in. *)
Ltac driving := repeat match goal with
  | |- drives _ (on_manager _ ≫= _) _ => apply drives_on_manager
  | |- drives _ (mret _) _ => apply drives_ret
  | |- drives _ (connectContext _ _ ≫= _) _ => apply drives_frame; [apply preserves_connectContext|intros ?]
  | |- drives _ (start_callback _ ≫= _) _ => apply drives_frame; [apply preserves_start_callback|intros ?]
  | |- drives _ (_ ≫= _) _ => apply drives_frame; [preserving|intros ?]
  | |- drives _ (match ?x with _ => _ end) _ => destruct x
  end.

Section refinement.
Context {NL : Noise} {W : World}.

(** The step of the manager's loop that a turn on the node is: the observation of
    the peer is the node's, the clock and the outcome of the attempt are some. *)
Definition follows (rm : ReconnectManager) (r : EntryRef) (pc : loop_pc) (connected : bool) (env : turn_env)
    (rm' : ReconnectManager) (pc' : loop_pc) : Prop :=
  ∃ now err, (loop_step rm r pc (MkLoopEnv connected now (tn_rand env) err (tn_timer env))).1 = (rm', pc').

Lemma turn_follows rm r e connected pc env :
  entry_store rm !! r = Some e → drives rm (turn_from rm r e connected pc env) (follows rm r pc connected env).
Proof.
  intros He. unfold turn_from, turn_top, turn_attempt, node_reconnect_success, node_reconnect_failed. cbv zeta.
  destruct (_ && negb _) eqn:Ec;
    [|destruct pc; [destruct connected..|]; try (destruct (_ && (_ <? _)) eqn:Eb)]; driving;
    unfold follows, loop_step; rewrite He; cbn [le_connected le_timer le_rand le_now le_connect]; rewrite Ec.
  all: try (by exists 0, None).
  - exists 0, None. change (rcm_config (update_entry rm r _)) with (rcm_config rm). by rewrite Eb.
  - exists a, None. change (rcm_config (update_entry rm r _)) with (rcm_config rm). by rewrite Eb.
  - by eexists 0, (Some _).
Qed.

(** A turn on the node is a step of the manager's loop that finds the peer connected if the node has it in its store. *)
Lemma turn_refines rm r e pc env n pc' n' :
  n_reconnectManager n = Some rm → entry_store rm !! r = Some e → reconnect_turn r pc env n = Some (pc', n') →
  ∃ rm', n_reconnectManager n' = Some rm'
  ∧ follows rm r pc (isPeerConnected (PeerStore_IDs (Peers n)) (re_peerID e)) env rm' pc'.
Proof.
  intros Hrm He. unfold reconnect_turn. rewrite get_bind, Hrm. cbn [mbind option_bind]. rewrite He.
  by apply turn_follows.
Qed.

End refinement.
