(* ===== verification/PunchWorkers.v ===== *)
(** * The workers of a connect ([node/connect_flow.go], [startPunchWorkers])

    [connectContext] runs beside a goroutine that punches over TCP ([TcpPunch]), one that
    repeats the UDP handshake, and, after a UDP success, one that waits for a late TCP
    connection.  They communicate through [resultCh], and returning cancels the punch.
    The model interleaves all of them.  The events the main loop takes are those that drive
    [connectContext] in [NodeConnect]. *)

From S2P Require Import Prelude Peer TcpPunch NodeConnect.

(** ** State *)

(** [connectResult]. *)
Inductive connect_result := TcpResult (conn : option ConnRef) (err : option string) | UdpResult.

Inductive udp_worker := UdpRepeating | UdpEnded.

(** [awaitConnectResult], and [awaitLateTCPUpgrade]. *)
Inductive main_loop := Awaiting | MainDone (late : bool).
Inductive late_loop := LateIdle | LateWaiting | LateDone.

Record workers := MkWorkers {
  wk_punch : tcp_punch;
  wk_reported : bool;                    (** the TCP worker has sent its result *)
  wk_udp : udp_worker;
  resultCh : list connect_result;
  wk_cancelled : bool;                   (** [punchCtx] is cancelled *)
  wk_main : main_loop;
  wk_late : late_loop;
  wk_trace : list connect_event;         (** what the main loop has seen *)
  wk_handled : list ConnRef;             (** handed to [handleTCP] *)
  wk_dropped : list ConnRef;             (** closed after a failed write *)
}.
#[global] Instance workers_eta : RecordEta workers := λ w,
  MkWorkers (wk_punch w) (wk_reported w) (wk_udp w) (resultCh w) (wk_cancelled w) (wk_main w) (wk_late w) (wk_trace w)
    (wk_handled w) (wk_dropped w).

Inductive worker_event :=
| PunchEvent (ev : tcp_event)            (** a step of the TCP punch; [ParentCancel] also when its 10 s are over *)
| TcpReport                              (** the TCP worker sends its result *)
| UdpRepeat                              (** a handshake packet is sent *)
| UdpElapsed                             (** two seconds are over *)
| UdpCancelled
| CloseCancels                           (** the node is closing: the goroutine that watches it cancels *)
| MainTake (write_ok : bool)
| MainEnds (why : connect_event)         (** the context, the closing node, or the timer *)
| LateTake (write_ok : bool)
| LateEnds.

(** ** Steps *)

(** [startPunchWorkers]. *)
Definition workers_start : workers := MkWorkers tcp_punch_start false UdpRepeating [] false Awaiting LateIdle [] [] [].

(** [make(chan connectResult, 2)]. *)
Definition send_result (r : connect_result) (w : workers) : option workers :=
  if len (resultCh w) <? 2 then Some (w <| resultCh ::= λ l, l ++ [r] |>) else None.

(** The main loop returns, and the deferred [punchCancel] cancels the contexts derived from it. *)
Definition main_returns (late : bool) (w : workers) : workers :=
  w <| wk_main := MainDone late |> <| wk_cancelled := true |> <| wk_punch ::= λ p, p <| ctx_done := true |> |>
    <| wk_late ::= λ l, if late then LateWaiting else l |>.

(** The handshake is written to the connection, which is then read or closed. *)
Definition take_conn (c : ConnRef) (write_ok : bool) (w : workers) : workers :=
  if write_ok then w <| wk_handled ::= cons c |> else w <| wk_dropped ::= cons c |>.

Definition workers_step (w : workers) (ev : worker_event) : option workers :=
  match ev with
  | PunchEvent pe => p ← tcp_step (wk_punch w) pe; Some (w <| wk_punch := p |>)
  | TcpReport =>
      if wk_reported w then None else
      match tp_caller (wk_punch w) with
      | CReturned conn err => w' ← send_result (TcpResult conn err) w; Some (w' <| wk_reported := true |>)
      | CWaiting => None
      end
  | UdpRepeat =>
      match wk_udp w with
      | UdpRepeating => if wk_cancelled w then None else Some (w <| wk_trace ::= λ l, l ++ [UdpPunch] |>)
      | UdpEnded => None
      end
  | UdpElapsed =>
      match wk_udp w with
      | UdpRepeating => w' ← send_result UdpResult w; Some (w' <| wk_udp := UdpEnded |>)
      | UdpEnded => None
      end
  | UdpCancelled =>
      match wk_udp w with
      | UdpRepeating => if wk_cancelled w then Some (w <| wk_udp := UdpEnded |>) else None
      | UdpEnded => None
      end
  | CloseCancels => Some (w <| wk_cancelled := true |> <| wk_punch ::= λ p, p <| ctx_done := true |> |>)
  | MainTake ok =>
      match wk_main w, resultCh w with
      | Awaiting, r :: rest =>
          let w := w <| resultCh := rest |> in
          Some (match r with
                | TcpResult (Some c) _ => main_returns false (take_conn c ok (w <| wk_trace ::= λ l, l ++ [TcpConnected c] |>))
                | TcpResult None err =>
                    w <| wk_trace ::= λ l, l ++ (match err with Some e => [TcpFailed e] | None => [] end) |>
                | UdpResult => main_returns true (w <| wk_trace ::= λ l, l ++ [UdpDone] |>)
                end)
      | _, _ => None
      end
  | MainEnds why =>
      match wk_main w, why with
      | Awaiting, (CtxDone | NodeClosing | ConnectTimeout) => Some (main_returns false (w <| wk_trace ::= λ l, l ++ [why] |>))
      | _, _ => None
      end
  | LateTake ok =>
      match wk_late w, resultCh w with
      | LateWaiting, r :: rest =>
          let w := w <| resultCh := rest |> in
          Some (match r with
                | TcpResult (Some c) _ => take_conn c ok (w <| wk_late := LateDone |>)
                | _ => w
                end)
      | _, _ => None
      end
  | LateEnds => match wk_late w with LateWaiting => Some (w <| wk_late := LateDone |>) | _ => None end
  end.

Fixpoint workers_run (w : workers) (evs : list worker_event) : option workers :=
  match evs with
  | [] => Some w
  | ev :: evs' => w' ← workers_step w ev; workers_run w' evs'
  end.

(** ** The connections *)

Definition result_conns (rs : list connect_result) : list ConnRef :=
  omap (λ r, match r with TcpResult conn _ => conn | UdpResult => None end) rs.

(** What the TCP punch has returned is with its worker, in the channel, or with the node. *)
Definition with_node (w : workers) : list ConnRef := result_conns (resultCh w) ++ wk_handled w ++ wk_dropped w.

Record workers_wf (w : workers) : Prop := {
  wkf_punch : tcp_inv (wk_punch w);
  wkf_conns : with_node w ≡ₚ if wk_reported w then returned (wk_punch w) else [];
  wkf_caller : wk_reported w = true → tp_caller (wk_punch w) ≠ CWaiting;
  wkf_cancel : wk_main w ≠ Awaiting → ctx_done (wk_punch w) = true;
  wkf_room : len (resultCh w) + (if wk_reported w then 0 else 1)
             + (match wk_udp w with UdpRepeating => 1 | UdpEnded => 0 end) ≤ 2;
}.

Lemma tcp_step_inv p ev p' : tcp_inv p → tcp_step p ev = Some p' → tcp_inv p'.
Proof. destruct ev; cbn [tcp_step]; eauto using dialer_step_inv, acceptor_step_inv, caller_step_inv. Qed.

(** A returned caller stays returned, a cancelled context cancelled. *)
Lemma tcp_step_keeps p ev p' :
  tcp_step p ev = Some p' →
  (ctx_done p = true → ctx_done p' = true) ∧ (tp_caller p ≠ CWaiting → tp_caller p' = tp_caller p).
Proof.
  intros H. assert (dialer_step p ev = Some p' ∨ acceptor_step p ev = Some p' ∨ caller_step p ev = Some p') as [Hs|[Hs|Hs]]
    by (destruct ev; cbn [tcp_step] in H; auto); clear H.
  - unfold dialer_step in Hs. repeat case_match; simplify_eq; done.
  - unfold acceptor_step in Hs. repeat case_match; simplify_eq; done.
  - unfold caller_step in Hs. repeat case_match; simplify_eq; cbn; try done; split; congruence.
Qed.

(** The channel and the node have what the worker sent. *)
Lemma result_conns_app rs rs' : result_conns (rs ++ rs') = result_conns rs ++ result_conns rs'.
Proof. apply omap_app. Qed.

Lemma tcp_inv_cancel p : tcp_inv p → tcp_inv (p <| ctx_done := true |>).
Proof. by intros []. Qed.

Lemma workers_step_wf w ev w' : workers_wf w → workers_step w ev = Some w' → workers_wf w'.
Proof.
  intros [Hp Hc Hca Hcl Hro] Hs.
  destruct ev as [pe| | | | | |ok|why|ok|]; cbn [workers_step] in Hs.
  - destruct (tcp_step (wk_punch w) pe) as [p|] eqn:E; [|done]. injection Hs as <-.
    destruct (tcp_step_keeps _ _ _ E) as [Hd Hk]. split; cbn; [by eapply tcp_step_inv|..|done].
    + unfold with_node in *. cbn. destruct (wk_reported w); [|done]. unfold returned in *. by rewrite Hk by by apply Hca.
    + intros Hr. rewrite Hk; by apply Hca.
    + intros Hm. apply Hd. by apply Hcl.
  - destruct (wk_reported w) eqn:Er; [done|]. destruct (tp_caller (wk_punch w)) as [|conn err] eqn:Et; [done|].
    unfold send_result in Hs. destruct (len (resultCh w) <? 2); [|done]. injection Hs as <-.
    split; cbn; try done; [| |len_solve].
    + unfold with_node, returned in *. cbn. rewrite Et, result_conns_app. cbn.
      assert (result_conns (resultCh w) ++ wk_handled w ++ wk_dropped w = []) as E by (by apply Permutation_nil_r).
      apply app_eq_nil in E as [-> [-> ->]%app_eq_nil]. by destruct conn.
    + by rewrite Et.
  - destruct (wk_udp w) eqn:Eu; [|done]. destruct (wk_cancelled w); [done|]. injection Hs as <-. split; cbn; rewrite ?Eu; done.
  - destruct (wk_udp w) eqn:Eu; [|done]. unfold send_result in Hs. destruct (len (resultCh w) <? 2); [|done].
    injection Hs as <-. split; cbn; try done; [|len_solve].
    unfold with_node in *. cbn. rewrite result_conns_app. cbn. by rewrite app_nil_r.
  - destruct (wk_udp w) eqn:Eu; [|done]. destruct (wk_cancelled w); [|done]. injection Hs as <-. split; cbn; try done. lia.
  - injection Hs as <-. split; cbn; try done. by apply tcp_inv_cancel.
  - destruct (wk_main w) eqn:Em; [|done]. destruct (resultCh w) as [|r rest] eqn:Er; [done|]. injection Hs as <-.
    rewrite len_cons in Hro. unfold with_node in Hc. rewrite Er in Hc. cbn in Hc.
    destruct r as [[c|] err|]; [destruct ok|..]; (split; cbn; [by try apply tcp_inv_cancel| |done|by try rewrite Em|lia]).
    all: unfold with_node; cbn; rewrite <- ?Hc; unfold result_conns; try done; solve_Permutation.
  - destruct (wk_main w) eqn:Em; [|done]. destruct why; try done; injection Hs as <-; (split; cbn; [by apply tcp_inv_cancel|exact Hc|done|done|lia]).
  - destruct (wk_late w) eqn:El; [done| |done]. destruct (resultCh w) as [|r rest] eqn:Er; [done|]. injection Hs as <-.
    rewrite len_cons in Hro. unfold with_node in Hc. rewrite Er in Hc. cbn in Hc.
    destruct r as [[c|] err|]; [destruct ok|..]; (split; cbn; [done| |done|done|lia]).
    all: unfold with_node; cbn; rewrite <- ?Hc; unfold result_conns; try done; solve_Permutation.
  - destruct (wk_late w) eqn:El; [done| |done]. injection Hs as <-. by split.
Qed.

Lemma workers_run_wf evs w w' : workers_wf w → workers_run w evs = Some w' → workers_wf w'.
Proof.
  revert w. induction evs as [|ev evs IH]; intros w Hw Hrun; cbn [workers_run] in Hrun; [by injection Hrun as <-|].
  destruct (workers_step w ev) as [w1|] eqn:E; [|done]. apply (IH w1); [|done]. by eapply workers_step_wf.
Qed.

Lemma workers_start_wf : workers_wf workers_start.
Proof. split; cbn; try done. apply tcp_start_inv. Qed.

(** C16: the workers of a connect neither block nor confuse connections.  In every interleaving of the TCP punch, the UDP worker, the
    main loop and the late upgrade: a worker's send on the result channel never waits (so no goroutine is left behind there); the
    node reads, closes or finds on the channel only the one connection the punch returned, each in one place only; and every other
    connection the punch established is still with the punch, as its own accounting says. *)
Theorem connect_workers evs w :
  workers_run workers_start evs = Some w →
  (wk_reported w = false → tp_caller (wk_punch w) ≠ CWaiting → is_Some (workers_step w TcpReport))
  ∧ (wk_udp w = UdpRepeating → is_Some (workers_step w UdpElapsed))
  ∧ NoDup (with_node w) ∧ len (with_node w) ≤ 1
  ∧ (∀ c, c ∈ with_node w → c ∈ returned (wk_punch w))
  ∧ (∀ c, c ∈ tp_seen (wk_punch w) → c ∈ with_node w ∨ (wk_reported w = false ∧ c ∈ returned (wk_punch w))
       ∨ c ∈ tp_closed (wk_punch w) ++ resultChan (wk_punch w) ++ held (wk_punch w)).
Proof.
  intros Hrun. destruct (workers_run_wf _ _ _ workers_start_wf Hrun) as [Hp Hc Hca Hcl Hro].
  assert (len (returned (wk_punch w)) ≤ 1 ∧ NoDup (returned (wk_punch w))) as [Hl Hn].
  { unfold returned. destruct (tp_caller (wk_punch w)) as [|[c|] err]; split; try done; try apply NoDup_nil_2; apply NoDup_singleton. }
  assert (∀ r, len (resultCh w) < 2 → is_Some (send_result r w)) as Hsend.
  { intros r Hlt. unfold send_result. rewrite (proj2 (Z.ltb_lt _ _)) by done. by eexists. }
  split_and!.
  - intros Hr Hcw. cbn. rewrite Hr in *. destruct (tp_caller (wk_punch w)) as [|conn err]; [done|].
    destruct (Hsend (TcpResult conn err)) as [w' ->]; [destruct (wk_udp w); lia|by eexists].
  - intros Hu. cbn. rewrite Hu in *. destruct (Hsend UdpResult) as [w' ->]; [destruct (wk_reported w); lia|by eexists].
  - rewrite Hc. destruct (wk_reported w); [done|constructor].
  - unfold len. rewrite Hc. destruct (wk_reported w); [exact Hl|done].
  - intros c Hin. rewrite Hc in Hin. destruct (wk_reported w); [done|by apply not_elem_of_nil in Hin].
  - intros c Hin. rewrite (ti_places _ Hp), !app_assoc, elem_of_app in Hin. rewrite <- !app_assoc in Hin.
    destruct Hin as [?|Hin]; [by auto|]. destruct (wk_reported w) eqn:Er; [left; by rewrite Hc|by auto].
Qed.

(** ** The late upgrade *)

(** Attempts that had begun. *)
Definition in_flight (p : tcp_punch) : Z :=
  (match tp_dialer p with DDialing => 1 | _ => 0 end) + (match tp_acceptor p with LAccepting => 1 | _ => 0 end).

(** [p'] comes from [p] by connections of attempts that were in flight. *)
Definition only_in_flight (p p' : tcp_punch) : Prop :=
  ∃ new, tp_seen p' = new ++ tp_seen p ∧ len new + in_flight p' ≤ in_flight p.

Lemma only_in_flight_refl p : only_in_flight p p.
Proof. exists []. split; [done|]. rewrite len_nil. lia. Qed.

Lemma only_in_flight_trans p1 p2 p3 : only_in_flight p1 p2 → only_in_flight p2 p3 → only_in_flight p1 p3.
Proof.
  intros (n1 & E1 & L1) (n2 & E2 & L2). exists (n2 ++ n1). rewrite E2, E1, app_assoc, len_app. split; [done|lia].
Qed.

(** With the context cancelled no attempt begins. *)
Lemma cancelled_step p ev p' : ctx_done p = true → tcp_step p ev = Some p' → only_in_flight p p'.
Proof.
  intros Hd H. assert (dialer_step p ev = Some p' ∨ acceptor_step p ev = Some p' ∨ caller_step p ev = Some p') as [Hs|[Hs|Hs]]
    by (destruct ev; cbn [tcp_step] in H; auto); clear H; destruct p as [d a c ch ctx cl seen]; cbn in Hd; subst ctx.
  all: unfold dialer_step, acceptor_step, caller_step in Hs; cbn in Hs; repeat case_match; simplify_eq;
    unfold only_in_flight, in_flight; cbn;
    first [exists []; split; [done|rewrite len_nil; lia] | eexists [_]; split; [done|rewrite len_cons, len_nil; lia]].
Qed.

Lemma cancelled_workers_step w ev w' :
  wk_main w ≠ Awaiting → ctx_done (wk_punch w) = true → workers_step w ev = Some w' →
  wk_main w' = wk_main w ∧ ctx_done (wk_punch w') = true ∧ only_in_flight (wk_punch w) (wk_punch w').
Proof.
  intros Hm Hd Hs. assert (wk_main w' = wk_main w ∧ wk_punch w' = wk_punch w →
    wk_main w' = wk_main w ∧ ctx_done (wk_punch w') = true ∧ only_in_flight (wk_punch w) (wk_punch w')) as Hsame.
  { intros [-> ->]. split; [done|]. split; [done|]. apply only_in_flight_refl. }
  destruct ev as [pe| | | | | |ok|why|ok|]; cbn [workers_step] in Hs; [|apply Hsame|apply Hsame|apply Hsame|apply Hsame| |apply Hsame..].
  - destruct (tcp_step (wk_punch w) pe) as [p|] eqn:E; [|done]. injection Hs as <-. cbn. split; [done|].
    split; [by eapply tcp_step_keeps|by eapply cancelled_step].
  - unfold send_result in Hs. destruct (wk_reported w); [done|]. destruct (tp_caller (wk_punch w)); [done|].
    destruct (len (resultCh w) <? 2); [|done]. by injection Hs as <-.
  - repeat case_match; simplify_eq; done.
  - unfold send_result in Hs. destruct (wk_udp w); [|done]. destruct (len (resultCh w) <? 2); [|done]. by injection Hs as <-.
  - repeat case_match; simplify_eq; done.
  - injection Hs as <-. cbn. split; [done|]. split; [done|]. exists []. split; [done|]. unfold in_flight. cbn. rewrite len_nil. lia.
  - by destruct (wk_main w).
  - by destruct (wk_main w).
  - destruct (wk_late w); try done. destruct (resultCh w) as [|[[c|] err|] rest]; try done; injection Hs as <-; [|done..].
    unfold take_conn. by destruct ok.
  - destruct (wk_late w); try done. by injection Hs as <-.
Qed.

Lemma cancelled_run evs w w' :
  wk_main w ≠ Awaiting → ctx_done (wk_punch w) = true → workers_run w evs = Some w' →
  only_in_flight (wk_punch w) (wk_punch w').
Proof.
  revert w. induction evs as [|ev evs IH]; intros w Hm Hd Hrun; cbn [workers_run] in Hrun.
  - injection Hrun as <-. apply only_in_flight_refl.
  - destruct (workers_step w ev) as [w1|] eqn:E; [|done].
    destruct (cancelled_workers_step w ev w1 Hm Hd E) as (Hm1 & Hd1 & Hl1).
    eapply only_in_flight_trans; [done|]. apply IH; [congruence|done|done].
Qed.

(** The late upgrade waits for a punch that has been cancelled.  Once connectContext has returned, in particular after the UDP
    result that starts the wait for a late TCP connection, the TCP punch establishes no connections but those of the dial and the
    accept in progress at that moment, at most two; a connection the node gets after that is one of these or was there before.  No
    new attempt can use the ten seconds that awaitLateTCPUpgrade waits. *)
Theorem late_upgrade_cancelled evs w evs' w' :
  workers_run workers_start evs = Some w → wk_main w ≠ Awaiting → workers_run w evs' = Some w' →
  ∃ new, tp_seen (wk_punch w') = new ++ tp_seen (wk_punch w)
  ∧ len new ≤ in_flight (wk_punch w) ≤ 2
  ∧ ∀ c, c ∈ with_node w' → c ∈ new ++ tp_seen (wk_punch w).
Proof.
  intros Hrun Hm Hrun'. pose proof (workers_run_wf _ _ _ workers_start_wf Hrun) as Hwf.
  pose proof (workers_run_wf _ _ _ Hwf Hrun') as [Hp Hc _ _ _].
  destruct (cancelled_run _ _ _ Hm (wkf_cancel _ Hwf Hm) Hrun') as (new & Hseen & Hlen).
  assert (∀ p, 0 ≤ in_flight p ≤ 2) as Hfl by (intros p; unfold in_flight; destruct (tp_dialer p), (tp_acceptor p); lia).
  exists new. split; [done|]. split; [pose proof (Hfl (wk_punch w')); pose proof (Hfl (wk_punch w)); lia|].
  intros c Hin. rewrite <- Hseen, (ti_places _ Hp), !elem_of_app. rewrite Hc in Hin.
  destruct (wk_reported w'); [by auto|by apply not_elem_of_nil in Hin].
Qed.

(** ** A connect whose UDP handshake comes first *)

Definition udp_first : list worker_event :=
  [PunchEvent DialTurn; PunchEvent (ListenResult true); UdpRepeat; PunchEvent (DialResult Failed); UdpElapsed; MainTake true].

Definition late_accept : list worker_event :=
  [PunchEvent AcceptTurn; PunchEvent CallerCancelled; TcpReport; LateTake true; LateEnds].

Definition demo_middle : workers := Eval vm_compute in default workers_start (workers_run workers_start udp_first).
Definition demo_end : workers := Eval vm_compute in default workers_start (workers_run demo_middle late_accept).

Lemma demo_middle_run : workers_run workers_start udp_first = Some demo_middle.
Proof. vm_compute. reflexivity. Qed.
Lemma demo_end_run : workers_run demo_middle late_accept = Some demo_end.
Proof. vm_compute. reflexivity. Qed.

Lemma connect_workers_witness : len (with_node demo_middle) ≤ 1.
Proof. exact (proj1 (proj2 (proj2 (proj2 (connect_workers udp_first demo_middle demo_middle_run))))). Defined.

Lemma late_upgrade_cancelled_witness :
  ∃ new, tp_seen (wk_punch demo_end) = new ++ tp_seen (wk_punch demo_middle).
Proof.
  destruct (late_upgrade_cancelled udp_first demo_middle late_accept demo_end demo_middle_run ltac:(discriminate) demo_end_run)
    as (new & Hnew & _).
  exists new. exact Hnew.
Defined.
