(* ===== verification/NodeLife.v ===== *)
(** * Creating, starting and stopping a node ([node/node.go], [node/startup.go])

    Construction from options, the start sequence, the shutdown and the queries
    of the public interface.  Whether a socket can be opened is an argument. *)

From S2P Require Import Identity.
From S2P Require Import Prelude Protocol Sha256 Session Peer RelayAuth RelayManager Metrics Reconnect Config.
From S2P Require Import NodeState NodeChannel NodeHeartbeat.

Section life.
Context {NL : Noise} {W : World}.

(** ** Construction *)

(** [generated] is the result of [crypto.NewIdentity]. *)
Definition NewNode (opts : list Option) (generated : option Identity) (now : Time) : res Node :=
  let cfg := foldl (λ c opt, opt c) DefaultConfig opts in
  if bool_decide (Validate (λ a, bool_decide (is_Some (resolve_udp a))) cfg ≠ []) then Err "invalid node config" else
  let id := match cfg_Identity cfg with Some id => Some id | None => generated end in
  match id with
  | None => Err "create identity failed"
  | Some id =>
      let localChannelSet := list_to_set (map hashChannelName (Channels cfg)) in
      Ok (MkNode cfg id NewPeerStore ∅ ∅ None [] ∅ ∅ false false false false false None ∅ ∅ ∅ ∅
            (NewCollector now) None None None no_callbacks 0 ∅ localChannelSet [] 0 0)
  end.

(** ** Start *)

Definition startUDP (listen_ok : bool) : M (option string) :=
  if listen_ok
  then _ ← modify (λ n, n <| n_started := true |> <| LocalAddr := Some bound_addr |> <| localPeerID := Node_ID n |>); mret None
  else mret (Some "listen udp failed"%string).

Definition startTCP (listen_ok : bool) : M (option string) :=
  mret (if listen_ok then None else Some "listen tcp failed"%string).

Fixpoint add_static_relays (addrs : list gostring) (rm : RelayManager.RelayManager) : M RelayManager.RelayManager :=
  match addrs with
  | [] => mret rm
  | addrStr :: addrs' =>
      match resolve_udp addrStr with
      | None => add_static_relays addrs' rm
      | Some relayAddr =>
          now ← time_Now;
          _ ← modify (λ n, n <| relayAddrSet ::= λ s, {[a_str relayAddr]} ∪ s |>);
          add_static_relays addrs' (AddRelay rm addrStr (a_str relayAddr) now)
      end
  end.

Definition startRelay : M unit :=
  n ← get;
  rm ← add_static_relays (RelayNodes (n_Config n)) NewRelayManager;
  modify (λ n, n <| n_relayManager := Some rm |>).

Definition startNATAndKCP (kcp_ok : bool) : M unit :=
  modify (λ n, n <| kcpTransport := if kcp_ok then Some (MkKCPTransport ∅) else None |>).

(** The manager with the callbacks that were set before the start. *)
Definition new_manager (n : Node) : ReconnectManager :=
  let rm := NewReconnectManager (cfg_ReconnectConfig (n_Config n)) in
  let c := n_reconnectCallbacks n in
  let rm := match onReconnecting c with Some h => SetOnReconnecting rm (Some h) | None => rm end in
  let rm := match onReconnected c with Some h => SetOnReconnected rm (Some h) | None => rm end in
  match onGaveUp c with Some h => SetOnGaveUp rm (Some h) | None => rm end.

Definition startReconnectManager : M unit :=
  n ← get;
  if negb (EnableReconnect (n_Config n)) then mret () else
  modify (λ n, n <| n_reconnectManager := Some (new_manager n) |>).

(** The loops' bodies are [UdpRead.handleRead_step], [TcpAccept] and [heartbeatLoop]. *)
Definition startBackgroundLoops : M unit :=
  _ ← go (TaskLoop ReadLoop); _ ← go (TaskLoop AcceptLoop); go (TaskLoop HeartbeatLoop).

(** The listener is not open when this runs. *)
Definition closeOnStartFailure : M unit := _ ← emit MuxClose; modify (λ n, n <| n_started := false |>).

Definition Start (udp_ok tcp_ok kcp_ok : bool) : M (option string) :=
  err ← startUDP udp_ok;
  match err with
  | Some e => mret (Some e)
  | None =>
      err ← startTCP tcp_ok;
      match err with
      | Some e => _ ← closeOnStartFailure; mret (Some e)
      | None =>
          _ ← startRelay;
          _ ← startNATAndKCP kcp_ok;
          _ ← startReconnectManager;
          _ ← startBackgroundLoops;
          n ← get;
          _ ← short8 (localPeerID n);
          mret None
      end
  end.

(** ** Stop *)

Definition buildGoodbyePacket : bytes :=
  let packet := make_bytes 6 in
  let packet := copy_range packet 0 4 MagicBytes in
  let packet := set_byte packet 4 PacketTypeHeartbeat in
  set_byte packet 5 xff.

Fixpoint say_goodbye (ids : list gostring) : M unit :=
  match ids with
  | [] => mret ()
  | peerID :: ids' =>
      found ← get_peer peerID;
      _ ← (match found with
           | None => mret ()
           | Some r =>
               now ← time_Now;
               _ ← update_peer r (λ p, SetState p StateDisconnecting now);
               p ← peer_of r;
               let '(transport, addr, conn) := GetTransportInfo p in
               _ ← sendRaw conn addr transport buildGoodbyePacket; mret ()
           end);
      say_goodbye ids'
  end.

Fixpoint close_peers (ids : list gostring) : M unit :=
  match ids with
  | [] => mret ()
  | peerID :: ids' =>
      found ← get_peer peerID;
      _ ← (match found with
           | None => mret ()
           | Some r => closed ← on_peer r Peer_Close; peer_effects closed
           end);
      close_peers ids'
  end.

(** [KCPTransport.Close] on the sessions of the transport. *)
Fixpoint close_kcp_sessions (addrs : list gostring) : M unit :=
  match addrs with
  | [] => mret ()
  | a :: addrs' => _ ← emit (KCPClose a); _ ← emit (KCPUnregister a); close_kcp_sessions addrs'
  end.

Definition KCP_Close : M unit :=
  n ← get;
  match kcpTransport n with
  | None => mret ()
  | Some k =>
      _ ← close_kcp_sessions (map_to_list (kcp_sessions k)).*2;
      modify (λ n, n <| kcpTransport := Some (MkKCPTransport ∅) |>)
  end.

Definition GracefulStop : M unit :=
  n ← get;
  if n_closing n then mret () else
  let peerIDs := PeerStore_IDs (Peers n) in
  _ ← say_goodbye peerIDs;
  _ ← modify (λ n, n <| n_closing := true |>);
  _ ← (if n_started n then _ ← emit MuxClose; _ ← emit ListenerClose; emit ProberClose else mret ());
  _ ← KCP_Close;
  _ ← modify (λ n, n <| n_reconnectManager ::= fmap ReconnectManager_Close |>);
  close_peers peerIDs.

Definition Node_Stop : M unit := GracefulStop.

(** ** Queries *)

Definition peer_named (n : Node) (peerID : gostring) : option Peer :=
  PeerStore_Get (Peers n) peerID ≫= λ r, peer_heap n !! r.

Definition GetPeerTransport (n : Node) (peerID : gostring) : string :=
  match peer_named n peerID with
  | None => ""
  | Some p => if bool_decide (Transport p = ""%string) then "udp" else Transport p
  end.

Definition GetPeerLinkMode (n : Node) (peerID : gostring) : string :=
  match peer_named n peerID with
  | None => ""
  | Some p => if bool_decide (LinkMode p = ""%string) then "p2p" else LinkMode p
  end.

Definition GetPeerStats (n : Node) (peerID : gostring) : option PeerStats := GetStats <$> peer_named n peerID.

Definition GetMetrics : M Snapshot :=
  n ← get;
  _ ← count (λ c, SetConnectionsActive c (PeerStore_Count (Peers n)));
  now ← time_Now;
  n ← get;
  mret (GetSnapshot (n_metrics n) now).

(** Callbacks are represented by whether they are set. *)
Definition Node_OnReceive (set : bool) (n : Node) : Node := n <| has_onReceive := set |>.
Definition Node_OnPeerConnected (set : bool) (n : Node) : Node := n <| has_onPeerConnected := set |>.
Definition Node_OnPeerDisconnected (set : bool) (n : Node) : Node := n <| has_onPeerDisconnected := set |>.

Definition Node_OnReconnecting (handler : option HandlerRef) (n : Node) : Node :=
  n <| n_reconnectCallbacks ::= λ c, c <| onReconnecting := handler |> |>
    <| n_reconnectManager ::= fmap (λ rm, SetOnReconnecting rm handler) |>.
Definition Node_OnReconnected (handler : option HandlerRef) (n : Node) : Node :=
  n <| n_reconnectCallbacks ::= λ c, c <| onReconnected := handler |> |>
    <| n_reconnectManager ::= fmap (λ rm, SetOnReconnected rm handler) |>.
Definition Node_OnGaveUp (handler : option HandlerRef) (n : Node) : Node :=
  n <| n_reconnectCallbacks ::= λ c, c <| onGaveUp := handler |> |>
    <| n_reconnectManager ::= fmap (λ rm, SetOnGaveUp rm handler) |>.

Definition Node_GetReconnectInfo (n : Node) (peerID : gostring) : option ReconnectInfo :=
  n_reconnectManager n ≫= λ rm, GetReconnectInfo rm peerID.

Definition Node_CancelReconnect (peerID : gostring) : M unit :=
  modify (λ n, n <| n_reconnectManager ::= fmap (λ rm, CancelReconnect rm peerID) |>).

Definition CancelAllReconnects : M unit := modify (λ n, n <| n_reconnectManager ::= fmap CancelAll |>).

End life.
