(* ===== verification/NodeTransfer.v ===== *)
(** * Delivery of user data, end to end

    [Send] on one node and the receive path of another, joined by a stream: the
    application frame is cut into fragments, every fragment is sealed, framed and
    written; the other side reads frames, opens them, reassembles the
    application frame and delivers its data.  The file proves that what arrives
    is what was sent, or nothing when the message exceeds the reassembly limit
    or the channel is not subscribed. *)

From S2P Require Import Identity.
From S2P Require Import Prelude Protocol Stream Sha256 Session Peer RelayAuth RelayManager Metrics Reconnect.
From S2P Require Import Config NodeState NodeChannel NodeHeartbeat NodeRecv NodeHandshake NodeDiscovery.
From S2P Require Import NodeDispatch.

(** ** Fragments *)

(** What the loops of [sendAppFrame] send, as a function of the payload. *)
Fixpoint rest_frames (fuel : nat) (max : Z) (payload : bytes) : list (byte * bytes) :=
  match fuel with
  | O => []
  | S fuel =>
      if max <? len payload
      then (FrameTypeMiddle, take (Z.to_nat max) payload) :: rest_frames fuel max (drop (Z.to_nat max) payload)
      else [(FrameTypeLast, payload)]
  end.

Definition frames (max : Z) (payload : bytes) : list (byte * bytes) :=
  if max <? len payload
  then (FrameTypeFirst, take (Z.to_nat max) payload)
       :: rest_frames (length payload) max (drop (Z.to_nat max) payload)
  else [(FrameTypeSingle, payload)].

Section transfer.
Context {NL : Noise} {LW : NoiseLaws NL} {W : World}.

(** Sends a list of frames until one fails. *)
Fixpoint send_all (send : byte → bytes → M (option string)) (fs : list (byte * bytes)) : M (option string) :=
  match fs with
  | [] => mret None
  | [(t, d)] => send t d
  | (t, d) :: fs' =>
      err ← send t d;
      match err with
      | Some e => mret (Some e)
      | None => send_all send fs'
      end
  end.

Lemma send_all_cons send t d fs n :
  fs ≠ [] →
  send_all send ((t, d) :: fs) n
  = (err ← send t d; match err with Some e => mret (Some e) | None => send_all send fs end) n.
Proof. by destruct fs. Qed.

Lemma rest_frames_nonempty fuel max payload : (0 < fuel)%nat → rest_frames fuel max payload ≠ [].
Proof. destruct fuel; [lia|]. cbn. by destruct (_ <? _). Qed.

Lemma send_rest_frames fuel max send payload offset n :
  0 < max → 0 ≤ offset ≤ len payload → (Z.to_nat (len payload - offset) < fuel)%nat →
  send_rest fuel max send payload offset n
  = send_all send (rest_frames fuel max (drop (Z.to_nat offset) payload)) n.
Proof.
  intros Hm. revert offset n. induction fuel as [|fuel IH]; intros offset n Ho Hf; [lia|].
  cbn [send_rest rest_frames]. rewrite len_drop by lia.
  destruct (Z.ltb_spec max (len payload - offset)).
  - rewrite go_slice_ok, lift_bind by lia.
    rewrite send_all_cons by (apply rest_frames_nonempty; lia).
    replace (subslice payload offset (offset + max))
      with (take (Z.to_nat max) (drop (Z.to_nat offset) payload))
      by (unfold subslice; do 2 f_equal; lia).
    apply bind_ext. intros [e|] n'; [done|].
    rewrite IH by lia. rewrite drop_drop. do 3 f_equal. lia.
  - rewrite go_slice_from_ok, lift_bind by lia. done.
Qed.

(** The loops of [sendAppFrame] send exactly [frames], for any fragment size;
    the fuel of the loop is enough. *)
Lemma send_fragments_frames max send payload n :
  0 < max → send_fragments max send payload n = send_all send (frames max payload) n.
Proof.
  intros Hm. unfold send_fragments, frames. zcase; [|done].
  rewrite go_slice_ok, lift_bind by lia.
  assert (0 < length payload)%nat by (unfold len in *; lia).
  rewrite send_all_cons by (by apply rest_frames_nonempty).
  replace (subslice payload 0 max) with (take (Z.to_nat max) payload)
    by (unfold subslice; rewrite Z.sub_0_r; done).
  apply bind_ext. intros [e|] n'; [done|]. apply send_rest_frames; [done|lia|unfold len in *; lia].
Qed.

(** ** Sealing *)

(** The ciphertexts of a series of plaintexts. *)
Fixpoint seal_all (s : Session) (plains : list bytes) : Session * res (list bytes) :=
  match plains with
  | [] => (s, Ok [])
  | p :: plains' =>
      match Session_Encrypt s p with
      | (s1, Ok c) =>
          match seal_all s1 plains' with
          | (s2, Ok cs) => (s2, Ok (c :: cs))
          | (s2, Err e) => (s2, Err e)
          | (s2, Panic) => (s2, Panic)
          end
      | (s1, Err e) => (s1, Err e)
      | (s1, Panic) => (s1, Panic)
      end
  end.

Definition plain_of (f : byte * bytes) : bytes := f.1 :: f.2.

Definition data_packet (c : bytes) : bytes := MagicBytes ++ PacketTypeData :: c.

(** ** A path to a peer *)

(** What is written for a packet on a path. *)
Definition path_write (path : send_path) (packet : bytes) : effect :=
  match path with
  | ViaTCP c => TCPWrite c (EncodeTCPFrame packet)
  | ViaKCP id => KCPWrite id (EncodeTCPFrame packet)
  end.

(** [sendAppFrame] takes this path for the peer. *)
Definition takes_path (n : Node) (p : Peer) (path : send_path) : Prop :=
  match path with
  | ViaTCP c => Transport p = "tcp"%string ∧ Conn p = Some c
  | ViaKCP id => ID p = id ∧ (Conn p = None ∨ Transport p ≠ "tcp"%string)
                 ∧ ∃ k, kcpTransport n = Some k ∧ HasSession k id = true
  end.

(** A peer the node can send to: known, with a session and a path. *)
Record sending (n : Node) (id : gostring) (r : PeerRef) (sr : SessRef) (s : Session) (path : send_path) : Prop := {
  sd_other : id ≠ Node_ID n;
  sd_peer : Peers n !! id = Some r;
  sd_heap : ∃ p, peer_heap n !! r = Some p ∧ Peer_Session p = Some sr ∧ takes_path n p path;
  sd_sess : sess_heap n !! sr = Some s;
}.

(** One packet on a path when every write succeeds. *)
Lemma sendFunc_path path packet n p :
  takes_path n p path → (∀ l e, io_ok l e = true) →
  sendFunc path packet n = Some (None, n <| n_log ::= λ l, l ++ [path_write path packet] |>).
Proof.
  intros Ht Hio. destruct path as [c|id]; cbn [sendFunc].
  - unfold writeTCPPacket. cbv zeta. by rewrite io_bind, Hio.
  - destruct Ht as (_ & _ & k & Hk & Hh). rewrite get_bind, Hk. unfold KCP_Send.
    apply bool_decide_eq_true in Hh as [a Ha]. rewrite Ha. cbv zeta.
    change (copy_at (put_be 2 (make_bytes (2 + len packet)) 0 (to_uint16 (len packet))) 2 packet)
      with (kcp_send_frame packet).
    by rewrite kcp_send_frame_eq, io_bind, Hio.
Qed.

(** Sending to one peer changes its counters and its session, and no other peer or session. *)
Record touches (r : PeerRef) (sr : SessRef) (n n' : Node) : Prop := {
  tc_channels : localChannelSet n' = localChannelSet n;
  tc_peers : Peers n' = Peers n;
  tc_identity : n_Identity n' = n_Identity n;
  tc_kcp : kcpTransport n' = kcpTransport n;
  tc_heap : ∀ r', r' ≠ r → peer_heap n' !! r' = peer_heap n !! r';
  tc_sess : ∀ sr', sr' ≠ sr → sess_heap n' !! sr' = sess_heap n !! sr';
}.

Lemma touches_trans r sr n1 n2 n3 : touches r sr n1 n2 → touches r sr n2 n3 → touches r sr n1 n3.
Proof.
  intros [A1 A2 A3 A4 A5 A6] [B1 B2 B3 B4 B5 B6]. split; try congruence; intros x Hx.
  - by rewrite B5, A5.
  - by rewrite B6, A6.
Qed.

(** [sendFrame] when sealing and writing succeed. *)
Lemma sendFrame_path n id r sr s path t d s' c :
  sending n id r sr s path → Session_Encrypt s (t :: d) = (s', Ok c) → (∀ l e, io_ok l e = true) →
  ∃ n', sendFrame r sr path t d n = Some (None, n') ∧ sending n' id r sr s' path
  ∧ n_log n' = n_log n ++ [path_write path (data_packet c)] ∧ touches r sr n n'.
Proof.
  intros [Hne Hr (p & Hp & Hps & Ht) Hs] He Hio. unfold sendFrame. cbv zeta.
  assert (copy_at (set_byte (make_bytes (1 + len d)) 0 t) 1 d = t :: d) as -> by (fill; done).
  erewrite bind_run by (unfold session_encrypt; rewrite Hs, He; reflexivity). cbv beta iota zeta.
  assert (copy_at (set_byte (copy_range (make_bytes (5 + len c)) 0 4 (str "TENT")) 4 PacketTypeData) 5 c
    = data_packet c) as -> by (assert (len (str "TENT") = 4) by done; fill; done).
  rewrite (update_peer_bind r _ p) by done. rewrite count_bind.
  rewrite (sendFunc_path path _ _ (AddBytesSent p (len d))) by (done || by destruct path).
  eexists. split; [reflexivity|]. split; [split; [done|done| |cbn; by rewrite lookup_insert_eq]|split; [done|]].
  - eexists. cbn. rewrite lookup_insert_eq. split; [done|]. split; [done|]. by destruct path.
  - split; cbn; try done; intros; by rewrite lookup_insert_ne by done.
Qed.

Lemma send_all_path fs : ∀ n id r sr s path s' cs,
  fs ≠ [] → sending n id r sr s path →
  seal_all s (plain_of <$> fs) = (s', Ok cs) → (∀ l e, io_ok l e = true) →
  ∃ n', send_all (sendFrame r sr path) fs n = Some (None, n') ∧ sending n' id r sr s' path
  ∧ n_log n' = n_log n ++ map (λ c, path_write path (data_packet c)) cs ∧ touches r sr n n'.
Proof.
  induction fs as [|[t d] fs IH]; intros n id r sr s path s' cs Hne Hsd Hseal Hio; [done|].
  change (plain_of <$> (t, d) :: fs) with ((t :: d) :: (plain_of <$> fs)) in Hseal. cbn [seal_all] in Hseal.
  destruct (Session_Encrypt s (t :: d)) as [s1 [c| |]] eqn:He; try done.
  destruct (sendFrame_path n id r sr s path t d s1 c Hsd He Hio) as (n1 & Hrun & Hsd1 & Hlog1 & Hch1).
  destruct (seal_all s1 (plain_of <$> fs)) as [s2 [cs'| |]] eqn:Hrest; try done.
  simplify_eq.
  destruct fs as [|f fs].
  - cbn in Hrest. simplify_eq. by exists n1.
  - rewrite send_all_cons by done. rewrite (bind_run _ _ _ _ _ Hrun).
    destruct (IH n1 id r sr s1 path s' cs') as (n2 & Hrun2 & Hsd2 & Hlog2 & Hch2); try done.
    exists n2. split_and!; [done|done| |by eapply touches_trans]. by rewrite Hlog2, Hlog1, <- app_assoc.
Qed.

(** ** Receiving *)

(** The peer an address belongs to, its session and its reassembly buffer. *)
Record linked (n : Node) (addr : Addr) (id : gostring) (r : PeerRef) (sr : SessRef) (s : Session)
    (buf : option bytes) : Prop := {
  lk_addr : addrToPeer n !! a_str addr = Some id;
  lk_peer : Peers n !! id = Some r;
  lk_heap : ∃ p, peer_heap n !! r = Some p ∧ Peer_Session p = Some sr ∧ ReassemblyBuffer p = buf;
  lk_sess : sess_heap n !! sr = Some s;
}.

(** What the receive path leaves alone. *)
Definition same_context (n n' : Node) : Prop :=
  localChannelSet n' = localChannelSet n ∧ has_onReceive n' = has_onReceive n ∧ n_Config n' = n_Config n.

(** A data packet that opens: the state in which its frame is handled. *)
Lemma processData_open n addr id r sr s buf c s' t d :
  linked n addr id r sr s buf → Session_Decrypt s c = (s', Ok (t :: d)) →
  ∃ n', processData addr c n = handle_frame id r t d n'
  ∧ linked n' addr id r sr s' buf ∧ same_context n n' ∧ n_log n' = n_log n.
Proof.
  intros [Ha Hp (p & Hh & Hps & Hb) Hs] Hd. unfold processData. run. rewrite Ha. run. rewrite Hp.
  erewrite bind_run
    by (unfold peer_decrypt, Peer_Decrypt; rewrite Hh, Hps; cbn; rewrite Hs; cbn; rewrite Hd; reflexivity).
  cbv beta iota.
  erewrite update_peer_bind by exact Hh.
  erewrite update_peer_bind by (cbn; by rewrite lookup_insert_eq).
  run. eexists. split; [reflexivity|]. split; [|done]. split; cbn; [done|done| |by rewrite lookup_insert_eq].
  eexists. rewrite lookup_insert_eq. split; [done|]. done.
Qed.

(** The first and the middle fragments only fill the buffer. *)
Lemma handle_first n addr id r sr s buf d :
  linked n addr id r sr s buf →
  ∃ n', handle_frame id r FrameTypeFirst d n = Some ((), n')
  ∧ linked n' addr id r sr s (Some d) ∧ same_context n n' ∧ n_log n' = n_log n.
Proof.
  intros [Ha Hp (p & Hh & Hps & Hb) Hs]. unfold handle_frame. cbn [bool_decide decide_rel FrameTypeFirst].
  rewrite bool_decide_false, bool_decide_true by done. run.
  erewrite update_peer_run by exact Hh.
  eexists. split; [reflexivity|]. split; [|done]. split; cbn; [done|done| |done].
  eexists. by rewrite lookup_insert_eq.
Qed.

Lemma handle_middle n addr id r sr s buf d :
  linked n addr id r sr s buf →
  ∃ n', handle_frame id r FrameTypeMiddle d n = Some ((), n')
  ∧ linked n' addr id r sr s
      (match buf with
       | Some b => if MaxReassemblySize <? len b + len d then None else Some (b ++ d)
       | None => None
       end)
  ∧ same_context n n' ∧ n_log n' = n_log n.
Proof.
  intros [Ha Hp (p & Hh & Hps & Hb) Hs]. unfold handle_frame.
  rewrite !bool_decide_false, bool_decide_true by done. run.
  erewrite on_peer_bind by exact Hh. run.
  eexists. split; [reflexivity|]. split; [|done].
  unfold AppendReassembly. rewrite Hb. split; cbn; [done|done| |done].
  eexists. rewrite lookup_insert_eq. split; [done|].
  destruct buf as [b|]; [|done]. by destruct (_ <? _).
Qed.

(** ** Delivery of a user frame *)

Definition user_frame (hash data : bytes) : bytes := AppFrameTypeUserWithChannel :: hash ++ data.

(** What the application sees of it. *)
Definition delivery (n : Node) (id hash data : bytes) : list effect :=
  if isChannelSubscribed n hash && has_onReceive n then [OnReceive id data] else [].

Lemma delivery_context n n' id hash data : same_context n n' → delivery n' id hash data = delivery n id hash data.
Proof. intros (H1 & H2 & _). unfold delivery, isChannelSubscribed. by rewrite H1, H2. Qed.

Lemma same_context_trans n1 n2 n3 : same_context n1 n2 → same_context n2 n3 → same_context n1 n3.
Proof. unfold same_context. naive_solver congruence. Qed.

Lemma handle_user_frame n addr id r sr s buf hash data :
  linked n addr id r sr s buf → len hash = 32 → 8 ≤ len id →
  ∃ n', handleAppFrame id r (user_frame hash data) n = Some ((), n')
  ∧ linked n' addr id r sr s buf ∧ same_context n n' ∧ n_log n' = n_log n ++ delivery n id hash data.
Proof.
  intros Hl Hh Hid. unfold handleAppFrame, user_frame. rewrite bool_decide_true by done.
  destruct (Z.ltb_spec (len (hash ++ data)) 32); [len_solve|].
  rewrite go_slice_prefix, lift_bind, go_slice_suffix, lift_bind by done. run.
  unfold delivery. destruct (isChannelSubscribed n hash); cbn [negb andb].
  - destruct (has_onReceive n).
    + eexists. split; [reflexivity|]. split; [|done]. destruct Hl as [? ? ? ?]. by split.
    + eexists. split; [reflexivity|]. by rewrite app_nil_r.
  - rewrite short8_run by done. eexists. split; [reflexivity|]. by rewrite app_nil_r.
Qed.

Lemma handle_single n addr id r sr s buf hash data :
  linked n addr id r sr s buf → len hash = 32 → 8 ≤ len id →
  ∃ n', handle_frame id r FrameTypeSingle (user_frame hash data) n = Some ((), n')
  ∧ linked n' addr id r sr s None ∧ same_context n n' ∧ n_log n' = n_log n ++ delivery n id hash data.
Proof.
  intros [Ha Hp (p & Hh & Hps & Hb) Hs] Hhash Hid. unfold handle_frame. rewrite bool_decide_true by done.
  erewrite update_peer_bind by exact Hh. set (n1 := set_field _ _ _).
  destruct (handle_user_frame n1 addr id r sr s None hash data) as (n' & Hrun & Hl & Hc & Hlog); try done.
  { split; cbn; [done|done| |done]. eexists. by rewrite lookup_insert_eq. }
  by exists n'.
Qed.

Lemma handle_last n addr id r sr s buf d hash data :
  linked n addr id r sr s buf → len hash = 32 → 8 ≤ len id →
  (∀ b, buf = Some b → b ++ d = user_frame hash data) →
  ∃ n', handle_frame id r FrameTypeLast d n = Some ((), n')
  ∧ linked n' addr id r sr s None ∧ same_context n n'
  ∧ n_log n' = n_log n ++
      (match buf with
       | Some b => if MaxReassemblySize <? len b + len d then [] else delivery n id hash data
       | None => []
       end).
Proof.
  intros [Ha Hp (p & Hh & Hps & Hb) Hs] Hhash Hid Hfull. unfold handle_frame.
  rewrite !bool_decide_false, bool_decide_true by done. erewrite on_peer_bind by exact Hh.
  unfold FinishReassembly. rewrite Hb. destruct buf as [b|].
  - destruct (MaxReassemblySize <? len b + len d).
    + cbn. eexists. split; [reflexivity|]. rewrite app_nil_r. split; [|done].
      split; cbn; [done|done| |done]. eexists. by rewrite lookup_insert_eq.
    + rewrite (Hfull b eq_refl). cbn [fst snd].
      set (n1 := set_field _ _ _).
      destruct (handle_user_frame n1 addr id r sr s None hash data) as (n' & Hrun & Hl & Hc & Hlog); try done.
      { split; cbn; [done|done| |done]. eexists. by rewrite lookup_insert_eq. }
      by exists n'.
  - cbn. eexists. split; [reflexivity|]. rewrite app_nil_r. split; [|done].
    split; cbn; [done|done| |done]. eexists. by rewrite lookup_insert_eq.
Qed.

Definition data_packets (cs : list bytes) : list (byte * bytes) := (PacketTypeData,.) <$> cs.

(** One sealed frame through the dispatcher. *)
Lemma dispatch_data conn addr transport c cs n n1 id r t d n2 :
  processData addr c n = handle_frame id r t d n1 → handle_frame id r t d n1 = Some ((), n2) →
  dispatch_all conn addr transport (data_packets (c :: cs)) n = dispatch_all conn addr transport (data_packets cs) n2.
Proof.
  intros H1 H2.
  assert (handlePacket conn addr transport PacketTypeData c n = Some ((), n2)) as H
    by (unfold handlePacket; rewrite bool_decide_false, bool_decide_true, H1 by done; done).
  change (data_packets (c :: cs)) with ((PacketTypeData, c) :: data_packets cs). cbn [dispatch_all].
  by rewrite (bind_run _ _ _ _ _ H).
Qed.

(** The middle and last fragments of a message, whatever is in the buffer. *)
Lemma recv_rest fuel : ∀ max conn transport addr id r sr sA s n buf payload sA' cs hash data,
  0 < max → (length payload < fuel)%nat →
  linked n addr id r sr s buf → sess_synced sA s → len hash = 32 → 8 ≤ len id →
  (∀ b, buf = Some b → b ++ payload = user_frame hash data) →
  seal_all sA (plain_of <$> rest_frames fuel max payload) = (sA', Ok cs) →
  ∃ n' s', dispatch_all conn addr transport (data_packets cs) n = Some ((), n')
  ∧ linked n' addr id r sr s' None ∧ sess_synced sA' s' ∧ same_context n n'
  ∧ n_log n' = n_log n ++
      (match buf with
       | Some b => if MaxReassemblySize <? len b + len payload then [] else delivery n id hash data
       | None => []
       end).
Proof.
  induction fuel as [|fuel IH]; intros max conn transport addr id r sr sA s n buf payload sA' cs hash data
    Hm Hf Hl Hsync Hh Hid Hfull Hseal; [lia|].
  cbn [rest_frames] in Hseal. destruct (Z.ltb_spec max (len payload)) as [Hlt|Hge].
  - set (d := take (Z.to_nat max) payload) in *. set (rest := drop (Z.to_nat max) payload) in *.
    assert (d ++ rest = payload) as Hdr by apply take_drop.
    assert (len payload = len d + len rest) as Hlen by (rewrite <- Hdr; apply len_app).
    change (plain_of <$> (FrameTypeMiddle, d) :: ?l) with ((FrameTypeMiddle :: d) :: (plain_of <$> l)) in Hseal.
    cbn [seal_all] in Hseal. destruct (Session_Encrypt sA _) as [sA1 [c| |]] eqn:He; try done.
    destruct (seal_all sA1 _) as [sA2 [cs'| |]] eqn:Hrest; simplify_eq.
    destruct (session_transfer _ _ _ _ _ Hsync He) as (s1 & Hd & Hsync1 & _).
    destruct (processData_open _ _ _ _ _ _ _ _ _ _ _ Hl Hd) as (n1 & Hrun1 & Hl1 & Hc1 & Hlog1).
    destruct (handle_middle _ _ _ _ _ _ _ d Hl1) as (n2 & Hrun2 & Hl2 & Hc2 & Hlog2).
    rewrite (dispatch_data _ _ _ _ _ _ _ _ _ _ _ _ Hrun1 Hrun2).
    match type of Hl2 with linked _ _ _ _ _ _ ?b => set (buf2 := b) in * end.
    destruct (IH max conn transport addr id r sr sA1 s1 n2 buf2 rest sA' cs' hash data)
      as (n' & s' & Hrun & Hl' & Hsync' & Hc' & Hlog'); try done.
    + subst rest. rewrite length_drop. unfold len in *. lia.
    + intros b' Hb'. subst buf2. destruct buf as [b|]; [|done]. destruct (_ <? _); simplify_eq.
      rewrite <- app_assoc, Hdr. by apply Hfull.
    + exists n', s'. split_and!; try done; [by eapply same_context_trans, same_context_trans|].
      rewrite Hlog', Hlog2, Hlog1. f_equal.
      rewrite (delivery_context n n2) by (by eapply same_context_trans).
      subst buf2. destruct buf as [b|]; [|done]. rewrite Hlen. len_facts.
      destruct (Z.ltb_spec MaxReassemblySize (len b + len d)).
      * zcase; [done|lia].
      * rewrite len_app. by replace (len b + (len d + len rest)) with (len b + len d + len rest) by lia.
  - change (plain_of <$> [(FrameTypeLast, payload)]) with [FrameTypeLast :: payload] in Hseal.
    cbn [seal_all] in Hseal. destruct (Session_Encrypt sA _) as [sA1 [c| |]] eqn:He; simplify_eq.
    destruct (session_transfer _ _ _ _ _ Hsync He) as (s1 & Hd & Hsync1 & _).
    destruct (processData_open _ _ _ _ _ _ _ _ _ _ _ Hl Hd) as (n1 & Hrun1 & Hl1 & Hc1 & Hlog1).
    destruct (handle_last _ _ _ _ _ _ _ payload hash data Hl1 Hh Hid Hfull) as (n2 & Hrun2 & Hl2 & Hc2 & Hlog2).
    rewrite (dispatch_data _ _ _ _ _ _ _ _ _ _ _ _ Hrun1 Hrun2).
    exists n2, s1. split_and!; try done; [by eapply same_context_trans|].
    by rewrite Hlog2, Hlog1, (delivery_context n n1).
Qed.

(** ** Sizes *)

Lemma rest_frames_size fuel max payload :
  0 < max → (length payload < fuel)%nat → Forall (λ f, len f.2 ≤ max) (rest_frames fuel max payload).
Proof.
  intros Hm. revert payload. induction fuel as [|fuel IH]; intros payload Hf; [lia|].
  cbn [rest_frames]. zcase.
  - constructor; [cbn; rewrite len_take by lia; lia|]. apply IH. rewrite length_drop. unfold len in *. lia.
  - by constructor.
Qed.

Lemma frames_size max payload : 0 < max → Forall (λ f, len f.2 ≤ max) (frames max payload).
Proof.
  intros Hm. unfold frames. zcase; constructor; try done.
  - cbn. rewrite len_take by lia. lia.
  - apply rest_frames_size; [done|]. rewrite length_drop. unfold len in *. lia.
Qed.

Lemma Session_Encrypt_size s p s' c : Session_Encrypt s p = (s', Ok c) → len c = len p + 16.
Proof using LW.
  unfold Session_Encrypt. destruct (sendCipher s) as [k|]; [|done].
  destruct (noise_Encrypt k [] p) as [k' [c'|]] eqn:E; intros; simplify_eq. by eapply encrypt_overhead.
Qed.

(** Every packet of a message fits a length-prefixed frame. *)
Lemma sealed_fits fs : ∀ s s' cs,
  Forall (λ f : byte * bytes, len f.2 ≤ MaxPayloadSize) fs →
  seal_all s (plain_of <$> fs) = (s', Ok cs) → Forall fits (data_packets cs).
Proof using LW.
  induction fs as [|[t d] fs IH]; intros s s' cs Hsz Hseal.
  { cbn in Hseal. simplify_eq. constructor. }
  change (plain_of <$> (t, d) :: fs) with ((t :: d) :: (plain_of <$> fs)) in Hseal. cbn [seal_all] in Hseal.
  inversion_clear Hsz as [|? ? Hd Hsz']. cbn in Hd.
  destruct (Session_Encrypt s (t :: d)) as [s1 [c| |]] eqn:He; try done.
  destruct (seal_all s1 _) as [s2 [cs'| |]] eqn:Hrest; simplify_eq.
  constructor; [|by eapply IH]. unfold fits. cbn [snd].
  apply Session_Encrypt_size in He. rewrite len_cons in He. unfold MaxPayloadSize in *. lia.
Qed.

(** ** A whole message *)

Lemma frames_nonempty max payload : frames max payload ≠ [].
Proof. unfold frames. by destruct (_ <? _). Qed.

Lemma recv_message conn transport addr id r sr sA s n buf sA' cs hash data :
  linked n addr id r sr s buf → sess_synced sA s → len hash = 32 → 8 ≤ len id →
  seal_all sA (plain_of <$> frames MaxPayloadSize (user_frame hash data)) = (sA', Ok cs) →
  ∃ n' s', dispatch_all conn addr transport (data_packets cs) n = Some ((), n')
  ∧ linked n' addr id r sr s' None ∧ sess_synced sA' s' ∧ same_context n n'
  ∧ n_log n' = n_log n ++
      (if MaxReassemblySize <? 33 + len data then [] else delivery n id hash data).
Proof.
  intros Hl Hsync Hh Hid Hseal.
  assert (len (user_frame hash data) = 33 + len data) as Hlen by (unfold user_frame; len_solve).
  unfold frames in Hseal. destruct (Z.ltb_spec MaxPayloadSize (len (user_frame hash data))) as [Hlt|Hge].
  - set (F := user_frame hash data) in *.
    set (d := take (Z.to_nat MaxPayloadSize) F) in *. set (rest := drop (Z.to_nat MaxPayloadSize) F) in *.
    change (plain_of <$> (FrameTypeFirst, d) :: ?l) with ((FrameTypeFirst :: d) :: (plain_of <$> l)) in Hseal.
    cbn [seal_all] in Hseal. destruct (Session_Encrypt sA _) as [sA1 [c| |]] eqn:He; try done.
    destruct (seal_all sA1 _) as [sA2 [cs'| |]] eqn:Hrest; simplify_eq.
    destruct (session_transfer _ _ _ _ _ Hsync He) as (s1 & Hd & Hsync1 & _).
    destruct (processData_open _ _ _ _ _ _ _ _ _ _ _ Hl Hd) as (n1 & Hrun1 & Hl1 & Hc1 & Hlog1).
    destruct (handle_first _ _ _ _ _ _ _ d Hl1) as (n2 & Hrun2 & Hl2 & Hc2 & Hlog2).
    rewrite (dispatch_data _ _ _ _ _ _ _ _ _ _ _ _ Hrun1 Hrun2).
    assert (d ++ rest = F) as Hdr by apply take_drop.
    destruct (recv_rest (length F) MaxPayloadSize conn transport addr id r sr sA1 s1 n2 (Some d) rest sA' cs' hash data)
      as (n' & s' & Hrun & Hl' & Hsync' & Hc' & Hlog'); try done.
    + subst rest. rewrite length_drop. unfold MaxPayloadSize, len in *. lia.
    + by intros b [= <-].
    + exists n', s'. split_and!; try done; [by eapply same_context_trans, same_context_trans|].
      rewrite Hlog', Hlog2, Hlog1, <- len_app, Hdr, Hlen.
      by rewrite (delivery_context n n2) by (by eapply same_context_trans).
  - change (plain_of <$> [(FrameTypeSingle, user_frame hash data)])
      with [FrameTypeSingle :: user_frame hash data] in Hseal.
    cbn [seal_all] in Hseal. destruct (Session_Encrypt sA _) as [sA1 [c| |]] eqn:He; simplify_eq.
    destruct (session_transfer _ _ _ _ _ Hsync He) as (s1 & Hd & Hsync1 & _).
    destruct (processData_open _ _ _ _ _ _ _ _ _ _ _ Hl Hd) as (n1 & Hrun1 & Hl1 & Hc1 & Hlog1).
    destruct (handle_single _ _ _ _ _ _ _ hash data Hl1 Hh Hid) as (n2 & Hrun2 & Hl2 & Hc2 & Hlog2).
    rewrite (dispatch_data _ _ _ _ _ _ _ _ _ _ _ _ Hrun1 Hrun2).
    exists n2, s1. split_and!; try done; [by eapply same_context_trans|].
    rewrite Hlog2, Hlog1, (delivery_context n n1) by done.
    zcase; [unfold MaxPayloadSize, MaxReassemblySize in *; lia|done].
Qed.

(** [sendAppFrame] sees the path. *)
Lemma choose_path_taken n p r path :
  peer_heap n !! r = Some p → takes_path n p path → choose_path r n = Some (inl path, n).
Proof.
  intros Hp Ht. unfold choose_path. rewrite (peer_of_bind r p) by done. unfold GetTransportInfo. run.
  destruct path as [c|id].
  - destruct Ht as [-> ->]. done.
  - destruct Ht as (<- & Hc & k & -> & ->).
    destruct Hc as [->|Hc]; [done|]. rewrite bool_decide_false by done. by destruct (Conn p).
Qed.

(** [Send] to a peer that has a path. *)
Lemma Send_path n channel id data r sr s path s' cs :
  isChannelSubscribed n (hashChannelName channel) = true → sending n id r sr s path →
  seal_all s (plain_of <$> frames MaxPayloadSize (user_frame (hashChannelName channel) data)) = (s', Ok cs) →
  (∀ l e, io_ok l e = true) →
  ∃ n', Send channel id data n = Some (None, n') ∧ sending n' id r sr s' path
  ∧ n_log n' = n_log n ++ map (λ c, path_write path (data_packet c)) cs ∧ touches r sr n n'.
Proof.
  intros Hsub Hsd Hseal Hio. pose proof Hsd as [Hne Hr (p & Hp & Hps & Ht) Hs].
  assert (len (hashChannelName channel) = 32) as Hh by apply len_sha256.
  unfold Send. cbv zeta. run. rewrite Hsub. cbn [negb].
  assert (copy_at (copy_range (make_bytes (32 + len data)) 0 32 (hashChannelName channel)) 32 data
    = hashChannelName channel ++ data) as -> by (fill; done).
  unfold sendAppFrame. run. rewrite bool_decide_false by done. run. rewrite Hr.
  rewrite (peer_of_bind r p) by done. unfold GetSession. rewrite Hps.
  rewrite (bind_run _ _ _ _ _ (choose_path_taken n p r path Hp Ht)). cbv beta iota zeta.
  assert (∀ d, copy_at (set_byte (make_bytes (1 + len d)) 0 AppFrameTypeUserWithChannel) 1 d
    = AppFrameTypeUserWithChannel :: d) as -> by (intros d; fill; done).
  fold (user_frame (hashChannelName channel) data).
  rewrite send_fragments_frames by (unfold MaxPayloadSize; lia).
  by eapply send_all_path; try done; [apply frames_nonempty|..].
Qed.

Lemma data_packets_wire cs :
  concat (map (λ c, EncodeTCPFrame (data_packet c)) cs) = wire (data_packets cs).
Proof. induction cs as [|c cs IH]; [done|]. cbn [map concat]. by rewrite IH. Qed.

(** The dispatcher on the bytes of a message. *)
Lemma receive_tcp_packets conn addr cs n :
  Forall fits (data_packets cs) →
  receive_tcp conn addr (wire (data_packets cs)) n = dispatch_all (Some conn) addr "tcp" (data_packets cs) n.
Proof.
  intros Hfit. unfold receive_tcp.
  pose proof (loop_wire handleTCP handleTCP_on_frame handleTCP_fuel_enough (data_packets cs) []
    (S (length (wire (data_packets cs))))) as H.
  rewrite !app_nil_r in H. by rewrite H by (done || lia).
Qed.

(** User data sent on a subscribed channel to a TCP peer arrives.  With
    sessions in step, sealing and writing succeeding, [Send] reports success and
    writes frames to the peer's connection; the other node, fed those bytes in
    order, delivers to its application exactly the data, once, attributed to the
    sender, if it subscribes to the channel and the message is within the
    reassembly limit, and nothing otherwise; its session is in step again and
    its reassembly buffer empty, so the next message finds the same situation. *)
Theorem user_data_delivery nA nB channel data idB rB pB sr sA sA' cs conn connB addr idA rA srB sB buf :
  isChannelSubscribed nA (hashChannelName channel) = true →
  idB ≠ Node_ID nA → Peers nA !! idB = Some rB → peer_heap nA !! rB = Some pB →
  Peer_Session pB = Some sr → Transport pB = "tcp"%string → Conn pB = Some conn → sess_heap nA !! sr = Some sA →
  seal_all sA (plain_of <$> frames MaxPayloadSize (user_frame (hashChannelName channel) data)) = (sA', Ok cs) →
  (∀ l e, io_ok l e = true) →
  linked nB addr idA rA srB sB buf → 8 ≤ len idA → sess_synced sA sB →
  ∃ nA' written nB' sB',
    Send channel idB data nA = Some (None, nA')
    ∧ n_log nA' = n_log nA ++ map (TCPWrite conn) written
    ∧ receive_tcp connB addr (concat written) nB = Some ((), nB')
    ∧ n_log nB' = n_log nB ++
        (if (33 + len data <=? MaxReassemblySize)
            && isChannelSubscribed nB (hashChannelName channel) && has_onReceive nB
         then [OnReceive idA data] else [])
    ∧ linked nB' addr idA rA srB sB' None ∧ sess_synced sA' sB'.
Proof.
  intros Hsub Hne Hr Hp Hps Ht Hc Hs Hseal Hio Hl Hid Hsync.
  destruct (Send_path nA channel idB data rB sr sA (ViaTCP conn) sA' cs) as (nA' & Hsend & _ & HlogA & _); try done.
  { split; [done..| |done]. by exists pB. }
  destruct (recv_message (Some connB) "tcp" addr idA rA srB sA sB nB buf sA' cs (hashChannelName channel) data)
    as (nB' & sB' & Hrecv & Hl' & Hsync' & _ & HlogB); try done; try apply len_sha256.
  exists nA', (map (λ c, EncodeTCPFrame (data_packet c)) cs), nB', sB'. split_and!; try done.
  - rewrite HlogA. f_equal. by rewrite map_map.
  - rewrite data_packets_wire, receive_tcp_packets; [done|].
    eapply sealed_fits; [|done]. by apply frames_size.
  - rewrite HlogB. f_equal. unfold delivery. rewrite Z.leb_antisym.
    by destruct (MaxReassemblySize <? 33 + len data).
Qed.

End transfer.

(** ** A concrete pair of nodes *)

Module TransferWitness.

#[export] Instance quiet_world : World := {|
  io_ok := λ _ _, true; clock := λ k, Z.of_nat k; entropy := λ _, make_bytes 32; entropy_len := λ _, eq_refl; resolve_udp := λ _, None; resolve_tcp := λ _, None;
  bound_addr := str "[::]:7000" |}.

Definition key (b : byte) : bytes := replicate 32 b.

Definition demo_node `{Noise} (own : byte) (other : gostring) (s : Session) (channel : gostring) : Node :=
  let addr := MkAddr AddrTCP (str "10.0.0.2:7000") in
  MkNode (WithChannelID channel (WithNetworkPassword (str "pw") DefaultConfig))
    (MkIdentity (key own ++ key own) (key own) (key own) (key own) (replicate 16 own))
    {[ other := 1%positive ]}
    {[ 1%positive := NewPeer other (Some addr) (a_str addr) (Some 1%positive) "tcp" "p2p" None (Some 1%positive) 0 ]}
    {[ 1%positive := s ]} (Some (str "[::]:7000")) (hex_EncodeToString (replicate 16 own)) ∅ {[ a_str addr := other ]}
    true true true true false None ∅ ∅ ∅ ∅ (NewCollector 0) None None None no_callbacks 0 ∅ {[ hashChannelName channel ]} [] 0 0.

Import ToyNoise.

Definition toy_session : @Session toy_noise := @MkSession toy_noise (Some 0) (Some 0) None None 0 0.

(** Two nodes in step exchange one message on channel "chat". *)
Lemma user_data_delivery_witness :
  let nA := demo_node x0a (str "node-bbbb") toy_session (str "chat") in
  let nB := demo_node x0b (str "node-aaaa") toy_session (str "chat") in
  ∃ nA' written nB' sB',
    Send (str "chat") (str "node-bbbb") (str "hi") nA = Some (None, nA')
    ∧ n_log nA' = n_log nA ++ map (TCPWrite 1) written
    ∧ receive_tcp 1 (MkAddr AddrTCP (str "10.0.0.2:7000")) (concat written) nB = Some ((), nB')
    ∧ n_log nB' = n_log nB ++
        (if (33 + len (str "hi") <=? MaxReassemblySize)
            && isChannelSubscribed nB (hashChannelName (str "chat")) && has_onReceive nB
         then [OnReceive (str "node-aaaa") (str "hi")] else [])
    ∧ linked nB' (MkAddr AddrTCP (str "10.0.0.2:7000")) (str "node-aaaa") 1 1 sB' None
    ∧ sess_synced (@MkSession toy_noise (Some 1) (Some 0) None None 0 0) sB'.
Proof.
  intros nA nB.
  assert (frames MaxPayloadSize (user_frame (hashChannelName (str "chat")) (str "hi"))
    = [(FrameTypeSingle, user_frame (hashChannelName (str "chat")) (str "hi"))]) as Hf.
  { unfold frames. assert (len (hashChannelName (str "chat")) = 32) by apply len_sha256.
    assert (len (str "hi") = 2) by reflexivity.
    zcase; [unfold user_frame, MaxPayloadSize in *; len_solve|reflexivity]. }
  eapply (user_data_delivery nA nB (str "chat") (str "hi") (str "node-bbbb") 1
    (NewPeer (str "node-bbbb") (Some (MkAddr AddrTCP (str "10.0.0.2:7000"))) (str "10.0.0.2:7000")
       (Some 1%positive) "tcp" "p2p" None (Some 1%positive) 0) 1 toy_session _ _ 1 1 _ (str "node-aaaa") 1 1 toy_session None);
    [| |reflexivity|reflexivity|reflexivity|reflexivity|reflexivity|reflexivity| |reflexivity| | |].
  - unfold isChannelSubscribed. replace (len (hashChannelName (str "chat"))) with 32 by (symmetry; apply len_sha256).
    apply bool_decide_true. cbn [nA demo_node localChannelSet]. by apply elem_of_singleton.
  - vm_compute. congruence.
  - rewrite Hf. reflexivity.
  - split; [reflexivity|reflexivity| |reflexivity]. eexists. split; [reflexivity|]. split; reflexivity.
  - vm_compute. congruence.
  - exists 0, 0. repeat split.
Defined.

End TransferWitness.
