(* ===== verification/KcpRefine.v ===== *)
(** * The KCP transport of the node refines the KCP layer

    [NodeState] models the KCP transport as the node uses it: which peer has a
    session, at which address, and effects whose outcome the environment decides.
    [KcpManager] models the layer itself.  This file relates them: [abs] is what the
    node's view keeps of a layer, every operation of the layer is matched by the
    operation of the node's view, with the same result, when the environment of the
    node answers as the layer does, and [op_contract] says what each operation does
    below that view, to the sessions, the manager and the mux, and which effects of
    the node's log stand for it. *)

From S2P Require Import Prelude Protocol Stream Sha256 Session Peer RelayAuth RelayManager Metrics Reconnect Identity.
From S2P Require Import Config Mux KcpManager NodeState NodeTransfer.

Definition abs (l : Layer) : KCPTransport := MkKCPTransport (addr_of l <$> kt_sessions l).

(** The operations the node calls. *)
Inductive kcp_op :=
| OpSend (peerID : gostring) (data : bytes)
| OpUpgrade (peerID : gostring) (remoteAddr : Addr)
| OpRemove (peerID : gostring).

(** An operation on the layer; [ok] is the answer of the kcp library, and the text of
    an address resolves to that address. *)
Definition layer_op (ok : bool) (op : kcp_op) (l : Layer) : option (Layer * option string) :=
  match op with
  | OpSend p data => Some (Transport_Send p data ok l)
  | OpUpgrade p a =>
      '(l', r) ← Transport_UpgradePeer p (a_str a) (Some (a_str a)) ok l;
      Some (l', match r with inl e => Some e | inr _ => None end)
  | OpRemove p => Some (Transport_RemoveSession p l, None)
  end.

(** ** What an operation does to the layer *)

(** Every session but [r] is left alone. *)
Definition others_kept (r : KRef) (l l' : Layer) : Prop := ∀ r', r' ≠ r → ks_heap l' !! r' = ks_heap l !! r'.

(** The bytes on the wire: the length in two bytes, then the data. *)
Definition wire_frame (data : bytes) : bytes := be_bytes 2 (len data) ++ data.

(** A session that can be written to, of the peer. *)
Definition open_session (p : gostring) (l : Layer) (r : KRef) (s : KCPSession) : Prop :=
  kt_sessions l !! p = Some r ∧ ks_heap l !! r = Some s ∧ ks_closed s = false.

(** A successful send appends one frame to what the peer's open session has
    written; a failed one changes nothing. *)
Definition send_contract (ok : bool) (p : gostring) (data : bytes) (err : option string) (l l' : Layer)
    (log : list effect) : Prop :=
  match err with
  | None => ok = true ∧ log = [KCPWrite p (wire_frame data)] ∧
      ∃ r s, open_session p l r s ∧ l' = l <| ks_heap ::= <[r := s <| ks_out ::= λ o, o ++ wire_frame data |>]> |>
  | Some _ => l' = l ∧ (ok = false ∨ ∀ r s, ¬ open_session p l r s)
      ∧ log = if bool_decide (is_Some (kt_sessions l !! p)) then [KCPWrite p (wire_frame data)] else []
  end.

(** A session as [DialWithConn] makes it. *)
Definition fresh_session (a : gostring) (cfg : KCPConfig) : KCPSession :=
  MkKCPSession a cfg (config_calls cfg) [] false false.

(** A successful upgrade opens a new configured session for the peer and a queue of
    its own for the datagrams of the address; a session the peer had before is not
    closed.  A failed one leaves the address without a queue and, if one was
    registered for it before, that one open. *)
Definition upgrade_contract (ok : bool) (p a : gostring) (err : option string) (l l' : Layer) (log : list effect) : Prop :=
  match err with
  | None => ok = true ∧ 8 ≤ len p ∧ log = [KCPRegister a; KCPDial a; Go (TaskKCPSession p a)] ∧
      ∃ r h, ks_heap l !! r = None ∧ vconns (kt_mux l) !! h = None
      ∧ ks_heap l' !! r = Some (fresh_session a (km_config (kt_manager l))) ∧ others_kept r l l'
      ∧ kt_sessions l' = <[p := r]> (kt_sessions l)
      ∧ kt_manager l' = kt_manager l <| km_sessions ::= <[a := r]> |>
      ∧ kt_mux l' = kt_mux l <| vconns ::= <[h := newVirtualPacketConn 128]> |> <| kcpHandlers ::= <[a := h]> |>
  | Some _ => ok = false ∧ log = [KCPRegister a; KCPDial a; KCPUnregister a]
      ∧ ks_heap l' = ks_heap l ∧ kt_sessions l' = kt_sessions l ∧ kt_manager l' = kt_manager l
      ∧ kcpHandlers (kt_mux l') = delete a (kcpHandlers (kt_mux l))
      ∧ ∀ c v, vconns (kt_mux l) !! c = Some v → vconns (kt_mux l') !! c = Some v
  end.

(** Removing a peer's session closes it and no other, and takes the queue of its
    address out of the mux and closes it; the manager keeps its entry. *)
Definition remove_contract (p : gostring) (l l' : Layer) (log : list effect) : Prop :=
  match kt_sessions l !! p with
  | None => l' = l ∧ log = []
  | Some r =>
      let a := addr_of l r in
      log = [KCPClose a; KCPUnregister a]
      ∧ kt_sessions l' = delete p (kt_sessions l) ∧ kt_manager l' = kt_manager l
      ∧ (∃ s, ks_heap l !! r = Some s
            ∧ ks_heap l' !! r = Some (s <| ks_closed := true |> <| ks_under_closed := true |>))
      ∧ others_kept r l l'
      ∧ kcpHandlers (kt_mux l') = delete a (kcpHandlers (kt_mux l))
      ∧ ∀ c, vconns (kt_mux l') !! c
             = (λ v, if bool_decide (kcpHandlers (kt_mux l) !! a = Some c) then v <| vc_closed := true |> else v)
               <$> vconns (kt_mux l) !! c
  end.

Definition op_contract (ok : bool) (op : kcp_op) (err : option string) (l l' : Layer) (log : list effect) : Prop :=
  match op with
  | OpSend p data => send_contract ok p data err l l' log
  | OpUpgrade p a => upgrade_contract ok p (a_str a) err l l' log
  | OpRemove p => err = None ∧ remove_contract p l l' log
  end.

(** The effects in the node's log for each operation. *)
Definition op_log (ok : bool) (op : kcp_op) (l : Layer) : list effect :=
  match op with
  | OpSend p data => if bool_decide (is_Some (kt_sessions l !! p)) then [KCPWrite p (wire_frame data)] else []
  | OpUpgrade p a =>
      [KCPRegister (a_str a); KCPDial (a_str a)]
      ++ if ok then [Go (TaskKCPSession p (a_str a))] else [KCPUnregister (a_str a)]
  | OpRemove p =>
      match kt_sessions l !! p with
      | Some r => [KCPClose (addr_of l r); KCPUnregister (addr_of l r)]
      | None => []
      end
  end.

Lemma kcp_send_frame_wire data : kcp_send_frame data = wire_frame data.
Proof. by rewrite kcp_send_frame_eq, EncodeTCPFrame_eq. Qed.

Lemma send_effect ok p data l l' err :
  layer_wf l → Transport_Send p data ok l = (l', err) → send_contract ok p data err l l' (op_log ok (OpSend p data) l).
Proof.
  intros Hwf. unfold Transport_Send, send_contract, op_log, open_session.
  destruct (kt_sessions l !! p) as [r|] eqn:Ep.
  2:{ intros [= <- <-]. split_and!; [done|right; naive_solver|done]. }
  destruct (wf_transport l Hwf p r Ep) as [s Hs]. rewrite Hs. cbv zeta.
  fold (kcp_send_frame data). rewrite kcp_send_frame_wire, bool_decide_true by done.
  assert (l <| ks_heap ::= <[r := s]> |> = l) as Hid by (destruct l; cbn in *; unfold set_field; cbn; f_equal; by apply insert_id).
  unfold KCPSession_Write. destruct (ks_closed s) eqn:Ec; [|destruct ok]; intros [= <- <-].
  - split_and!; [done|right; intros ? ? (? & ? & ?); congruence|done].
  - split_and!; [done|done|]. by exists r, s.
  - split_and!; [done|by left|done].
Qed.

Lemma unregister_registered m a :
  let m' := UnregisterKCPHandler (RegisterKCPHandler m a).1 a in
  kcpHandlers m' = delete a (kcpHandlers m) ∧ ∀ c v, vconns m !! c = Some v → vconns m' !! c = Some v.
Proof.
  cbv zeta. split; [by rewrite unregister_handlers; cbn; rewrite delete_insert_eq|].
  intros c v Hc. unfold UnregisterKCPHandler. cbn. rewrite lookup_insert_eq. cbn.
  assert (c ≠ fresh (dom (vconns m))) by (intros ->; by apply elem_of_dom_2, is_fresh in Hc).
  by rewrite lookup_alter_ne, lookup_insert_ne.
Qed.

Lemma upgrade_effect ok p a l l' err :
  layer_op ok (OpUpgrade p a) l = Some (l', err) →
  upgrade_contract ok p (a_str a) err l l' (op_log ok (OpUpgrade p a) l).
Proof.
  cbn [layer_op op_log]. unfold Transport_UpgradePeer, DialWithConn, upgrade_contract.
  pose proof (unregister_registered (kt_mux l) (a_str a)) as Hun. cbv zeta in Hun.
  destruct ok; cbn [negb].
  - unfold add_session. cbn -[fresh]. destruct (Z.ltb_spec (len p) 8); [done|]. cbn -[fresh]. intros [= <- <-].
    split_and!; [done|done|done|]. exists (fresh (dom (ks_heap l))), (fresh (dom (vconns (kt_mux l)))).
    split_and!; [apply not_elem_of_dom, is_fresh..| | |done|done|done].
    + cbn -[fresh]. by rewrite lookup_insert_eq.
    + intros r' Hr. cbn -[fresh]. by rewrite lookup_insert_ne.
  - cbn -[RegisterKCPHandler UnregisterKCPHandler]. intros [= <- <-]. split_and!; try done; apply Hun.
Qed.

Lemma unregister_conns m a c :
  vconns (UnregisterKCPHandler m a) !! c
  = (λ v, if bool_decide (kcpHandlers m !! a = Some c) then v <| vc_closed := true |> else v) <$> vconns m !! c.
Proof.
  unfold UnregisterKCPHandler. destruct (kcpHandlers m !! a) as [h|] eqn:E; cbn.
  - rewrite lookup_alter. destruct (decide (h = c)) as [<-|].
    + by rewrite bool_decide_true.
    + rewrite bool_decide_false by congruence. by destruct (vconns m !! c).
  - by destruct (vconns m !! c).
Qed.

Lemma remove_effect ok p l : layer_wf l → remove_contract p l (Transport_RemoveSession p l) (op_log ok (OpRemove p) l).
Proof.
  intros Hwf. pose proof (remove_sessions p l) as Hs. unfold remove_contract, op_log. unfold Transport_RemoveSession in *.
  destruct (kt_sessions l !! p) as [r|] eqn:Ep; [|done].
  destruct (wf_transport l Hwf p r Ep) as [s Hr]. split_and!; try done.
  - exists s. split; [done|]. cbn. rewrite lookup_alter_eq, Hr. cbn. f_equal. unfold KCPSession_Close.
    destruct (wf_heap l Hwf _ _ Hr) as (_ & Hu & _). destruct s as [? ? ? ? cl ?]. cbn in *. subst. by destruct cl.
  - intros r' Hne. cbn. by rewrite lookup_alter_ne.
  - apply unregister_handlers.
  - intros c. apply unregister_conns.
Qed.

Section refine.
Context {NL : Noise} {W : World}.

(** The same operation on the node's view. *)
Definition node_op (op : kcp_op) (k : KCPTransport) : M (option string) :=
  match op with
  | OpSend p data => KCP_Send k p data
  | OpUpgrade p a => UpgradePeer k p a
  | OpRemove p => _ ← RemoveSession k p; mret None
  end.

(** Whether the peer's session takes a write, given that the library would. *)
Definition write_ok (ok : bool) (p : gostring) (l : Layer) : bool :=
  match kt_sessions l !! p ≫= λ r, ks_heap l !! r with
  | Some s => negb (ks_closed s) && ok
  | None => false
  end.

(** The environment of the node answers as the layer does. *)
Definition answers (ok : bool) (op : kcp_op) (l : Layer) (n : Node) : Prop :=
  match op with
  | OpSend p data => io_ok (n_log n) (KCPWrite p (kcp_send_frame data)) = write_ok ok p l
  | OpUpgrade p a => io_ok (n_log n ++ [KCPRegister (a_str a)]) (KCPDial (a_str a)) = ok
  | OpRemove _ => True
  end.

Lemma abs_lookup l p : kcp_sessions (abs l) !! p = addr_of l <$> kt_sessions l !! p.
Proof. cbn. by rewrite lookup_fmap. Qed.

(** Changing the state of a session changes nothing of the node's view. *)
Lemma abs_heap l f r :
  (∀ s, peerAddr (f s) = peerAddr s) → abs (l <| ks_heap ::= alter f r |>) = abs l.
Proof.
  intros Hf. unfold abs. f_equal. apply map_fmap_ext. intros p r' _. unfold addr_of. cbn.
  rewrite lookup_alter. destruct (decide (r = r')) as [<-|]; [|done].
  destruct (ks_heap l !! r); [|done]. cbn. by rewrite Hf.
Qed.

Lemma abs_send l p data ok : layer_wf l → abs (Transport_Send p data ok l).1 = abs l.
Proof.
  intros Hwf. unfold Transport_Send. destruct (kt_sessions l !! p) as [r|]; [|done].
  destruct (ks_heap l !! r) as [s|] eqn:Es; [|done]. cbv zeta. set (frame := copy_at _ _ _).
  transitivity (abs (l <| ks_heap ::= alter (λ s, (KCPSession_Write s frame ok).1) r |>)).
  - destruct (KCPSession_Write s frame ok) as [s' e] eqn:Ew. cbn [fst]. f_equal.
    destruct l; unfold set_field; cbn in *. f_equal. rewrite (alter_insert_lookup _ _ _ _ Es). by rewrite Ew.
  - apply abs_heap. intros s0. unfold KCPSession_Write. by destruct (ks_closed s0), ok.
Qed.

Lemma abs_remove l p : layer_wf l →
  kcp_sessions (abs (Transport_RemoveSession p l)) = delete p (kcp_sessions (abs l)).
Proof.
  intros Hwf. cbn. rewrite remove_sessions, <- fmap_delete. apply map_fmap_ext. intros q r _. apply remove_addr.
Qed.

(** Adding a session keeps the addresses of the others. *)
Lemma add_session_addr a l l' r :
  layer_wf l → add_session a l = (l', r) →
  addr_of l' r = a ∧ kt_sessions l' = kt_sessions l
  ∧ ∀ p r', kt_sessions l !! p = Some r' → addr_of l' r' = addr_of l r'.
Proof.
  intros Hwf [= <- <-]. split_and!; [|done|].
  - unfold addr_of. cbn. by rewrite lookup_insert_eq.
  - intros p r' Hp. unfold addr_of. cbn. rewrite lookup_insert_ne; [done|]. intros <-.
    destruct (wf_transport l Hwf _ _ Hp) as [s Hs]. by apply elem_of_dom_2, (is_fresh (dom (ks_heap l))) in Hs.
Qed.

Lemma send_refines l p data ok n :
  layer_wf l → kcpTransport n = Some (abs l) → answers ok (OpSend p data) l n →
  ∃ n', KCP_Send (abs l) p data n = Some ((Transport_Send p data ok l).2, n') ∧ kcpTransport n' = kcpTransport n
        ∧ n_log n' = n_log n ++ op_log ok (OpSend p data) l.
Proof.
  intros Hwf Hk Hans. cbn [answers] in Hans. unfold write_ok in Hans. unfold KCP_Send, Transport_Send, op_log.
  rewrite abs_lookup. destruct (kt_sessions l !! p) as [r|] eqn:Ep; cbn [fmap option_fmap option_map].
  2:{ eexists. split; [done|]. by rewrite app_nil_r. }
  rewrite <- kcp_send_frame_wire, bool_decide_true by done.
  destruct (wf_transport l Hwf p r Ep) as [s Hs]. cbn [mbind option_bind] in Hans. rewrite Hs in *. cbv zeta.
  unfold kcp_send_frame in Hans. cbv zeta in Hans. set (frame := copy_at _ _ _) in *.
  eexists. split; [|shelve]. unfold mbind, M_bind, io. rewrite Hans. unfold KCPSession_Write.
  destruct (ks_closed s), ok; reflexivity. Unshelve. done.
Qed.

Lemma remove_refines l p n :
  layer_wf l → kcpTransport n = Some (abs l) →
  ∃ n', node_op (OpRemove p) (abs l) n = Some (None, n')
        ∧ kcpTransport n' = Some (abs (Transport_RemoveSession p l))
        ∧ n_log n' = n_log n ++ op_log true (OpRemove p) l.
Proof.
  intros Hwf Hk. cbn [node_op op_log]. unfold RemoveSession. rewrite abs_lookup.
  assert (abs (Transport_RemoveSession p l) = MkKCPTransport (delete p (kcp_sessions (abs l)))) as ->.
  { rewrite <- abs_remove by done. by destruct (abs _). }
  destruct (kt_sessions l !! p) as [r|] eqn:Ep; cbn [fmap option_fmap option_map]; eexists; (split; [reflexivity|]).
  - split; [done|]. cbn. by rewrite <- app_assoc.
  - rewrite app_nil_r. split; [|done]. rewrite Hk. f_equal. rewrite delete_id; [by destruct (abs l)|]. by rewrite abs_lookup, Ep.
Qed.

Lemma upgrade_refines l p a ok n :
  layer_wf l → kcpTransport n = Some (abs l) → answers ok (OpUpgrade p a) l n →
  match layer_op ok (OpUpgrade p a) l with
  | None => UpgradePeer (abs l) p a n = None
  | Some (l', err) => ∃ n', UpgradePeer (abs l) p a n = Some (err, n') ∧ kcpTransport n' = Some (abs l')
                            ∧ n_log n' = n_log n ++ op_log ok (OpUpgrade p a) l
  end.
Proof.
  intros Hwf Hk Hans. cbn [answers] in Hans. cbn [layer_op op_log].
  unfold Transport_UpgradePeer, UpgradePeer, DialWithConn.
  destruct (RegisterKCPHandler (kt_mux l) (a_str a)) as [mux h].
  set (l0 := l <| kt_mux := mux |>). assert (layer_wf l0) as Hwf0 by (destruct Hwf; by split).
  destruct ok; cbn [negb].
  - destruct (add_session (a_str a) l0) as [l1 r] eqn:E.
    destruct (add_session_addr _ _ _ _ Hwf0 E) as (Hr & Hs & Ho).
    assert (abs (l1 <| kt_sessions ::= <[p := r]> |>)
            = MkKCPTransport (<[p := a_str a]> (kcp_sessions (abs l)))) as Habs.
    { unfold abs. f_equal. cbn. rewrite fmap_insert, Hs.
      change (addr_of (l1 <| kt_sessions ::= <[p := r]> |>)) with (addr_of l1). rewrite Hr. f_equal.
      apply map_fmap_ext. intros q r' Hq. by apply (Ho q). }
    change (n_log n ++ [KCPRegister (a_str a)])
      with (n_log (n <| n_log ::= λ l, l ++ [KCPRegister (a_str a)] |>)) in Hans.
    destruct (Z.ltb_spec (len p) 8) as [Hlt|Hge]; cbn [mbind option_bind].
    + rewrite emit_bind, io_bind, Hans. cbn [negb]. rewrite modify_bind.
      unfold short8, go_slice. replace (8 <=? len p) with false by (symmetry; apply Z.leb_gt; lia).
      by rewrite andb_false_r.
    + rewrite emit_bind, io_bind, Hans. cbn [negb]. rewrite modify_bind, short8_bind, go_bind, ret_run by lia.
      eexists. split; [done|]. rewrite Habs. split; [done|]. cbn. by rewrite <- !app_assoc.
  - cbn [mbind option_bind]. rewrite emit_bind, io_bind.
    change (n_log n ++ [KCPRegister (a_str a)])
      with (n_log (n <| n_log ::= λ l, l ++ [KCPRegister (a_str a)] |>)) in Hans.
    rewrite Hans. cbn [negb]. rewrite emit_bind, ret_run. eexists. split; [done|].
    split; [by transitivity (kcpTransport n)|]. cbn. by rewrite <- !app_assoc.
Qed.

(** C12: The KCP layer does what the node relies on, and the table the node is verified against is a view of it.  Whatever
    state the layer has reached, when the environment of the node answers a dial as the library does and a write as the
    peer's session does, each operation of the node has the result the layer gives, including the panic on a short peer ID,
    and leads to related states; and below the view: a successful send appends to the peer's open session the two length
    bytes and the data, and nothing else changes, a failed send changes nothing; an upgrade opens a new configured session
    and a new empty queue for the address, stored under the peer, the address and in the mux, and leaves all other sessions
    alone, a failed one opens none and leaves the address without a queue; a removal closes the peer's session and no
    other, takes the queue of its address out of the mux and closes that queue and no other.  The node's log grows by
    exactly the effects of the operation. *)
Theorem kcp_transport_refines config op ok l n :
  layer_reachable config l → kcpTransport n = Some (abs l) → answers ok op l n →
  match layer_op ok op l with
  | None => node_op op (abs l) n = None
  | Some (l', err) => layer_reachable config l' ∧
      ∃ n' log, node_op op (abs l) n = Some (err, n') ∧ kcpTransport n' = Some (abs l')
      ∧ n_log n' = n_log n ++ log ∧ op_contract ok op err l l' log
  end.
Proof.
  intros Hr Hk Hans. pose proof (layer_reachable_wf _ _ Hr) as Hwf.
  assert (∀ l', layer_step l l' → layer_reachable config l') as Hstep.
  { intros l' Hs. destruct Hr as [mux Hr]. exists mux. by eapply rtc_r. }
  destruct op as [p data|p a|p].
  - cbn [layer_op node_op op_contract]. destruct (send_refines l p data ok n Hwf Hk Hans) as (n' & Hn & Hk' & Hl).
    destruct (Transport_Send p data ok l) as [l' err] eqn:E.
    assert (l' = (Transport_Send p data ok l).1) as El by (by rewrite E).
    split; [apply Hstep; rewrite El; constructor|]. exists n', (op_log ok (OpSend p data) l).
    split_and!; [done| |done|by apply send_effect]. by rewrite Hk', Hk, El, abs_send.
  - cbn [node_op]. pose proof (upgrade_refines l p a ok n Hwf Hk Hans) as H.
    destruct (layer_op ok (OpUpgrade p a) l) as [[l' err]|] eqn:E; [|done].
    destruct H as (n' & Hn & Hk' & Hl). pose proof (upgrade_effect ok p a l l' err E) as Hc.
    split; [|by exists n', (op_log ok (OpUpgrade p a) l)]. apply Hstep.
    cbn [layer_op] in E. destruct (Transport_UpgradePeer _ _ _ _ _) as [[l1 x]|] eqn:Eu; [|done].
    cbn in E. simplify_eq. by eapply step_upgrade.
  - cbn [layer_op]. destruct (remove_refines l p n Hwf Hk) as (n' & Hn & Hk' & Hl).
    split; [apply Hstep; constructor|]. exists n', (op_log true (OpRemove p) l).
    split_and!; [done..|]. split; [done|]. by apply remove_effect.
Qed.
End refine.

Module RefineWitness.
Import ToyNoise TransferWitness KcpWitness.

(** A node whose KCP transport has the two sessions of [KcpWitness]. *)
Definition kcp_node : @Node toy_noise :=
  demo_node x0a (str "node-bbbb") toy_session (str "chat") <| kcpTransport := Some (abs layer2) |>.

(** A send succeeds, and its three bytes are at the end of what the session wrote. *)
Lemma kcp_transport_refines_witness :
  (Transport_Send new_peer [x0a] true layer2).2 = None ∧
  ∃ n' r s, @node_op toy_noise quiet_world (OpSend new_peer [x0a]) (abs layer2) kcp_node = Some (None, n')
        ∧ open_session new_peer layer2 r s
        ∧ ks_heap (Transport_Send new_peer [x0a] true layer2).1 !! r
          = Some (s <| ks_out ::= λ o, o ++ [x00; x01; x0a] |>).
Proof.
  assert ((Transport_Send new_peer [x0a] true layer2).2 = None) as He by (vm_compute; reflexivity). split; [exact He|].
  pose proof (kcp_transport_refines (NL := toy_noise) (W := quiet_world) None (OpSend new_peer [x0a]) true layer2 kcp_node
    layer2_reachable eq_refl ltac:(vm_compute; reflexivity)) as H. cbn [layer_op] in H.
  destruct (Transport_Send new_peer [x0a] true layer2) as [l' err]. cbn [snd] in He. subst err.
  destruct H as (_ & n' & log & Hn & _ & _ & _ & _ & r & s & Hs & ->). exists n', r, s. split; [exact Hn|]. split; [exact Hs|].
  cbn. by rewrite lookup_insert_eq.
Defined.
End RefineWitness.
