(* ===== verification/NodeStream.v ===== *)
(** * A link between two nodes is a FIFO channel

    [NodeTransfer] follows one message.  Here a series of messages goes over one link,
    a TCP connection or a KCP session whose bytes arrive in chunks: the receiving
    application sees exactly the messages it may see, once each and in the order they
    were sent. *)

From S2P Require Import Prelude Protocol Stream Sha256 Session Peer RelayAuth RelayManager Metrics Reconnect.
From S2P Require Import Identity Config Mux KcpManager NodeState NodeChannel NodeHeartbeat NodeRecv NodeHandshake.
From S2P Require Import NodeDiscovery NodeDispatch NodeTransfer.

(** A message: the channel and the data. *)
Abbreviation message := (gostring * bytes)%type.

Definition message_frames (m : message) : list (byte * bytes) :=
  frames MaxPayloadSize (user_frame (hashChannelName m.1) m.2).

Definition path_frame (path : send_path) (frame : bytes) : effect :=
  match path with
  | ViaTCP c => TCPWrite c frame
  | ViaKCP id => KCPWrite id frame
  end.

Section stream.
Context {NL : Noise} {LW : NoiseLaws NL} {W : World}.

(** An application sending one message after the other. *)
Fixpoint send_each (id : gostring) (msgs : list message) : M (list (option string)) :=
  match msgs with
  | [] => mret []
  | m :: msgs' => err ← Send m.1 id m.2; errs ← send_each id msgs'; mret (err :: errs)
  end.

(** The abstract link: a queue that passes on a message if the receiver subscribes to
    its channel, has a callback, and the message fits the reassembly buffer. *)
Definition fifo_spec (n : Node) (id : gostring) (msgs : list message) : list effect :=
  msgs ≫= λ m, if (33 + len m.2 <=? MaxReassemblySize) && isChannelSubscribed n (hashChannelName m.1) && has_onReceive n
               then [OnReceive id m.2] else [].

(** The receiving node, fed the bytes written on the link. *)
Definition link_receives (path : send_path) (connB : ConnRef) (addr : Addr) (stream : bytes) (n n' : Node) : Prop :=
  match path with
  | ViaTCP _ => receive_tcp connB addr stream n = Some ((), n')
  | ViaKCP _ => ∀ evs, calm start_reader evs → arrived evs = stream →
      dispatch_all None addr "kcp" (session_loop start_reader evs).2 n = Some ((), n')
  end.

(** ** Sealing and dispatching in parts *)

Lemma seal_all_app ps qs s s' cs :
  seal_all s (ps ++ qs) = (s', Ok cs) →
  ∃ s1 c1 c2, seal_all s ps = (s1, Ok c1) ∧ seal_all s1 qs = (s', Ok c2) ∧ cs = c1 ++ c2.
Proof.
  revert s cs. induction ps as [|p ps IH]; intros s cs; cbn [app seal_all].
  { intros Hq. by exists s, [], cs. }
  destruct (Session_Encrypt s p) as [s0 [c| |]]; try done.
  destruct (seal_all s0 (ps ++ qs)) as [s2 [cs'| |]] eqn:E; try done. intros [= -> <-].
  destruct (IH s0 cs' E) as (s1 & c1 & c2 & -> & Hq & ->). by exists s1, (c :: c1), c2.
Qed.

Lemma dispatch_all_app conn addr transport ps qs n :
  dispatch_all conn addr transport (ps ++ qs) n
  = (_ ← dispatch_all conn addr transport ps; dispatch_all conn addr transport qs) n.
Proof.
  revert n. induction ps as [|[t c] ps IH]; intros n; [done|]. cbn [app dispatch_all].
  rewrite bind_assoc. apply bind_ext. intros _ n'. apply IH.
Qed.

Lemma data_packets_app c1 c2 : data_packets (c1 ++ c2) = data_packets c1 ++ data_packets c2.
Proof. apply fmap_app. Qed.

(** ** The sender *)

Lemma send_each_path msgs : ∀ n id r sr s path s' cs,
  Forall (λ m, isChannelSubscribed n (hashChannelName m.1) = true) msgs → sending n id r sr s path →
  seal_all s (plain_of <$> (msgs ≫= message_frames)) = (s', Ok cs) → (∀ l e, io_ok l e = true) →
  ∃ n', send_each id msgs n = Some (map (λ _, None) msgs, n') ∧ sending n' id r sr s' path
  ∧ n_log n' = n_log n ++ map (λ c, path_write path (data_packet c)) cs.
Proof.
  induction msgs as [|m msgs IH]; intros n id r sr s path s' cs Hsub Hsd Hseal Hio.
  { cbn in Hseal. simplify_eq. exists n. by rewrite app_nil_r. }
  change ((m :: msgs) ≫= message_frames) with (message_frames m ++ (msgs ≫= message_frames)) in Hseal.
  rewrite fmap_app in Hseal. apply seal_all_app in Hseal as (s1 & c1 & c2 & H1 & H2 & ->).
  apply Forall_cons in Hsub as [Hm Hsub].
  destruct (Send_path n m.1 id m.2 r sr s path s1 c1 Hm Hsd H1 Hio) as (n1 & Hrun & Hsd1 & Hlog & Hch).
  destruct (IH n1 id r sr s1 path s' c2) as (n2 & Hrun2 & Hsd2 & Hlog2); try done.
  { eapply Forall_impl; [done|]. intros m'. unfold isChannelSubscribed. by rewrite (tc_channels _ _ _ _ Hch). }
  exists n2. cbn [send_each]. rewrite (bind_run _ _ _ _ _ Hrun), (bind_run _ _ _ _ _ Hrun2). split_and!; [done..|].
  by rewrite Hlog2, Hlog, map_app, app_assoc.
Qed.

(** ** The receiver *)

Lemma fifo_spec_context n n' id msgs : same_context n n' → fifo_spec n' id msgs = fifo_spec n id msgs.
Proof.
  intros (H1 & H2 & _). unfold fifo_spec, isChannelSubscribed. by rewrite H1, H2.
Qed.

Lemma recv_each msgs : ∀ conn transport addr id r sr sA s n buf sA' cs,
  linked n addr id r sr s buf → sess_synced sA s → 8 ≤ len id →
  seal_all sA (plain_of <$> (msgs ≫= message_frames)) = (sA', Ok cs) →
  ∃ n' s' buf', dispatch_all conn addr transport (data_packets cs) n = Some ((), n')
  ∧ linked n' addr id r sr s' buf' ∧ sess_synced sA' s' ∧ n_log n' = n_log n ++ fifo_spec n id msgs.
Proof.
  induction msgs as [|m msgs IH]; intros conn transport addr id r sr sA s n buf sA' cs Hl Hsync Hid Hseal.
  { cbn in Hseal. simplify_eq. exists n, s, buf. by rewrite app_nil_r. }
  change ((m :: msgs) ≫= message_frames) with (message_frames m ++ (msgs ≫= message_frames)) in Hseal.
  rewrite fmap_app in Hseal. apply seal_all_app in Hseal as (s1 & c1 & c2 & H1 & H2 & ->).
  destruct (recv_message conn transport addr id r sr sA s n buf s1 c1 (hashChannelName m.1) m.2)
    as (n1 & s' & Hrun & Hl1 & Hsync1 & Hc1 & Hlog1); try done; try apply len_sha256.
  destruct (IH conn transport addr id r sr s1 s' n1 None sA' c2 Hl1 Hsync1 Hid H2)
    as (n2 & s2 & buf2 & Hrun2 & Hl2 & Hsync2 & Hlog2).
  exists n2, s2, buf2. rewrite data_packets_app, dispatch_all_app, (bind_run _ _ _ _ _ Hrun). split_and!; [done..|].
  rewrite Hlog2, Hlog1, (fifo_spec_context n n1) by done. rewrite <- app_assoc. f_equal.
  unfold fifo_spec at 2. cbn [mbind list_bind]. f_equal. unfold delivery. rewrite Z.leb_antisym.
  by destruct (MaxReassemblySize <? 33 + len m.2).
Qed.

Lemma message_frames_size msgs : Forall (λ f, len f.2 ≤ MaxPayloadSize) (msgs ≫= message_frames).
Proof.
  induction msgs as [|m msgs IH]; [constructor|]. apply Forall_app. split; [|done].
  apply frames_size. unfold MaxPayloadSize. lia.
Qed.

(** The packets a KCP read loop dispatches from the bytes of these packets, however
    they are cut. *)
Lemma kcp_chunks cs evs :
  Forall fits (data_packets cs) → calm start_reader evs → arrived evs = wire (data_packets cs) →
  (session_loop start_reader evs).2 = data_packets cs.
Proof.
  intros Hfit Hc Ha. rewrite session_loop_calm, read_bytes_stream, Ha by done.
  pose proof (loop_wire handleSession handleSession_on_frame handleSession_fuel_enough (data_packets cs) []
    (S (length (wire (data_packets cs))))) as H.
  rewrite !app_nil_r in H. by rewrite H by (done || lia).
Qed.

(** What the other end of a link makes of sealed messages. *)
Lemma link_receives_sealed msgs path connB addr idA rA srB sA sB nB buf sA' cs :
  linked nB addr idA rA srB sB buf → sess_synced sA sB → 8 ≤ len idA →
  seal_all sA (plain_of <$> (msgs ≫= message_frames)) = (sA', Ok cs) →
  ∃ nB' sB' buf', link_receives path connB addr (concat (map (λ c, EncodeTCPFrame (data_packet c)) cs)) nB nB'
  ∧ n_log nB' = n_log nB ++ fifo_spec nB idA msgs ∧ linked nB' addr idA rA srB sB' buf' ∧ sess_synced sA' sB'.
Proof.
  intros Hl Hsync Hid Hseal.
  assert (Forall fits (data_packets cs)) as Hfit by (eapply sealed_fits; [apply message_frames_size|done]).
  destruct (recv_each msgs (match path with ViaTCP _ => Some connB | _ => None end)
    (match path with ViaTCP _ => "tcp"%string | _ => "kcp"%string end) addr idA rA srB sA sB nB buf sA' cs)
    as (nB' & sB' & buf' & Hrecv & Hl' & Hsync' & HlogB); try done.
  exists nB', sB', buf'. split_and!; try done. rewrite data_packets_wire. destruct path; cbn [link_receives].
  - by rewrite receive_tcp_packets.
  - intros evs Hc Ha. by rewrite (kcp_chunks cs evs).
Qed.

(** C1: a link between two nodes is a FIFO channel.  When a node sends any series of messages to a peer it has a path to,
    sealing and writing succeeding, every Send reports success; and the other node, fed the bytes written (over TCP, or over
    KCP in chunks cut anywhere with pauses between frames), hands its application exactly the messages of the series that are
    on subscribed channels and within the reassembly limit, once each, unchanged, in order and attributed to the sender.  The
    link is then in the state it started from. *)
Theorem link_is_fifo msgs nA nB idB rB sr sA sA' cs path connB addr idA rA srB sB buf :
  Forall (λ m, isChannelSubscribed nA (hashChannelName m.1) = true) msgs →
  sending nA idB rB sr sA path →
  seal_all sA (plain_of <$> (msgs ≫= message_frames)) = (sA', Ok cs) → (∀ l e, io_ok l e = true) →
  linked nB addr idA rA srB sB buf → 8 ≤ len idA → sess_synced sA sB →
  ∃ nA' written nB' sB' buf',
    send_each idB msgs nA = Some (map (λ _, None) msgs, nA')
    ∧ n_log nA' = n_log nA ++ map (path_frame path) written
    ∧ link_receives path connB addr (concat written) nB nB'
    ∧ n_log nB' = n_log nB ++ fifo_spec nB idA msgs
    ∧ sending nA' idB rB sr sA' path ∧ linked nB' addr idA rA srB sB' buf' ∧ sess_synced sA' sB'.
Proof.
  intros Hsub Hsd Hseal Hio Hl Hid Hsync.
  destruct (send_each_path msgs nA idB rB sr sA path sA' cs Hsub Hsd Hseal Hio) as (nA' & Hsend & Hsd' & HlogA).
  destruct (link_receives_sealed msgs path connB addr idA rA srB sA sB nB buf sA' cs)
    as (nB' & sB' & buf' & Hrecv & HlogB & Hl' & Hsync'); try done.
  exists nA', (map (λ c, EncodeTCPFrame (data_packet c)) cs), nB', sB', buf'. split_and!; try done.
  rewrite HlogA, map_map. by destruct path.
Qed.
End stream.

(** ** Two messages over KCP *)

Module StreamWitness.
Import ToyNoise TransferWitness.

Definition kcp_sender : @Node toy_noise :=
  demo_node x0a (str "node-bbbb") toy_session (str "chat")
    <| peer_heap := {[1%positive := NewPeer (str "node-bbbb") (Some (MkAddr AddrUDP (str "10.0.0.3:7000"))) (str "10.0.0.3:7000")
                       None "udp" "p2p" None (Some 1%positive) 0]} |>
    <| kcpTransport := Some (MkKCPTransport {[str "node-bbbb" := str "10.0.0.3:7000"]}) |>.

Definition receiver : @Node toy_noise := demo_node x0b (str "node-aaaa") toy_session (str "chat").

Definition two_messages : list message := [(str "chat", str "hi"); (str "chat", str "yo")].

Lemma short_frames ch d : len d = 2 →
  message_frames (ch, d) = [(FrameTypeSingle, user_frame (hashChannelName ch) d)].
Proof.
  intros Hd. unfold message_frames, frames. cbn [fst snd].
  assert (len (hashChannelName ch) = 32) by apply len_sha256.
  zcase; [unfold user_frame, MaxPayloadSize in *; len_solve|reflexivity].
Qed.

Lemma link_is_fifo_witness :
  ∃ nA' written nB' sB' buf',
    send_each (str "node-bbbb") two_messages kcp_sender = Some ([None; None], nA')
    ∧ n_log nA' = n_log kcp_sender ++ map (path_frame (ViaKCP (str "node-bbbb"))) written
    ∧ link_receives (ViaKCP (str "node-bbbb")) 1 (MkAddr AddrTCP (str "10.0.0.2:7000")) (concat written) receiver nB'
    ∧ n_log nB' = n_log receiver ++ fifo_spec receiver (str "node-aaaa") two_messages
    ∧ sending nA' (str "node-bbbb") 1 1 (@MkSession toy_noise (Some 2) (Some 0) None None 0 0) (ViaKCP (str "node-bbbb"))
    ∧ linked nB' (MkAddr AddrTCP (str "10.0.0.2:7000")) (str "node-aaaa") 1 1 sB' buf'
    ∧ sess_synced (@MkSession toy_noise (Some 2) (Some 0) None None 0 0) sB'.
Proof.
  assert (two_messages ≫= message_frames
    = [(FrameTypeSingle, user_frame (hashChannelName (str "chat")) (str "hi"));
       (FrameTypeSingle, user_frame (hashChannelName (str "chat")) (str "yo"))]) as Hf
    by (cbn [two_messages mbind list_bind]; rewrite !short_frames by reflexivity; reflexivity).
  eapply (link_is_fifo two_messages kcp_sender receiver (str "node-bbbb") 1 1 toy_session _ _ (ViaKCP (str "node-bbbb")) 1
    _ (str "node-aaaa") 1 1 toy_session None).
  - repeat constructor; apply bool_decide_true; cbn [kcp_sender demo_node localChannelSet]; by apply elem_of_singleton.
  - split; [vm_compute; congruence|reflexivity| |reflexivity].
    eexists. split; [reflexivity|]. split; [reflexivity|]. split; [reflexivity|]. split; [by left|].
    eexists. split; reflexivity.
  - rewrite Hf. reflexivity.
  - reflexivity.
  - split; [reflexivity|reflexivity| |reflexivity]. eexists. split_and!; reflexivity.
  - vm_compute. congruence.
  - exists 0, 0. split_and!; reflexivity.
Defined.
End StreamWitness.
