(* ===== verification/SendLock.v ===== *)
(** * Concurrent senders to one peer ([node/node_channel.go], [peer/peer.go])

    [sendAppFrame] seals and writes the fragments of a message one by one.  Many
    goroutines call it for the same peer: the application, broadcasts, the channel
    synchronisation.  The peer's [sendMu] is held for the whole message.  Here the
    callers are threads that stand at the lock, at [session.Encrypt] or at the
    write, and any interleaving is shown to be a series of whole messages: the
    receiver delivers every message once, in the order in which the lock was taken.
    In [NodeChannel] a call is one step of the node; this file is why it may be. *)

From S2P Require Import Prelude Protocol Stream Sha256 Session Peer NodeState NodeChannel NodeTransfer NodeStream.

(** ** Threads *)

(** Where a call of [Send] stands: before [p.LockDataSend()], before the next
    [session.Encrypt] with the frames left, before [sendFunc(packet)], returned. *)
Inductive sender_pc :=
| AtLock (m : message)
| AtEncrypt (m : message) (fs : list (byte * bytes))
| AtWrite (m : message) (sealed : bytes) (fs : list (byte * bytes))
| SendReturned (m : message) (err : option string).

Section send_lock.
Context {NL : Noise} {LW : NoiseLaws NL} {W : World}.

(** [sn_written] is what was written to the path, in order; [sn_order] is not of the
    code: the messages in the order in which the lock was taken. *)
Record sends := MkSends {
  sn_holder : option nat;
  sn_session : Session;
  sn_written : list bytes;
  sn_order : list message;
  sn_threads : list sender_pc;
}.
#[global] Instance sends_eta : RecordEta sends := λ s,
  MkSends (sn_holder s) (sn_session s) (sn_written s) (sn_order s) (sn_threads s).

Definition at_pc (i : nat) (pc : sender_pc) (s : sends) : sends := s <| sn_threads ::= <[i := pc]> |>.

(** [LockDataSend] and the deferred [UnlockDataSend]. *)
Definition LockDataSend (i : nat) (s : sends) : option sends :=
  match sn_holder s with Some _ => None | None => Some (s <| sn_holder := Some i |>) end.
Definition UnlockDataSend (s : sends) : sends := s <| sn_holder := None |>.

Definition send_returns (i : nat) (m : message) (err : option string) (s : sends) : sends :=
  at_pc i (SendReturned m err) (UnlockDataSend s).

(** The step of a call from where it stands; [None]: it waits for the lock. *)
Definition sender_step (s : sends) (i : nat) (pc : sender_pc) (write_ok : bool) : option sends :=
  match pc with
  | AtLock m =>
      s ← LockDataSend i s;
      Some (at_pc i (AtEncrypt m (message_frames m)) (s <| sn_order ::= λ l, l ++ [m] |>))
  | AtEncrypt m [] => Some (send_returns i m None s)
  | AtEncrypt m (f :: fs) =>
      match Session_Encrypt (sn_session s) (plain_of f) with
      | (s', Ok c) => Some (at_pc i (AtWrite m c fs) (s <| sn_session := s' |>))
      | (s', Err e) => Some (send_returns i m (Some e) (s <| sn_session := s' |>))
      | (s', Panic) => None
      end
  | AtWrite m c fs =>
      if write_ok then Some (at_pc i (AtEncrypt m fs) (s <| sn_written ::= λ l, l ++ [c] |>))
      else Some (send_returns i m (Some "write failed"%string) s)
  | SendReturned _ _ => None
  end.

Definition sends_step (s : sends) (ev : nat * bool) : option sends :=
  pc ← sn_threads s !! ev.1; sender_step s ev.1 pc ev.2.

Fixpoint sends_run (s : sends) (evs : list (nat * bool)) : option sends :=
  match evs with
  | [] => Some s
  | ev :: evs' => s' ← sends_step s ev; sends_run s' evs'
  end.

(** One call per message, none of which has the lock. *)
Definition sends_start (session : Session) (msgs : list message) : sends :=
  MkSends None session [] [] (map AtLock msgs).

(** ** The lock *)

Definition inside (pc : sender_pc) : bool := match pc with AtEncrypt _ _ | AtWrite _ _ _ => true | _ => false end.

(** The holder is the one call inside. *)
Definition lock_inv (s : sends) : Prop :=
  (∀ j pc, sn_threads s !! j = Some pc → inside pc = true ↔ sn_holder s = Some j)
  ∧ ∀ j, sn_holder s = Some j → is_Some (sn_threads s !! j).

Lemma start_lock session msgs : lock_inv (sends_start session msgs).
Proof.
  split; [|done]. intros j pc Hj. cbn in Hj. rewrite list_lookup_fmap in Hj.
  apply fmap_Some in Hj as (m & _ & ->). done.
Qed.

(** A step of thread [i] to [pc'], which is inside exactly if it holds the lock then. *)
Lemma lock_inv_move s i pc pc' h session w o :
  lock_inv s → sn_threads s !! i = Some pc →
  (sn_holder s = None ∨ sn_holder s = Some i) → h = (if inside pc' then Some i else None) →
  lock_inv (MkSends h session w o (<[i := pc']> (sn_threads s))).
Proof.
  intros [H1 H2] Hi Hh ->. split; cbn.
  - intros j q Hj. apply list_lookup_insert_Some in Hj as [(<- & -> & _)|[Hne Hq]].
    + by destruct (inside q).
    + rewrite (H1 j q Hq). destruct Hh as [->| ->], (inside pc'); split; congruence.
  - intros j. destruct (inside pc'); [|done]. intros [= <-].
    rewrite list_lookup_insert_eq; [done|]. by eapply lookup_lt_Some.
Qed.

Lemma sends_step_lock s ev s' : lock_inv s → sends_step s ev = Some s' → lock_inv s'.
Proof.
  intros Hl. destruct ev as [i ok]. unfold sends_step. cbn [fst snd].
  destruct (sn_threads s !! i) as [pc|] eqn:Hi; [|done]. cbn [mbind option_bind].
  pose proof (proj1 Hl i pc Hi) as Hin.
  destruct pc as [m|m [|f fs]|m c fs|m err]; cbn [sender_step]; [|..|done].
  - unfold LockDataSend. destruct (sn_holder s) eqn:Eh; [done|]. cbn. intros [= <-].
    by eapply (lock_inv_move s); [..|left|].
  - intros [= <-]. eapply (lock_inv_move s); [done|done|right; by apply Hin|done].
  - destruct (Session_Encrypt _ _) as [s1 [c|e|]]; [..|done]; intros [= <-];
      (eapply (lock_inv_move s); [done|done|right; by apply Hin|]); cbn; [by apply Hin|done].
  - destruct ok; intros [= <-]; (eapply (lock_inv_move s); [done|done|right; by apply Hin|]); cbn; [by apply Hin|done].
Qed.

(** No deadlock: some call can go on until all have returned. *)
Lemma sends_not_stuck s :
  lock_inv s → (∃ pc, pc ∈ sn_threads s ∧ ∀ m err, pc ≠ SendReturned m err) → ∃ i, ∀ ok, is_Some (sends_step s (i, ok)).
Proof.
  intros [H1 H2] (pc & [j Hj]%list_elem_of_lookup & Hne). unfold sends_step. cbn [fst snd].
  destruct (sn_holder s) as [i|] eqn:Eh.
  - exists i. intros ok. destruct (H2 i eq_refl) as [q Hq]. rewrite Hq. pose proof (proj2 (H1 i q Hq) eq_refl) as Hin.
    destruct q as [|m [|f fs]|m c fs|]; try done; cbn; [|by destruct ok].
    unfold Session_Encrypt. destruct (sendCipher _); [|done]. by destruct (noise_Encrypt _ _ _) as [? []].
  - exists j. intros ok. rewrite Hj. pose proof (proj1 (H1 j pc Hj)) as Hin.
    destruct pc as [m|m fs|m c fs|m err]; cbn in Hin; [|by specialize (Hin eq_refl)..|by destruct (Hne m err)].
    cbn. unfold LockDataSend. by rewrite Eh.
Qed.

(** ** What is on the wire *)

Definition failed (pc : sender_pc) : bool := match pc with SendReturned _ (Some _) => true | _ => false end.
Definition started (pc : sender_pc) : option message :=
  match pc with AtLock _ => None | AtEncrypt m _ | AtWrite m _ _ | SendReturned m _ => Some m end.

(** The frames the holder has left, and what it has sealed and not written. *)
Definition left_of (pc : sender_pc) : list (byte * bytes) :=
  match pc with AtEncrypt _ fs | AtWrite _ _ fs => fs | _ => [] end.
Definition sealed_of (pc : sender_pc) : list bytes := match pc with AtWrite _ c _ => [c] | _ => [] end.

Definition of_holder {A} (f : sender_pc → list A) (s : sends) : list A :=
  match sn_holder s ≫= λ i, sn_threads s !! i with Some pc => f pc | None => [] end.

(** Up to the frames left, the messages whose sender got the lock have been sealed
    frame by frame, in that order; and everything sealed is written or about to be. *)
Record wire_inv (session0 : Session) (s : sends) : Prop := {
  wi_order : sn_order s ≡ₚ omap started (sn_threads s);
  wi_sealed : ∃ fsd, sn_order s ≫= message_frames = fsd ++ of_holder left_of s
    ∧ seal_all session0 (plain_of <$> fsd) = (sn_session s, Ok (sn_written s ++ of_holder sealed_of s));
}.

Lemma seal_all_snoc session0 ps p s1 cs s2 c :
  seal_all session0 ps = (s1, Ok cs) → Session_Encrypt s1 p = (s2, Ok c) → seal_all session0 (ps ++ [p]) = (s2, Ok (cs ++ [c])).
Proof.
  revert session0 cs. induction ps as [|q ps IH]; intros session0 cs; cbn [seal_all app].
  - intros [= <- <-] ->. done.
  - destruct (Session_Encrypt session0 q) as [s0 [d| |]]; try done.
    destruct (seal_all s0 ps) as [s3 [ds| |]] eqn:E; try done. intros [= -> <-] Hc. by rewrite (IH s0 ds E Hc).
Qed.

(** A call that has started stays the same message; the one that starts is added. *)
Lemma omap_started_insert (l : list sender_pc) (i : nat) pc pc' :
  l !! i = Some pc → started pc = started pc' → omap started (<[i := pc']> l) = omap started l.
Proof.
  revert i. induction l as [|x l IH]; intros [|i] Hi E; [done|done| |].
  - injection Hi as ->. cbn. by rewrite E.
  - change (<[S i := pc']> (x :: l)) with (x :: <[i := pc']> l). cbn. by rewrite (IH i Hi E).
Qed.

Lemma omap_started_lock (l : list sender_pc) (i : nat) m pc' :
  l !! i = Some (AtLock m) → started pc' = Some m → omap started (<[i := pc']> l) ≡ₚ omap started l ++ [m].
Proof.
  revert i. induction l as [|x l IH]; intros [|i] Hi E; [done|done| |].
  - injection Hi as ->. cbn. rewrite E. apply Permutation_cons_append.
  - change (<[S i := pc']> (x :: l)) with (x :: <[i := pc']> l). cbn. specialize (IH i Hi E).
    destruct (started x); cbn; [by rewrite IH|done].
Qed.

Lemma start_wire session msgs : wire_inv session (sends_start session msgs).
Proof.
  split; cbn.
  - by induction msgs.
  - by exists [].
Qed.

(** The position of the thread that steps, seen through the lock. *)
Lemma holder_here {A} (f : sender_pc → list A) s i pc : sn_threads s !! i = Some pc → sn_holder s = Some i → of_holder f s = f pc.
Proof. intros Hi Hh. unfold of_holder. rewrite Hh. cbn. by rewrite Hi. Qed.

Lemma holder_moved {A} (f : sender_pc → list A) session w o ts (i : nat) pc :
  (i < length ts)%nat → of_holder f (MkSends (Some i) session w o (<[i := pc]> ts)) = f pc.
Proof. intros Hi. unfold of_holder. cbn. by rewrite list_lookup_insert_eq. Qed.

Lemma sends_step_wire session0 s ev s' :
  lock_inv s → wire_inv session0 s → sends_step s ev = Some s' →
  wire_inv session0 s' ∨ ∃ pc, pc ∈ sn_threads s' ∧ failed pc = true.
Proof.
  intros Hl [Hord (fsd & Hfr & Hseal)]. destruct ev as [i ok]. unfold sends_step. cbn [fst snd].
  destruct (sn_threads s !! i) as [pc|] eqn:Hi; [|done]. cbn [mbind option_bind].
  pose proof (lookup_lt_Some _ _ _ Hi) as Hlt. pose proof (proj1 (proj1 Hl i pc Hi)) as Hin.
  assert (∀ q, failed q = true → q ∈ <[i := q]> (sn_threads s)) as Hbad.
  { intros q _. apply (list_elem_of_lookup_2 _ i). by apply list_lookup_insert_eq. }
  destruct pc as [m|m [|f fs]|m c fs|m err]; cbn [sender_step]; [|specialize (Hin eq_refl)..|done].
  - unfold LockDataSend. destruct (sn_holder s) eqn:Eh; [done|]. cbn. intros [= <-]. left. split.
    + cbn. rewrite omap_started_lock by done. by rewrite Hord.
    + exists fsd. unfold at_pc, set_field. cbn. rewrite !holder_moved by done. cbn [left_of sealed_of].
      unfold of_holder in Hfr, Hseal. rewrite Eh in Hfr, Hseal. cbn in Hfr, Hseal.
      rewrite bind_app, Hfr, app_nil_r. cbn. by rewrite app_nil_r.
  - intros [= <-]. left. rewrite (holder_here left_of s i _ Hi Hin) in Hfr. rewrite (holder_here sealed_of s i _ Hi Hin) in Hseal.
    split; [cbn; by rewrite (omap_started_insert _ _ _ _ Hi)|]. exists fsd. done.
  - rewrite (holder_here left_of s i _ Hi Hin) in Hfr. rewrite (holder_here sealed_of s i _ Hi Hin) in Hseal. cbn in Hfr, Hseal.
    rewrite app_nil_r in Hseal. destruct (Session_Encrypt _ _) as [s1 [c|e|]] eqn:Ee; [..|done]; intros [= <-].
    + left. split; [cbn; by rewrite (omap_started_insert _ _ _ _ Hi)|]. exists (fsd ++ [f]).
      unfold at_pc, set_field. cbn. rewrite Hin, !holder_moved by done. cbn [left_of sealed_of].
      rewrite <- app_assoc. split; [done|]. rewrite fmap_app. by eapply seal_all_snoc.
    + right. eexists. split; [by apply Hbad|done].
  - rewrite (holder_here left_of s i _ Hi Hin) in Hfr. rewrite (holder_here sealed_of s i _ Hi Hin) in Hseal. cbn in Hfr, Hseal.
    destruct ok; intros [= <-]; [left|right; eexists; split; [by apply Hbad|done]].
    split; [cbn; by rewrite (omap_started_insert _ _ _ _ Hi)|]. exists fsd. unfold at_pc, set_field. cbn.
    rewrite Hin, !holder_moved by done. cbn [left_of sealed_of]. by rewrite app_nil_r.
Qed.

(** A call that failed stays so. *)
Lemma failed_stays s ev s' pc : sends_step s ev = Some s' → pc ∈ sn_threads s → failed pc = true → pc ∈ sn_threads s'.
Proof.
  destruct ev as [i ok]. unfold sends_step. cbn [fst snd]. destruct (sn_threads s !! i) as [q|] eqn:Hi; [|done].
  cbn [mbind option_bind]. intros Hstep [j Hj]%list_elem_of_lookup Hf.
  assert (q ≠ pc → ∀ q', pc ∈ <[i := q']> (sn_threads s)) as Hkeep.
  { intros Hne q'. apply (list_elem_of_lookup_2 _ j). rewrite list_lookup_insert_ne; [done|]. intros <-. congruence. }
  destruct q as [m|m [|f fs]|m c fs|m err]; cbn [sender_step] in Hstep; [|..|done];
    [unfold LockDataSend in Hstep; destruct (sn_holder s); [done|]| |destruct (Session_Encrypt _ _) as [? [| |]]; [..|done]|destruct ok];
    injection Hstep as <-; apply Hkeep; by intros <-.
Qed.

Lemma sends_run_inv session0 evs : ∀ s s',
  lock_inv s → wire_inv session0 s ∨ (∃ pc, pc ∈ sn_threads s ∧ failed pc = true) → sends_run s evs = Some s' →
  lock_inv s' ∧ (wire_inv session0 s' ∨ ∃ pc, pc ∈ sn_threads s' ∧ failed pc = true).
Proof.
  induction evs as [|ev evs IH]; intros s s' Hl Hw; cbn [sends_run]; [by intros [= <-]|].
  destruct (sends_step s ev) as [s1|] eqn:E; [|done]. cbn. apply IH; [by eapply sends_step_lock|].
  destruct Hw as [Hw|(pc & Hin & Hf)]; [by eapply sends_step_wire|right]. exists pc. split; [|done]. by eapply failed_stays.
Qed.

Definition sent_well (pc : sender_pc) : Prop := ∃ m, pc = SendReturned m None.

(** When every call has returned without an error, the wire holds the messages, whole and one after the other. *)
Lemma sends_complete session0 msgs evs s :
  sends_run (sends_start session0 msgs) evs = Some s → Forall sent_well (sn_threads s) →
  sn_order s ≡ₚ omap started (sn_threads s)
  ∧ seal_all session0 (plain_of <$> (sn_order s ≫= message_frames)) = (sn_session s, Ok (sn_written s)).
Proof.
  intros Hrun Hall. rewrite Forall_forall in Hall.
  destruct (sends_run_inv session0 evs _ _ (start_lock session0 msgs) (or_introl (start_wire session0 msgs)) Hrun)
    as [Hl [[Hord (fsd & Hfr & Hseal)]|(pc & Hin & Hf)]]; [|by destruct (Hall pc Hin) as [m ->]].
  split; [done|]. assert (sn_holder s = None) as Hh.
  { destruct (sn_holder s) as [i|] eqn:Eh; [|done]. destruct (proj2 Hl i Eh) as [pc Hpc].
    destruct (Hall pc (list_elem_of_lookup_2 _ _ _ Hpc)) as [m ->]. pose proof (proj2 (proj1 Hl i _ Hpc) Eh). done. }
  unfold of_holder in Hfr, Hseal. rewrite Hh in Hfr, Hseal. cbn in Hfr, Hseal. rewrite app_nil_r in Hfr, Hseal. by rewrite Hfr.
Qed.

(** The messages of the calls do not change. *)
Definition message_of (pc : sender_pc) : message :=
  match pc with AtLock m | AtEncrypt m _ | AtWrite m _ _ | SendReturned m _ => m end.

Lemma sends_run_messages evs : ∀ s s', sends_run s evs = Some s' → map message_of (sn_threads s') = map message_of (sn_threads s).
Proof.
  induction evs as [|ev evs IH]; intros s s'; cbn [sends_run]; [by intros [= <-]|].
  destruct (sends_step s ev) as [s1|] eqn:E; [|done]. cbn. intros Hrun. rewrite (IH s1 s' Hrun). clear -E.
  destruct ev as [i ok]. unfold sends_step in E. cbn [fst snd] in E. destruct (sn_threads s !! i) as [q|] eqn:Hi; [|done].
  cbn [mbind option_bind] in E.
  assert (∀ q', message_of q' = message_of q → map message_of (<[i := q']> (sn_threads s)) = map message_of (sn_threads s)) as Hins.
  { intros q' Hq. change (map message_of) with (fmap (M := list) message_of). rewrite list_fmap_insert, list_insert_id; [done|].
    rewrite list_lookup_fmap, Hi. cbn. by rewrite Hq. }
  destruct q as [m|m [|f fs]|m c fs|m err]; cbn [sender_step] in E; [|..|done];
    [unfold LockDataSend in E; destruct (sn_holder s); [done|]| |destruct (Session_Encrypt _ _) as [? [| |]]; [..|done]|destruct ok];
    injection E as <-; by apply Hins.
Qed.

(** C6: concurrent sends to one peer are a FIFO channel.  However the calls of any number of goroutines interleave at the
    lock, at the sealing of each fragment and at each write: none is ever deadlocked, and when all have returned without an
    error, the other node, fed the bytes written, delivers every message exactly once (if it may be delivered), whole, in the
    order in which the calls took the peer's lock, and the sessions are in step again. *)
Theorem concurrent_sends_fifo msgs sA evs s :
  sends_run (sends_start sA msgs) evs = Some s →
  ((∃ pc, pc ∈ sn_threads s ∧ ∀ m err, pc ≠ SendReturned m err) → ∃ i, ∀ ok, is_Some (sends_step s (i, ok)))
  ∧ (Forall sent_well (sn_threads s) → ∀ path connB addr idA rA srB sB nB buf,
      linked nB addr idA rA srB sB buf → sess_synced sA sB → 8 ≤ len idA →
      ∃ nB' sB' buf', sn_order s ≡ₚ msgs
      ∧ link_receives path connB addr (concat (map (λ c, EncodeTCPFrame (data_packet c)) (sn_written s))) nB nB'
      ∧ n_log nB' = n_log nB ++ fifo_spec nB idA (sn_order s)
      ∧ linked nB' addr idA rA srB sB' buf' ∧ sess_synced (sn_session s) sB').
Proof.
  intros Hrun. split.
  - apply sends_not_stuck.
    by apply (sends_run_inv sA evs _ _ (start_lock sA msgs) (or_introl (start_wire sA msgs)) Hrun).
  - intros Hall path connB addr idA rA srB sB nB buf Hl Hsync Hid.
    destruct (sends_complete sA msgs evs s Hrun Hall) as [Hord Hseal].
    destruct (link_receives_sealed (sn_order s) path connB addr idA rA srB sA sB nB buf (sn_session s) (sn_written s))
      as (nB' & sB' & buf' & Hrecv & Hlog & Hl' & Hsync'); try done.
    exists nB', sB', buf'. split_and!; try done. rewrite Hord.
    pose proof (sends_run_messages evs _ _ Hrun) as Hm. cbn in Hm. rewrite map_map, map_id in Hm. rewrite <- Hm.
    clear -Hall. induction Hall as [|pc l [m ->] _ IH]; [done|]. cbn. by rewrite IH.
Qed.
End send_lock.

(** ** Two goroutines that send at once *)

Module SendLockWitness.
Import ToyNoise TransferWitness StreamWitness.

(** The second call takes the lock first; the first waits until it is released. *)
Definition schedule : list (nat * bool) :=
  [(1, true); (1, true); (1, true); (1, true); (0, true); (0, true); (0, true); (0, true)]%nat.

Definition both_sent : @sends toy_noise :=
  default (sends_start toy_session two_messages) (sends_run (sends_start toy_session two_messages) schedule).

Lemma both_sent_run : sends_run (sends_start toy_session two_messages) schedule = Some both_sent.
Proof.
  assert (bool_decide (is_Some (sends_run (sends_start toy_session two_messages) schedule)) = true) as H by (vm_compute; reflexivity).
  apply bool_decide_eq_true in H as [s Hs]. unfold both_sent. by rewrite Hs.
Qed.

Lemma both_sent_well : Forall sent_well (sn_threads both_sent).
Proof.
  assert (sn_threads both_sent = [SendReturned (str "chat", str "hi") None; SendReturned (str "chat", str "yo") None]) as ->
    by (vm_compute; reflexivity).
  repeat constructor; by eexists.
Qed.

Lemma both_sent_order : sn_order both_sent = [(str "chat", str "yo"); (str "chat", str "hi")].
Proof. vm_compute. reflexivity. Qed.

Opaque both_sent.

(** The receiver gets the second message first. *)
Lemma concurrent_sends_fifo_witness :
  ∃ nB' sB' buf',
    link_receives (ViaTCP 1) 1 (MkAddr AddrTCP (str "10.0.0.2:7000"))
      (concat (map (λ c, EncodeTCPFrame (data_packet c)) (sn_written both_sent))) receiver nB'
    ∧ n_log nB' = n_log receiver ++ fifo_spec receiver (str "node-aaaa") [(str "chat", str "yo"); (str "chat", str "hi")]
    ∧ linked nB' (MkAddr AddrTCP (str "10.0.0.2:7000")) (str "node-aaaa") 1 1 sB' buf' ∧ sess_synced (sn_session both_sent) sB'.
Proof.
  destruct (concurrent_sends_fifo two_messages toy_session schedule both_sent both_sent_run) as [_ H].
  destruct (H both_sent_well (ViaTCP 1) 1%positive (MkAddr AddrTCP (str "10.0.0.2:7000")) (str "node-aaaa") 1%positive 1%positive
              toy_session receiver None) as (nB' & sB' & buf' & _ & H1 & H2 & H3 & H4).
  - split; [reflexivity|reflexivity| |reflexivity]. eexists. split_and!; reflexivity.
  - exists 0, 0. split_and!; reflexivity.
  - vm_compute. congruence.
  - exists nB', sB', buf'. rewrite <- both_sent_order. exact (conj H1 (conj H2 (conj H3 H4))).
Defined.
End SendLockWitness.
