(* ===== verification/NodeLink.v ===== *)
(** * Two nodes become peers

    The three handshake messages between two nodes over a TCP connection, through
    the handlers of both: what each writes, and the state both are left in, which
    is the one the delivery of user data starts from. *)

From S2P Require Import Identity.
From S2P Require Import Prelude Protocol Stream Sha256 Session Peer RelayAuth RelayManager Metrics Reconnect.
From S2P Require Import Config NodeState NodeChannel NodeHeartbeat NodeRecv NodeHandshake NodeDiscovery.
From S2P Require Import NodeDispatch NodeTransfer.

Section link.
Context {NL : Noise} {LW : NoiseLaws NL} {W : World}.

Definition tcp_key (addr : Addr) : gostring := stateKey_of "tcp" (a_str addr).

Definition handshake_write (c : ConnRef) (msg : bytes) : effect := TCPWrite c (EncodeTCPFrame (BuildHandshakePacket msg)).

(** The node accepts another peer. *)
Definition has_room (n : Node) : Prop := MaxPeers (n_Config n) ≤ 0 ∨ PeerStore_Count (Peers n) < MaxPeers (n_Config n).

(** What a completed handshake with an unknown peer starts. *)
Definition connected_log (n : Node) (r : PeerRef) (id : gostring) : list effect :=
  [Go (TaskDiscoveryRequest r); Go (TaskSyncChannels id)]
  ++ (if has_onPeerConnected n then [Go (TaskConnected id 0)] else []).

(** The peer is linked over the TCP connection [c] with the session [s]. *)
Definition linked_tcp (n : Node) (addr : Addr) (id : gostring) (c : ConnRef) (s : Session) (r : PeerRef) : Prop :=
  ∃ p sr, peer_heap n !! r = Some p ∧ Transport p = "tcp"%string ∧ Conn p = Some c ∧ Peer_Session p = Some sr
  ∧ linked n addr id r sr s None.

Lemma registerRelayCandidate_tcp id addr n :
  a_kind addr = AddrTCP → registerRelayCandidate id addr n = Some ((), n).
Proof.
  intros Hk. unfold registerRelayCandidate. run. destruct (n_relayManager n); [|done].
  by rewrite bool_decide_true by (rewrite Hk; done).
Qed.

Lemma handle_new_peer_tcp n c addr sr s id key responded :
  a_kind addr = AddrTCP → sess_heap n !! sr = Some s → has_room n →
  ∃ n' r, handle_new_peer (Some c) addr "tcp" sr (a_str addr) id key responded n = Some ((), n')
  ∧ linked_tcp n' addr id c s r ∧ n_log n' = n_log n ++ connected_log n r id
  ∧ pendingHandshakes n' = delete key (pendingHandshakes n)
  ∧ n_Config n' = n_Config n ∧ localChannelSet n' = localChannelSet n.
Proof.
  intros Hk Hs Hroom. unfold handle_new_peer. run. cbv zeta.
  assert ((0 <? MaxPeers (n_Config n)) && (MaxPeers (n_Config n) <=? PeerStore_Count (Peers n)) = false) as Hfree.
  { apply andb_false_iff. destruct Hroom; [left; by apply Z.ltb_ge|right; by apply Z.leb_gt]. }
  match goal with |- context [if ?b then short8 id else _] => change b with
    ((0 <? MaxPeers (n_Config n)) && (MaxPeers (n_Config n) <=? PeerStore_Count (Peers n))) end.
  rewrite Hfree, now_bind. erewrite bind_run by reflexivity. run.
  rewrite (bind_run _ _ _ _ _ (registerRelayCandidate_tcp _ _ _ Hk)). run.
  rewrite bool_decide_false by done.
  assert (∀ n1 r, Peers n1 = <[id := r]> (Peers n) → addrToPeer n1 = <[a_str addr := id]> (addrToPeer n) →
    sess_heap n1 = sess_heap n → (∃ mode target now, peer_heap n1 !! r
      = Some (NewPeer id (Some addr) (a_str addr) (Some c) "tcp" mode target (Some sr) now)) →
    linked_tcp n1 addr id c s r) as Hlinked.
  { intros n1 r1 E1 E2 E3 (mode & target & now & Hp). eexists _, sr. split; [done|]. split_and!; try done.
    split; [by rewrite E2, lookup_insert_eq|by rewrite E1, lookup_insert_eq| |by rewrite E3]. eauto. }
  unfold connected_log. destruct (has_onPeerConnected n); (eexists _, _; split; [reflexivity|]);
    (split; [apply Hlinked; try reflexivity; do 3 eexists; apply lookup_insert_eq|]);
    (split_and!; [cbn; by rewrite <- ?app_assoc|reflexivity..]).
Qed.

Lemma node_log_nil n : n <| n_log ::= λ l, l ++ [] |> = n.
Proof. destruct n. unfold set_field. cbn. by rewrite app_nil_r. Qed.

Lemma sendRaw_tcp c addr packet n :
  ∃ err, sendRaw (Some c) (Some addr) "tcp" packet n
  = Some (err, n <| n_log ::= λ l, l ++ [TCPWrite c (EncodeTCPFrame packet)] |>).
Proof. unfold sendRaw, writeTCPPacket. rewrite bool_decide_true by done. eexists. reflexivity. Qed.

(** A message that is answered but does not complete the handshake. *)
Lemma processHandshake_reply n n1 c addr h h' payload m :
  get_or_create_handshake (tcp_key addr) n = Some (Some h, n1) → ProcessMessage h payload = (h', Ok (Some m, None)) →
  processHandshake (Some c) addr "tcp" payload n
  = Some ((), n1 <| pendingHandshakes ::= <[tcp_key addr := h']> |> <| n_log ::= λ l, l ++ [handshake_write c m] |>).
Proof.
  intros Hg Hm. unfold processHandshake. cbv zeta. fold (tcp_key addr). rewrite (bind_run _ _ _ _ _ Hg), Hm, modify_bind.
  match goal with |- context [sendRaw _ _ _ ?packet ≫= _] =>
    match goal with |- context [(_ ≫= _) ?n2] => destruct (sendRaw_tcp c addr packet n2) as [err Hs] end end.
  erewrite bind_run by (by rewrite (bind_run _ _ _ _ _ Hs)). done.
Qed.

(** A message that completes it with an unknown peer. *)
Lemma processHandshake_complete n n1 c addr h h' payload m s :
  a_kind addr = AddrTCP → has_room n1 →
  get_or_create_handshake (tcp_key addr) n = Some (Some h, n1) → ProcessMessage h payload = (h', Ok (m, Some s)) →
  Peers n1 !! peerID_of_key (RemotePublicKey s) = None →
  ∃ n' r, processHandshake (Some c) addr "tcp" payload n = Some ((), n')
  ∧ linked_tcp n' addr (peerID_of_key (RemotePublicKey s)) c s r
  ∧ n_log n' = n_log n1 ++ map (handshake_write c) (option_list m)
                 ++ connected_log n1 r (peerID_of_key (RemotePublicKey s))
  ∧ pendingHandshakes n' !! tcp_key addr = None
  ∧ n_Config n' = n_Config n1 ∧ localChannelSet n' = localChannelSet n1.
Proof.
  intros Hk Hroom Hg Hm Hnew. unfold processHandshake. cbv zeta. fold (tcp_key addr).
  rewrite (bind_run _ _ _ _ _ Hg), Hm, modify_bind.
  set (id := peerID_of_key _) in *. set (n2 := n1 <| pendingHandshakes ::= _ |>).
  assert (∃ n3, (match m with
     | Some msg => _ ← sendRaw (Some c) (Some addr) "tcp" (BuildHandshakePacket msg); mret ()
     | None => mret () end) n2 = Some ((), n3) ∧ n3 = n2 <| n_log ::= λ l, l ++ map (handshake_write c) (option_list m) |>)
    as (n3 & Hsend & En3).
  { destruct m as [msg|]; cbn.
    - destruct (sendRaw_tcp c addr (BuildHandshakePacket msg) n2) as [err Hs].
      eexists. by rewrite (bind_run _ _ _ _ _ Hs).
    - eexists. split; [done|]. by rewrite node_log_nil. }
  rewrite (bind_run _ _ _ _ _ Hsend). erewrite bind_run by reflexivity. rewrite get_peer_bind.
  subst n3. cbn [Peers]. match goal with |- context [Peers ?n4 !! id] => change (Peers n4) with (Peers n1); set (n5 := n4) end.
  rewrite Hnew.
  destruct (handle_new_peer_tcp n5 c addr (fresh (dom (sess_heap n1))) s id (tcp_key addr) (bool_decide (is_Some m)))
    as (n' & r & Hrun & Hl & Hlog & Hp & Hc & Hch); [done|apply lookup_insert_eq|done|].
  exists n', r. split; [done|]. split; [done|]. rewrite Hlog, Hp, lookup_delete_eq, Hc, Hch.
  split_and!; try done. cbn. by rewrite <- app_assoc.
Qed.

Lemma pending_found key h n : pendingHandshakes n !! key = Some h → get_or_create_handshake key n = Some (Some h, n).
Proof. intros H. unfold get_or_create_handshake. rewrite get_bind. by rewrite H. Qed.

(** The responder side of a node that is about to be called. *)
Definition responder_of (n : Node) : res HandshakeState :=
  NewResponderHandshake (NoisePrivateKey (n_Identity n)) (NoisePublicKey (n_Identity n)) (NetworkPassword (n_Config n))
    (entropy (n_draws n)) (Unix (clock (n_ticks n))).

Lemma pending_created key h n :
  pendingHandshakes n !! key = None → responder_of n = Ok h →
  get_or_create_handshake key n
  = Some (Some h, n <| n_draws ::= S |> <| n_ticks ::= S |> <| pendingHandshakes ::= <[key := h]> |>).
Proof.
  intros H Hr. unfold get_or_create_handshake. rewrite get_bind, H, draw_bind, now_bind.
  change (NewResponderHandshake _ _ _ _ _) with (responder_of n). by rewrite Hr.
Qed.

Definition node_peerID (n : Node) : gostring := peerID_of_key (NoisePublicKey (n_Identity n)).

Lemma subslice_whole {A} (l : list A) n : len l = n → subslice l 0 n = l.
Proof. intros <-. unfold subslice. rewrite Z.sub_0_r. cbn [Z.to_nat drop]. apply take_ge. rewrite length_len. lia. Qed.

(** The public key belongs to the private key. *)
Definition good_keys (i : Identity) : Prop :=
  len (NoisePublicKey i) = 32 ∧ key_pair (NoisePrivateKey i) (NoisePublicKey i).

(** Every identity the program makes or loads has such keys: [curve25519.ScalarBaseMult]
    is what the noise package computes public keys with. *)
Lemma identity_good_keys `{!Ed25519, !Curve25519, !KeyLaws} i :
  (∀ k, ScalarBaseMult k = dh_public k) → identity_wf i → good_keys i.
Proof.
  intros Hdh Hwf. destruct (identity_wf_shape i Hwf) as (Hl & _ & Hp & Hn & Hl32 & _). split; [done|]. unfold key_pair.
  rewrite subslice_whole by done. rewrite subslice_whole; [by rewrite Hn, Hdh|].
  rewrite Hp. change 32%nat with (Z.to_nat 32). rewrite len_take by lia. lia.
Qed.

(** The three messages through the handlers of both nodes. *)
Lemma handshake_exchange nA nB cA cB addrA addrB rnd t hI m1 hR :
  a_kind addrA = AddrTCP → a_kind addrB = AddrTCP →
  good_keys (n_Identity nA) → good_keys (n_Identity nB) →
  NewInitiatorHandshake (NoisePrivateKey (n_Identity nA)) (NoisePublicKey (n_Identity nA))
    (NetworkPassword (n_Config nA)) rnd t = Ok (hI, m1) →
  pendingHandshakes nA !! tcp_key addrB = Some hI →
  NetworkPassword (n_Config nB) = NetworkPassword (n_Config nA) →
  pendingHandshakes nB !! tcp_key addrA = None → responder_of nB = Ok hR →
  has_room nA → has_room nB → Peers nA !! node_peerID nB = None → Peers nB !! node_peerID nA = None →
  ∃ m2 m3 nB1 nA' nB' sA sB rA rB,
    (processHandshake (Some cB) addrA "tcp" m1 nB = Some ((), nB1) ∧ n_log nB1 = n_log nB ++ [handshake_write cB m2])
    ∧ (processHandshake (Some cA) addrB "tcp" m2 nA = Some ((), nA')
       ∧ n_log nA' = n_log nA ++ handshake_write cA m3 :: connected_log nA rB (node_peerID nB))
    ∧ (processHandshake (Some cB) addrA "tcp" m3 nB1 = Some ((), nB')
       ∧ n_log nB' = n_log nB1 ++ connected_log nB rA (node_peerID nA))
    ∧ (linked_tcp nA' addrB (node_peerID nB) cA sA rB ∧ linked_tcp nB' addrA (node_peerID nA) cB sB rA)
    ∧ (sess_synced sA sB ∧ sess_synced sB sA)
    ∧ pendingHandshakes nA' !! tcp_key addrB = None ∧ pendingHandshakes nB' !! tcp_key addrA = None.
Proof.
  intros HkA HkB [HlA KA] [HlB KB] HI HpA Hpw HpB HR HroomA HroomB HnewA HnewB.
  pose proof HR as HR'. unfold responder_of in HR'. rewrite Hpw in HR'.
  destruct (handshake_messages _ _ _ _ _ _ _ _ _ _ _ _ KA KB (entropy_len _) HI HR')
    as (m2 & m3 & hR1 & hI' & hR' & sI & sR & E1 & E2 & E3 & Hs1 & Hs2 & K1 & K2 & _).
  rewrite subslice_whole in K1 by done. rewrite subslice_whole in K2 by done.
  pose proof (processHandshake_reply nB _ cB addrA hR hR1 m1 m2 (pending_created _ _ _ HpB HR) E1) as HB1.
  set (nB1 := _ <| n_log ::= _ |>) in HB1.
  destruct (processHandshake_complete nA nA cA addrB hI hI' m2 (Some m3) sI)
    as (nA' & rB & HrunA & HlinkA & HlogA & HpendA & _); try done; [by apply pending_found|by rewrite K1|].
  destruct (processHandshake_complete nB1 nB1 cB addrA hR1 hR' m3 None sR)
    as (nB' & rA & HrunB & HlinkB & HlogB & HpendB & _); try done;
    [by apply pending_found, lookup_insert_eq|by rewrite K2|].
  rewrite K1 in HlinkA, HlogA. rewrite K2 in HlinkB, HlogB.
  exists m2, m3, nB1, nA', nB', sI, sR, rA, rB. by split_and!.
Qed.

(** C2: Two nodes of one network become peers over TCP.  Both nodes' public keys belong
    to their private keys, as those of every identity of the program do
    ([identity_good_keys]); neither knows the other, both have room.  Node A dialled B and holds the
    initiator's state; the three handshake messages go through the packet
    handlers of both.  B answers the first, A answers the second and records B
    under the identifier derived from B's key, B records A on the third; both
    start discovery and channel synchronisation and tell the application, neither
    keeps a pending handshake, and each session opens what the other seals: the
    state from which user data is delivered both ways. *)
Theorem node_handshake nA nB cA cB addrA addrB rnd t hI m1 hR :
  a_kind addrA = AddrTCP → a_kind addrB = AddrTCP →
  good_keys (n_Identity nA) → good_keys (n_Identity nB) →
  NewInitiatorHandshake (NoisePrivateKey (n_Identity nA)) (NoisePublicKey (n_Identity nA))
    (NetworkPassword (n_Config nA)) rnd t = Ok (hI, m1) →
  pendingHandshakes nA !! tcp_key addrB = Some hI →
  NetworkPassword (n_Config nB) = NetworkPassword (n_Config nA) →
  pendingHandshakes nB !! tcp_key addrA = None → responder_of nB = Ok hR →
  has_room nA → has_room nB → Peers nA !! node_peerID nB = None → Peers nB !! node_peerID nA = None →
  ∃ m2 m3 nB1 nA' nB' sA sB rA rB,
    (processHandshake (Some cB) addrA "tcp" m1 nB = Some ((), nB1) ∧ n_log nB1 = n_log nB ++ [handshake_write cB m2])
    ∧ (processHandshake (Some cA) addrB "tcp" m2 nA = Some ((), nA')
       ∧ n_log nA' = n_log nA ++ handshake_write cA m3 :: connected_log nA rB (node_peerID nB))
    ∧ (processHandshake (Some cB) addrA "tcp" m3 nB1 = Some ((), nB')
       ∧ n_log nB' = n_log nB1 ++ connected_log nB rA (node_peerID nA))
    ∧ (linked_tcp nA' addrB (node_peerID nB) cA sA rB ∧ linked_tcp nB' addrA (node_peerID nA) cB sB rA)
    ∧ (sess_synced sA sB ∧ sess_synced sB sA)
    ∧ pendingHandshakes nA' !! tcp_key addrB = None ∧ pendingHandshakes nB' !! tcp_key addrA = None.
Proof. apply handshake_exchange. Qed.

End link.

Module LinkWitness.
Import ToyNoise TransferWitness.

(** A node of the network "pw" that knows nobody. *)
Definition lone_node (own : byte) (pending : gmap gostring HandshakeState) : Node :=
  demo_node own [] toy_session (str "chat") <| Peers := ∅ |> <| peer_heap := ∅ |> <| sess_heap := ∅ |>
    <| addrToPeer := ∅ |> <| pendingHandshakes := pending |>.

Definition addr_a : Addr := MkAddr AddrTCP (str "10.0.0.1:7000").
Definition addr_b : Addr := MkAddr AddrTCP (str "10.0.0.2:7000").

Definition dialled : HandshakeState :=
  MkHandshake (toy_advance (MkToyHS true 0 (prologue_of (str "pw")) (key x0a) []) []) true false 7.

Lemma node_handshake_witness :
  let nA := lone_node x0a {[ tcp_key addr_b := dialled ]} in
  let nB := lone_node x0b ∅ in
  ∃ m2 m3 nB1 nA' nB' sA sB rA rB,
    (processHandshake (Some 1%positive) addr_a "tcp" [x01] nB = Some ((), nB1)
     ∧ n_log nB1 = n_log nB ++ [handshake_write 1 m2])
    ∧ (processHandshake (Some 1%positive) addr_b "tcp" m2 nA = Some ((), nA')
       ∧ n_log nA' = n_log nA ++ handshake_write 1 m3 :: connected_log nA rB (node_peerID nB))
    ∧ (processHandshake (Some 1%positive) addr_a "tcp" m3 nB1 = Some ((), nB')
       ∧ n_log nB' = n_log nB1 ++ connected_log nB rA (node_peerID nA))
    ∧ (linked_tcp nA' addr_b (node_peerID nB) 1 sA rB ∧ linked_tcp nB' addr_a (node_peerID nA) 1 sB rA)
    ∧ (sess_synced sA sB ∧ sess_synced sB sA)
    ∧ pendingHandshakes nA' !! tcp_key addr_b = None ∧ pendingHandshakes nB' !! tcp_key addr_a = None.
Proof.
  intros nA nB. eapply (node_handshake nA nB 1 1 addr_a addr_b [] 7 dialled [x01]);
    [reflexivity|reflexivity|split; reflexivity|split; reflexivity|reflexivity|apply lookup_singleton_eq|reflexivity
    |apply lookup_empty|reflexivity| | |apply lookup_empty|apply lookup_empty].
  - right. vm_compute. reflexivity.
  - right. vm_compute. reflexivity.
Defined.

End LinkWitness.
