(* ===== verification/NodeRelink.v ===== *)
(** * A handshake between nodes that are peers already

    When packets no longer open, a node runs the fast re-handshake over the link
    it has.  This file follows it through the handlers of both nodes: the link
    stays, both sides get new sessions that fit each other, and the old ones are
    closed. *)

From S2P Require Import Identity.
From S2P Require Import Prelude Protocol Stream Sha256 Session Peer RelayAuth RelayManager Metrics Reconnect.
From S2P Require Import Config NodeState NodeChannel NodeHeartbeat NodeRecv NodeHandshake NodeDiscovery.
From S2P Require Import NodeDispatch NodeTransfer NodeLink.

(** [run] through nested sequences. *)
Ltac run_assoc := repeat first [rewrite bind_assoc | progress autorewrite with run | progress cbv beta iota].

Section relink.
Context {NL : Noise} {LW : NoiseLaws NL} {W : World}.

(** The peer [id] is linked over the TCP connection [c] with the session [s] at
    [sr], and has [buf] in its reassembly buffer. *)
Definition tcp_link (n : Node) (addr : Addr) (id : gostring) (c : ConnRef) (r : PeerRef) (sr : SessRef) (s : Session)
    (buf : option bytes) : Prop :=
  linked n addr id r sr s buf
  ∧ ∃ p, peer_heap n !! r = Some p ∧ Peer_Addr p = Some addr ∧ Transport p = "tcp"%string ∧ Conn p = Some c.

Lemma tcp_link_frame n n' addr id c r sr s buf :
  addrToPeer n' = addrToPeer n → Peers n' = Peers n → sess_heap n' = sess_heap n →
  (∃ f, (∀ p, Peer_Session (f p) = Peer_Session p ∧ ReassemblyBuffer (f p) = ReassemblyBuffer p
              ∧ Peer_Addr (f p) = Peer_Addr p ∧ Transport (f p) = Transport p ∧ Conn (f p) = Conn p)
     ∧ ∀ p, peer_heap n !! r = Some p → peer_heap n' !! r = Some (f p)) →
  tcp_link n addr id c r sr s buf → tcp_link n' addr id c r sr s buf.
Proof.
  intros E1 E2 E3 (f & Hf & E4) [[Ha Hp (p & Hh & Hs & Hb) Hss] (p' & Hp' & A & T & C)]. simplify_eq.
  destruct (Hf p) as (F1 & F2 & F3 & F4 & F5). split; [split|].
  - by rewrite E1.
  - by rewrite E2.
  - exists (f p). rewrite (E4 p Hh). split; [done|]. split; congruence.
  - by rewrite E3.
  - exists (f p). rewrite (E4 p Hh). split; [done|]. split_and!; congruence.
Qed.

(** ** The handler for a known peer *)

(** The link mode may change on the way; nothing else of the link does. *)
Lemma link_mode_run n r p addrStr :
  peer_heap n !! r = Some p →
  ∃ n1 p1, (match relayPendingTarget n !! addrStr with
     | Some target =>
         _ ← update_peer r (λ p, SetLinkMode p "relay" (Some target));
         modify (λ n, n <| relayPendingTarget ::= delete addrStr |>)
     | None =>
         if bool_decide (addrStr ∈ relayInbound n) then
           _ ← update_peer r (λ p, SetLinkMode p "relay" None);
           modify (λ n, n <| relayInbound ::= λ s, s ∖ {[addrStr]} |>)
         else mret ()
     end) n = Some ((), n1)
  ∧ (p1 = p ∨ ∃ t, p1 = SetLinkMode p "relay" t) ∧ peer_heap n1 !! r = Some p1
  ∧ sess_heap n1 = sess_heap n ∧ addrToPeer n1 = addrToPeer n ∧ Peers n1 = Peers n ∧ n_log n1 = n_log n
  ∧ pendingHandshakes n1 = pendingHandshakes n ∧ n_relayManager n1 = n_relayManager n.
Proof.
  intros Hp. destruct (relayPendingTarget n !! addrStr) as [t|].
  - rewrite (update_peer_bind r _ p) by done. eexists _, _. split; [reflexivity|].
    split; [right; by exists (Some t)|]. cbn. rewrite lookup_insert_eq. by split_and!.
  - case_bool_decide.
    + rewrite (update_peer_bind r _ p) by done. eexists _, _. split; [reflexivity|].
      split; [right; by exists None|]. cbn. rewrite lookup_insert_eq. by split_and!.
    + exists n, p. split_and!; try done. by left.
Qed.

(** The same connection with a new session: only the old session is closed. *)
Lemma UpgradeTransport_same_conn p addr c sr0 sr now :
  Transport p = "tcp"%string → Conn p = Some c → Peer_Session p = Some sr0 → sr0 ≠ sr →
  UpgradeTransport p (Some addr) (Some c) "tcp" (Some sr) now
  = (reset_rehandshake (p <| Peer_Addr := Some addr |> <| Conn := Some c |> <| Transport := "tcp"%string |>
       <| Peer_Session := Some sr |> <| LastSeen := now |>), [CloseSession sr0]).
Proof.
  intros HT HC HS Hne. unfold UpgradeTransport. rewrite HT, HC, HS.
  rewrite (bool_decide_false ("tcp"%string ≠ _)), andb_false_r by naive_solver.
  rewrite (bool_decide_false (Some c ≠ _)) by naive_solver. cbn [andb].
  by rewrite bool_decide_true by congruence.
Qed.

Lemma handleExistingPeer_tcp n c addr id key r sr0 s0 buf sr s :
  a_kind addr = AddrTCP → tcp_link n addr id c r sr0 s0 buf → sr0 ≠ sr → sess_heap n !! sr = Some s →
  ∃ n', handleExistingPeer r (Some c) addr "tcp" sr (a_str addr) id key n = Some ((), n')
  ∧ tcp_link n' addr id c r sr s buf
  ∧ sess_heap n' !! sr0 = Some (Session_Close s0).1
  ∧ Peers n' = Peers n ∧ n_log n' = n_log n ∧ pendingHandshakes n' = delete key (pendingHandshakes n).
Proof.
  intros Hk [[Ha Hr (p & Hp & Hps & Hb) Hs0] (p' & Hp' & A & T & C)] Hne Hs. simplify_eq.
  unfold handleExistingPeer. rewrite (peer_of_bind r p), bool_decide_true by done.
  rewrite (bool_decide_false (Transport p ≠ _)) by (rewrite T; naive_solver). cbn [andb]. rewrite get_bind.
  destruct (link_mode_run n r p (a_str addr) Hp) as (n1 & p1 & Hrun & Hp1 & Hh1 & E2 & E3 & E4 & E5 & E6 & E7).
  rewrite (bind_run _ _ _ _ _ Hrun), modify_bind, now_bind.
  assert (Transport p1 = "tcp"%string ∧ Conn p1 = Some c ∧ Peer_Session p1 = Some sr0
    ∧ ReassemblyBuffer p1 = ReassemblyBuffer p) as (T1 & C1 & S1 & B1) by (by destruct Hp1 as [->|[t ->]]).
  rewrite (on_peer_bind r _ p1) by (cbn; done). rewrite UpgradeTransport_same_conn with (sr0 := sr0) by done.
  cbn [fst snd]. erewrite bind_run by reflexivity. rewrite now_bind.
  rewrite (update_peer_bind r _ (reset_rehandshake (p1 <| Peer_Addr := Some addr |> <| Conn := Some c |>
    <| Transport := "tcp"%string |> <| Peer_Session := Some sr |> <| LastSeen := clock (n_ticks n1) |>)))
    by (cbn; apply lookup_insert_eq).
  rewrite (registerRelayCandidate_tcp _ _ _ Hk).
  eexists. split; [reflexivity|]. split_and!; cbn; try congruence.
  - split; [split|]; cbn.
    + by rewrite E3.
    + by rewrite E4.
    + eexists. rewrite lookup_insert_eq. split; [done|]. split; [done|]. cbn. congruence.
    + rewrite E2. unfold heap_close. by rewrite lookup_alter_ne.
    + eexists. rewrite lookup_insert_eq. split; [done|]. by split_and!.
  - rewrite E2. unfold heap_close. rewrite lookup_alter_eq. by rewrite Hs0.
Qed.

(** A message that completes a handshake with a known peer. *)
Lemma processHandshake_known n n1 c addr h h' payload m s r sr0 s0 buf :
  a_kind addr = AddrTCP →
  get_or_create_handshake (tcp_key addr) n = Some (Some h, n1) → ProcessMessage h payload = (h', Ok (m, Some s)) →
  tcp_link n1 addr (peerID_of_key (RemotePublicKey s)) c r sr0 s0 buf →
  ∃ n' sr, processHandshake (Some c) addr "tcp" payload n = Some ((), n')
  ∧ tcp_link n' addr (peerID_of_key (RemotePublicKey s)) c r sr s buf
  ∧ sess_heap n' !! sr0 = Some (Session_Close s0).1
  ∧ Peers n' = Peers n1 ∧ n_log n' = n_log n1 ++ map (handshake_write c) (option_list m)
  ∧ pendingHandshakes n' !! tcp_key addr = None.
Proof.
  intros Hk Hg Hm Hlink. unfold processHandshake. cbv zeta. fold (tcp_key addr).
  rewrite (bind_run _ _ _ _ _ Hg), Hm, modify_bind.
  set (id := peerID_of_key _) in *. set (n2 := n1 <| pendingHandshakes ::= _ |>).
  assert (∃ n3, (match m with
     | Some msg => _ ← sendRaw (Some c) (Some addr) "tcp" (BuildHandshakePacket msg); mret ()
     | None => mret () end) n2 = Some ((), n3) ∧ n3 = n2 <| n_log ::= λ l, l ++ map (handshake_write c) (option_list m) |>)
    as (n3 & Hsend & En3).
  { destruct m as [msg|]; cbn.
    - destruct (sendRaw_tcp c addr (BuildHandshakePacket msg) n2) as [err Hs].
      eexists. by rewrite (bind_run _ _ _ _ _ Hs).
    - eexists. split; [done|]. by rewrite node_log_nil. }
  rewrite (bind_run _ _ _ _ _ Hsend). subst n3. set (sr := fresh (dom (sess_heap n1))).
  assert (sess_heap n1 !! sr = None) as Hfresh by (apply not_elem_of_dom, is_fresh).
  destruct Hlink as [[Ha Hr Hh Hs0] Hp]. assert (sr0 ≠ sr) as Hne by congruence.
  erewrite bind_run by reflexivity. rewrite get_peer_bind. cbn [Peers]. fold sr.
  match goal with |- context [Peers ?n4 !! id] => change (Peers n4) with (Peers n1); set (n5 := n4) end. rewrite Hr.
  destruct (handleExistingPeer_tcp n5 c addr id (tcp_key addr) r sr0 s0 buf sr s) as (n' & Hrun & Hl & Hold & Hps & Hlog & Hpend).
  - done.
  - split; [split|]; try done. cbn. by rewrite lookup_insert_ne.
  - done.
  - cbn. apply lookup_insert_eq.
  - exists n', sr. split; [exact Hrun|]. split; [done|]. split; [done|]. split; [done|]. split; [done|].
    by rewrite Hpend, lookup_delete_eq.
Qed.

(** ** The fast re-handshake *)

(** The initiator's state a node would create now. *)
Definition initiator_of (n : Node) : res (HandshakeState * bytes) :=
  NewInitiatorHandshake (NoisePrivateKey (n_Identity n)) (NoisePublicKey (n_Identity n)) (NetworkPassword (n_Config n))
    (entropy (n_draws n)) (Unix (clock (n_ticks n))).

Lemma run_rehandshake_tcp n addr id c r sr s buf h m1 :
  tcp_link n addr id c r sr s buf → n_closing n = false → initiator_of n = Ok (h, m1) →
  pendingHandshakes n !! tcp_key addr = None → (∀ l e, io_ok l e = true) →
  ∃ n', run_rehandshake id r n = Some ((), n') ∧ tcp_link n' addr id c r sr s buf
  ∧ n_log n' = n_log n ++ [handshake_write c m1; Go (TaskExpireHandshake (tcp_key addr))]
  ∧ pendingHandshakes n' = <[tcp_key addr := h]> (pendingHandshakes n)
  ∧ Peers n' = Peers n ∧ n_Identity n' = n_Identity n ∧ n_Config n' = n_Config n ∧ sess_heap n' = sess_heap n.
Proof.
  intros Hl Hc Hi Hpend Hio. pose proof Hl as [_ (p & Hp & A & T & C)].
  unfold run_rehandshake. rewrite get_bind, Hc. unfold sendFastRehandshake. run_assoc.
  rewrite (peer_of_bind r p) by done.
  unfold GetTransportInfo. rewrite A, T, C. rewrite (bool_decide_false ("tcp"%string ≠ "tcp"%string)) by naive_solver.
  cbn [andb]. run_assoc.
  match goal with |- context [match NewInitiatorHandshake ?a ?b ?c ?d ?e with _ => _ end] =>
    change (NewInitiatorHandshake a b c d e) with (initiator_of n) end. rewrite Hi. run_assoc.
  fold (tcp_key addr).
  match goal with |- context [pendingHandshakes ?n1 !! _] => change (pendingHandshakes n1) with (pendingHandshakes n) end.
  rewrite bool_decide_false by (rewrite Hpend; by intros []). run_assoc.
  unfold sendRaw, writeTCPPacket. rewrite bool_decide_true by done. cbv zeta. run_assoc. rewrite Hio. run_assoc.
  rewrite (update_peer_bind r _ p) by done. rewrite count_bind.
  erewrite update_peer_run by (cbn; apply lookup_insert_eq).
  eexists. split; [reflexivity|]. split_and!; try reflexivity.
  - revert Hl. apply tcp_link_frame; try reflexivity.
    exists (λ p, EndRehandshake (RecordRehandshakeSuccess p (clock (S (n_ticks n))) (FastRehandshakeBaseBackoff (n_Config n)))).
    split; [done|]. intros q Hq. simplify_eq. cbn. by rewrite lookup_insert_eq.
  - cbn. by rewrite <- app_assoc.
Qed.

(** C8: The fast re-handshake repairs a TCP link.  Two nodes, each with keys that belong
    together, are peers over a TCP connection on which writes succeed, with whatever sessions (for example sessions that no longer fit
    each other).  The goroutine started on A after too many packets failed to open
    sends the first message; the handlers of both nodes exchange the other two.
    After that both have new sessions, each of which opens what the other seals,
    under the same identifiers, peers, addresses and connection; a message that was
    being reassembled is kept, the old sessions are closed, no peer is added or
    removed, and no handshake is left pending. *)
Theorem fast_rehandshake_repairs nA nB cA cB addrA addrB rA rB srA srB sA0 sB0 bufA bufB hI m1 hR :
  a_kind addrA = AddrTCP → a_kind addrB = AddrTCP →
  good_keys (n_Identity nA) → good_keys (n_Identity nB) →
  NetworkPassword (n_Config nB) = NetworkPassword (n_Config nA) →
  tcp_link nA addrB (node_peerID nB) cA rB srA sA0 bufA → tcp_link nB addrA (node_peerID nA) cB rA srB sB0 bufB →
  n_closing nA = false → initiator_of nA = Ok (hI, m1) → responder_of nB = Ok hR →
  pendingHandshakes nA !! tcp_key addrB = None → pendingHandshakes nB !! tcp_key addrA = None →
  (∀ l e, io_ok l e = true) →
  ∃ m2 m3 nA1 nB1 nA' nB' sA sB srA' srB',
    (run_rehandshake (node_peerID nB) rB nA = Some ((), nA1)
     ∧ n_log nA1 = n_log nA ++ [handshake_write cA m1; Go (TaskExpireHandshake (tcp_key addrB))])
    ∧ (processHandshake (Some cB) addrA "tcp" m1 nB = Some ((), nB1) ∧ n_log nB1 = n_log nB ++ [handshake_write cB m2])
    ∧ (processHandshake (Some cA) addrB "tcp" m2 nA1 = Some ((), nA') ∧ n_log nA' = n_log nA1 ++ [handshake_write cA m3])
    ∧ (processHandshake (Some cB) addrA "tcp" m3 nB1 = Some ((), nB') ∧ n_log nB' = n_log nB1)
    ∧ (tcp_link nA' addrB (node_peerID nB) cA rB srA' sA bufA ∧ tcp_link nB' addrA (node_peerID nA) cB rA srB' sB bufB)
    ∧ (sess_synced sA sB ∧ sess_synced sB sA)
    ∧ (sess_heap nA' !! srA = Some (Session_Close sA0).1 ∧ sess_heap nB' !! srB = Some (Session_Close sB0).1)
    ∧ (Peers nA' = Peers nA ∧ Peers nB' = Peers nB)
    ∧ pendingHandshakes nA' !! tcp_key addrB = None ∧ pendingHandshakes nB' !! tcp_key addrA = None.
Proof.
  intros HkA HkB [HlA KA] [HlB KB] Hpw HlinkA HlinkB Hcl HI HR HpA HpB Hio.
  pose proof HI as HI'. unfold initiator_of in HI'. pose proof HR as HR'. unfold responder_of in HR'. rewrite Hpw in HR'.
  destruct (handshake_messages _ _ _ _ _ _ _ _ _ _ _ _ KA KB (entropy_len _) HI' HR')
    as (m2 & m3 & hR1 & hI' & hR' & sI & sR & E1 & E2 & E3 & Hs1 & Hs2 & K1 & K2 & _).
  rewrite subslice_whole in K1 by done. rewrite subslice_whole in K2 by done.
  destruct (run_rehandshake_tcp nA addrB (node_peerID nB) cA rB srA sA0 bufA hI m1)
    as (nA1 & HrunA1 & HlinkA1 & HlogA1 & HpendA1 & HpeersA1 & _ & _ & _); try done.
  pose proof (processHandshake_reply nB _ cB addrA hR hR1 m1 m2 (pending_created _ _ _ HpB HR) E1) as HB1.
  set (nB1 := _ <| n_log ::= _ |>) in HB1.
  destruct (processHandshake_known nA1 nA1 cA addrB hI hI' m2 (Some m3) sI rB srA sA0 bufA)
    as (nA' & srA' & HrunA & HlinkA' & HoldA & HpA' & HlogA & HpendA); try done.
  { apply pending_found. by rewrite HpendA1, lookup_insert_eq. }
  { by rewrite K1. }
  destruct (processHandshake_known nB1 nB1 cB addrA hR1 hR' m3 None sR rA srB sB0 bufB)
    as (nB' & srB' & HrunB & HlinkB' & HoldB & HpB' & HlogB & HpendB); try done.
  { by apply pending_found, lookup_insert_eq. }
  { rewrite K2. revert HlinkB. apply tcp_link_frame; try reflexivity. exists id. by split. }
  rewrite K1 in HlinkA'. rewrite K2 in HlinkB'. cbn in HlogB. rewrite app_nil_r in HlogB.
  exists m2, m3, nA1, nB1, nA', nB', sI, sR, srA', srB'. split_and!; try done. congruence.
Qed.

End relink.

Module RelinkWitness.
Import ToyNoise TransferWitness LinkWitness.

(** A node whose only peer is the node with the key of [other]. *)
Definition paired_node (own other : byte) (addr : Addr) : Node :=
  demo_node own (peerID_of_key (key other)) toy_session (str "chat")
    <| Peers := {[ peerID_of_key (key other) := 1%positive ]} |>
    <| addrToPeer := {[ a_str addr := peerID_of_key (key other) ]} |>
    <| peer_heap := {[ 1%positive := NewPeer (peerID_of_key (key other)) (Some addr) (a_str addr) (Some 1%positive) "tcp" "p2p"
                         None (Some 1%positive) 0 ]} |>.

Lemma paired_node_linked own other addr :
  tcp_link (paired_node own other addr) addr (peerID_of_key (key other)) 1 1 1 toy_session None.
Proof.
  split; [split|]; cbn.
  - apply lookup_singleton_eq.
  - apply lookup_singleton_eq.
  - eexists. rewrite lookup_singleton_eq. by split_and!.
  - apply lookup_singleton_eq.
  - eexists. rewrite lookup_singleton_eq. by split_and!.
Qed.

Lemma fast_rehandshake_repairs_witness :
  let nA := paired_node x0a x0b addr_b in
  let nB := paired_node x0b x0a addr_a in
  ∃ m2 m3 nA1 nB1 nA' nB' sA sB srA' srB',
    (run_rehandshake (node_peerID nB) 1 nA = Some ((), nA1)
     ∧ n_log nA1 = n_log nA ++ [handshake_write 1 [x01]; Go (TaskExpireHandshake (tcp_key addr_b))])
    ∧ (processHandshake (Some 1%positive) addr_a "tcp" [x01] nB = Some ((), nB1) ∧ n_log nB1 = n_log nB ++ [handshake_write 1 m2])
    ∧ (processHandshake (Some 1%positive) addr_b "tcp" m2 nA1 = Some ((), nA') ∧ n_log nA' = n_log nA1 ++ [handshake_write 1 m3])
    ∧ (processHandshake (Some 1%positive) addr_a "tcp" m3 nB1 = Some ((), nB') ∧ n_log nB' = n_log nB1)
    ∧ (tcp_link nA' addr_b (node_peerID nB) 1 1 srA' sA None ∧ tcp_link nB' addr_a (node_peerID nA) 1 1 srB' sB None)
    ∧ (sess_synced sA sB ∧ sess_synced sB sA)
    ∧ (sess_heap nA' !! 1%positive = Some (Session_Close toy_session).1
       ∧ sess_heap nB' !! 1%positive = Some (Session_Close toy_session).1)
    ∧ (Peers nA' = Peers nA ∧ Peers nB' = Peers nB)
    ∧ pendingHandshakes nA' !! tcp_key addr_b = None ∧ pendingHandshakes nB' !! tcp_key addr_a = None.
Proof.
  intros nA nB.
  eapply (fast_rehandshake_repairs nA nB 1 1 addr_a addr_b 1 1 1 1 toy_session toy_session None None);
    [reflexivity|reflexivity|split; reflexivity|split; reflexivity|reflexivity|apply (paired_node_linked x0a x0b addr_b)
    |apply (paired_node_linked x0b x0a addr_a)|reflexivity|reflexivity|reflexivity|apply lookup_empty|apply lookup_empty
    |reflexivity].
Defined.

End RelinkWitness.
