(* ===== verification/NodeSafety.v ===== *)
(** * No input makes the node panic

    The invariant of the node's state, a small logic for handlers, and the
    result that every handler, started in a state that satisfies the invariant,
    returns normally in a state that satisfies it again.  The logic is the
    predicate [safe Γ P m]: [Γ] lists the references the code holds, [P] is what
    holds of every effect the code has.  The rules follow the shape of the code,
    so the proof of a handler is the tactic [safely], guided where an argument is
    needed. *)

From S2P Require Import Identity.
From S2P Require Import Prelude Protocol Stream Sha256 Session Peer RelayAuth RelayManager Metrics Reconnect.
From S2P Require Import Config Probe NodeState NodeChannel NodeHeartbeat NodeRecv NodeHandshake NodeDiscovery.
From S2P Require Import NodeDispatch NodeConnect NodeReconnect NodeLife.

Section safety.
Context {NL : Noise} {W : World}.

(** ** Invariant *)

(** What a started goroutine relies on. *)
Definition task_wf (n : Node) (t : task) : Prop :=
  match t with
  | TaskSyncChannels id | TaskConnected id _ => 8 ≤ len id
  | TaskDiscoveryRequest r | TaskRehandshake _ r => is_Some (peer_heap n !! r)
  | _ => True
  end.

Record node_wf (n : Node) : Prop := {
  wf_store : ∀ id r, Peers n !! id = Some r → ∃ p, peer_heap n !! r = Some p ∧ ID p = id;
  wf_ids : ∀ r p, peer_heap n !! r = Some p → 8 ≤ len (ID p);
  wf_sess : ∀ r p sr, peer_heap n !! r = Some p → Peer_Session p = Some sr → is_Some (sess_heap n !! sr);
  wf_relay : ∀ rm, n_relayManager n = Some rm → rm_wf rm;
  wf_tasks : ∀ t, Go t ∈ n_log n → task_wf n t;
}.

(** The references and facts a piece of code holds while it runs. *)
Record ctx := MkCtx {
  c_peers : list PeerRef;
  c_sess : list SessRef;
  c_channels : gset bytes;
  c_kcp : bool;
  c_id : Identity;
}.

Record holds (Γ : ctx) (n : Node) : Prop := {
  h_wf : node_wf n;
  h_peers : ∀ r, r ∈ c_peers Γ → is_Some (peer_heap n !! r);
  h_sess : ∀ s, s ∈ c_sess Γ → is_Some (sess_heap n !! s);
  h_channels : localChannelSet n = c_channels Γ;
  h_kcp : c_kcp Γ = true → is_Some (kcpTransport n);
  h_id : n_Identity n = c_id Γ;
}.

(** [n'] is [n] after some effects that satisfy [P]: everything held stays. *)
Definition ext (P : effect → Prop) (n n' : Node) : Prop :=
  ∃ l, n_log n' = n_log n ++ l ∧ Forall P l.

Definition safe {A} (Γ : ctx) (P : effect → Prop) (m : M A) : Prop :=
  ∀ n, holds Γ n → ∃ a n', m n = Some (a, n') ∧ holds Γ n' ∧ ext P n n'.

Definition add_peer (r : PeerRef) (Γ : ctx) : ctx := MkCtx (r :: c_peers Γ) (c_sess Γ) (c_channels Γ) (c_kcp Γ) (c_id Γ).
Definition add_sess (s : option SessRef) (Γ : ctx) : ctx :=
  MkCtx (c_peers Γ) (option_list s ++ c_sess Γ) (c_channels Γ) (c_kcp Γ) (c_id Γ).
Definition add_kcp (Γ : ctx) : ctx := MkCtx (c_peers Γ) (c_sess Γ) (c_channels Γ) true (c_id Γ).

Lemma ext_refl P n : ext P n n.
Proof. exists []. by rewrite app_nil_r. Qed.

Lemma ext_trans P n1 n2 n3 : ext P n1 n2 → ext P n2 n3 → ext P n1 n3.
Proof.
  intros (l1 & E1 & H1) (l2 & E2 & H2). exists (l1 ++ l2).
  split; [by rewrite E2, E1, app_assoc|by apply Forall_app].
Qed.

(** ** Rules *)

Lemma safe_ret {A} Γ P (a : A) : safe Γ P (mret a).
Proof. intros n H. exists a, n. split; [done|]. split; [done|]. apply ext_refl. Qed.

Lemma safe_bind {A B} Γ P (m : M A) (f : A → M B) :
  safe Γ P m → (∀ a, safe Γ P (f a)) → safe Γ P (m ≫= f).
Proof.
  intros Hm Hf n H. destruct (Hm n H) as (a & n1 & Hr1 & H1 & He1).
  destruct (Hf a n1 H1) as (b & n2 & Hr2 & H2 & He2). exists b, n2.
  rewrite (bind_run _ _ _ _ _ Hr1). split; [done|]. split; [done|]. by eapply ext_trans.
Qed.

(** Forgetting references that were only needed inside. *)
Lemma safe_run {A} Γ Γ' P (m : M A) n :
  safe Γ' P m → holds Γ n → (holds Γ n → holds Γ' n) → (∀ n', holds Γ' n' → holds Γ n') →
  ∃ a n', m n = Some (a, n') ∧ holds Γ n' ∧ ext P n n'.
Proof.
  intros Hm H Hin Hout. destruct (Hm n (Hin H)) as (a & n' & ? & ? & ?). exists a, n'. auto.
Qed.

Lemma holds_add_peer r Γ n : holds Γ n → is_Some (peer_heap n !! r) → holds (add_peer r Γ) n.
Proof. intros [? ? ? ? ? ?] Hr. split; try done. cbn. intros r' [->|?]%elem_of_cons; auto. Qed.

Lemma holds_drop_peer r Γ n : holds (add_peer r Γ) n → holds Γ n.
Proof. intros [? Hp ? ? ? ?]. split; try done. intros r' Hr'. apply Hp. by right. Qed.

Lemma holds_add_sess s Γ n : holds Γ n → (∀ sr, s = Some sr → is_Some (sess_heap n !! sr)) → holds (add_sess s Γ) n.
Proof.
  intros [? ? Hs ? ? ?] Hr. split; try done. cbn. intros sr [H|?]%elem_of_app; [|auto].
  destruct s; cbn in H; [|by apply elem_of_nil in H]. apply list_elem_of_singleton in H as ->. auto.
Qed.

Lemma holds_drop_sess s Γ n : holds (add_sess s Γ) n → holds Γ n.
Proof. intros [? ? Hs ? ? ?]. split; try done. intros sr Hsr. apply Hs. cbn. apply elem_of_app. by right. Qed.

Lemma holds_add_kcp Γ n : holds Γ n → is_Some (kcpTransport n) → holds (add_kcp Γ) n.
Proof. intros [? ? ? ? ? ?] Hk. by split. Qed.

Lemma holds_drop_kcp Γ n : holds (add_kcp Γ) n → holds Γ n.
Proof. intros [? ? ? ? Hk ?]. split; try done. intros _. by apply Hk. Qed.

Lemma safe_get {B} Γ P (f : Node → M B) :
  (∀ n, node_wf n → localChannelSet n = c_channels Γ → 
     safe (match kcpTransport n with Some _ => add_kcp Γ | None => Γ end) P (f n)) →
  safe Γ P (get ≫= f).
Proof.
  intros Hf n H. rewrite get_bind. specialize (Hf n (h_wf _ _ H) (h_channels _ _ H)).
  destruct (kcpTransport n) eqn:Hk; [|by apply Hf].
  eapply (safe_run Γ); [exact Hf|done|intros; apply holds_add_kcp; [done|by rewrite Hk]|apply holds_drop_kcp].
Qed.

(** The common case: nothing about the state is needed. *)
Lemma safe_get' {B} Γ P (f : Node → M B) : (∀ n, node_wf n → safe Γ P (f n)) → safe Γ P (get ≫= f).
Proof. intros Hf n H. rewrite get_bind. by apply Hf; [apply H|]. Qed.

Lemma safe_get_peer {B} Γ P id (f : option PeerRef → M B) :
  safe Γ P (f None) → (∀ r, 8 ≤ len id → safe (add_peer r Γ) P (f (Some r))) → safe Γ P (get_peer id ≫= f).
Proof.
  intros H0 H1 n H. rewrite get_peer_bind. destruct (Peers n !! id) as [r|] eqn:E; [|by apply H0].
  destruct (wf_store _ (h_wf _ _ H) _ _ E) as (p & Hp & Hid).
  assert (8 ≤ len id) by (rewrite <- Hid; by eapply wf_ids; [apply H|]).
  eapply (safe_run Γ); [by apply H1|done|intros; apply holds_add_peer; eauto|apply holds_drop_peer].
Qed.

Lemma safe_peer_of {B} Γ P r (f : Peer → M B) :
  r ∈ c_peers Γ → (∀ p, 8 ≤ len (ID p) → safe (add_sess (Peer_Session p) Γ) P (f p)) → safe Γ P (peer_of r ≫= f).
Proof.
  intros Hr Hf n H. destruct (h_peers _ _ H _ Hr) as [p Hp]. rewrite (peer_of_bind r p) by done.
  eapply (safe_run Γ); [apply Hf; by eapply wf_ids; [apply H|]|done| |apply holds_drop_sess].
  intros _. apply holds_add_sess; [done|]. intros sr Hsr. by eapply wf_sess; [apply H|..].
Qed.

(** Changes of the state that touch neither objects nor the log. *)
Definition harmless (g : Node → Node) : Prop := ∀ n,
  node_wf n →
  Peers (g n) ⊆ Peers n ∧ peer_heap (g n) = peer_heap n ∧ n_log (g n) = n_log n
  ∧ dom (sess_heap (g n)) = dom (sess_heap n) ∧ (localChannelSet (g n) = localChannelSet n ∧ n_Identity (g n) = n_Identity n)
  ∧ (is_Some (kcpTransport n) → is_Some (kcpTransport (g n)))
  ∧ (∀ rm, n_relayManager (g n) = Some rm → rm_wf rm).

Lemma safe_modify Γ P g : harmless g → safe Γ P (modify g).
Proof.
  intros Hg n H. destruct H as [[Hst Hid Hse Hre Hta] Hpe Hss Hch Hk Hown].
  destruct (Hg n ltac:(by split)) as (E1 & E2 & E3 & E4 & [E5 E8] & E6 & E7).
  assert (∀ sr, is_Some (sess_heap (g n) !! sr) ↔ is_Some (sess_heap n !! sr)) as Hs
    by (intros sr; by rewrite <- !elem_of_dom, E4).
  exists (), (g n). split; [done|]. split; [|exists []; by rewrite E3, app_nil_r].
  split; [split|..]; rewrite ?E2, ?E3, ?E5, ?E8; try done.
  - intros id r Hr. apply Hst. by eapply lookup_weaken.
  - intros r p sr Hp Hps. apply Hs. by eapply Hse.
  - intros t Ht. specialize (Hta t Ht). destruct t; cbn in *; rewrite ?E2; done.
  - intros s Hs'. by apply Hs, Hss.
  - auto.
Qed.

(** Adding to the log. *)
Definition task_held (Γ : ctx) (t : task) : Prop :=
  match t with
  | TaskSyncChannels id | TaskConnected id _ => 8 ≤ len id
  | TaskDiscoveryRequest r | TaskRehandshake _ r => r ∈ c_peers Γ
  | _ => True
  end.

Definition effect_held (Γ : ctx) (e : effect) : Prop :=
  match e with Go t => task_held Γ t | _ => True end.

Lemma holds_log Γ e n : effect_held Γ e → holds Γ n → holds Γ (n <| n_log ::= λ l, l ++ [e] |>).
Proof.
  intros He [[Hst Hid Hse Hre Hta] Hpe Hss Hch Hk Hown]. split; [split|..]; cbn; try done.
  intros t [Ht|Ht]%elem_of_app; [by specialize (Hta t Ht); destruct t|].
  apply list_elem_of_singleton in Ht as <-. destruct t; cbn in *; auto.
Qed.

Lemma ext_log P e n : P e → ext P n (n <| n_log ::= λ l, l ++ [e] |>).
Proof. intros He. exists [e]. split; [done|]. by constructor. Qed.

Lemma safe_emit Γ P e : P e → effect_held Γ e → safe Γ P (emit e).
Proof. intros HP He n H. eexists _, _. split; [reflexivity|]. split; [by apply holds_log|by apply ext_log]. Qed.

Lemma safe_io Γ P e : P e → effect_held Γ e → safe Γ P (io e).
Proof. intros HP He n H. eexists _, _. split; [reflexivity|]. split; [by apply holds_log|by apply ext_log]. Qed.

Lemma safe_now Γ P : safe Γ P time_Now.
Proof.
  intros n [[Hst Hid Hse Hre Hta] Hpe Hss Hch Hk Hown]. eexists _, _. split; [reflexivity|].
  split; [|by exists []; rewrite app_nil_r]. split; [split|..]; cbn; try done.
Qed.

Lemma safe_draw Γ P : safe Γ P draw.
Proof.
  intros n [[Hst Hid Hse Hre Hta] Hpe Hss Hch Hk Hown]. eexists _, _. split; [reflexivity|].
  split; [|by exists []; rewrite app_nil_r]. split; [split|..]; cbn; try done.
Qed.

Lemma harmless_intro g :
  (∀ n, Peers (g n) = Peers n ∧ peer_heap (g n) = peer_heap n ∧ n_log (g n) = n_log n
   ∧ sess_heap (g n) = sess_heap n ∧ (localChannelSet (g n) = localChannelSet n ∧ n_Identity (g n) = n_Identity n)
   ∧ (is_Some (kcpTransport n) → is_Some (kcpTransport (g n)))
   ∧ n_relayManager (g n) = n_relayManager n) → harmless g.
Proof.
  intros H n Hwf. destruct (H n) as (-> & -> & -> & -> & [-> ->] & ? & ->). split_and!; try done. apply Hwf.
Qed.

Lemma safe_count Γ P g : safe Γ P (count g).
Proof. apply safe_modify, harmless_intro. intros n. cbn. auto 10. Qed.

(** Updating a peer that keeps its identity and holds a known session. *)
Definition keeps (Γ : ctx) (p p' : Peer) : Prop :=
  ID p' = ID p ∧ (Peer_Session p' = Peer_Session p ∨ Peer_Session p' = None
                  ∨ ∃ sr, Peer_Session p' = Some sr ∧ sr ∈ c_sess Γ).

Lemma holds_put_peer Γ r p p' n :
  holds Γ n → peer_heap n !! r = Some p → keeps Γ p p' → holds Γ (n <| peer_heap ::= <[r := p']> |>).
Proof.
  intros [[Hst Hid Hse Hre Hta] Hpe Hss Hch Hk Hown] Hp [Hi Hs].
  assert (∀ x, is_Some (peer_heap n !! x) → is_Some (<[r := p']> (peer_heap n) !! x)) as Hmono.
  { intros x [y Hy]. destruct (decide (x = r)) as [->|]; simplify_map_eq; eauto. }
  split; [split|..]; cbn; try done.
  - intros id x Hx. destruct (Hst id x Hx) as (q & Hq & Hqi).
    destruct (decide (x = r)) as [->|]; simplify_map_eq; eauto.
  - intros x q [[<- <-]|[_ Hq]]%lookup_insert_Some; [rewrite Hi|]; eauto.
  - intros x q sr [[<- <-]|[_ Hq]]%lookup_insert_Some Hqs; [|eauto].
    destruct Hs as [E|[E|(sr' & E & Hin)]]; rewrite E in Hqs; simplify_eq; eauto.
  - intros t Ht. specialize (Hta t Ht). destruct t; cbn in *; auto.
  - eauto.
Qed.

Lemma safe_on_peer {A} Γ P r (f : Peer → Peer * A) :
  r ∈ c_peers Γ → (∀ p, keeps Γ p (f p).1) → safe Γ P (on_peer r f).
Proof.
  intros Hr Hf n H. destruct (h_peers _ _ H _ Hr) as [p Hp].
  exists (f p).2, (n <| peer_heap ::= <[r := (f p).1]> |>). split.
  - unfold on_peer. rewrite (peer_of_bind r p) by done. by destruct (f p).
  - split; [by eapply holds_put_peer|]. exists []. by rewrite app_nil_r.
Qed.

Lemma safe_update_peer Γ P r f : r ∈ c_peers Γ → (∀ p, keeps Γ p (f p)) → safe Γ P (update_peer r f).
Proof.
  intros Hr Hf n H. destruct (h_peers _ _ H _ Hr) as [p Hp].
  exists (), (n <| peer_heap ::= <[r := f p]> |>). split; [by apply update_peer_run|].
  split; [by eapply holds_put_peer|]. exists []. by rewrite app_nil_r.
Qed.

Lemma safe_peer_effects Γ P es : (∀ c, P (ConnClose c)) → safe Γ P (peer_effects es).
Proof.
  intros HP. induction es as [|[c|s] es IH]; [apply safe_ret|..]; (apply safe_bind; [|done]).
  - by apply safe_emit.
  - apply safe_modify. intros n Hwf. cbn. split_and!; try done; [|apply Hwf].
    apply set_eq. intros x. unfold heap_close. by rewrite dom_alter.
Qed.

Lemma safe_lift {A} Γ P (r : res A) : (∃ a, r = Ok a) → safe Γ P (lift r).
Proof. intros [a ->] n H. exists a, n. split; [done|]. split; [done|]. apply ext_refl. Qed.

Lemma safe_short8 Γ P id : 8 ≤ len id → safe Γ P (short8 id).
Proof. intros Hid n H. exists (), n. rewrite short8_run by done. split; [done|]. split; [done|]. apply ext_refl. Qed.

(** New objects. *)
Lemma safe_alloc_session {B} Γ P s (f : SessRef → M B) :
  (∀ sr, safe (add_sess (Some sr) Γ) P (f sr)) → safe Γ P (alloc_session s ≫= f).
Proof.
  intros Hf n [[Hst Hid Hse Hre Hta] Hpe Hss Hch Hk Hown].
  set (sr := fresh (dom (sess_heap n))). set (n1 := n <| sess_heap ::= <[sr := s]> |>).
  assert (∀ x, is_Some (sess_heap n !! x) → is_Some (sess_heap n1 !! x)) as Hmono.
  { intros x [y Hy]. cbn. destruct (decide (x = sr)) as [->|]; simplify_map_eq; eauto. }
  assert (holds (add_sess (Some sr) Γ) n1) as H1.
  { apply holds_add_sess; [|intros ? [= <-]; cbn; by rewrite lookup_insert_eq].
    split; [split|..]; try done; eauto. }
  destruct (Hf sr n1 H1) as (b & n' & Hrun & H' & He). exists b, n'. split; [done|].
  split; [by eapply holds_drop_sess|done].
Qed.

Lemma safe_new_peer {B} Γ P p (f : unit → PeerRef → M B) :
  8 ≤ len (ID p) → (∀ sr, Peer_Session p = Some sr → sr ∈ c_sess Γ) →
  (∀ r, safe (add_peer r Γ) P (f () r)) →
  safe Γ P (r ← alloc_peer p; modify (λ n, n <| Peers ::= λ ps, PeerStore_Add ps (ID p) r |>) ≫= λ u, f u r).
Proof.
  intros Hlen Hs Hf n [[Hst Hid Hse Hre Hta] Hpe Hss Hch Hk Hown].
  set (r := fresh (dom (peer_heap n))).
  set (n1 := n <| peer_heap ::= <[r := p]> |> <| Peers ::= λ ps, PeerStore_Add ps (ID p) r |>).
  assert (peer_heap n !! r = None) as Hfr by (apply not_elem_of_dom, is_fresh).
  assert (∀ x, is_Some (peer_heap n !! x) → is_Some (peer_heap n1 !! x)) as Hmono.
  { intros x [y Hy]. cbn. destruct (decide (x = r)) as [->|]; simplify_map_eq; eauto. }
  assert (holds (add_peer r Γ) n1) as H1.
  { apply holds_add_peer; [|cbn; by rewrite lookup_insert_eq]. split; [split|..]; try done; cbn; unfold PeerStore_Add.
    - intros id x [[<- <-]|[_ Hx]]%lookup_insert_Some; [exists p; by rewrite lookup_insert_eq|].
      destruct (Hst id x Hx) as (q & Hq & ?). exists q. rewrite lookup_insert_ne; [done|congruence].
    - intros x q [[_ <-]|[_ Hq]]%lookup_insert_Some; eauto.
    - intros x q sr [[_ <-]|[_ Hq]]%lookup_insert_Some; eauto.
    - intros t Ht. specialize (Hta t Ht). destruct t; cbn in *; auto.
    - eauto. }
  destruct (Hf r n1 H1) as (b & n' & Hrun & H' & He). exists b, n'. split; [done|].
  split; [by eapply holds_drop_peer|done].
Qed.

(** Encrypting and decrypting with a shared session. *)
Lemma holds_put_sess Γ sr s n :
  holds Γ n → is_Some (sess_heap n !! sr) → holds Γ (n <| sess_heap ::= <[sr := s]> |>).
Proof.
  intros [[Hst Hid Hse Hre Hta] Hpe Hss Hch Hk Hown] Hsr.
  assert (∀ x, is_Some (sess_heap n !! x) → is_Some (<[sr := s]> (sess_heap n) !! x)) as Hmono.
  { intros x [y Hy]. destruct (decide (x = sr)) as [->|]; simplify_map_eq; eauto. }
  split; [split|..]; cbn; try done; eauto.
Qed.

Lemma safe_peer_decrypt {B} Γ P r payload (f : res bytes → M B) :
  r ∈ c_peers Γ → (∀ out, out ≠ Panic → safe Γ P (f out)) → safe Γ P (peer_decrypt r payload ≫= f).
Proof.
  intros Hr Hf n H. destruct (h_peers _ _ H _ Hr) as [p Hp].
  assert (∃ out n1, peer_decrypt r payload n = Some (out, n1) ∧ out ≠ Panic ∧ holds Γ n1 ∧ n_log n1 = n_log n)
    as (out & n1 & Hrun & Hout & H1 & Hlog).
  { unfold peer_decrypt, Peer_Decrypt. rewrite Hp. destruct (Peer_Session p) as [sr|] eqn:Hps; cbn.
    - destruct (wf_sess _ (h_wf _ _ H) _ _ _ Hp Hps) as [s Hs]. rewrite Hs. cbn.
      unfold Session_Decrypt. destruct (recvCipher s) as [k|].
      + destruct (noise_Decrypt k [] payload) as [k' [pt|]]; (eexists _, _; split; [reflexivity|]);
          (split; [done|]); (split; [|done]); by apply (holds_put_sess Γ sr); eauto.
      + eexists _, _. split; [reflexivity|]. split; [done|]. split; [|done].
        by apply (holds_put_sess Γ sr); eauto.
    - eexists _, _. split; [reflexivity|]. split; [done|]. split; [|done]. by destruct n. }
  destruct (Hf out Hout n1 H1) as (b & n' & Hrun' & H' & (l & Hl & HP)). exists b, n'.
  rewrite (bind_run _ _ _ _ _ Hrun). split; [done|]. split; [done|]. exists l. by rewrite Hl, Hlog.
Qed.

Lemma safe_session_encrypt {B} Γ P sr plaintext (f : res bytes → M B) :
  sr ∈ c_sess Γ → (∀ out, out ≠ Panic → safe Γ P (f out)) → safe Γ P (session_encrypt sr plaintext ≫= f).
Proof.
  intros Hr Hf n H. destruct (h_sess _ _ H _ Hr) as [s Hs].
  assert (∃ out n1, session_encrypt sr plaintext n = Some (out, n1) ∧ out ≠ Panic ∧ holds Γ n1 ∧ n_log n1 = n_log n)
    as (out & n1 & Hrun & Hout & H1 & Hlog).
  { unfold session_encrypt, Session_Encrypt. rewrite Hs. destruct (sendCipher s) as [k|].
    - destruct (noise_Encrypt k [] plaintext) as [k' [ct|]]; (eexists _, _; split; [reflexivity|]);
        (split; [done|]); (split; [|done]); by apply holds_put_sess; eauto.
    - eexists _, _. split; [reflexivity|]. split; [done|]. split; [|done]. by apply holds_put_sess; eauto. }
  destruct (Hf out Hout n1 H1) as (b & n' & Hrun' & H' & (l & Hl & HP)). exists b, n'.
  rewrite (bind_run _ _ _ _ _ Hrun). split; [done|]. split; [done|]. exists l. by rewrite Hl, Hlog.
Qed.

End safety.

(** ** Peer methods keep the identity and the session *)

Lemma keeps_Close `{Noise} Γ p : keeps Γ p (Peer_Close p).1.
Proof. unfold keeps, Peer_Close. destruct (Conn p); [case_bool_decide|]; cbn; auto. Qed.

Lemma keeps_TryBegin `{Noise} Γ p : keeps Γ p (TryBeginRehandshake p).1.
Proof. unfold keeps, TryBeginRehandshake. destruct (rehandshakeInFlight p); cbn; auto. Qed.

Lemma keeps_Reserve `{Noise} Γ p now w k : keeps Γ p (ReserveRehandshakeAttempt p now w k).1.
Proof.
  unfold keeps, ReserveRehandshakeAttempt.
  destruct (_ && _); [cbn; auto|]. destruct (0 <? w); cbn [andb]; [|cbn; auto].
  destruct (_ || _); destruct (_ && _); cbn; auto.
Qed.

Lemma keeps_Failure `{Noise} Γ p now b m : keeps Γ p (RecordRehandshakeFailure p now b m).1.
Proof. unfold keeps. cbn. auto. Qed.

Lemma keeps_IncDecrypt `{Noise} Γ p : keeps Γ p (IncDecryptFailures p).1.
Proof. unfold keeps. cbn. auto. Qed.

Lemma keeps_Append `{Noise} Γ p d m now : keeps Γ p (AppendReassembly p d m now).1.
Proof. unfold keeps, AppendReassembly. destruct (ReassemblyBuffer p); [destruct (_ <? _)|]; cbn; auto. Qed.

Lemma keeps_Finish `{Noise} Γ p d m : keeps Γ p (FinishReassembly p d m).1.
Proof. unfold keeps, FinishReassembly. destruct (ReassemblyBuffer p); [destruct (_ <? _)|]; cbn; auto. Qed.

Lemma keeps_RemoveChannel `{Noise} Γ p h : keeps Γ p (RemoveRemoteChannel p h).
Proof. unfold keeps, RemoveRemoteChannel. destruct (RemoteChannels p); cbn; auto. Qed.

Lemma keeps_Upgrade `{Noise} Γ p a c t sr now :
  sr ∈ c_sess Γ → keeps Γ p (UpgradeTransport p a c t (Some sr) now).1.
Proof. intros Hs. unfold keeps, UpgradeTransport. destruct (_ && _); cbn; [auto|]. split; [done|]. eauto. Qed.

Create HintDb keeps.
#[export] Hint Resolve keeps_Close keeps_TryBegin keeps_Reserve keeps_Failure keeps_IncDecrypt keeps_Append
  keeps_Finish keeps_RemoveChannel : keeps.

(** ** Proof search *)

(** Everything but a delivery to the application. *)
Definition silent (e : effect) : Prop := match e with OnReceive _ _ => False | _ => True end.

(** Slices within bounds, from the guards the code has passed. *)
Lemma go_index_is_ok {A} (l : list A) i : 0 ≤ i < len l → ∃ x, go_index l i = Ok x.
Proof. intros H. destruct (go_index_ok l i H) as (x & ? & _). eauto. Qed.

Lemma go_slice_is_ok {A} (l : list A) i j : 0 ≤ i ∧ i ≤ j ∧ j ≤ len l → ∃ x, go_slice l i j = Ok x.
Proof. intros (? & ? & ?). eexists. by apply go_slice_ok. Qed.

Lemma go_slice_from_is_ok {A} (l : list A) i : 0 ≤ i ≤ len l → ∃ x, go_slice_from l i = Ok x.
Proof. intros ?. eexists. by apply go_slice_from_ok. Qed.

Ltac in_bounds :=
  repeat match goal with
  | H : (_ <? _) = false |- _ => rewrite Z.ltb_ge in H
  | H : (_ <? _) = true |- _ => rewrite Z.ltb_lt in H
  end;
  first [apply go_index_is_ok | apply go_slice_is_ok | apply go_slice_from_is_ok]; len_facts; lia.

(** A held reference. *)
Ltac held :=
  cbn [add_peer add_sess add_kcp c_peers c_sess c_kcp option_list app];
  first [assumption | by left | by right; left | by right; right; left | done | set_solver].

Ltac safely_step :=
  lazymatch goal with
  | |- safe _ _ (mret _) => apply safe_ret
  | |- safe _ _ (get ≫= _) => apply safe_get'; intros ? ?
  | |- safe _ _ (get_peer _ ≫= _) => apply safe_get_peer; [|intros ? ?]
  | |- safe _ _ (peer_of _ ≫= _) => apply safe_peer_of; [held|intros ? ?]
  | |- safe _ _ (alloc_session _ ≫= _) => apply safe_alloc_session; intros ?
  | |- safe _ _ (peer_decrypt _ _ ≫= _) => apply safe_peer_decrypt; [held|intros ? ?]
  | |- safe _ _ (session_encrypt _ _ ≫= _) => apply safe_session_encrypt; [held|intros ? ?]
  | |- safe _ _ (_ ≫= _) => apply safe_bind; [|intros ?]
  | |- safe _ _ (lift _) => apply safe_lift; try in_bounds
  | |- safe _ _ time_Now => apply safe_now
  | |- safe _ _ draw => apply safe_draw
  | |- safe _ _ (count _) => apply safe_count
  | |- safe _ _ (emit _) => apply safe_emit; [by auto|try done; held]
  | |- safe _ _ (go _) => apply safe_emit; [by auto|try done; held]
  | |- safe _ _ (io _) => apply safe_io; [by auto|done]
  | |- safe _ _ (short8 _) => apply safe_short8; (assumption || lia)
  | |- safe _ _ (peer_effects _) => apply safe_peer_effects; by auto
  | |- safe _ _ (update_peer _ _) => apply safe_update_peer; [held|intros ?; first [by split; [|left] | solve [auto with keeps] | idtac]]
  | |- safe _ _ (on_peer _ _) => apply safe_on_peer; [held|intros ?; auto with keeps]
  | |- safe _ _ (modify _) =>
      apply safe_modify, harmless_intro; intros ?; cbn; split_and!; solve [done | eauto]
  | |- safe _ _ (if ?b then _ else _) => destruct b eqn:?
  | |- safe _ _ (match ?x with _ => _ end) => destruct x eqn:?
  | |- safe _ _ panic => exfalso; congruence
  end.

Ltac safely := repeat (safely_step; cbv beta iota zeta).

Section handlers.
Context {NL : Noise} {W : World} (P : effect → Prop) (HP : ∀ e, silent e → P e).

#[local] Hint Extern 1 (P _) => (apply HP; exact I) : core.

Lemma safe_writeTCPPacket Γ c packet : safe Γ P (writeTCPPacket c packet).
Proof using HP. unfold writeTCPPacket. safely. Qed.

Lemma safe_sendRaw Γ conn addr transport packet : safe Γ P (sendRaw conn addr transport packet).
Proof using HP. unfold sendRaw. destruct conn; safely; apply safe_writeTCPPacket. Qed.

Lemma safe_touch_source Γ a : safe Γ P (touch_source a).
Proof using HP. unfold touch_source. safely. Qed.

Lemma safe_processHeartbeat Γ conn a transport : safe Γ P (processHeartbeat conn a transport).
Proof using HP. unfold processHeartbeat. safely; [apply safe_touch_source|apply safe_sendRaw]. Qed.

Lemma safe_RemoveSession Γ k id : safe Γ P (RemoveSession k id).
Proof using HP. unfold RemoveSession. safely. Qed.

Lemma harmless_Remove id : harmless (λ n : Node, n <| Peers ::= λ ps, PeerStore_Remove ps id |>).
Proof. intros n Hwf. cbn. split_and!; try done; [apply delete_subseteq|apply Hwf]. Qed.

Lemma safe_removePeerWithReconnect Γ id b : safe Γ P (removePeerWithReconnect id b).
Proof using HP.
  unfold removePeerWithReconnect. safely; try apply safe_RemoveSession.
  apply safe_modify, harmless_Remove.
Qed.

Lemma safe_triggerFastRehandshake Γ id r : r ∈ c_peers Γ → safe Γ P (triggerFastRehandshake id r).
Proof using HP.
  intros Hr. unfold triggerFastRehandshake. safely; try apply safe_removePeerWithReconnect.
Qed.

Lemma safe_processChannelUpdate Γ r payload : r ∈ c_peers Γ → safe Γ P (processChannelUpdate r payload).
Proof using HP.
  intros Hr. unfold processChannelUpdate. safely.
Qed.

(** A delivery needs a subscribed channel. *)
Lemma safe_handleAppFrame Γ id r data :
  r ∈ c_peers Γ → 8 ≤ len id →
  (∀ hash d, data = AppFrameTypeUserWithChannel :: hash ++ d → len hash = 32 → hash ∈ c_channels Γ →
     P (OnReceive id d)) →
  safe Γ P (handleAppFrame id r data).
Proof using HP.
  intros Hr Hid Hrec. unfold handleAppFrame. destruct data as [|t payload]; [apply safe_ret|].
  case_bool_decide as Ht; [|case_bool_decide; [by apply safe_processChannelUpdate|apply safe_ret]].
  destruct (Z.ltb_spec (len payload) 32); [by apply safe_short8|].
  destruct (split_at payload 32 ltac:(lia)) as (hash & d & -> & Hh).
  rewrite go_slice_prefix, go_slice_suffix by done. intros n Hn. run.
  destruct (isChannelSubscribed n hash) eqn:Hsub; cbn [negb]; [|by apply safe_short8].
  unfold isChannelSubscribed in Hsub. rewrite Hh in Hsub. cbn in Hsub. apply bool_decide_eq_true in Hsub.
  rewrite (h_channels _ _ Hn) in Hsub.
  destruct (has_onReceive n); [|by apply safe_ret].
  apply safe_emit; [|done|done]. subst t. by eapply Hrec.
Qed.

Lemma safe_decrypt_failed Γ id r : r ∈ c_peers Γ → 8 ≤ len id → safe Γ P (decrypt_failed id r).
Proof using HP.
  intros Hr Hid. unfold decrypt_failed. safely. by apply safe_triggerFastRehandshake.
Qed.

Section data.
Context (id : gostring) (HR : ∀ d, P (OnReceive id d)).

Lemma safe_handle_frame Γ r t d : r ∈ c_peers Γ → 8 ≤ len id → safe Γ P (handle_frame id r t d).
Proof using HP HR.
  intros Hr Hid. unfold handle_frame. safely; by apply safe_handleAppFrame.
Qed.

(** What [processData] does once it knows the peer. *)
Lemma safe_open Γ r payload : r ∈ c_peers Γ → 8 ≤ len id →
  safe Γ P (out ← peer_decrypt r payload;
            match out with
            | Panic => panic
            | Err _ => decrypt_failed id r
            | Ok plaintext =>
                _ ← update_peer r ResetDecryptFailures;
                match plaintext with
                | [] => mret ()
                | frameType :: frameData =>
                    _ ← update_peer r (λ p, AddBytesReceived p (len frameData));
                    _ ← count (λ c, Collector_AddBytesReceived c (len frameData));
                    handle_frame id r frameType frameData
                end
            end).
Proof using HP HR.
  intros Hr Hid. safely; [by apply safe_handle_frame|by apply safe_decrypt_failed].
Qed.

End data.

Lemma safe_processData Γ addr payload : (∀ id d, P (OnReceive id d)) → safe Γ P (processData addr payload).
Proof using HP.
  intros HR. unfold processData. safely_step. destruct (addrToPeer n !! a_str addr) as [id|]; [|apply safe_ret].
  apply safe_get_peer; [apply safe_ret|]. intros r Hid. apply safe_open; [done|held|done].
Qed.

(** ** Handshakes *)

Lemma safe_registerRelayCandidate Γ id a : safe Γ P (registerRelayCandidate id a).
Proof using HP.
  unfold registerRelayCandidate. safely. apply safe_modify. intros n' _. cbn.
  split_and!; try done. intros ? [= <-]. apply AddRelay_wf. by eapply wf_relay.
Qed.

Lemma len_peerID_of_key k : len (peerID_of_key k) = 32.
Proof.
  unfold peerID_of_key. rewrite len_hex. replace 16%nat with (Z.to_nat 16) by done.
  rewrite len_take, len_sha256 by lia. lia.
Qed.

Lemma safe_handleExistingPeer Γ r conn addr transport sr addrStr id key :
  r ∈ c_peers Γ → sr ∈ c_sess Γ → 8 ≤ len id →
  safe Γ P (handleExistingPeer r conn addr transport sr addrStr id key).
Proof using HP.
  intros Hr Hs Hid. unfold handleExistingPeer.
  safely; try apply safe_registerRelayCandidate; apply keeps_Upgrade; held.
Qed.

Lemma safe_handle_new_peer Γ conn addr transport sr addrStr id key b :
  sr ∈ c_sess Γ → 8 ≤ len id → safe Γ P (handle_new_peer conn addr transport sr addrStr id key b).
Proof using HP.
  intros Hs Hid. unfold handle_new_peer. do 3 safely_step; cbv beta zeta. safely_step.
  { by apply safe_short8. }
  apply safe_bind; [apply safe_now|]. intros now.
  apply (safe_new_peer Γ P (NewPeer id _ _ _ _ _ _ _ _)); [done|by intros ? [= <-]|].
  intros r. safely; apply safe_registerRelayCandidate.
Qed.

Lemma NewResponderHandshake_no_panic priv pub secret rnd now :
  NewResponderHandshake priv pub secret rnd now ≠ Panic.
Proof.
  unfold NewResponderHandshake, guard_err. destruct (Z.ltb_spec (len priv) 32), (Z.ltb_spec (len pub) 32); try done.
  cbn. rewrite !go_slice_ok by lia. cbn. by destruct (noise_New _ _ _ _ _).
Qed.

Lemma NewInitiatorHandshake_no_panic priv pub secret rnd now :
  NewInitiatorHandshake priv pub secret rnd now ≠ Panic.
Proof.
  unfold NewInitiatorHandshake, guard_err. destruct (Z.ltb_spec (len priv) 32), (Z.ltb_spec (len pub) 32); try done.
  cbn. rewrite !go_slice_ok by lia. cbn. destruct (noise_New _ _ _ _ _) as [h|]; [|done].
  by destruct (noise_WriteMessage h []) as [h' [[m x]|]].
Qed.

Lemma ProcessMessage_no_panic h msg : (ProcessMessage h msg).2 ≠ Panic.
Proof.
  unfold ProcessMessage. destruct (completed h); [done|].
  destruct (noise_ReadMessage (hs h) msg) as [h1 [[pl [[c1|] [c2|]]]|]]; try done;
    by destruct (noise_WriteMessage h1 pl) as [h2 [[m [[d1|] [d2|]]]|]].
Qed.

Lemma safe_get_or_create_handshake Γ key : safe Γ P (get_or_create_handshake key).
Proof using HP.
  unfold get_or_create_handshake. safely.
  exfalso. by eapply NewResponderHandshake_no_panic.
Qed.

Lemma safe_processHandshake Γ conn addr transport payload : safe Γ P (processHandshake conn addr transport payload).
Proof using HP.
  unfold processHandshake. apply safe_bind; [apply safe_get_or_create_handshake|]. intros [h|]; [|apply safe_ret].
  pose proof (ProcessMessage_no_panic h payload) as Hnp. destruct (ProcessMessage h payload) as [h' out].
  cbn in Hnp. safely; try apply safe_sendRaw.
  - apply safe_handle_new_peer; [held|rewrite len_peerID_of_key; lia].
  - apply safe_handleExistingPeer; [held|held|rewrite len_peerID_of_key; lia].
Qed.

(** ** Discovery *)

Lemma safe_sendDiscoveryRequest Γ r : r ∈ c_peers Γ → safe Γ P (sendDiscoveryRequest r).
Proof using HP. intros Hr. unfold sendDiscoveryRequest. safely. apply safe_sendRaw. Qed.

Lemma safe_processDiscoveryRequest Γ conn addr transport : safe Γ P (processDiscoveryRequest conn addr transport).
Proof using HP. unfold processDiscoveryRequest. safely. apply safe_sendRaw. Qed.

Lemma discovery_parse_ok count payload : ∀ offset, 0 ≤ offset → ∃ l, discovery_parse count payload offset = Ok l.
Proof.
  induction count as [|count IH]; intros offset Ho; [by eexists|]. cbn [discovery_parse].
  destruct (Z.leb_spec (len payload) offset); [by eexists|].
  destruct (go_index_ok payload offset ltac:(lia)) as (pl & -> & _). cbn [mbind res_bind].
  pose proof (Z_of_byte_range pl). zcase; [by eexists|]. rewrite go_slice_ok by lia. cbn [mbind res_bind].
  destruct (Z.leb_spec (len payload) (offset + 1 + Z_of_byte pl)); [by eexists|].
  destruct (go_index_ok payload (offset + 1 + Z_of_byte pl) ltac:(lia)) as (al & -> & _). cbn [mbind res_bind].
  pose proof (Z_of_byte_range al). zcase; [by eexists|]. rewrite go_slice_ok by lia. cbn [mbind res_bind].
  destruct (IH (offset + 1 + Z_of_byte pl + 1 + Z_of_byte al) ltac:(lia)) as [l ->]. by eexists.
Qed.

Lemma discovery_entries_ok payload : ∃ l, discovery_entries payload = Ok l.
Proof.
  unfold discovery_entries. zcase; [by eexists|].
  destruct (go_index_ok payload 0 ltac:(lia)) as (c0 & -> & _). cbn [mbind res_bind].
  destruct (go_index_ok payload 1 ltac:(lia)) as (c1 & -> & _). cbn [mbind res_bind].
  apply discovery_parse_ok. lia.
Qed.

Lemma safe_tryBeginDiscoveryConnect Γ id a : safe Γ P (tryBeginDiscoveryConnect id a).
Proof using HP. unfold tryBeginDiscoveryConnect. cbv zeta. safely. Qed.

Lemma safe_connect_discovered Γ es : safe Γ P (connect_discovered es).
Proof using HP.
  induction es as [|[id a] es IH]; cbn [connect_discovered]; safely; try apply safe_tryBeginDiscoveryConnect; done.
Qed.

Lemma safe_processDiscoveryResponse Γ a payload : safe Γ P (processDiscoveryResponse a payload).
Proof using HP.
  unfold processDiscoveryResponse. safely; [apply discovery_entries_ok|apply safe_connect_discovered].
Qed.

(** ** Dispatch *)

Section dispatch.
Context (HR : ∀ id d, P (OnReceive id d)).

Lemma safe_handlePacket Γ conn addr transport t payload : safe Γ P (handlePacket conn addr transport t payload).
Proof using HP HR.
  unfold handlePacket. safely;
    eauto using safe_processHandshake, safe_processData, safe_processDiscoveryRequest,
      safe_processDiscoveryResponse, safe_processHeartbeat.
  apply safe_touch_source.
Qed.

Lemma safe_dispatch_all Γ conn addr transport ps : safe Γ P (dispatch_all conn addr transport ps).
Proof using HP HR.
  induction ps as [|[t payload] ps IH]; cbn [dispatch_all]; safely; [apply safe_handlePacket|done].
Qed.

Lemma safe_getRelayAuthenticator Γ : safe Γ P getRelayAuthenticator.
Proof using HP. unfold getRelayAuthenticator. safely. Qed.

Lemma safe_buildRelayPacket Γ mode target inner : safe Γ P (buildRelayPacket mode target inner).
Proof using HP.
  unfold buildRelayPacket, relay_token. safely. apply safe_getRelayAuthenticator.
Qed.

Lemma DecodeToken_no_panic data : DecodeToken data ≠ Panic.
Proof.
  unfold DecodeToken, guard_err. zcase; [done|]. cbn [mbind res_bind].
  rewrite !go_slice_ok by lia. cbn [mbind res_bind].
  destruct (go_index_ok data 40 ltac:(lia)) as (sl & -> & _). cbn [mbind res_bind].
  pose proof (Z_of_byte_range sl). zcase; [done|]. cbn [mbind res_bind]. by rewrite go_slice_ok by lia.
Qed.

Lemma safe_relay_authorized Γ data : safe Γ P (relay_authorized data).
Proof using HP.
  unfold relay_authorized. safely; try apply safe_getRelayAuthenticator.
  exfalso. by eapply DecodeToken_no_panic.
Qed.

Lemma parse_relay_ok payload : ∃ x, parse_relay payload = Ok x.
Proof.
  unfold parse_relay. zcase; [by eexists|].
  destruct (go_index_ok payload 0 ltac:(lia)) as (m & -> & _). cbn [mbind res_bind].
  destruct (go_index_ok payload 1 ltac:(lia)) as (al & -> & _). cbn [mbind res_bind].
  pose proof (Z_of_byte_range al). zcase; [by eexists|]. rewrite go_slice_ok by lia. cbn [mbind res_bind].
  destruct (go_index_ok payload (2 + Z_of_byte al) ltac:(lia)) as (tl & -> & _). cbn [mbind res_bind].
  pose proof (Z_of_byte_range tl). zcase; [by eexists|]. rewrite go_slice_ok by lia. cbn [mbind res_bind].
  rewrite go_slice_from_ok by lia. cbn [mbind res_bind]. zcase; by eexists.
Qed.

Lemma safe_handleRelayPacket Γ origin payload : safe Γ P (handleRelayPacket origin payload).
Proof using HP HR.
  unfold handleRelayPacket. safely;
    eauto using safe_relay_authorized, safe_buildRelayPacket, parse_relay_ok, safe_handlePacket;
    apply orb_false_iff in Heqb3 as [? _]; in_bounds.
Qed.

Lemma safe_handleRead_turn Γ probe addr buf : safe Γ P (handleRead_turn probe addr buf).
Proof using HP HR.
  unfold handleRead_turn. safely; eauto using safe_handleRelayPacket, safe_handlePacket.
Qed.

End dispatch.

(** ** Sending *)

Lemma safe_UpgradePeer Γ k id a : 8 ≤ len id → safe Γ P (UpgradePeer k id a).
Proof using HP. intros Hid. unfold UpgradePeer. safely. Qed.

(** The path over KCP exists only where there is a KCP transport. *)
Lemma choose_path_run Γ r n :
  r ∈ c_peers Γ → holds Γ n →
  ∃ x n1, choose_path r n = Some (x, n1) ∧ holds Γ n1 ∧ ext P n n1
  ∧ (∀ id, x = inl (ViaKCP id) → is_Some (kcpTransport n1)).
Proof using HP.
  intros Hr H. destruct (h_peers _ _ H _ Hr) as [p Hp].
  pose proof (wf_ids _ (h_wf _ _ H) _ _ Hp) as Hid.
  unfold choose_path. rewrite (peer_of_bind r p) by done. unfold GetTransportInfo. run.
  destruct (kcpTransport n) as [k|] eqn:Hk.
  - assert (holds (add_kcp Γ) n) as H1 by (apply holds_add_kcp; [done|by rewrite Hk]).
    match goal with |- ∃ x n1, ?m n = _ ∧ _ =>
      assert (safe (add_kcp Γ) P m) as Hsafe by (destruct (Conn p); safely; by apply safe_UpgradePeer) end.
    destruct (Hsafe n H1) as (x & n1 & Hrun & H2 & He). exists x, n1. split_and!; try done.
    + by apply holds_drop_kcp.
    + intros _ _. by apply (h_kcp _ _ H2).
  - match goal with |- ∃ x n1, ?m n = _ ∧ _ =>
      assert (∃ x, m n = Some (x, n) ∧ ∀ id, x ≠ inl (ViaKCP id)) as (x & Hrun & Hx) end.
    { destruct (Conn p), (bool_decide (Transport p = "tcp"%string)); try (eexists; split; [reflexivity|done]);
        destruct (bool_decide _); try (eexists; split; [reflexivity|done]);
        destruct (Peer_Addr p); try (eexists; split; [reflexivity|done]);
        destruct (bool_decide _); (eexists; split; [reflexivity|done]). }
    exists x, n. split_and!; try done; [apply ext_refl|]. intros id E. by destruct (Hx id).
Qed.

Lemma safe_sendFunc Γ path packet :
  (∀ id, path = ViaKCP id → c_kcp Γ = true) → safe Γ P (sendFunc path packet).
Proof using HP.
  intros Hpath. destruct path as [c|id]; [apply safe_writeTCPPacket|]. cbn [sendFunc].
  intros n H. rewrite get_bind. destruct (h_kcp _ _ H (Hpath id eq_refl)) as [k Hk]. rewrite Hk.
  assert (safe Γ P (KCP_Send k id packet)) as Hs by (unfold KCP_Send; safely). by apply Hs.
Qed.

Lemma safe_sendFrame Γ r sr path t d :
  r ∈ c_peers Γ → sr ∈ c_sess Γ → (∀ id, path = ViaKCP id → c_kcp Γ = true) → safe Γ P (sendFrame r sr path t d).
Proof using HP.
  intros Hr Hs Hpath. unfold sendFrame. safely. by apply safe_sendFunc.
Qed.

Lemma safe_send_rest fuel : ∀ Γ max send payload offset,
  (∀ t d, safe Γ P (send t d)) → 0 < max → 0 ≤ offset ≤ len payload →
  (Z.to_nat (len payload - offset) < fuel)%nat → safe Γ P (send_rest fuel max send payload offset).
Proof.
  induction fuel as [|fuel IH]; intros Γ max send payload offset Hs Hm Ho Hf; [lia|].
  cbn [send_rest]. destruct (Z.ltb_spec max (len payload - offset)).
  - safely; [apply Hs|apply IH; [done|done|lia|lia]].
  - safely. apply Hs.
Qed.

Lemma safe_send_fragments Γ max send payload :
  (∀ t d, safe Γ P (send t d)) → 0 < max → safe Γ P (send_fragments max send payload).
Proof.
  intros Hs Hm. unfold send_fragments. destruct (Z.ltb_spec max (len payload)); [|apply Hs].
  safely; [apply Hs|].
  apply safe_send_rest; [done|done|lia|unfold len in *; lia].
Qed.

Lemma safe_sendAppFrame Γ id t data : safe Γ P (sendAppFrame id t data).
Proof using HP.
  unfold sendAppFrame. do 4 (safely_step; cbv beta iota); try apply safe_ret.
  destruct (GetSession p) as [sr|] eqn:Hps; [|apply safe_ret]. unfold GetSession in Hps.
  intros n0 Hn0. destruct (choose_path_run (add_sess (Peer_Session p) (add_peer r Γ)) r n0 ltac:(held) Hn0) as (x & n1 & Hrun & Hn1 & He1 & Hx).
  rewrite (bind_run _ _ _ _ _ Hrun).
  assert (∀ (m : M (option string)), (∃ a n', m n1 = Some (a, n')
      ∧ holds (add_sess (Peer_Session p) (add_peer r Γ)) n' ∧ ext P n1 n') →
    ∃ a n', m n1 = Some (a, n') ∧ holds (add_sess (Peer_Session p) (add_peer r Γ)) n' ∧ ext P n0 n') as Hgo.
  { intros m (a & n' & ? & ? & ?). exists a, n'. split_and!; try done. by eapply ext_trans. }
  apply Hgo. destruct x as [path|e]; [|by apply safe_ret].
  set (Γ1 := add_sess (Peer_Session p) (add_peer r Γ)) in *.
  assert (sr ∈ c_sess Γ1) as Hsr by (unfold Γ1; rewrite Hps; left).
  assert (r ∈ c_peers Γ1) as Hrr by left.
  destruct path as [c|id'].
  - apply safe_send_fragments; [|done|done]. intros. by apply safe_sendFrame.
  - eapply (safe_run Γ1 (add_kcp Γ1)); [|done|intros; apply holds_add_kcp; eauto|apply holds_drop_kcp].
    apply safe_send_fragments; [|done]. intros. by apply safe_sendFrame.
Qed.

Lemma safe_Send Γ ch id data : safe Γ P (Send ch id data).
Proof using HP. unfold Send. safely. apply safe_sendAppFrame. Qed.

Lemma safe_Broadcast Γ ch data : safe Γ P (Broadcast ch data).
Proof using HP.
  unfold Broadcast. safely_step. generalize 0. induction (GetPeersInChannel n ch) as [|id ids IH]; intros k;
    cbn [broadcast_to]; safely; [apply safe_Send|apply IH].
Qed.

Lemma safe_syncChannels Γ id : 8 ≤ len id → safe Γ P (syncChannelsWithPeer id).
Proof using HP.
  intros Hid. unfold syncChannelsWithPeer. safely_step.
  induction (Channels (n_Config n)) as [|ch chs IH]; cbn [sync_each]; safely; [apply safe_sendAppFrame|done].
Qed.

Lemma safe_go_each Γ ids payload : safe Γ P (go_each ids payload).
Proof using HP. induction ids as [|id ids IH]; cbn [go_each]; safely; done. Qed.

Lemma safe_broadcastChannelUpdate Γ op hash : safe Γ P (broadcastChannelUpdate op hash).
Proof using HP. unfold broadcastChannelUpdate. safely. apply safe_go_each. Qed.

(** ** Background work *)

Lemma safe_sendFastRehandshake Γ r : r ∈ c_peers Γ → safe Γ P (sendFastRehandshake r).
Proof using HP.
  intros Hr. unfold sendFastRehandshake. safely; try apply safe_sendRaw.
  exfalso. by eapply NewInitiatorHandshake_no_panic.
Qed.

Lemma safe_run_rehandshake Γ id r : r ∈ c_peers Γ → safe Γ P (run_rehandshake id r).
Proof using HP.
  intros Hr. unfold run_rehandshake. safely;
    eauto using safe_sendFastRehandshake, safe_removePeerWithReconnect.
Qed.

Lemma safe_sendHeartbeats Γ : safe Γ P sendHeartbeats.
Proof using HP.
  unfold sendHeartbeats. safely_step. revert Γ.
  induction (PeerStore_IDs (Peers n)) as [|id ids IH]; intros Γ; cbn [send_heartbeats_to]; safely;
    try apply safe_sendRaw; apply IH.
Qed.

Lemma safe_checkHeartbeatTimeouts Γ : safe Γ P checkHeartbeatTimeouts.
Proof using HP.
  unfold checkHeartbeatTimeouts. do 2 safely_step; [apply safe_now|]. revert Γ.
  induction (PeerStore_IDs (Peers n)) as [|id ids IH]; intros Γ; cbn [check_timeouts]; safely;
    try apply safe_removePeerWithReconnect; apply IH.
Qed.

Lemma safe_cleanup Γ : safe Γ P cleanupStaleMappings.
Proof using HP. unfold cleanupStaleMappings, cleanup. safely. Qed.

(** ** Connecting *)

Lemma safe_new_initiator {B} Γ (f : res (HandshakeState * bytes) → M B) :
  (∀ x, x ≠ Panic → safe Γ P (f x)) → safe Γ P (new_initiator ≫= f).
Proof using HP.
  intros Hf n H. unfold new_initiator. rewrite bind_assoc, get_bind, bind_assoc, draw_bind, bind_assoc, now_bind, ret_bind.
  destruct (Hf (NewInitiatorHandshake (NoisePrivateKey (n_Identity n)) (NoisePublicKey (n_Identity n))
      (NetworkPassword (n_Config n)) (entropy (n_draws n)) (Unix (clock (n_ticks n)))) (NewInitiatorHandshake_no_panic _ _ _ _ _)
    (n <| n_draws ::= S |> <| n_ticks ::= S |>)) as (b & n' & Hrun & H' & He); [|by exists b, n'].
  destruct H as [[Hst Hid Hse Hre Hta] Hpe Hss Hch Hk Hown]. by split; [split|..].
Qed.

Lemma safe_connectViaRelay Γ a : safe Γ P (connectViaRelay a).
Proof using HP.
  unfold connectViaRelay. safely_step. destruct (n_relayManager n) as [rm|] eqn:Hrm; [|apply safe_ret].
  destruct (resolve_udp a); [|apply safe_ret].
  pose proof (wf_relay _ H rm Hrm) as Hwf.
  assert (∀ r, SelectBestRelay rm (map_to_list (relays rm)) = Ok r → is_Some (infos rm !! r)) as Hsel.
  { intros r. unfold SelectBestRelay. case_bool_decide; [done|].
    pose proof (better_fold rm (map_to_list (relays rm)) None (Float64.f64_of_Z (-1))) as Hb.
    destruct (foldl _ _ _) as [b s]. destruct Hb as [_ [[-> _]|(e & He & -> & _)]]; [done|].
    intros [= <-]. destruct e as [id r']. apply elem_of_map_to_list in He. cbn [snd].
    destruct (Hwf _ _ He) as (info & -> & _). by eexists. }
  assert (SelectBestRelay rm (map_to_list (relays rm)) ≠ Panic) as Hnp.
  { unfold SelectBestRelay. case_bool_decide; [done|]. by destruct (foldl _ _ _).1. }
  destruct (SelectBestRelay _ _) as [r|e|]; [|apply safe_ret|done].
  destruct (Hsel r eq_refl) as [relay ->]. apply safe_new_initiator. intros x Hx. safely.
  apply safe_buildRelayPacket.
Qed.

Lemma safe_connect_timed_out Γ ra err : safe Γ P (connect_timed_out ra err).
Proof using HP. unfold connect_timed_out. safely. apply safe_connectViaRelay. Qed.

Lemma safe_awaitConnectResult Γ ra u up tp evs : ∀ err, safe Γ P (awaitConnectResult ra u up tp err evs).
Proof using HP.
  induction evs as [|ev evs IH]; intros err; cbn [awaitConnectResult]; [apply safe_connect_timed_out|].
  destruct ev; unfold scheduleRelayFallback; safely;
    eauto using safe_writeTCPPacket, safe_connect_timed_out.
Qed.

Lemma safe_connectContext Γ a evs : safe Γ P (connectContext a evs).
Proof using HP.
  unfold connectContext, resolveConnectAddrs. apply safe_bind; [safely|]. intros [[u t]|]; [|apply safe_ret].
  apply safe_bind.
  - unfold buildInitiatorHandshakePackets. apply safe_new_initiator. intros x Hx. destruct x as [[h m]| |]; [|safely|done].
    apply safe_new_initiator. intros y Hy. safely.
  - intros [[[[us ts] up] tp]|]; [|apply safe_ret]. unfold registerPendingHandshakes.
    safely. apply safe_awaitConnectResult.
Qed.

Lemma safe_reconnect_turn Γ r pc env : safe Γ P (reconnect_turn r pc env).
Proof using HP.
  unfold reconnect_turn, turn_from, turn_top, turn_attempt, node_reconnect_success, node_reconnect_failed,
    start_callback, on_manager. safely. all: apply safe_connectContext.
Qed.

Lemma safe_run_task Γ env t : task_held Γ t → safe Γ P (run_task env t).
Proof using HP.
  intros Ht. destruct t; cbn [run_task task_held] in *;
    unfold run_channel_update, endDiscoveryConnect, awaitLateTCPUpgrade; safely;
    eauto using safe_syncChannels, safe_sendDiscoveryRequest, safe_run_rehandshake, safe_connectContext,
      safe_sendAppFrame, safe_connectViaRelay, safe_writeTCPPacket.
Qed.

(** ** Shutdown *)

Lemma keeps_SetState Γ p st now : keeps Γ p (SetState p st now).
Proof. unfold keeps, SetState. destruct (_ && _); cbn; auto. Qed.

Lemma safe_GracefulStop Γ : safe Γ P GracefulStop.
Proof using HP.
  unfold GracefulStop, KCP_Close. safely.
  - revert Γ. induction (PeerStore_IDs (Peers n)) as [|id ids IH]; intros Γ; cbn [say_goodbye]; safely;
      try apply safe_sendRaw; try apply keeps_SetState; apply IH.
  - induction ((map_to_list (kcp_sessions k)).*2) as [|x l IH]; cbn [close_kcp_sessions]; safely; done.
  - generalize dependent n. intros n _ _. revert Γ.
    induction (PeerStore_IDs (Peers n)) as [|id ids IH]; intros Γ; cbn [close_peers]; safely; apply IH.
Qed.

End handlers.
