(* ===== verification/NodeReach.v ===== *)
(** * What every run of a node keeps

    The node as a transition system: construction, the start sequence, and then
    any sequence of packets, started goroutines, timers and calls of the
    application.  No step panics in any reachable state, and the only way data
    reaches the application is a data packet that the session of the peer behind
    the source address opens, on a subscribed channel. *)

From stdpp Require Import relations.
From S2P Require Import Identity.
From S2P Require Import Prelude Protocol Stream Sha256 Session Peer RelayAuth RelayManager Metrics Reconnect.
From S2P Require Import Config Probe NodeState NodeChannel NodeHeartbeat NodeRecv NodeHandshake NodeDiscovery.
From S2P Require Import NodeDispatch NodeConnect NodeReconnect NodeLife NodeTransfer NodeSafety.

(** ** Reachable states *)

Section reach.
Context {NL : Noise} {W : World}.

Definition anything (e : effect) : Prop := True.

Lemma node_wf_ctx n : node_wf n → holds (MkCtx [] [] (localChannelSet n) false (n_Identity n)) n.
Proof. intros H. split; try done; intros ? []%elem_of_nil. Qed.

(** A handler that is safe without holding anything. *)
Lemma safe_wf {A} (m : M A) n :
  node_wf n → (∀ Γ, safe Γ anything m) → ∃ a n', m n = Some (a, n') ∧ node_wf n' ∧ n_Identity n' = n_Identity n.
Proof.
  intros H Hm. destruct (Hm _ n (node_wf_ctx n H)) as (a & n' & ? & H' & _). exists a, n'. split; [done|].
  split; apply H'.
Qed.

(** Changing the subscriptions leaves the invariant alone. *)
Lemma node_wf_frame n n1 :
  node_wf n → Peers n1 = Peers n → peer_heap n1 = peer_heap n → n_log n1 = n_log n →
  sess_heap n1 = sess_heap n → n_relayManager n1 = n_relayManager n → node_wf n1.
Proof.
  intros [Hst Hid Hse Hre Hta] E1 E2 E3 E4 E5. split; rewrite ?E1, ?E2, ?E3, ?E4, ?E5; try done.
  intros t Ht. specialize (Hta t Ht). destruct t; cbn in *; rewrite ?E2; done.
Qed.

(** The callbacks an application registers, before or after [Start]. *)
Inductive registration :=
| RegReceive (set : bool)
| RegPeerConnected (set : bool)
| RegPeerDisconnected (set : bool)
| RegReconnecting (handler : option HandlerRef)
| RegReconnected (handler : option HandlerRef)
| RegGaveUp (handler : option HandlerRef).

Definition register (n : Node) (r : registration) : Node :=
  match r with
  | RegReceive set => Node_OnReceive set n
  | RegPeerConnected set => Node_OnPeerConnected set n
  | RegPeerDisconnected set => Node_OnPeerDisconnected set n
  | RegReconnecting h => Node_OnReconnecting h n
  | RegReconnected h => Node_OnReconnected h n
  | RegGaveUp h => Node_OnGaveUp h n
  end.

(** The entry points of the node: datagrams and stream packets of any content
    from any address, the goroutines its handlers started, the timers, and the
    calls of the application that may change its state. *)
Inductive node_input :=
| InDatagram (probe : bytes → option bytes) (addr : Addr) (buf : bytes)
| InStream (conn : option ConnRef) (addr : Addr) (transport : string) (stream : list (byte * bytes))
| InTask (env : task_env) (t : task)
| InHeartbeat
| InTimeouts
| InCleanup
| InSend (channel peerID : gostring) (data : bytes)
| InBroadcast (channel : gostring) (data : bytes)
| InConnect (addr : gostring) (evs : list connect_event)
| InJoin (name : gostring)
| InLeave (name : gostring)
| InReconnect (r : EntryRef) (pc : loop_pc) (env : turn_env)
| InRegister (r : registration)
| InCancelReconnect (peerID : gostring)
| InCancelAll
| InMetrics
| InStop.

Definition forget {A} (m : M A) : M unit := _ ← m; mret ().

Definition handle_input (i : node_input) : M unit :=
  match i with
  | InDatagram probe addr buf => handleRead_turn probe addr buf
  | InStream conn addr transport ps => dispatch_all conn addr transport ps
  | InTask env t => run_task env t
  | InHeartbeat => sendHeartbeats
  | InTimeouts => checkHeartbeatTimeouts
  | InCleanup => cleanupStaleMappings
  | InSend channel peerID data => forget (Send channel peerID data)
  | InBroadcast channel data => forget (Broadcast channel data)
  | InConnect addr evs => forget (connectContext addr evs)
  | InJoin name => JoinChannel name
  | InLeave name => LeaveChannel name
  | InReconnect r pc env => forget (reconnect_turn r pc env)
  | InRegister r => modify (λ n, register n r)
  | InCancelReconnect peerID => Node_CancelReconnect peerID
  | InCancelAll => CancelAllReconnects
  | InMetrics => forget GetMetrics
  | InStop => GracefulStop
  end.

(** A goroutine runs only if it was started. *)
Definition enabled (n : Node) (i : node_input) : Prop :=
  match i with InTask _ t => Go t ∈ n_log n | _ => True end.

Lemma safe_forget {A} Γ P (m : M A) : safe Γ P m → safe Γ P (forget m).
Proof. intros H. apply safe_bind; [done|]. intros. apply safe_ret. Qed.

Lemma register_wf n r : node_wf n → node_wf (register n r) ∧ n_Identity (register n r) = n_Identity n.
Proof. intros Hn. destruct r; (split; [by apply (node_wf_frame n)|done]). Qed.

Lemma registered_wf n regs :
  node_wf n → node_wf (foldl register n regs) ∧ n_Identity (foldl register n regs) = n_Identity n.
Proof.
  revert n. induction regs as [|r regs IH]; intros n Hn; cbn [foldl]; [done|].
  destruct (register_wf n r Hn) as [Hn' Hid]. destruct (IH _ Hn') as [H1 H2]. by rewrite H2.
Qed.

Lemma handle_input_wf n i :
  node_wf n → enabled n i → ∃ n', handle_input i n = Some ((), n') ∧ node_wf n' ∧ n_Identity n' = n_Identity n.
Proof.
  intros Hwf Hen.
  assert (∀ e, silent e → anything e) as HP by done.
  assert (∀ m : M unit, (∃ a n', m n = Some (a, n') ∧ node_wf n' ∧ n_Identity n' = n_Identity n) →
    ∃ n', m n = Some ((), n') ∧ node_wf n' ∧ n_Identity n' = n_Identity n) as Hu
    by (intros m ([] & n' & ? & ?); eauto).
  apply Hu. destruct i as [probe a buf|c a tr ps|env t| | | |ch id d|ch d|a evs|name|name|er pc env|reg|id| | |]; cbn [handle_input].
  - apply safe_wf; [done|]. intros. by apply safe_handleRead_turn.
  - apply safe_wf; [done|]. intros. by apply safe_dispatch_all.
  - pose proof (wf_tasks _ Hwf t Hen) as Ht.
    set (Γ := MkCtx (match t with TaskDiscoveryRequest r | TaskRehandshake _ r => [r] | _ => [] end) []
                    (localChannelSet n) false (n_Identity n)).
    destruct (safe_run_task anything HP Γ env t) with (n := n) as (a & n' & Hrun & H' & _).
    + destruct t; cbn in *; try done; by left.
    + split; try done; cbn; [|by intros ? []%elem_of_nil].
      intros r. destruct t; cbn in *; try (by intros []%elem_of_nil); by intros ->%list_elem_of_singleton.
    + exists a, n'. split; [done|]. split; apply H'.
  - apply safe_wf; [done|]. intros. by apply safe_sendHeartbeats.
  - apply safe_wf; [done|]. intros. by apply safe_checkHeartbeatTimeouts.
  - apply safe_wf; [done|]. intros. by apply safe_cleanup.
  - apply safe_wf; [done|]. intros. by apply safe_forget, safe_Send.
  - apply safe_wf; [done|]. intros. by apply safe_forget, safe_Broadcast.
  - apply safe_wf; [done|]. intros. by apply safe_forget, safe_connectContext.
  - unfold JoinChannel. rewrite get_bind. case_bool_decide; [by exists (), n|]. rewrite modify_bind.
    match goal with |- context [broadcastChannelUpdate ?o ?h ?n1] =>
      destruct (safe_wf (broadcastChannelUpdate o h) n1) as (a & n' & ? & ? & ?);
        [by eapply node_wf_frame|intros; by apply safe_broadcastChannelUpdate|by exists a, n'] end.
  - unfold LeaveChannel. rewrite get_bind. case_bool_decide; [|by exists (), n]. rewrite modify_bind.
    match goal with |- context [broadcastChannelUpdate ?o ?h ?n1] =>
      destruct (safe_wf (broadcastChannelUpdate o h) n1) as (a & n' & ? & ? & ?);
        [by eapply node_wf_frame|intros; by apply safe_broadcastChannelUpdate|by exists a, n'] end.
  - apply safe_wf; [done|]. intros. by apply safe_forget, safe_reconnect_turn.
  - eexists (), _. split; [reflexivity|]. by apply register_wf.
  - eexists (), _. split; [reflexivity|]. split; [|done]. by apply (node_wf_frame n).
  - eexists (), _. split; [reflexivity|]. split; [|done]. by apply (node_wf_frame n).
  - apply safe_wf; [done|]. intros. apply safe_forget. unfold GetMetrics. safely.
  - apply safe_wf; [done|]. intros. by apply safe_GracefulStop.
Qed.

(** [heartbeatLoop]: what its [select] takes. *)
Inductive heartbeat_event := HeartbeatTick | CleanupTick | LoopClosing.

Fixpoint heartbeatLoop (evs : list heartbeat_event) : M unit :=
  match evs with
  | [] | LoopClosing :: _ => mret ()
  | HeartbeatTick :: evs' => _ ← sendHeartbeats; _ ← checkHeartbeatTimeouts; heartbeatLoop evs'
  | CleanupTick :: evs' => _ ← cleanupStaleMappings; heartbeatLoop evs'
  end.

Lemma heartbeatLoop_wf evs n : node_wf n → ∃ n', heartbeatLoop evs n = Some ((), n') ∧ node_wf n'.
Proof.
  intros Hwf. assert (∀ e, silent e → anything e) as HP by done.
  destruct (safe_wf (heartbeatLoop evs) n Hwf) as ([] & n' & ? & ? & _); [|by exists n'].
  intros Γ. induction evs as [|[| |] evs IH]; cbn [heartbeatLoop]; try apply safe_ret;
    repeat (apply safe_bind; [|intros _]); by eauto using safe_sendHeartbeats, safe_checkHeartbeatTimeouts, safe_cleanup.
Qed.

Definition node_step (n n' : Node) : Prop := ∃ i, enabled n i ∧ handle_input i n = Some ((), n').

Lemma reachable_wf n n' : node_wf n → rtc node_step n n' → node_wf n'.
Proof.
  intros Hwf Hrun. induction Hrun as [|n1 n2 n3 (i & Hen & Hi) _ IH]; [done|].
  destruct (handle_input_wf n1 i Hwf Hen) as (n2' & Hi' & Hwf' & _). apply IH. congruence.
Qed.

(** ** Construction and start *)

Lemma NewNode_wf opts generated now n :
  NewNode opts generated now = Ok n → node_wf n.
Proof.
  unfold NewNode. case_bool_decide; [done|]. destruct (match cfg_Identity _ with Some _ => _ | None => _ end); [|done].
  intros [= <-]. split; cbn; try (intros *; by rewrite lookup_empty); try done. by intros t []%elem_of_nil.
Qed.

Lemma add_static_relays_run addrs : ∀ rm n, node_wf n → rm_wf rm →
  ∃ rm' n', add_static_relays addrs rm n = Some (rm', n') ∧ rm_wf rm' ∧ node_wf n'
  ∧ localPeerID n' = localPeerID n ∧ n_Identity n' = n_Identity n.
Proof.
  induction addrs as [|a addrs IH]; intros rm n Hn Hrm; cbn [add_static_relays].
  { exists rm, n. by split_and!. }
  destruct (resolve_udp a) as [ra|]; [|by apply IH]. run.
  match goal with |- context [add_static_relays addrs ?rm1 ?n1] => destruct (IH rm1 n1) as (rm' & n' & ? & ? & ? & ? & ?) end.
  - by eapply node_wf_frame.
  - by apply AddRelay_wf.
  - exists rm', n'. by split_and!.
Qed.

Lemma node_wf_relay n rm n1 :
  node_wf n → rm_wf rm → Peers n1 = Peers n → peer_heap n1 = peer_heap n → n_log n1 = n_log n →
  sess_heap n1 = sess_heap n → n_relayManager n1 = Some rm → node_wf n1.
Proof.
  intros [Hst Hid Hse Hre Hta] Hrm E1 E2 E3 E4 E5. split; rewrite ?E1, ?E2, ?E3, ?E4, ?E5; try done; [by intros ? [= <-]|].
  intros t Ht. specialize (Hta t Ht). destruct t; cbn in *; rewrite ?E2; done.
Qed.

Lemma startRelay_run n :
  node_wf n → ∃ rm n', startRelay n = Some ((), n' <| n_relayManager := Some rm |>) ∧ rm_wf rm ∧ node_wf n'
  ∧ localPeerID n' = localPeerID n ∧ n_Identity n' = n_Identity n.
Proof.
  intros Hn. unfold startRelay. rewrite get_bind.
  destruct (add_static_relays_run (RelayNodes (n_Config n)) NewRelayManager n) as (rm & n2 & Hrun & ? & ? & ? & ?);
    [done|apply NewRelayManager_wf|].
  exists rm, n2. by rewrite (bind_run _ _ _ _ _ Hrun).
Qed.

Lemma startReconnectManager_run n :
  startReconnectManager n
  = Some ((), n <| n_reconnectManager := if EnableReconnect (n_Config n)
                 then Some (new_manager n) else n_reconnectManager n |>).
Proof. unfold startReconnectManager. rewrite get_bind. destruct n; cbn. by destruct (EnableReconnect _). Qed.

Lemma node_wf_log e n : match e with Go (TaskLoop _) => True | Go _ => False | _ => True end →
  node_wf n → node_wf (n <| n_log ::= λ l, l ++ [e] |>).
Proof.
  intros He Hn. apply (h_wf (MkCtx [] [] (localChannelSet n) false (n_Identity n))), holds_log; [|by apply node_wf_ctx]. by destruct e as [| | | | | | | | | | | |[]].
Qed.

Lemma Start_wf udp_ok tcp_ok kcp_ok n :
  node_wf n → len (id_ID (n_Identity n)) = 16 →
  ∃ err n', Start udp_ok tcp_ok kcp_ok n = Some (err, n') ∧ node_wf n' ∧ n_Identity n' = n_Identity n.
Proof.
  intros Hn Hid. unfold Start. assert (8 ≤ len (Node_ID n)) as Hlen by (unfold Node_ID; rewrite len_hex; lia).
  destruct udp_ok; [|exists (Some "listen udp failed"%string), n; done].
  erewrite bind_run by reflexivity. cbv beta iota.
  destruct tcp_ok; [|eexists _, _; split; [reflexivity|split; [by eapply node_wf_frame; [apply (node_wf_log MuxClose n)|..]|done]]].
  erewrite bind_run by reflexivity. cbv beta iota.
  match goal with |- context [(startRelay ≫= _) ?n1] => 
    destruct (startRelay_run n1) as (rm & n2 & Hrun & Hrm & Hn2 & Hlp & Hown); [by eapply node_wf_frame|] end.
  rewrite (bind_run _ _ _ _ _ Hrun).
  erewrite bind_run by reflexivity. rewrite (bind_run _ _ _ _ _ (startReconnectManager_run _)). unfold startBackgroundLoops.
  do 3 rewrite ?bind_assoc, go_bind. rewrite get_bind.
  unfold short8. cbn in Hlp |- *. rewrite Hlp, go_slice_ok by lia.
  eexists _, _. split; [reflexivity|]. split; [|done].
  do 3 (apply node_wf_log; [done|]). by eapply node_wf_relay.
Qed.

(** C3: No handler of the node panics.  A node built from any options, with any callbacks
    registered, starts without a panic, whatever sockets fail to open, and in every state
    its handlers can bring it to afterwards (any packets from anyone, any order of started
    goroutines, reconnect turns and timers, any sends, broadcasts, connects, joins,
    leaves, registrations of callbacks, cancellations and stops by the application) every
    further input is handled to its end without a panic and the invariant holds
    again: every stored peer exists and carries its own identifier, every session a peer
    refers to exists.  A handler is one step here, and the mux's own read loop and the
    prober's parser are not handlers of the node: they are in [UdpRead], where the one
    panic of the mux is. *)
Theorem node_never_panics opts generated now n0 regs udp_ok tcp_ok kcp_ok :
  NewNode opts generated now = Ok n0 → len (id_ID (n_Identity n0)) = 16 →
  ∃ err n1, Start udp_ok tcp_ok kcp_ok (foldl register n0 regs) = Some (err, n1)
  ∧ ∀ n i, rtc node_step n1 n → enabled n i →
      ∃ n', handle_input i n = Some ((), n') ∧ node_wf n'.
Proof.
  intros Hnew Hid. destruct (registered_wf n0 regs) as [Hreg Hown]; [by eapply NewNode_wf|].
  destruct (Start_wf udp_ok tcp_ok kcp_ok (foldl register n0 regs)) as (err & n1 & Hs & Hwf & _); [done|by rewrite Hown|].
  exists err, n1. split; [done|]. intros n i Hrun Hen.
  destruct (handle_input_wf n i) as (n' & ? & ? & _); [by eapply reachable_wf|done|]. by exists n'.
Qed.

End reach.

(** ** Where delivered data comes from *)

(** What makes the opened frame [t, frame] of the peer [p] the user data [d] of
    the channel [hash]: it is the whole application frame, or the last fragment
    of the one in the reassembly buffer. *)
Definition completes (p : Peer) (t : byte) (frame hash d : bytes) : Prop :=
  len hash = 32 ∧
  ((t = FrameTypeSingle ∧ frame = AppFrameTypeUserWithChannel :: hash ++ d)
   ∨ (t = FrameTypeLast ∧ ∃ buf, ReassemblyBuffer p = Some buf ∧ len buf + len frame ≤ MaxReassemblySize
        ∧ buf ++ frame = AppFrameTypeUserWithChannel :: hash ++ d)).

Section authentic.
Context {NL : Noise} {W : World}.

(** [m] run in [n] returns and has only effects that satisfy [P]. *)
Definition yields (n : Node) (P : effect → Prop) (m : M unit) : Prop :=
  ∃ n', m n = Some ((), n') ∧ ext P n n'.

Lemma safe_yields Γ P m n : safe Γ P m → holds Γ n → yields n P m.
Proof. intros Hm Hn. destruct (Hm n Hn) as ([] & n' & ? & _ & ?). by exists n'. Qed.

(** A step that leaves the log alone may be done first. *)
Lemma yields_from n n1 P m m1 :
  m n = m1 n1 → n_log n1 = n_log n → yields n1 P m1 → yields n P m.
Proof. intros E Hl (n' & Hm & l & Hl' & HP). exists n'. rewrite E. split; [done|]. exists l. by rewrite Hl', Hl. Qed.

Lemma handle_frame_yields Γ P n id r p t frame :
  (∀ e, silent e → P e) → holds Γ n → r ∈ c_peers Γ → peer_heap n !! r = Some p → 8 ≤ len id →
  (∀ hash d, completes p t frame hash d → hash ∈ c_channels Γ → P (OnReceive id d)) →
  yields n P (handle_frame id r t frame).
Proof.
  intros HP Hn Hr Hp Hid Hrec. unfold handle_frame. case_bool_decide as Ht.
  { eapply safe_yields; [|done]. apply safe_bind.
    - apply safe_update_peer; [done|]. intros ?. split; cbn; auto.
    - intros _. apply safe_handleAppFrame; [done..|]. intros hash d -> Hh Hc.
      apply (Hrec hash); [|done]. split; [done|]. by left. }
  case_bool_decide. { eapply safe_yields; [|done]. safely. }
  case_bool_decide. { eapply safe_yields; [|done]. safely. }
  case_bool_decide as Hl; [|eapply safe_yields; [apply safe_ret|done]].
  eapply yields_from; [by apply on_peer_bind|done|].
  pose proof (keeps_Finish Γ p frame MaxReassemblySize) as Hk.
  assert (∀ n', holds Γ n' → peer_heap n' !! r = Some p → holds Γ (n' <| peer_heap ::= <[r := (FinishReassembly p frame MaxReassemblySize).1]> |>)) as Hput.
  { intros n' Hn' Hp'. by eapply holds_put_peer. }
  eapply safe_yields; [|by apply Hput]. revert Hrec. unfold FinishReassembly.
  destruct (ReassemblyBuffer p) as [buf|] eqn:Hb; [|intros; apply safe_ret]. intros Hrec.
  destruct (Z.ltb_spec MaxReassemblySize (len buf + len frame)); [apply safe_ret|]. cbn [snd].
  apply safe_handleAppFrame; [done..|]. intros hash d Hd Hh Hc. apply (Hrec hash); [|done].
  split; [done|]. right. split; [done|]. by exists buf.
Qed.

(** Packets of any other type never reach the application. *)
Lemma handlePacket_silent Γ conn addr transport t payload :
  t ≠ PacketTypeData → safe Γ silent (handlePacket conn addr transport t payload).
Proof.
  intros Ht. assert (∀ e, silent e → silent e) as HP by done. unfold handlePacket.
  repeat case_bool_decide; try done; try apply safe_ret;
    eauto using safe_processHandshake, safe_processDiscoveryRequest, safe_processDiscoveryResponse,
      safe_processHeartbeat, safe_touch_source.
Qed.

(** Handling a plaintext once it is opened. *)
Lemma opened_yields Γ P n id r p plaintext :
  (∀ e, silent e → P e) → holds Γ n → r ∈ c_peers Γ → peer_heap n !! r = Some p → 8 ≤ len id →
  (∀ t frame hash d, plaintext = t :: frame → completes p t frame hash d → hash ∈ c_channels Γ → P (OnReceive id d)) →
  yields n P (_ ← update_peer r ResetDecryptFailures;
              match plaintext with
              | [] => mret ()
              | frameType :: frameData =>
                  _ ← update_peer r (λ p, AddBytesReceived p (len frameData));
                  _ ← count (λ c, Collector_AddBytesReceived c (len frameData));
                  handle_frame id r frameType frameData
              end).
Proof.
  intros HP Hn Hr Hp Hid Hrec.
  eapply yields_from; [by apply update_peer_bind|done|].
  set (p1 := ResetDecryptFailures p). set (n1 := n <| peer_heap ::= _ |>).
  assert (holds Γ n1) as H1 by (eapply holds_put_peer; [done..|split; cbn; auto]).
  destruct plaintext as [|t frame]; [eapply safe_yields; [apply safe_ret|done]|].
  assert (peer_heap n1 !! r = Some p1) as Hp1 by apply lookup_insert_eq.
  eapply yields_from; [by apply update_peer_bind|done|].
  set (p2 := AddBytesReceived p1 (len frame)). set (n2 := n1 <| peer_heap ::= _ |>).
  assert (holds Γ n2) as H2 by (eapply holds_put_peer; [done..|split; cbn; auto]).
  destruct (safe_count Γ P (λ c, Collector_AddBytesReceived c (len frame)) n2 H2) as (u & n3 & Hc & H3 & _).
  unfold count, modify in Hc. injection Hc as <- <-.
  eapply yields_from; [by apply count_bind|done|].
  eapply (handle_frame_yields Γ _ _ _ _ p2); try done; [apply lookup_insert_eq|].
  intros hash d Hcomp. by eapply Hrec.
Qed.

(** The data packet [payload] from [addr] carries [d] from the peer [id]. *)
Definition carries (n : Node) (addr : Addr) (payload : bytes) (id : gostring) (d : bytes) : Prop :=
  ∃ r p sr s s' t frame hash,
    addrToPeer n !! a_str addr = Some id ∧ Peers n !! id = Some r ∧ peer_heap n !! r = Some p ∧ ID p = id
    ∧ Peer_Session p = Some sr ∧ sess_heap n !! sr = Some s ∧ Session_Decrypt s payload = (s', Ok (t :: frame))
    ∧ hash ∈ localChannelSet n ∧ completes p t frame hash d.

Definition only_carried (n : Node) (addr : Addr) (payload : bytes) (e : effect) : Prop :=
  match e with OnReceive id d => carries n addr payload id d | _ => True end.

Lemma silent_only_carried n addr payload e : silent e → only_carried n addr payload e.
Proof. by destruct e. Qed.

Lemma holds_one_peer n r p : node_wf n → peer_heap n !! r = Some p →
  holds (MkCtx [r] [] (localChannelSet n) false (n_Identity n)) n.
Proof.
  intros Hn Hp. split; try done; cbn; [|by intros ? []%elem_of_nil]. by intros ? ->%list_elem_of_singleton.
Qed.

Lemma processData_yields n addr payload :
  node_wf n → yields n (only_carried n addr payload) (processData addr payload).
Proof.
  intros Hn. pose proof (silent_only_carried n addr payload) as HP.
  assert (yields n (only_carried n addr payload) (mret ())) as Hret by (exists n; split; [done|apply ext_refl]).
  unfold processData. eapply yields_from; [apply get_bind|done|].
  destruct (addrToPeer n !! a_str addr) as [id|] eqn:Ha; [|done].
  eapply yields_from; [apply get_peer_bind|done|].
  destruct (Peers n !! id) as [r|] eqn:Hr; [|done].
  destruct (wf_store _ Hn _ _ Hr) as (p & Hp & Hi). pose proof (wf_ids _ Hn _ _ Hp) as Hid. rewrite Hi in Hid.
  pose proof (holds_one_peer n r p Hn Hp) as Hh. set (Γ := MkCtx _ _ _ _ _) in Hh.
  assert (r ∈ c_peers Γ) as HrΓ by by left.
  assert (peer_decrypt r payload n
    = Some ((Peer_Decrypt p (sess_heap n) payload).2, n <| sess_heap := (Peer_Decrypt p (sess_heap n) payload).1 |>)) as Hd.
  { unfold peer_decrypt. rewrite Hp. by destruct (Peer_Decrypt _ _ _). }
  eapply yields_from; [by apply (bind_run _ _ _ _ _ Hd)|done|]. clear Hd. unfold Peer_Decrypt.
  destruct (Peer_Session p) as [sr|] eqn:Hps; cbn.
  2:{ eapply safe_yields; [by apply safe_decrypt_failed|]. by destruct n. }
  destruct (sess_heap n !! sr) as [s|] eqn:Hs; cbn.
  2:{ eapply safe_yields; [by apply safe_decrypt_failed|]. by destruct n. }
  destruct (Session_Decrypt s payload) as [s' out] eqn:Hdec. cbn.
  assert (holds Γ (n <| sess_heap := <[sr := s']> (sess_heap n) |>)) as H1 by (by eapply (holds_put_sess Γ sr)).
  destruct out as [plaintext|e|].
  - eapply opened_yields; [done|exact H1|done|exact Hp|done|].
    intros t frame hash d -> Hcomp Hc. exists r, p, sr, s, s', t, frame, hash. by split_and!.
  - eapply safe_yields; [by apply safe_decrypt_failed|exact H1].
  - exfalso. revert Hdec. unfold Session_Decrypt. repeat case_match; congruence.
Qed.

(** Every delivery of a packet is carried by it. *)
Lemma handlePacket_carries n conn addr transport packetType payload :
  node_wf n →
  ∃ n' l, handlePacket conn addr transport packetType payload n = Some ((), n')
  ∧ n_log n' = n_log n ++ l
  ∧ ∀ id d, OnReceive id d ∈ l → packetType = PacketTypeData ∧ carries n addr payload id d.
Proof.
  intros Hn. destruct (decide (packetType = PacketTypeData)) as [->|Ht].
  - destruct (processData_yields n addr payload Hn) as (n' & Hrun & l & Hl & HP). exists n', l. split_and!; try done.
    intros id d Hin. split; [done|]. rewrite Forall_forall in HP. by apply (HP (OnReceive id d)).
  - destruct (safe_yields _ _ _ _ (handlePacket_silent _ conn addr transport packetType payload Ht) (node_wf_ctx n Hn))
      as (n' & Hrun & l & Hl & HP). exists n', l. split_and!; try done.
    intros id d Hin. rewrite Forall_forall in HP. by destruct (HP _ Hin).
Qed.

(** C4: The application only receives what an authenticated peer sent.  Any
    packet of any type, from any address, over any transport, leads to deliveries
    only if it is a data packet, the source address belongs to a known peer, that
    peer's session opens the ciphertext, the fragment completes a user frame
    within the reassembly limit, and the node subscribes to the frame's channel;
    the delivery then carries that peer's identifier and the frame's data. *)
Theorem delivery_authentic n conn addr transport packetType payload :
  node_wf n →
  ∃ n' l, handlePacket conn addr transport packetType payload n = Some ((), n')
  ∧ n_log n' = n_log n ++ l
  ∧ ∀ id d, OnReceive id d ∈ l → packetType = PacketTypeData ∧ carries n addr payload id d.
Proof. apply handlePacket_carries. Qed.
End authentic.

(** ** Concrete runs *)

Module ReachWitness.
Import ToyNoise TransferWitness.

Definition own_identity : Identity := MkIdentity (key x0a ++ key x0a) (key x0a) (key x0a) (key x0a) (replicate 16 x0a).

(** A node with a password and an identity of its own. *)
Definition own_opts : list Option := [WithNetworkPassword (str "pw"); WithIdentity (Some own_identity)].

Definition own_node : Node :=
  match NewNode own_opts None 0 with
  | Ok n => n
  | _ => demo_node x0b (str "node-aaaa") toy_session (str "chat")
  end.

Lemma own_node_new : NewNode own_opts None 0 = Ok own_node.
Proof.
  unfold own_node. destruct (NewNode own_opts None 0) as [n| |] eqn:E; [reflexivity|exfalso..]; revert E;
    unfold NewNode, own_opts; cbn [foldl]; case_bool_decide as Hv; (discriminate || (destruct Hv; vm_compute; reflexivity)).
Qed.

Lemma own_node_id : n_Identity own_node = own_identity.
Proof.
  generalize own_node_new. generalize own_node. intros n. unfold NewNode, own_opts. cbn [foldl].
  case_bool_decide as Hv; [done|]. cbn. by intros [= <-].
Qed.

Opaque own_node.

Lemma node_never_panics_witness :
  ∃ err n1, Start true true true (Node_OnReceive true own_node) = Some (err, n1)
  ∧ ∀ n i, rtc node_step n1 n → enabled n i → ∃ n', handle_input i n = Some ((), n') ∧ node_wf n'.
Proof.
  apply (node_never_panics own_opts None 0 own_node [RegReceive true] true true true own_node_new).
  rewrite own_node_id. vm_compute. reflexivity.
Defined.

Lemma demo_node_wf : node_wf (demo_node x0b (str "node-aaaa") toy_session (str "chat")).
Proof.
  split; cbn [demo_node Peers peer_heap sess_heap n_relayManager n_log].
  - intros id r [<- <-]%lookup_singleton_Some. eexists. by rewrite lookup_singleton_eq.
  - intros r p [_ <-]%lookup_singleton_Some. vm_compute. congruence.
  - intros r p sr [_ <-]%lookup_singleton_Some [= <-]. by rewrite lookup_singleton_eq.
  - done.
  - by intros t []%elem_of_nil.
Qed.

(** A node that knows one peer, on some packet from the address of that peer. *)
Lemma delivery_authentic_witness :
  let n := demo_node x0b (str "node-aaaa") toy_session (str "chat") in
  let addr := MkAddr AddrTCP (str "10.0.0.2:7000") in
  ∃ n' l, handlePacket (Some 1%positive) addr "tcp" PacketTypeData (str "ciphertext") n = Some ((), n')
  ∧ n_log n' = n_log n ++ l
  ∧ ∀ id d, OnReceive id d ∈ l → PacketTypeData = PacketTypeData ∧ carries n addr (str "ciphertext") id d.
Proof.
  intros n addr. apply (delivery_authentic n (Some 1%positive) addr "tcp" PacketTypeData (str "ciphertext")).
  apply demo_node_wf.
Defined.

(** A first candidate of a node without running attempts. *)
Lemma discovery_admission_witness :
  let n := demo_node x0b (str "node-aaaa") toy_session (str "chat") in
  let now := clock (n_ticks n) in
  let key := candidate_key (str "node-cccc") (str "10.0.0.3:7000") in
  let admitted := negb (cooling n key now) && (discoveryConnectSem n <? discoveryConnectConcurrencyLimit) in
  ∃ n', tryBeginDiscoveryConnect (str "node-cccc") (str "10.0.0.3:7000") n = Some (admitted, n')
  ∧ Z.of_nat (size (discoveryConnectSeen n')) ≤ discoveryConnectSeenHardLimit
  ∧ discoveryConnectSem n' = discoveryConnectSem n + (if admitted then 1 else 0)
  ∧ discoveryConnectSem n' ≤ discoveryConnectConcurrencyLimit
  ∧ (admitted = true → discoveryConnectSeen n' !! key = Some (now + discoveryConnectCooldown))
  ∧ (∀ k until, k ≠ key → discoveryConnectSeen n' !! k = Some until → discoveryConnectSeen n !! k = Some until).
Proof.
  apply (discovery_admission (demo_node x0b (str "node-aaaa") toy_session (str "chat"))
    (str "node-cccc") (str "10.0.0.3:7000")); vm_compute; congruence.
Defined.

(** Every address of this world is a UDP address. *)
Definition udp_world : World := {|
  io_ok := λ _ _, true; clock := λ k, Z.of_nat k; entropy := λ _, make_bytes 32; entropy_len := λ _, eq_refl;
  resolve_udp := λ a, Some (MkAddr AddrUDP a); resolve_tcp := λ _, None; bound_addr := str "[::]:7000" |}.

Definition relay_node : Node :=
  demo_node x0b (str "node-aaaa") toy_session (str "chat") <| n_Config ::= WithEnableRelay true |>.

(** A relay asked without a token. *)
Lemma relay_forwarding_witness :
  let origin := MkAddr AddrUDP (str "10.0.0.4:7000") in
  let target := MkAddr AddrUDP (str "10.0.0.5:7000") in
  @relay_authorized _ udp_world [] relay_node = Some (true, relay_node) ∧
  ∃ wrapped n',
    @handleRead_turn _ udp_world (λ _, None) origin
      (tent_packet PacketTypeRelay (relay_payload RelayModeForward (a_str target) [] (str "x"))) relay_node = Some ((), n')
    ∧ n_log n' = n_log relay_node ++ [UDPWrite target (tent_packet PacketTypeRelay wrapped)]
    ∧ (∃ tok', parse_relay wrapped = Ok (Some (RelayModeTarget, a_str target, tok', str "x")))
    ∧ stands target origin n'
    ∧ ∀ n2 t reply, stands target origin n2 → t ≠ PacketTypeRelay →
        ∃ n3, @handleRead_turn _ udp_world (λ _, None) target (tent_packet t reply) n2 = Some ((), n3)
        ∧ n_log n3 = n_log n2 ++ [UDPWrite origin (tent_packet t reply)] ∧ stands target origin n3.
Proof.
  intros origin target.
  apply (@relay_forwarding _ udp_world relay_node relay_node (λ _, None) origin target [] (str "x")); try reflexivity;
    try (vm_compute; congruence).
Defined.

End ReachWitness.
