(* ===== verification/NodeInv.v ===== *)
(** * Who a peer is, and how many there are

    A second invariant of the node's state, kept by every handler: a session a
    peer refers to exists and was established with the key the peer's identifier
    is derived from; the peer limit is respected; the identity and the network
    password of the node do not change.  The logic is [keep Γ m]: whenever [m]
    returns, the invariant and the facts [Γ] hold again. *)

From stdpp Require Import relations.
From S2P Require Import Identity.
From S2P Require Import Prelude Protocol Stream Sha256 Session Peer RelayAuth RelayManager Metrics Reconnect.
From S2P Require Import Config Probe NodeState NodeChannel NodeHeartbeat NodeRecv NodeHandshake NodeDiscovery.
From S2P Require Import NodeDispatch NodeConnect NodeReconnect NodeLife NodeTransfer NodeSafety NodeReach.

Section inv.
Context {NL : Noise} {W : World}.

(** ** The invariant *)

(** What does not change while a node lives. *)
Definition node_constants (n : Node) : Identity * bytes * Z :=
  (n_Identity n, NetworkPassword (n_Config n), MaxPeers (n_Config n)).

(** A session that can still seal or open was established with the owner of the
    identifier [id]; [Close] forgets the keys. *)
Definition session_owner (s : Session) (id : gostring) : Prop :=
  (sendCipher s = None ∧ recvCipher s = None) ∨ peerID_of_key (RemotePublicKey s) = id.

Definition owned_by (n : Node) (sr : SessRef) (id : gostring) : Prop :=
  ∃ s, sess_heap n !! sr = Some s ∧ session_owner s id.

Record bound (n : Node) : Prop := {
  bd_store : ∀ id r, Peers n !! id = Some r → ∃ p, peer_heap n !! r = Some p ∧ ID p = id;
  bd_sess : ∀ r p sr, peer_heap n !! r = Some p → Peer_Session p = Some sr → owned_by n sr (ID p);
  bd_limit : 0 < MaxPeers (n_Config n) → PeerStore_Count (Peers n) ≤ MaxPeers (n_Config n);
}.

(** A fact a piece of code relies on. *)
Inductive fact :=
| IsPeer (r : PeerRef) (id : gostring)
| IsSess (sr : SessRef) (id : gostring).

Definition fact_holds (n : Node) (f : fact) : Prop :=
  match f with
  | IsPeer r id => ∃ p, peer_heap n !! r = Some p ∧ ID p = id
  | IsSess sr id => owned_by n sr id
  end.

Definition kept (Γ : list fact) (n : Node) : Prop := bound n ∧ Forall (fact_holds n) Γ.

Definition keep {A} (Γ : list fact) (m : M A) : Prop :=
  ∀ n a n', kept Γ n → m n = Some (a, n') → kept Γ n' ∧ node_constants n' = node_constants n.

(** ** Rules *)

Lemma keep_ret {A} Γ (a : A) : keep Γ (mret a).
Proof. by intros n ? ? H [= <- <-]. Qed.

Lemma keep_panic {A} Γ : keep Γ (panic : M A).
Proof. by intros n ? ? H. Qed.

Lemma keep_bind {A B} Γ (m : M A) (f : A → M B) : keep Γ m → (∀ a, keep Γ (f a)) → keep Γ (m ≫= f).
Proof.
  intros Hm Hf n b n2 H (a & n1 & H1 & H2)%bind_Some.
  destruct (Hm _ _ _ H H1) as [K1 E1], (Hf _ _ _ _ K1 H2) as [K2 E2]. split; [done|congruence].
Qed.

Lemma keep_get {B} Γ (f : Node → M B) : (∀ n, keep Γ (f n)) → keep Γ (get ≫= f).
Proof. intros Hf n b n' H. rewrite get_bind. by apply Hf. Qed.

Lemma keep_get_peer {B} Γ id (f : option PeerRef → M B) :
  keep Γ (f None) → (∀ r, keep (IsPeer r id :: Γ) (f (Some r))) → keep Γ (get_peer id ≫= f).
Proof.
  intros H0 H1 n b n' H. rewrite get_peer_bind. destruct (Peers n !! id) as [r|] eqn:E; [|by apply H0].
  intros Hrun. destruct (H1 r n b n') as [[Hb HΓ] Hc]; try done; [|by split; [split; [|by inversion HΓ]|]].
  destruct H as [Hb HΓ]. split; [done|]. constructor; [|done]. by apply (bd_store _ Hb).
Qed.

Lemma keep_lift {A} Γ (r : res A) : keep Γ (lift r).
Proof. intros n a n' H. unfold lift. destruct r; try done. by intros [= <- <-]. Qed.

Lemma keep_short8 Γ id : keep Γ (short8 id).
Proof. apply keep_bind; [apply keep_lift|intros; apply keep_ret]. Qed.

Lemma keep_peer_of Γ r : keep Γ (peer_of r).
Proof. intros n a n' H. unfold peer_of. destruct (peer_heap n !! r); [|done]. by intros [= <- <-]. Qed.

(** The parts of the state the invariant speaks of. *)
Definition core (n : Node) := (Peers n, peer_heap n, sess_heap n, node_constants n).

Lemma kept_core Γ n n' : core n' = core n → kept Γ n → kept Γ n' ∧ node_constants n' = node_constants n.
Proof.
  intros E [[Hst Hse Hli] HΓ]. unfold core, node_constants in E. injection E as E1 E2 E3 E4 E5 E6.
  split; [|unfold node_constants; congruence]. split; [split|].
  - intros id r. rewrite E1, E2. apply Hst.
  - intros r p sr. unfold owned_by. rewrite E2, E3. apply Hse.
  - by rewrite E1, E6.
  - eapply Forall_impl; [exact HΓ|]. intros []; cbn; unfold owned_by; by rewrite ?E2, ?E3.
Qed.

Lemma keep_frame {A} Γ (m : M A) : preserves core m → keep Γ m.
Proof. intros Hm n a n' H Hrun. eapply kept_core; [by eapply Hm|done]. Qed.

Lemma keep_modify Γ g : (∀ n, core (g n) = core n) → keep Γ (modify g).
Proof. intros Hg. apply keep_frame. intros n a n' [= <- <-]. apply Hg. Qed.

(** Removing a peer from the store. *)
Lemma keep_Remove Γ id : keep Γ (modify (λ n, n <| Peers ::= λ ps, PeerStore_Remove ps id |>)).
Proof.
  intros n a n' [[Hst Hse Hli] HΓ] [= <- <-]. split; [split; [split|]|]; cbn; try done; unfold PeerStore_Remove.
  - intros id' r [_ Hr]%lookup_delete_Some. by apply Hst.
  - intros H0. specialize (Hli H0). unfold PeerStore_Count in *.
    pose proof (map_size_delete id (Peers n)) as Hs. rewrite Hs. destruct (Peers n !! id); cbn; lia.
Qed.

(** Updating a peer: it keeps its identifier, and its session or takes one that belongs to it. *)
Definition keeps_owner (Γ : list fact) (r : PeerRef) (f : Peer → Peer) : Prop := ∀ p,
  ID (f p) = ID p ∧ (Peer_Session (f p) = Peer_Session p ∨ Peer_Session (f p) = None
    ∨ ∃ sr id, Peer_Session (f p) = Some sr ∧ IsPeer r id ∈ Γ ∧ IsSess sr id ∈ Γ).

Lemma kept_put_peer Γ r f p n :
  keeps_owner Γ r f → peer_heap n !! r = Some p → kept Γ n → kept Γ (n <| peer_heap ::= <[r := f p]> |>).
Proof.
  intros Hf Hp [[Hst Hse Hli] HΓ]. destruct (Hf p) as [Hi Hs].
  assert (∀ x id, (∃ q, peer_heap n !! x = Some q ∧ ID q = id) →
    ∃ q, <[r := f p]> (peer_heap n) !! x = Some q ∧ ID q = id) as Hmono.
  { intros x id (q & Hq & <-). destruct (decide (x = r)) as [->|].
    - rewrite lookup_insert_eq. exists (f p). split; [done|]. rewrite Hi. congruence.
    - rewrite lookup_insert_ne by done. eauto. }
  split; [split|]; cbn; try done.
  - intros id x Hx. by apply Hmono, Hst.
  - intros x q sr [[<- <-]|[_ Hq]]%lookup_insert_Some Hqs; [|by apply (Hse x)]. rewrite Hi.
    destruct Hs as [E|[E|(sr' & id & E & H1 & H2)]]; rewrite E in Hqs; [by eapply Hse|done|]. injection Hqs as <-.
    rewrite Forall_forall in HΓ. destruct (HΓ _ H1) as (p' & Hp' & Hid). simplify_eq. apply (HΓ _ H2).
  - eapply Forall_impl; [exact HΓ|]. intros []; cbn; [by apply Hmono|done].
Qed.

Lemma keep_on_peer {A} Γ r (f : Peer → Peer * A) : keeps_owner Γ r (λ p, (f p).1) → keep Γ (on_peer r f).
Proof.
  intros Hf n a n' H. unfold on_peer. intros (p & n1 & Hp & Hrun)%bind_Some. unfold peer_of in Hp.
  destruct (peer_heap n !! r) as [q|] eqn:Hq; [|done]. simplify_eq.
  pose proof (kept_put_peer Γ r _ p n1 Hf Hq H) as K. cbn beta in K. destruct (f p) as [p1 b]. by injection Hrun as <- <-.
Qed.

Lemma keep_update_peer Γ r f : keeps_owner Γ r f → keep Γ (update_peer r f).
Proof.
  intros Hf n a n' H. unfold update_peer. intros (p & n1 & Hp & Hrun)%bind_Some. unfold peer_of in Hp.
  destruct (peer_heap n !! r) as [q|] eqn:Hq; [|done]. simplify_eq.
  injection Hrun as <- <-. split; [|done]. by apply kept_put_peer.
Qed.

(** Sessions are closed and used; the key they were established with stays. *)
Lemma kept_sess Γ n σ :
  (∀ sr s, sess_heap n !! sr = Some s → ∃ s', σ !! sr = Some s' ∧ ∀ id, session_owner s id → session_owner s' id) →
  kept Γ n → kept Γ (n <| sess_heap := σ |>).
Proof.
  intros Hσ [[Hst Hse Hli] HΓ].
  assert (∀ sr id, owned_by n sr id → owned_by (n <| sess_heap := σ |>) sr id) as Ho.
  { intros sr id (s & Hs & Ho). destruct (Hσ sr s Hs) as (s' & Hs' & E). exists s'. split; [done|by apply E]. }
  split; [split|]; cbn; try done; [by intros; eapply Ho, Hse|].
  eapply Forall_impl; [exact HΓ|]. intros []; cbn; [done|by apply Ho].
Qed.

Lemma kept_insert_sess Γ n sr s s' :
  sess_heap n !! sr = Some s → (∀ id, session_owner s id → session_owner s' id) →
  kept Γ n → kept Γ (n <| sess_heap := <[sr := s']> (sess_heap n) |>).
Proof.
  intros Hs E. apply kept_sess. intros x y Hy. destruct (decide (x = sr)) as [->|].
  - rewrite lookup_insert_eq. exists s'. split; [done|]. by simplify_eq.
  - rewrite lookup_insert_ne by done. eauto.
Qed.

Lemma Session_Encrypt_owner s pt s' out id :
  Session_Encrypt s pt = (s', out) → session_owner s id → session_owner s' id.
Proof. unfold Session_Encrypt, session_owner. repeat case_match; intros [= <- _]; naive_solver. Qed.

Lemma Session_Decrypt_owner s ct s' out id :
  Session_Decrypt s ct = (s', out) → session_owner s id → session_owner s' id.
Proof. unfold Session_Decrypt, session_owner. repeat case_match; intros [= <- _]; naive_solver. Qed.

Lemma keep_session_encrypt Γ sr pt : keep Γ (session_encrypt sr pt).
Proof.
  intros n a n' H. unfold session_encrypt. destruct (sess_heap n !! sr) as [s|] eqn:Hs; [|done].
  destruct (Session_Encrypt s pt) as [s' out] eqn:E. intros [= <- <-]. split; [|done].
  eapply (kept_insert_sess Γ n sr s s'); [done|intros id; by eapply Session_Encrypt_owner|done].
Qed.

Lemma keep_peer_decrypt Γ r ct : keep Γ (peer_decrypt r ct).
Proof.
  intros n a n' H. unfold peer_decrypt, Peer_Decrypt. destruct (peer_heap n !! r) as [p|]; [|done].
  destruct (Peer_Session p) as [sr|]; [|by intros [= <- <-]; destruct n].
  cbn. destruct (sess_heap n !! sr) as [s|] eqn:Hs; cbn; [|by intros [= <- <-]; destruct n].
  destruct (Session_Decrypt s ct) as [s' out] eqn:E. intros [= <- <-]. split; [|done].
  eapply (kept_insert_sess Γ n sr s s'); [done|intros id; by eapply Session_Decrypt_owner|done].
Qed.

Lemma keep_peer_effects Γ es : keep Γ (peer_effects es).
Proof.
  induction es as [|[c|sr] es IH]; cbn [peer_effects]; [apply keep_ret|..]; (apply keep_bind; [|done]).
  - apply keep_modify. done.
  - intros n a n' H [= <- <-]. split; [|done]. apply kept_sess; [|done]. intros x s Hs. unfold heap_close.
    destruct (decide (x = sr)) as [->|]; [|rewrite lookup_alter_ne by done; eauto].
    rewrite lookup_alter_eq, Hs. cbn. eexists. split; [done|]. by left.
Qed.

(** New objects. *)
Lemma keep_alloc_session {B} Γ s (f : SessRef → M B) :
  (∀ sr, keep (IsSess sr (peerID_of_key (RemotePublicKey s)) :: Γ) (f sr)) → keep Γ (alloc_session s ≫= f).
Proof.
  intros Hf n b n' [Hb HΓ] Hrun. unfold alloc_session, mbind, M_bind in Hrun.
  set (sr := fresh (dom (sess_heap n))) in *.
  assert (sess_heap n !! sr = None) as Hfr by (apply not_elem_of_dom, is_fresh).
  assert (kept Γ (n <| sess_heap := <[sr := s]> (sess_heap n) |>)) as [Hb1 HΓ1].
  { apply kept_sess; [|done]. intros x y Hy. rewrite lookup_insert_ne by congruence. eauto. }
  destruct (Hf sr (n <| sess_heap ::= <[sr := s]> |>) b n') as [[Hb2 HΓ2] Hc]; [|exact Hrun|]; [|by split; [split; [|by inversion HΓ2]|]].
  split; [done|]. constructor; [|done]. exists s. split; [apply lookup_insert_eq|by right].
Qed.

(** Room for one more. *)
Definition room (n : Node) : Prop :=
  0 < MaxPeers (n_Config n) → PeerStore_Count (Peers n) < MaxPeers (n_Config n).

Lemma kept_new_peer Γ n p sr :
  kept Γ n → room n → Peer_Session p = Some sr → IsSess sr (ID p) ∈ Γ →
  let r := fresh (dom (peer_heap n)) in
  kept Γ (n <| peer_heap ::= <[r := p]> |> <| Peers ::= λ ps, PeerStore_Add ps (ID p) r |>).
Proof.
  intros [[Hst Hse Hli] HΓ] Hroom Hs Hin r.
  assert (peer_heap n !! r = None) as Hfr by (apply not_elem_of_dom, is_fresh).
  assert (∀ x id, (∃ q, peer_heap n !! x = Some q ∧ ID q = id) →
    ∃ q, <[r := p]> (peer_heap n) !! x = Some q ∧ ID q = id) as Hmono.
  { intros x id (q & Hq & <-). rewrite lookup_insert_ne by congruence. eauto. }
  split; [split|]; cbn; unfold PeerStore_Add.
  - intros id x [[<- <-]|[_ Hx]]%lookup_insert_Some; [|by apply Hmono, Hst]. exists p. by rewrite lookup_insert_eq.
  - intros x q sr' [[_ <-]|[_ Hq]]%lookup_insert_Some Hqs; [|by apply (Hse x)].
    rewrite Forall_forall in HΓ. simplify_eq. apply (HΓ _ Hin).
  - intros H0. specialize (Hroom H0). unfold PeerStore_Count in *. rewrite map_size_insert. destruct (Peers n !! ID p); cbn; lia.
  - eapply Forall_impl; [exact HΓ|]. intros []; cbn; [by apply Hmono|done].
Qed.

End inv.

(** ** Handlers *)

Lemma keeps_owner_same `{Noise} Γ r f :
  (∀ p, ID (f p) = ID p ∧ (Peer_Session (f p) = Peer_Session p ∨ Peer_Session (f p) = None)) → keeps_owner Γ r f.
Proof. intros H0 p. destruct (H0 p) as [? [?|?]]; auto. Qed.

(** The methods of a peer keep its identifier and its session, up to a new one. *)
Ltac same_owner :=
  apply keeps_owner_same; intros ?;
  unfold Peer_Close, TryBeginRehandshake, ReserveRehandshakeAttempt, RecordRehandshakeFailure, IncDecryptFailures,
    AppendReassembly, FinishReassembly, RemoveRemoteChannel, SetState; cbv zeta;
  solve [auto | repeat case_match; cbn; auto].

Ltac keeping_step :=
  lazymatch goal with
  | |- keep _ (mret _) => apply keep_ret
  | |- keep _ panic => apply keep_panic
  | |- keep _ (get ≫= _) => apply keep_get; intros ?
  | |- keep _ (get_peer _ ≫= _) => apply keep_get_peer; [|intros ?]
  | |- keep _ (alloc_session _ ≫= _) => apply keep_alloc_session; intros ?
  | |- keep _ (_ ≫= _) => apply keep_bind; [|intros ?]
  | |- keep _ (lift _) => apply keep_lift
  | |- keep _ (short8 _) => apply keep_short8
  | |- keep _ (peer_of _) => apply keep_peer_of
  | |- keep _ (peer_effects _) => apply keep_peer_effects
  | |- keep _ (session_encrypt _ _) => apply keep_session_encrypt
  | |- keep _ (peer_decrypt _ _) => apply keep_peer_decrypt
  | |- keep _ time_Now => apply keep_frame; by intros ? ? ? [= _ <-]
  | |- keep _ draw => apply keep_frame; by intros ? ? ? [= _ <-]
  | |- keep _ (count _) => apply keep_modify; done
  | |- keep _ (emit _) => apply keep_modify; done
  | |- keep _ (go _) => apply keep_modify; done
  | |- keep _ (io _) => apply keep_frame; by intros ? ? ? [= _ <-]
  | |- keep _ (update_peer _ _) => apply keep_update_peer; try same_owner
  | |- keep _ (on_peer _ _) => apply keep_on_peer; try same_owner
  | |- keep _ (modify _) => apply keep_modify; solve [done]
  | |- keep _ (if ?b then _ else _) => destruct b eqn:?
  | |- keep _ (match ?x with _ => _ end) => destruct x eqn:?
  end.

(** The handlers proved so far are in the database [keep]. *)
Create HintDb keep.
Ltac keeping := repeat (first [keeping_step | solve [auto 2 with keep nocore]]; cbv beta iota zeta).

Section handlers.
Context {NL : Noise} {W : World}.

Lemma keep_writeTCPPacket Γ c packet : keep Γ (writeTCPPacket c packet).
Proof. unfold writeTCPPacket. keeping. Qed.
#[local] Hint Resolve keep_writeTCPPacket : keep.

Lemma keep_sendRaw Γ conn addr transport packet : keep Γ (sendRaw conn addr transport packet).
Proof. unfold sendRaw. keeping. Qed.
#[local] Hint Resolve keep_sendRaw : keep.

Lemma keep_touch_source Γ a : keep Γ (touch_source a).
Proof. unfold touch_source. keeping. Qed.
#[local] Hint Resolve keep_touch_source : keep.

Lemma keep_processHeartbeat Γ conn a transport : keep Γ (processHeartbeat conn a transport).
Proof. unfold processHeartbeat. keeping. Qed.
#[local] Hint Resolve keep_processHeartbeat : keep.

Lemma keep_RemoveSession Γ k id : keep Γ (RemoveSession k id).
Proof. unfold RemoveSession. keeping. Qed.
#[local] Hint Resolve keep_RemoveSession keep_Remove : keep.

Lemma keep_removePeerWithReconnect Γ id b : keep Γ (removePeerWithReconnect id b).
Proof. unfold removePeerWithReconnect. keeping. Qed.
#[local] Hint Resolve keep_removePeerWithReconnect : keep.

Lemma keep_triggerFastRehandshake Γ id r : keep Γ (triggerFastRehandshake id r).
Proof. unfold triggerFastRehandshake. keeping. Qed.
#[local] Hint Resolve keep_triggerFastRehandshake : keep.

Lemma keep_handleAppFrame Γ id r data : keep Γ (handleAppFrame id r data).
Proof. unfold handleAppFrame, processChannelUpdate. keeping. Qed.
#[local] Hint Resolve keep_handleAppFrame : keep.

Lemma keep_processData Γ addr payload : keep Γ (processData addr payload).
Proof. unfold processData, decrypt_failed, handle_frame. keeping. Qed.
#[local] Hint Resolve keep_processData : keep.

(** ** Handshakes *)

Lemma keep_registerRelayCandidate Γ id a : keep Γ (registerRelayCandidate id a).
Proof. unfold registerRelayCandidate. keeping. Qed.
#[local] Hint Resolve keep_registerRelayCandidate : keep.

(** The new session belongs to the peer whose transport it becomes. *)
Lemma keeps_owner_Upgrade Γ r id sr a c t now :
  IsPeer r id ∈ Γ → IsSess sr id ∈ Γ → keeps_owner Γ r (λ p, (UpgradeTransport p a c t (Some sr) now).1).
Proof.
  intros Hr Hs p. unfold UpgradeTransport. cbv zeta. repeat case_match; cbn; eauto 8.
Qed.

Lemma keep_handleExistingPeer Γ r conn addr transport sr addrStr id key :
  IsPeer r id ∈ Γ → IsSess sr id ∈ Γ → keep Γ (handleExistingPeer r conn addr transport sr addrStr id key).
Proof. intros Hr Hs. unfold handleExistingPeer. keeping; by eapply keeps_owner_Upgrade. Qed.

Lemma keep_handle_new_peer Γ conn addr transport sr addrStr id key b :
  IsSess sr id ∈ Γ → keep Γ (handle_new_peer conn addr transport sr addrStr id key b).
Proof.
  intros Hs. unfold handle_new_peer. do 2 keeping_step; [keeping_step|]. cbv beta zeta. intros n0 u n' H.
  rewrite get_bind. destruct (_ && _) eqn:Hfull; [by apply keep_short8|]. rewrite now_bind.
  set (n1 := n0 <| n_ticks ::= S |>).
  assert (kept Γ n1) as H1 by (by apply (kept_core Γ n0)).
  assert (room n1) as Hroom.
  { intros H0. apply andb_false_iff in Hfull as [E|E]; [apply Z.ltb_ge in E; cbn in H0; lia|by apply Z.leb_gt in E]. }
  intros (r & n2 & Hr & Hrun)%bind_Some. injection Hr as <- <-. rewrite modify_bind in Hrun.
  match type of Hrun with ?m (set_field Peers _ (set_field peer_heap (insert _ ?p) _)) = _ =>
    pose proof (kept_new_peer Γ n1 p sr H1 Hroom eq_refl Hs) as H2; assert (keep Γ m) as Hm by keeping end.
  exact (Hm _ _ _ H2 Hrun).
Qed.
#[local] Hint Resolve keep_handle_new_peer : keep.

Lemma keep_get_or_create_handshake Γ key : keep Γ (get_or_create_handshake key).
Proof. unfold get_or_create_handshake. keeping. Qed.
#[local] Hint Resolve keep_get_or_create_handshake : keep.

Lemma keep_processHandshake Γ conn addr transport payload : keep Γ (processHandshake conn addr transport payload).
Proof.
  unfold processHandshake. keeping.
  - apply keep_handle_new_peer. by left.
  - apply keep_handleExistingPeer; [by left|by right; left].
Qed.
#[local] Hint Resolve keep_processHandshake : keep.

(** ** Discovery and dispatch *)

Lemma keep_connect_discovered Γ es : keep Γ (connect_discovered es).
Proof.
  induction es as [|[id a] es IH]; cbn [connect_discovered]; unfold tryBeginDiscoveryConnect; keeping; apply IH.
Qed.
#[local] Hint Resolve keep_connect_discovered : keep.

Lemma keep_handlePacket Γ conn addr transport t payload : keep Γ (handlePacket conn addr transport t payload).
Proof.
  unfold handlePacket, processDiscoveryRequest, processDiscoveryResponse, processHeartbeatAck. keeping.
Qed.
#[local] Hint Resolve keep_handlePacket : keep.

Lemma keep_dispatch_all Γ conn addr transport ps : keep Γ (dispatch_all conn addr transport ps).
Proof. induction ps as [|[t payload] ps IH]; cbn [dispatch_all]; keeping; apply IH. Qed.
#[local] Hint Resolve keep_dispatch_all : keep.

Lemma keep_buildRelayPacket Γ mode target inner : keep Γ (buildRelayPacket mode target inner).
Proof. unfold buildRelayPacket, relay_token, getRelayAuthenticator. keeping. Qed.
#[local] Hint Resolve keep_buildRelayPacket : keep.

Lemma keep_handleRelayPacket Γ origin payload : keep Γ (handleRelayPacket origin payload).
Proof. unfold handleRelayPacket, relay_authorized, getRelayAuthenticator. keeping. Qed.
#[local] Hint Resolve keep_handleRelayPacket : keep.

Lemma keep_handleRead_turn Γ probe addr buf : keep Γ (handleRead_turn probe addr buf).
Proof. unfold handleRead_turn. keeping. Qed.

(** ** Sending *)

Lemma keep_choose_path Γ r : keep Γ (choose_path r).
Proof. unfold choose_path, UpgradePeer. keeping. Qed.
#[local] Hint Resolve keep_choose_path : keep.

Lemma keep_sendFrame Γ r sr path t d : keep Γ (sendFrame r sr path t d).
Proof. unfold sendFrame, sendFunc, KCP_Send. keeping. Qed.
#[local] Hint Resolve keep_sendFrame : keep.

Lemma keep_send_rest fuel Γ max send payload : (∀ t d, keep Γ (send t d)) →
  ∀ offset, keep Γ (send_rest fuel max send payload offset).
Proof. intros Hs. induction fuel as [|fuel IH]; intros offset; cbn [send_rest]; keeping; first [apply Hs|apply IH]. Qed.

Lemma keep_sendAppFrame Γ id t data : keep Γ (sendAppFrame id t data).
Proof.
  unfold sendAppFrame, send_fragments. keeping. apply keep_send_rest. intros. apply keep_sendFrame.
Qed.
#[local] Hint Resolve keep_sendAppFrame : keep.

Lemma keep_Send Γ ch id data : keep Γ (Send ch id data).
Proof. unfold Send. keeping. Qed.
#[local] Hint Resolve keep_Send : keep.

Lemma keep_Broadcast Γ ch data : keep Γ (Broadcast ch data).
Proof.
  unfold Broadcast. keeping_step. generalize 0.
  induction (GetPeersInChannel n ch) as [|id ids IH]; intros k; cbn [broadcast_to]; keeping; apply IH.
Qed.

Lemma keep_sync_each Γ id chs : keep Γ (sync_each id chs).
Proof. induction chs as [|ch chs IH]; cbn [sync_each]; keeping; apply IH. Qed.
#[local] Hint Resolve keep_sync_each : keep.

Lemma keep_go_each Γ ids payload : keep Γ (go_each ids payload).
Proof. induction ids as [|id ids IH]; cbn [go_each]; keeping; apply IH. Qed.
#[local] Hint Resolve keep_go_each : keep.

Lemma keep_JoinChannel Γ name : keep Γ (JoinChannel name).
Proof. unfold JoinChannel, broadcastChannelUpdate. keeping. Qed.

Lemma keep_LeaveChannel Γ name : keep Γ (LeaveChannel name).
Proof. unfold LeaveChannel, broadcastChannelUpdate. keeping. Qed.

(** ** Background work *)

Lemma keep_sendHeartbeats Γ : keep Γ sendHeartbeats.
Proof.
  unfold sendHeartbeats. keeping_step. revert Γ.
  induction (PeerStore_IDs (Peers n)) as [|id ids IH]; intros Γ; cbn [send_heartbeats_to]; keeping; apply IH.
Qed.

Lemma keep_checkHeartbeatTimeouts Γ : keep Γ checkHeartbeatTimeouts.
Proof.
  unfold checkHeartbeatTimeouts, removePeer. do 2 keeping_step; [keeping_step|]. revert Γ.
  induction (PeerStore_IDs (Peers n)) as [|id ids IH]; intros Γ; cbn [check_timeouts]; unfold removePeer; keeping; apply IH.
Qed.

Lemma keep_cleanup Γ : keep Γ cleanupStaleMappings.
Proof. unfold cleanupStaleMappings, cleanup. keeping. Qed.

(** ** Connecting *)

Lemma keep_new_initiator Γ : keep Γ new_initiator.
Proof. unfold new_initiator. keeping. Qed.
#[local] Hint Resolve keep_new_initiator : keep.

Lemma keep_connectViaRelay Γ a : keep Γ (connectViaRelay a).
Proof. unfold connectViaRelay. keeping. Qed.
#[local] Hint Resolve keep_connectViaRelay : keep.

Lemma keep_awaitConnectResult Γ ra u up tp evs : ∀ err, keep Γ (awaitConnectResult ra u up tp err evs).
Proof.
  induction evs as [|ev evs IH]; intros err; cbn [awaitConnectResult]; [unfold connect_timed_out; keeping|].
  destruct ev; unfold scheduleRelayFallback, connect_timed_out; keeping; apply IH.
Qed.
#[local] Hint Resolve keep_awaitConnectResult : keep.

Lemma keep_connectContext Γ a evs : keep Γ (connectContext a evs).
Proof.
  unfold connectContext, resolveConnectAddrs, buildInitiatorHandshakePackets, registerPendingHandshakes. keeping.
Qed.
#[local] Hint Resolve keep_connectContext : keep.

Lemma keep_run_rehandshake Γ id r : keep Γ (run_rehandshake id r).
Proof. unfold run_rehandshake, sendFastRehandshake. keeping. Qed.
#[local] Hint Resolve keep_run_rehandshake : keep.

Lemma keep_run_task Γ env t : keep Γ (run_task env t).
Proof.
  destruct t; cbn [run_task]; unfold syncChannelsWithPeer, sendDiscoveryRequest, run_channel_update, endDiscoveryConnect,
    awaitLateTCPUpgrade; keeping.
Qed.

Lemma keep_reconnect_turn Γ r pc env : keep Γ (reconnect_turn r pc env).
Proof.
  unfold reconnect_turn, turn_from, turn_top, turn_attempt, node_reconnect_success, node_reconnect_failed,
    start_callback, on_manager. keeping.
Qed.
#[local] Hint Resolve keep_reconnect_turn : keep.

Lemma keep_GracefulStop Γ : keep Γ GracefulStop.
Proof.
  unfold GracefulStop, KCP_Close. keeping.
  - revert Γ. induction (PeerStore_IDs (Peers n)) as [|id ids IH]; intros Γ; cbn [say_goodbye]; keeping; apply IH.
  - induction ((map_to_list (kcp_sessions _)).*2) as [|x l IH]; cbn [close_kcp_sessions]; keeping; apply IH.
  - generalize (PeerStore_IDs (Peers n)). intros ids. revert Γ.
    induction ids as [|id ids IH]; intros Γ; cbn [close_peers]; keeping; apply IH.
Qed.

Lemma kept_register Γ n r : kept Γ n → kept Γ (register n r) ∧ node_constants (register n r) = node_constants n.
Proof. intros [[H1 H2 H3] H4]. by destruct r. Qed.

Lemma keep_handle_input Γ i : keep Γ (handle_input i).
Proof.
  destruct i; cbn [handle_input]; unfold forget;
    try (intros n ? n' Hn [= _ <-]; by apply kept_register);
    try (intros n ? n' [[H1 H2 H3] H4] [= _ <-]; done);
    unfold GetMetrics; auto using keep_handleRead_turn, keep_run_task, keep_sendHeartbeats, keep_checkHeartbeatTimeouts, keep_cleanup,
      keep_JoinChannel, keep_LeaveChannel, keep_GracefulStop with keep;
    keeping; apply keep_Broadcast.
Qed.

End handlers.

(** ** Every reachable state *)

Section reachable.
Context {NL : Noise} {W : World}.

Lemma keep_add_static_relays Γ addrs : ∀ rm, keep Γ (add_static_relays addrs rm).
Proof.
  induction addrs as [|a addrs IH]; intros rm; cbn [add_static_relays]; keeping; apply IH.
Qed.

Lemma keep_Start Γ udp_ok tcp_ok kcp_ok : keep Γ (Start udp_ok tcp_ok kcp_ok).
Proof.
  unfold Start, startUDP, startTCP, startRelay, startNATAndKCP, startReconnectManager,
    startBackgroundLoops, closeOnStartFailure.
  keeping. apply keep_add_static_relays.
Qed.

Lemma NewNode_bound opts generated now n : NewNode opts generated now = Ok n → kept [] n.
Proof.
  unfold NewNode. case_bool_decide; [done|]. destruct (match cfg_Identity _ with Some _ => _ | None => _ end); [|done].
  intros [= <-]. split; [|done]. split; cbn; try (intros *; by rewrite lookup_empty). intros H0.
  unfold PeerStore_Count, NewPeerStore. rewrite map_size_empty. lia.
Qed.

(** The node [n] is in a state that a node built as [n0] can reach, with whatever callbacks
    registered before and after its start. *)
Definition runs_to (n0 n : Node) : Prop :=
  ∃ opts generated now regs udp_ok tcp_ok kcp_ok err n1,
    NewNode opts generated now = Ok n0 ∧ len (id_ID (n_Identity n0)) = 16
    ∧ Start udp_ok tcp_ok kcp_ok (foldl register n0 regs) = Some (err, n1) ∧ rtc node_step n1 n.

Lemma kept_registered regs n :
  kept [] n → kept [] (foldl register n regs) ∧ node_constants (foldl register n regs) = node_constants n.
Proof.
  revert n. induction regs as [|r regs IH]; intros n Hn; cbn [foldl]; [done|].
  destruct (kept_register [] n r Hn) as [H1 E1]. destruct (IH _ H1) as [H2 E2]. by rewrite E2, E1.
Qed.

Lemma runs_to_wf n0 n : runs_to n0 n → node_wf n.
Proof.
  intros (opts & gen & now & regs & u & tc & k & err & n1 & Hnew & Hid & Hs & Hsteps).
  destruct (registered_wf n0 regs (NewNode_wf _ _ _ _ Hnew)) as [Hreg Hown].
  destruct (Start_wf u tc k (foldl register n0 regs) Hreg) as (e & n2 & Hs' & Hwf & _); [by rewrite Hown|].
  eapply reachable_wf; [|done]. congruence.
Qed.

Lemma runs_to_kept n0 n : runs_to n0 n → kept [] n ∧ node_constants n = node_constants n0.
Proof.
  intros (opts & gen & now & regs & u & t & k & err & n1 & Hnew & _ & Hs & Hrun).
  destruct (kept_registered regs n0 (NewNode_bound _ _ _ _ Hnew)) as [H0 E0].
  destruct (keep_Start [] u t k _ _ _ H0 Hs) as [H1 E1].
  rewrite <- E0, <- E1. clear E0 E1 Hs. induction Hrun as [|n2 n3 n4 (i & _ & Hi) _ IH]; [done|].
  destruct (keep_handle_input [] i _ _ _ H1 Hi) as [H3 E3]. rewrite <- E3. by apply IH.
Qed.

(** A session that opens something is not closed. *)
Lemma Session_Decrypt_open s ct s' pt id :
  Session_Decrypt s ct = (s', Ok pt) → session_owner s id → peerID_of_key (RemotePublicKey s) = id.
Proof. unfold Session_Decrypt. intros H [[_ E]|]; [by rewrite E in H|done]. Qed.

(** C5: A peer is who its identifier says.  In every state a node can reach, its
    own identity and its network password are those it was built with; every peer
    in the store carries the identifier it is stored under, and its session, as
    long as it can seal or open anything, came out of a handshake that authenticated the
    static key of which this identifier is the hash; and whatever a packet makes the node
    deliver to a registered application under an identifier is user data of a frame that
    the session of the peer stored under this identifier opened, and that session is one
    with this key. *)
Theorem peer_identity n0 n :
  runs_to n0 n →
  (n_Identity n = n_Identity n0 ∧ NetworkPassword (n_Config n) = NetworkPassword (n_Config n0))
  ∧ (∀ id r, Peers n !! id = Some r → ∃ p, peer_heap n !! r = Some p ∧ ID p = id
       ∧ ∀ sr, Peer_Session p = Some sr → owned_by n sr id)
  ∧ (∀ conn addr transport packetType payload n' l id d,
       handlePacket conn addr transport packetType payload n = Some ((), n') → n_log n' = n_log n ++ l →
       OnReceive id d ∈ l →
       carries n addr payload id d
       ∧ ∃ r p sr s s' plaintext, Peers n !! id = Some r ∧ peer_heap n !! r = Some p ∧ Peer_Session p = Some sr
         ∧ sess_heap n !! sr = Some s ∧ Session_Decrypt s payload = (s', Ok plaintext)
         ∧ peerID_of_key (RemotePublicKey s) = id).
Proof.
  intros Hrun. destruct (runs_to_kept _ _ Hrun) as [[[Hst Hse Hli] _] Hc]. injection Hc as E1 E2 E3.
  split; [done|]. split.
  { intros id r Hr. destruct (Hst id r Hr) as (p & Hp & Hi). exists p. split; [done|]. split; [done|].
    intros sr Hs. rewrite <- Hi. by eapply Hse. }
  intros conn addr transport t payload n' l id d Hh Hl Hin.
  pose proof (runs_to_wf _ _ Hrun) as Hwf.
  destruct (handlePacket_carries n conn addr transport t payload Hwf) as (n2 & l2 & Hh2 & Hl2 & Hd).
  assert (l2 = l) as -> by (rewrite Hh in Hh2; simplify_eq; by eapply app_inv_head; rewrite <- Hl).
  destruct (Hd id d Hin) as [_ Hcar]. split; [done|].
  destruct Hcar as (r & p & sr & s & s' & ft & frame & hash & _ & Hr & Hp & Hi & Hps & Hs & Hdec & _).
  exists r, p, sr, s, s', (ft :: frame). split_and!; try done.
  destruct (Hse _ _ _ Hp Hps) as (s2 & Hs2 & Ho). simplify_eq. by eapply Session_Decrypt_open.
Qed.

(** C22: The peer limit holds.  In no state a node can reach, whatever handshakes
    arrive, does the store have more peers than [MaxPeers] when that is set. *)
Theorem peer_limit n0 n :
  runs_to n0 n → 0 < MaxPeers (n_Config n0) → PeerStore_Count (Peers n) ≤ MaxPeers (n_Config n0).
Proof.
  intros Hrun H0. destruct (runs_to_kept _ _ Hrun) as [[[_ _ Hli] _] Hc]. injection Hc as _ _ E3.
  rewrite E3 in Hli. by apply Hli.
Qed.

End reachable.

(** ** A run: a node starts and a stranger completes a handshake with it *)

Module InvWitness.
Import ToyNoise TransferWitness ReachWitness.

Definition run_inputs (evs : list node_input) (n : Node) : option Node :=
  foldl (λ o i, o ≫= λ n, snd <$> handle_input i n) (Some n) evs.

Lemma run_panicked evs : foldl (λ o i, o ≫= λ n, snd <$> handle_input i n) None evs = None.
Proof. by induction evs. Qed.

Definition no_task (i : node_input) : Prop := match i with InTask _ _ => False | _ => True end.

Lemma run_inputs_steps evs n n' : Forall no_task evs → run_inputs evs n = Some n' → rtc node_step n n'.
Proof.
  unfold run_inputs. revert n. induction evs as [|i evs IH]; intros n Hall; cbn [foldl]; [intros [= ->]; apply rtc_refl|].
  inversion_clear Hall as [|? ? Hi Hall']. cbn. destruct (handle_input i n) as [[[] n1]|] eqn:E; cbn.
  - intros H. eapply rtc_l; [|by apply IH]. exists i. split; [by destruct i|done].
  - by rewrite run_panicked.
Qed.

(** The two messages the initiator sends. *)
Definition stranger_says (m : bytes) : node_input :=
  InStream (Some 1%positive) (MkAddr AddrTCP (str "10.0.0.1:7000")) "tcp" [(PacketTypeHandshake, m)].

(** The application listens on the channel "chat"; a stranger connects. *)
Definition meeting : list node_input :=
  [InRegister (RegReceive true); InJoin (str "chat");
   stranger_says [x01]; stranger_says (x03 :: key x0c ++ prologue_of (str "pw"))].

(** The first packet the stranger seals afterwards. *)
Definition greeting : bytes :=
  x00 :: make_bytes 15 ++ FrameTypeSingle :: AppFrameTypeUserWithChannel :: hashChannelName (str "chat") ++ str "hi".

Definition started_run (n0 : Node) (evs : list node_input) : option Node :=
  Start true true true n0 ≫= λ o, run_inputs evs o.2.

Lemma started_run_reached opts n0 evs :
  NewNode opts None 0 = Ok n0 → len (id_ID (n_Identity n0)) = 16 → Forall no_task evs →
  is_Some (started_run n0 evs) → runs_to n0 (default n0 (started_run n0 evs)).
Proof.
  intros Hnew Hid Hall [n Hn]. rewrite Hn. cbn [default]. unfold started_run in Hn.
  destruct (Start true true true n0) as [[err n1]|] eqn:Hs; [|done]. cbn [mbind option_bind snd] in Hn.
  exists opts, None, 0, [], true, true, true, err, n1. split_and!; try done. by eapply run_inputs_steps.
Qed.

Definition met_node : Node := default own_node (started_run own_node meeting).

Lemma met_node_reached : runs_to own_node met_node.
Proof.
  apply (started_run_reached own_opts); [apply own_node_new|by rewrite own_node_id|by repeat constructor|].
  with_strategy transparent [own_node] (apply (bool_decide_unpack _); vm_compute; exact I).
Qed.

Lemma met_node_peers : PeerStore_Count (Peers met_node) = 1.
Proof. with_strategy transparent [own_node] (vm_compute; reflexivity). Qed.

(** What handling the greeting adds to the log. *)
Definition greeting_effects (n : Node) : option (list effect) :=
  (λ r, drop (length (n_log n)) (n_log r.2)) <$>
    handlePacket (Some 1%positive) (MkAddr AddrTCP (str "10.0.0.1:7000")) "tcp" PacketTypeData greeting n.

Lemma met_node_greeted : greeting_effects met_node = Some [OnReceive (peerID_of_key (key x0c)) (str "hi")].
Proof. with_strategy transparent [own_node] (vm_compute; reflexivity). Qed.

Lemma greeting_run n l :
  node_wf n → greeting_effects n = Some l →
  ∃ n', handlePacket (Some 1%positive) (MkAddr AddrTCP (str "10.0.0.1:7000")) "tcp" PacketTypeData greeting n = Some ((), n')
  ∧ n_log n' = n_log n ++ l.
Proof.
  intros Hwf. unfold greeting_effects.
  destruct (handlePacket_carries n (Some 1%positive) (MkAddr AddrTCP (str "10.0.0.1:7000")) "tcp" PacketTypeData greeting Hwf)
    as (n' & l' & -> & Hl & _). cbn [fmap option_fmap option_map snd]. rewrite Hl, drop_app_length. intros [= <-]. eauto.
Qed.

(** The greeting is delivered under the identifier of the stranger's key. *)
Lemma peer_identity_witness :
  ∃ n', handlePacket (Some 1%positive) (MkAddr AddrTCP (str "10.0.0.1:7000")) "tcp" PacketTypeData greeting met_node = Some ((), n')
  ∧ OnReceive (peerID_of_key (key x0c)) (str "hi") ∈ n_log n'
  ∧ carries met_node (MkAddr AddrTCP (str "10.0.0.1:7000")) greeting (peerID_of_key (key x0c)) (str "hi").
Proof.
  destruct (greeting_run met_node _ (runs_to_wf _ _ met_node_reached) met_node_greeted) as (n' & Hrun & Hl).
  destruct (peer_identity own_node met_node met_node_reached) as (_ & _ & Hd).
  destruct (Hd _ _ _ _ _ _ _ _ _ Hrun Hl (list_elem_of_here _ _)) as [Hc _].
  exists n'. split; [exact Hrun|]. split; [|exact Hc]. rewrite Hl. apply elem_of_app. right. apply list_elem_of_here.
Defined.

Lemma peer_limit_witness : PeerStore_Count (Peers met_node) ≤ MaxPeers (n_Config own_node).
Proof. apply (peer_limit own_node met_node); [apply met_node_reached|vm_compute; reflexivity]. Defined.

End InvWitness.
