(* ===== verification/NodeBroadcast.v ===== *)
(** * Broadcasts ([node/node_channel.go])

    [Broadcast] sends to the peers that announced the channel.  Composed with the
    links to these peers: one copy of the message is written to each of them and to
    nobody else, and each delivers it once. *)

From S2P Require Import Identity.
From S2P Require Import Prelude Protocol Sha256 Session Peer RelayAuth RelayManager Metrics Reconnect Config.
From S2P Require Import NodeState NodeChannel NodeHeartbeat NodeRecv NodeHandshake NodeDiscovery NodeDispatch NodeTransfer.
From S2P Require Import NodeStream NodeInv.

(** A member of the channel as the sender has it. *)
Record member `{Noise} := MkMember {
  mb_id : gostring;
  mb_ref : PeerRef;
  mb_sref : SessRef;
  mb_session : Session;
  mb_path : send_path;
}.

Section broadcast.
Context {NL : Noise} {LW : NoiseLaws NL} {W : World}.

(** The message can be sealed for this member and there is a path to it; [cs] are
    the sealed frames. *)
Definition ready (n : Node) (m : message) (x : member) (cs : list bytes) : Prop :=
  sending n (mb_id x) (mb_ref x) (mb_sref x) (mb_session x) (mb_path x)
  ∧ ∃ s', seal_all (mb_session x) (plain_of <$> message_frames m) = (s', Ok cs).

(** What is written to a member. *)
Definition wire_to (x : member) (cs : list bytes) : list effect :=
  map (λ c, path_write (mb_path x) (data_packet c)) cs.

Lemma ready_touched n n' m x cs r sr :
  touches r sr n n' → mb_ref x ≠ r → mb_sref x ≠ sr → ready n m x cs → ready n' m x cs.
Proof.
  intros [_ T1 T2 T3 T4 T5] Hr Hs [[H1 H2 (p & Hp & Hps & Ht) H4] Hseal]. split; [|done]. split.
  - unfold Node_ID in *. by rewrite T2.
  - by rewrite T1.
  - exists p. rewrite T4 by done. split; [done|]. split; [done|].
    destruct (mb_path x); cbn in *; [done|]. by rewrite T3.
  - by rewrite T5.
Qed.

Lemma broadcast_to_run ch data xs : ∀ css n k,
  isChannelSubscribed n (hashChannelName ch) = true → Forall2 (ready n (ch, data)) xs css →
  NoDup (map mb_ref xs) → NoDup (map mb_sref xs) → (∀ l e, io_ok l e = true) →
  ∃ n', broadcast_to ch (map mb_id xs) data k n = Some (k + len xs, n')
  ∧ n_log n' = n_log n ++ concat (zip_with wire_to xs css).
Proof.
  induction xs as [|x xs IH]; intros css n k Hsub Hall Hr Hs Hio; inversion Hall as [|? cs ? css' Hx Hxs]; subst.
  { exists n. cbn. rewrite app_nil_r. split; [|done]. by rewrite Z.add_0_r. }
  cbn [map] in Hr, Hs. apply NoDup_cons in Hr as [Hnr Hr]. apply NoDup_cons in Hs as [Hns Hs].
  destruct Hx as [Hsd [s' Hseal]].
  destruct (Send_path n ch (mb_id x) data _ _ _ _ s' cs Hsub Hsd Hseal Hio) as (n1 & Hrun & _ & Hlog & Ht).
  cbn [map broadcast_to]. rewrite (bind_run _ _ _ _ _ Hrun).
  destruct (IH css' n1 (k + 1)) as (n' & Hrun' & Hlog'); try done.
  - unfold isChannelSubscribed in *. by rewrite (tc_channels _ _ _ _ Ht).
  - apply Forall2_same_length_lookup in Hxs as [Hl Hxs]. apply Forall2_same_length_lookup. split; [done|].
    intros i y c Hy Hc. eapply ready_touched; [done| | |by apply (Hxs i)].
    + intros E. apply Hnr. rewrite <- E. apply list_elem_of_fmap. exists y. split; [done|]. by eapply list_elem_of_lookup_2.
    + intros E. apply Hns. rewrite <- E. apply list_elem_of_fmap. exists y. split; [done|]. by eapply list_elem_of_lookup_2.
  - exists n'. rewrite Hrun'. split; [f_equal; f_equal; rewrite len_cons; lia|].
    rewrite Hlog', Hlog. cbn [zip_with concat]. by rewrite <- app_assoc.
Qed.

(** No duplicates under [g] when [g] separates what [f] separates. *)
Lemma NoDup_map_by {A B C} (f : A → B) (g : A → C) (l : list A) :
  NoDup (map f l) → (∀ x y, x ∈ l → y ∈ l → g x = g y → f x = f y) → NoDup (map g l).
Proof.
  induction l as [|x l IH]; intros Hnd Hg; cbn in *; [constructor|]. apply NoDup_cons in Hnd as [Hni Hnd].
  apply NoDup_cons. split; [|apply IH; [done|]; intros; apply Hg; [by right..|done]].
  intros (y & Hy & Hin)%list_elem_of_fmap. apply Hni. apply list_elem_of_fmap. exists y. split; [|done].
  apply Hg; [by left|by right|done].
Qed.

(** In a state a node can reach, different peers have different objects and different open sessions. *)
Lemma distinct_refs n m xs css :
  bound n → NoDup (map mb_id xs) → Forall2 (ready n m) xs css → NoDup (map mb_ref xs) ∧ NoDup (map mb_sref xs).
Proof.
  intros [Hst Hse _] Hnd Hall.
  assert (∀ x cs, ready n m x cs → ∃ p, peer_heap n !! mb_ref x = Some p ∧ ID p = mb_id x
    ∧ peerID_of_key (RemotePublicKey (mb_session x)) = mb_id x ∧ sess_heap n !! mb_sref x = Some (mb_session x)) as Hx.
  { intros x cs [[_ Hr (p & Hp & Hps & _) Hs] [s' Hseal]]. destruct (Hst _ _ Hr) as (p' & Hp' & Hid). simplify_eq.
    exists p. split_and!; try done. destruct (Hse _ _ _ Hp Hps) as (s2 & Hs2 & [[Hc _]|Ho]); simplify_eq.
    - exfalso. pose proof (frames_nonempty MaxPayloadSize (user_frame (hashChannelName m.1) m.2)) as Hne.
      unfold message_frames in Hseal. destruct (frames _ _) as [|f fs]; [done|]. cbn in Hseal.
      unfold Session_Encrypt in Hseal. by rewrite Hc in Hseal.
    - congruence. }
  assert (∀ x, x ∈ xs → ∃ cs, ready n m x cs) as Hin.
  { intros x [i Hi]%list_elem_of_lookup_1. destruct (Forall2_lookup_l _ _ _ _ _ Hall Hi) as (cs & _ & Hr). eauto. }
  split; eapply (NoDup_map_by mb_id); try done; intros x y Hxi Hyi E;
    destruct (Hin x Hxi) as [c1 H1], (Hin y Hyi) as [c2 H2];
    destruct (Hx _ _ H1) as (p1 & A1 & A2 & A3 & A4), (Hx _ _ H2) as (p2 & B1 & B2 & B3 & B4); congruence.
Qed.

Lemma broadcast_count ch data ids : ∀ k n k' n', broadcast_to ch ids data k n = Some (k', n') → k ≤ k' ≤ k + len ids.
Proof.
  induction ids as [|id ids IH]; intros k n k' n'; cbn [broadcast_to]; [intros [= -> _]; len_solve|].
  intros ([e|] & n1 & _ & H)%bind_Some; apply IH in H; rewrite len_cons; lia.
Qed.

Lemma broadcast_unsubscribed ch data ids k n :
  isChannelSubscribed n (hashChannelName ch) = false → broadcast_to ch ids data k n = Some (k, n).
Proof.
  intros Hsub. induction ids as [|id ids IH]; cbn [broadcast_to]; [done|].
  assert (Send ch id data n = Some (Some "channel not subscribed"%string, n)) as Hs
    by (unfold Send; by rewrite get_bind, Hsub).
  by rewrite (bind_run _ _ _ _ _ Hs).
Qed.

(** C9: A broadcast on a channel.  In any state, [Broadcast] reports at most as many sends as
    there are peers that announced the channel; if the node itself does not subscribe to it,
    it sends nothing and reports none.  If the node subscribes, has a path and an open session
    to every peer that announced the channel, and every write succeeds, then in any
    state that a node can reach it reports as many sends as there are members; what it
    writes is, member by member, the frames of one copy of the message sealed for
    that member, and nothing for anybody else; and every member, fed what was written to
    it, delivers the message once, attributed to the sender, if it is on a channel it
    subscribes to and fits. *)
Theorem broadcast_members n ch data :
  (∀ k n', Broadcast ch data n = Some (k, n') → 0 ≤ k ≤ len (GetPeersInChannel n ch))
  ∧ (isChannelSubscribed n (hashChannelName ch) = false → Broadcast ch data n = Some (0, n))
  ∧ ∀ xs css,
  bound n → map mb_id xs = GetPeersInChannel n ch →
  isChannelSubscribed n (hashChannelName ch) = true → Forall2 (ready n (ch, data)) xs css →
  (∀ l e, io_ok l e = true) →
  (∃ n', Broadcast ch data n = Some (len (GetPeersInChannel n ch), n')
   ∧ n_log n' = n_log n ++ concat (zip_with wire_to xs css))
  ∧ (∀ id, id ∈ map mb_id xs ↔ in_channel n ch id = true)
  ∧ ∀ i x cs, xs !! i = Some x → css !! i = Some cs →
      ∃ written, wire_to x cs = map (path_frame (mb_path x)) written
      ∧ ∀ nB connB addr idA rA srB sB buf,
          linked nB addr idA rA srB sB buf → sess_synced (mb_session x) sB → 8 ≤ len idA →
          ∃ nB', link_receives (mb_path x) connB addr (concat written) nB nB'
          ∧ n_log nB' = n_log nB ++ fifo_spec nB idA [(ch, data)].
Proof.
  split; [intros k n'; unfold Broadcast; rewrite get_bind; apply broadcast_count|].
  split; [intros Hsub; unfold Broadcast; rewrite get_bind; by apply broadcast_unsubscribed|].
  intros xs css Hb Hids Hsub Hall Hio.
  assert (NoDup (map mb_id xs)) as Hnd.
  { rewrite Hids. unfold GetPeersInChannel. apply NoDup_filter, NoDup_fst_map_to_list. }
  destruct (distinct_refs n _ xs css Hb Hnd Hall) as [Hr Hs]. split_and!.
  - destruct (broadcast_to_run ch data xs css n 0) as (n' & Hrun & Hlog); try done.
    exists n'. split; [|done]. unfold Broadcast. rewrite get_bind, <- Hids, Hrun. unfold len. by rewrite length_map.
  - intros id. rewrite Hids. unfold GetPeersInChannel. rewrite list_elem_of_filter. split; [by intros []|].
    intros Hc. split; [done|]. unfold in_channel, PeerStore_Get in Hc. destruct (Peers n !! id) as [r|] eqn:E; [|done].
    apply list_elem_of_fmap. exists (id, r). split; [done|]. by apply elem_of_map_to_list.
  - intros i x cs Hx Hcs. exists (map (λ c, EncodeTCPFrame (data_packet c)) cs). split.
    { unfold wire_to. rewrite map_map. by destruct (mb_path x). }
    intros nB connB addr idA rA srB sB buf Hl Hsync Hid.
    destruct (Forall2_lookup_lr _ _ _ _ _ _ Hall Hx Hcs) as [_ [s' Hseal]].
    destruct (link_receives_sealed [(ch, data)] (mb_path x) connB addr idA rA srB (mb_session x) sB nB buf s' cs)
      as (nB' & sB' & buf' & Hrecv & HlogB & _); try done; [|by exists nB'].
    cbn [mbind list_bind]. by rewrite app_nil_r.
Qed.

End broadcast.

Module BroadcastWitness.
Import ToyNoise TransferWitness StreamWitness.

Definition friend : gostring := peerID_of_key (key x0b).

Definition friend_session : @Session toy_noise := @MkSession toy_noise (Some 0) (Some 0) (Some (key x0b)) None 0 0.

(** A node whose one peer announced the channel "chat". *)
Definition announcer : @Node toy_noise :=
  demo_node x0a friend friend_session (str "chat")
    <| peer_heap := {[ 1%positive :=
         AddRemoteChannel (NewPeer friend (Some (MkAddr AddrTCP (str "10.0.0.2:7000"))) (str "10.0.0.2:7000") (Some 1%positive)
           "tcp" "p2p" None (Some 1%positive) 0) (hashChannelName (str "chat")) ]} |>.

Definition the_member : member := MkMember _ friend 1 1 friend_session (ViaTCP 1).

Lemma announcer_bound : bound announcer.
Proof.
  split; cbn.
  - intros id r [<- <-]%lookup_singleton_Some. eexists. split; [apply lookup_singleton_eq|reflexivity].
  - intros r p sr [<- <-]%lookup_singleton_Some [= <-]. exists friend_session. split; [apply lookup_singleton_eq|by right].
  - intros _. vm_compute. congruence.
Qed.

Lemma the_member_ready :
  ∃ cs, ready announcer (str "chat", str "hi") the_member cs.
Proof.
  eexists. split.
  - split; [vm_compute; congruence|reflexivity| |reflexivity]. eexists. split; [reflexivity|]. split; [reflexivity|].
    split; reflexivity.
  - rewrite short_frames by reflexivity. eexists. reflexivity.
Qed.

Lemma broadcast_members_witness :
  ∃ cs, ∃ n', Broadcast (str "chat") (str "hi") announcer = Some (len (GetPeersInChannel announcer (str "chat")), n')
  ∧ n_log n' = n_log announcer ++ concat (zip_with wire_to [the_member] [cs]).
Proof.
  destruct the_member_ready as [cs Hr]. exists cs.
  apply (proj2 (broadcast_members announcer (str "chat") (str "hi"))) with (xs := [the_member]).
  - apply announcer_bound.
  - vm_compute. reflexivity.
  - vm_compute. reflexivity.
  - constructor; [exact Hr|constructor].
  - reflexivity.
Defined.

End BroadcastWitness.
