(* ===== verification/UdpRead.v ===== *)
(** * The UDP reader ([node/udp_io.go] over [transport/mux.go])

    [handleRead] takes datagrams from the TENT connection of the mux and handles
    them one by one.  The system here is that goroutine, the read loop of the mux
    that fills the queues, and everything else, interleaved.  The reader is cut where
    it checks [n.closing] and where it blocks in [ReadFrom]; the read loop where it
    checks [m.closed], where it blocks on the socket, and between the look-up of the
    connection a datagram goes to and the send; [Close] where it waits for the read
    loop.  In between the node takes its steps, handlers are registered and
    unregistered, deadlines are set, and the users of the other connections read. *)

From stdpp Require Import relations.
From S2P Require Import Identity.
From S2P Require Import Prelude Protocol Stream Pool Sha256 Session Peer RelayAuth RelayManager Metrics Reconnect.
From S2P Require Import Config Probe Mux NodeState NodeChannel NodeHeartbeat NodeRecv NodeHandshake NodeDiscovery.
From S2P Require Import NodeDispatch NodeConnect NodeLife NodeTransfer NodeSafety NodeReach.

Section udp.
Context {NL : Noise} {W : World}.

(** The local address of the socket, and the address behind a [*net.UDPAddr]. *)
Context (local : UDPAddr) (udp_of : Addr → UDPAddr).

(** ** The goroutines *)

(** [handleRead]: at the head of the loop, in [ReadFrom], returned. *)
Inductive reader_at := RdTop | RdReading | RdDone.

(** [readLoop]: at the head, in [conn.ReadFrom], about to send a datagram to the
    connection it has looked up, returned. *)
Inductive loop_at :=
| LoopTop
| LoopReading
| LoopSending (conn : VConnRef) (packet : Packet)
| LoopDone.

(** [us_queues_closed] says that [Close] is past its wait; [us_seen] are the datagrams
    handled so far, which is not of the code. *)
Record udp_state := MkUdpState {
  us_node : Node;
  us_mux : UDPMux;
  us_prober : NATProber;
  us_reader : reader_at;
  us_loop : loop_at;
  us_queues_closed : bool;
  us_seen : list (bytes * Addr);
}.
#[global] Instance udp_state_eta : RecordEta udp_state := λ s,
  MkUdpState (us_node s) (us_mux s) (us_prober s) (us_reader s) (us_loop s) (us_queues_closed s) (us_seen s).

(** What a datagram does to the node and the prober. *)
Definition handle_datagram (addr : Addr) (data : bytes) (prober : NATProber) (n : Node) : option (NATProber * Node) :=
  match HandleProbePacket (Some local) prober data (udp_of addr) with
  | Ok (prober', reply) =>
      r ← handleRead_turn (λ _, reply) addr data n;
      Some (if bool_decide (a_kind addr = AddrUDP) then prober' else prober, r.2)
  | _ => None
  end.

(** One step of [handleRead].  [pick] selects among the ready cases of the [select]
    in [ReadFrom]; with none ready the reader is blocked. *)
Definition handleRead_step (s : udp_state) (pick : nat) (now : Time) (expired : bool) : option udp_state :=
  match us_reader s with
  | RdDone => None
  | RdTop => Some (s <| us_reader := if n_closing (us_node s) then RdDone else RdReading |>)
  | RdReading =>
      match ReadFrom (us_mux s) (tentConn (us_mux s)) LargeBufferSize now expired !! pick with
      | None => None
      | Some (mux, inr ErrTimeout) => Some (s <| us_mux := mux |> <| us_reader := RdTop |>)
      | Some (mux, inr ErrClosed) =>
          (* after a pause of ten milliseconds, unless the node is closing *)
          Some (s <| us_mux := mux |> <| us_reader := if n_closing (us_node s) then RdDone else RdTop |>)
      | Some (mux, inl (data, addr)) =>
          '(prober, n) ← handle_datagram addr data (us_prober s) (us_node s);
          Some (s <| us_mux := mux |> <| us_prober := prober |> <| us_node := n |> <| us_reader := RdTop |>
                  <| us_seen ::= λ l, l ++ [(data, addr)] |>)
      end
  end.

(** One step of [readLoop] away from the socket; [None] is a panic. *)
Definition readLoop_step (s : udp_state) : option udp_state :=
  match us_loop s with
  | LoopTop => Some (s <| us_loop := if mux_closed (us_mux s) then LoopDone else LoopReading |>)
  | LoopSending conn packet =>
      match enqueuePacket (us_mux s) conn packet with
      | Ok mux => Some (s <| us_mux := mux |> <| us_loop := LoopTop |>)
      | _ => None
      end
  | LoopReading | LoopDone => None
  end.

(** The part of [Close] after the read loop has returned; [order] are the handlers. *)
Definition close_queues (m : UDPMux) (order : list VConnRef) : UDPMux :=
  foldl safeClose m ([kcpConn m; punchConn m; tentConn m] ++ order).

(** ** The system *)

Inductive udp_event :=
| Arrives (packet : Packet)                     (** the socket's read returns a datagram, its connection is looked up *)
| ReadFails                                     (** the socket's read fails *)
| LoopRuns                                      (** another step of [readLoop] *)
| ReaderRuns (pick : nat) (now : Time) (expired : bool)
| NodeRuns (i : node_input)                     (** any other step of the node *)
| Registers (remoteAddr : gostring)             (** [RegisterKCPHandler] *)
| Unregisters (remoteAddr : gostring)           (** [UnregisterKCPHandler] *)
| Deadline (conn : VConnRef) (t : Time)         (** [SetDeadline] or [SetReadDeadline] *)
| OthersRead (conn : VConnRef) (n : Z) (now : Time) (expired : bool) (pick : nat)
| MuxCloses                                     (** [Close], up to its wait *)
| QueuesClose (order : list VConnRef).          (** [Close], the rest *)

Definition udp_step (s : udp_state) (ev : udp_event) : option udp_state :=
  match ev with
  | Arrives packet => Some (s <| us_loop := LoopSending (route_target (us_mux s) packet) packet |>)
  | ReadFails => Some (s <| us_loop := if mux_closed (us_mux s) then LoopDone else LoopTop |>)
  | LoopRuns => readLoop_step s
  | ReaderRuns pick now expired => handleRead_step s pick now expired
  | NodeRuns i => r ← handle_input i (us_node s); Some (s <| us_node := r.2 |>)
  | Registers a => Some (s <| us_mux ::= λ m, (RegisterKCPHandler m a).1 |>)
  | Unregisters a => Some (s <| us_mux ::= λ m, UnregisterKCPHandler m a |>)
  | Deadline c t => Some (s <| us_mux ::= λ m, SetDeadline m c t |>)
  | OthersRead c n now expired pick =>
      '(mux, _) ← ReadFrom (us_mux s) c n now expired !! pick; Some (s <| us_mux := mux |>)
  | MuxCloses => Some (s <| us_mux ::= λ m, m <| mux_closed := true |> |>)
  | QueuesClose order => Some (s <| us_mux ::= λ m, close_queues m order |> <| us_queues_closed := true |>)
  end.

(** Events that can happen: a goroutine runs where it is and unless it is blocked;
    [Close] goes on when the read loop has returned. *)
Definition udp_enabled (s : udp_state) (ev : udp_event) : Prop :=
  match ev with
  | Arrives _ | ReadFails => us_loop s = LoopReading
  | LoopRuns => us_loop s = LoopTop ∨ ∃ c p, us_loop s = LoopSending c p
  | ReaderRuns pick now expired =>
      us_reader s = RdTop
      ∨ us_reader s = RdReading
        ∧ is_Some (ReadFrom (us_mux s) (tentConn (us_mux s)) LargeBufferSize now expired !! pick)
  | NodeRuns i => enabled (us_node s) i
  | Registers _ | Unregisters _ | Deadline _ _ | MuxCloses => True
  | OthersRead c n now expired pick =>
      c ≠ tentConn (us_mux s) ∧ is_Some (ReadFrom (us_mux s) c n now expired !! pick)
  | QueuesClose _ => mux_closed (us_mux s) = true ∧ us_loop s = LoopDone ∧ us_queues_closed s = false
  end.

(** A run with the state before each event. *)
Abbreviation trace := (list (udp_state * udp_event)).

Inductive udp_run : udp_state → trace → udp_state → Prop :=
| udp_run_nil s : udp_run s [] s
| udp_run_snoc s tr s1 ev s2 :
    udp_run s tr s1 → udp_enabled s1 ev → udp_step s1 ev = Some s2 → udp_run s (tr ++ [(s1, ev)]) s2.

(** A node that has just started its reader and the mux. *)
Definition udp_start (n : Node) : udp_state := MkUdpState n NewUDPMux NewNATProber RdTop LoopTop false [].

(** Without interruption, a datagram is a turn of [Mux.readLoop_turn] and the two
    parts of [Close] are [Mux.Mux_Close]. *)
Lemma uninterrupted_turn s packet m :
  us_loop s = LoopTop → mux_closed (us_mux s) = false → readLoop_turn (us_mux s) (Some packet) = Ok m →
  (s1 ← udp_step s LoopRuns; s2 ← udp_step s1 (Arrives packet); udp_step s2 LoopRuns) = Some (s <| us_mux := m |>).
Proof.
  intros Hl Ho. unfold readLoop_turn, routePacket, udp_step, readLoop_step. rewrite Ho, Hl. cbn.
  intros ->. destruct s. cbn in *. by subst.
Qed.

Lemma uninterrupted_close m order :
  mux_closed m = false → Mux_Close m order = close_queues (m <| mux_closed := true |>) order.
Proof. intros Ho. unfold Mux_Close. by rewrite Ho. Qed.

(** ** Invariant *)

(** The queue of the TENT connection. *)
Definition tent_queue (m : UDPMux) : list Packet := default [] (vc_queue <$> vconns m !! tentConn m).

Definition as_read (p : Packet) : bytes * Addr := (pk_Data p, pk_Addr p).

(** Datagrams the mux sends to the TENT connection; the others do not concern the reader. *)
Definition for_tent (p : Packet) : bool :=
  negb (isPunchPacket (pk_Data p))
  && (isProbePacket (pk_Data p) || isTentPacket (pk_Data p) || isRawRelayPacket (pk_Data p)).

(** The TENT datagrams the socket returned. *)
Definition tent_arrivals (tr : trace) : list Packet :=
  omap (λ x, match x.2 with Arrives p => if for_tent p then Some p else None | _ => None end) tr.

(** The send of a TENT datagram, and whether it finds room in the queue. *)
Definition tent_send (x : udp_state * udp_event) : list (Packet * bool) :=
  match x.2, us_loop x.1 with
  | LoopRuns, LoopSending _ p => if for_tent p then [(p, len (tent_queue (us_mux x.1)) <? 128)] else []
  | _, _ => []
  end.

Definition tent_sends (tr : trace) : list (Packet * bool) := tr ≫= tent_send.

(** The datagrams that found room. *)
Definition accepted (sends : list (Packet * bool)) : list Packet := (filter (λ x, x.2 = true) sends).*1.

(** A TENT datagram between look-up and send. *)
Definition in_flight (s : udp_state) : list Packet :=
  match us_loop s with LoopSending _ p => if for_tent p then [p] else [] | _ => [] end.

(** A datagram fits the buffer. *)
Definition fits_buffer (ev : udp_event) : Prop :=
  match ev with Arrives p => len (pk_Data p) ≤ LargeBufferSize | _ => True end.

Definition fixed_conn (c : VConnRef) : Prop := c = 1%positive ∨ c = 2%positive ∨ c = 3%positive.

(** The connection a datagram is being sent to: one of the three fixed ones, the
    handler of its address, or a handler that has left the table since. *)
Record sending_ok (m : UDPMux) (c : VConnRef) (p : Packet) : Prop := {
  so_exists : is_Some (vconns m !! c);
  so_tent : for_tent p = true ↔ c = 3%positive;
  so_fits : len (pk_Data p) ≤ LargeBufferSize;
  so_from : fixed_conn c ∨ kcpHandlers m !! a_str (pk_Addr p) = Some c ∨ ∀ a, kcpHandlers m !! a ≠ Some c;
}.

(** The mux with a closed flag that says whether the queues are closed. *)
Abbreviation flagged m b := (m <| mux_closed := b |>).

Record udp_inv (s : udp_state) : Prop := {
  ui_node : node_wf (us_node s);
  ui_mux : mux_wf (flagged (us_mux s) (us_queues_closed s));
  ui_conn : tentConn (us_mux s) = 3%positive ∧ kcpConn (us_mux s) = 1%positive ∧ punchConn (us_mux s) = 2%positive;
  ui_tent : ∃ v, vconns (us_mux s) !! 3%positive = Some v ∧ vc_cap v = 128
            ∧ Forall (λ p, len (pk_Data p) ≤ LargeBufferSize) (vc_queue v);
  ui_done : us_queues_closed s = true → us_loop s = LoopDone;
  ui_sending : ∀ c p, us_loop s = LoopSending c p → sending_ok (us_mux s) c p;
}.

(** The datagrams the reader has handled or will find. *)
Definition in_order (s : udp_state) : list (bytes * Addr) := us_seen s ++ map as_read (tent_queue (us_mux s)).

Definition conn_closed (m : UDPMux) (c : VConnRef) : Prop := ∃ v, vconns m !! c = Some v ∧ vc_closed v = true.

(** What one event does. *)
Record udp_progress (s : udp_state) (ev : udp_event) (s' : udp_state) : Prop := {
  up_inv : udp_inv s';
  up_node : rtc node_step (us_node s) (us_node s');
  up_order : in_order s' = in_order s ++ map as_read (accepted (tent_send (s, ev)));
  up_flight : in_flight s ++ tent_arrivals [(s, ev)] = (tent_send (s, ev)).*1 ++ in_flight s';
  up_sending : ∀ c p, us_loop s' = LoopSending c p →
    us_loop s = LoopSending c p
    ∧ (conn_closed (us_mux s') c → conn_closed (us_mux s) c
       ∨ ev = Unregisters (a_str (pk_Addr p)) ∧ kcpHandlers (us_mux s) !! a_str (pk_Addr p) = Some c)
    ∨ ev = Arrives p ∧ c = route_target (us_mux s) p ∧ ¬ conn_closed (us_mux s') c;
}.

Lemma udp_start_inv n : node_wf n → udp_inv (udp_start n).
Proof.
  intros Hn. split; [done|apply NewUDPMux_wf|done| |done|done]. cbn. eexists. split; [reflexivity|]. by split_and!.
Qed.

Lemma handle_datagram_ok addr data prober n :
  node_wf n → ∃ prober' n', handle_datagram addr data prober n = Some (prober', n') ∧ node_wf n' ∧ rtc node_step n n'.
Proof.
  intros Hn. unfold handle_datagram.
  destruct (probe_packet_safe local prober data (udp_of addr)) as (p1 & reply & -> & _).
  destruct (safe_wf (handleRead_turn (λ _, reply) addr data) n Hn) as ([] & n' & Hrun & Hn' & _).
  { intros. by apply safe_handleRead_turn. }
  rewrite Hrun. cbn. eexists _, n'. split_and!; [done..|]. apply rtc_once. by exists (InDatagram (λ _, reply) addr data).
Qed.

(** ** Changes of the mux by others *)

(** A change that leaves the TENT queue alone and closes no queue that may be sent to,
    except by unregistering it. *)
Record mux_keeps (s : udp_state) (m : UDPMux) : Prop := {
  mk_wf : mux_wf (flagged m (us_queues_closed s));
  mk_conn : tentConn m = tentConn (us_mux s) ∧ kcpConn m = kcpConn (us_mux s) ∧ punchConn m = punchConn (us_mux s);
  mk_tent : ∀ v, vconns (us_mux s) !! 3%positive = Some v →
    ∃ v', vconns m !! 3%positive = Some v' ∧ vc_cap v' = vc_cap v ∧ vc_queue v' = vc_queue v;
  mk_sending : ∀ c p, us_loop s = LoopSending c p → sending_ok m c p;
}.

Lemma mux_keeps_queue s m : udp_inv s → mux_keeps s m → tent_queue m = tent_queue (us_mux s).
Proof.
  intros Hinv [_ (E & _) Ht _]. destruct (ui_tent _ Hinv) as (v & Hv & _). destruct (ui_conn _ Hinv) as (E3 & _).
  destruct (Ht v Hv) as (v' & Hv' & _ & Hq). unfold tent_queue. by rewrite E, E3, Hv, Hv'; cbn.
Qed.

Lemma mux_keeps_progress s m s' ev :
  s' = s <| us_mux := m |> → udp_inv s → mux_keeps s m → tent_arrivals [(s, ev)] = [] → tent_send (s, ev) = [] →
  (∀ c p, us_loop s = LoopSending c p → conn_closed m c → conn_closed (us_mux s) c
     ∨ ev = Unregisters (a_str (pk_Addr p)) ∧ kcpHandlers (us_mux s) !! a_str (pk_Addr p) = Some c) →
  udp_progress s ev s'.
Proof.
  intros -> Hinv Hm Ha Hs Hc. pose proof (mux_keeps_queue s m Hinv Hm) as Hq.
  destruct Hm as [Hwf (F1 & F2 & F3) Ht Hse], Hinv as [Hn Hmx (E1 & E2 & E3) (v & Hv & Hcap & Hfit) Hd Hsend]. split.
  - split; try done; [cbn; by rewrite F1, F2, F3|]. destruct (Ht v Hv) as (v' & Hv' & Hc' & Hq').
    exists v'. by rewrite Hc', Hq'.
  - apply rtc_refl.
  - unfold in_order. cbn [us_seen us_mux set_field]. cbn. by rewrite Hq, Hs, app_nil_r.
  - by rewrite Ha, Hs, app_nil_r.
  - intros c p Hl. left. split; [done|]. by apply Hc.
Qed.

Lemma mux_keeps_refl s : udp_inv s → mux_keeps s (us_mux s).
Proof. intros Hinv. split; [apply Hinv|done| |apply Hinv]. intros v Hv. by exists v. Qed.

Lemma sending_not_tent m c p : sending_ok m c p → for_tent p = false → c ≠ 3%positive.
Proof. intros Hs Hf ->. by rewrite (proj2 (so_tent _ _ _ Hs) eq_refl) in Hf. Qed.

(** Changes of the contents of connections: no handler enters or leaves. *)
Lemma conns_keep s f :
  udp_inv s →
  (∀ c v', f !! c = Some v' → ∃ v, vconns (us_mux s) !! c = Some v ∧ len (vc_queue v') ≤ vc_cap v'
     ∧ vc_closed v' = vc_closed v ∧ (c = 3%positive → vc_cap v' = vc_cap v ∧ vc_queue v' = vc_queue v)) →
  (∀ c, is_Some (vconns (us_mux s) !! c) → is_Some (f !! c)) →
  mux_keeps s (us_mux s <| vconns := f |>).
Proof.
  intros Hinv Hf Hd. destruct Hinv as [Hn Hmx Hfix Ht Hdone Hsend]. split; [|done|..].
  - enough (mux_wf (flagged (us_mux s) (us_queues_closed s) <| vconns := f |>)) as H by exact H.
    apply mux_wf_conns; [done|..].
    + intros c v' Hv'. by destruct (Hf c v' Hv') as (v & _ & Hl & _).
    + done.
    + intros _ c v' _ Hv'. destruct (Hf c v' Hv') as (v & Hv & _ & Hc & _). by exists v.
  - intros v Hv. destruct (Hd 3%positive) as [v' Hv']; [by eexists|]. exists v'. cbn. split; [done|].
    destruct (Hf _ _ Hv') as (w & Hw & _ & _ & H3). assert (w = v) as -> by congruence. by apply H3.
  - intros c p Hl. destruct (Hsend c p Hl) as [H1 H2 H3 H4]. split; try done. by apply Hd.
Qed.

Lemma conns_keep_closed s f c :
  (∀ c v', f !! c = Some v' → ∃ v, vconns (us_mux s) !! c = Some v ∧ vc_closed v' = vc_closed v) →
  conn_closed (us_mux s <| vconns := f |>) c → conn_closed (us_mux s) c.
Proof. intros Hf (v' & Hv' & Hc). destruct (Hf c v' Hv') as (v & Hv & E). exists v. by rewrite <- E. Qed.

Lemma deadline_progress s c t : udp_inv s → udp_progress s (Deadline c t) (s <| us_mux ::= λ m, SetDeadline m c t |>).
Proof.
  intros Hinv.
  assert (∀ c' v', alter (λ v, v <| vc_deadline := t |>) c (vconns (us_mux s)) !! c' = Some v' →
    ∃ v, vconns (us_mux s) !! c' = Some v ∧ vc_queue v' = vc_queue v ∧ vc_cap v' = vc_cap v
         ∧ vc_closed v' = vc_closed v) as Hf.
  { intros c' v' [(_ & v & Hv & ->)|[_ Hv]]%lookup_alter_Some; eauto. }
  apply (mux_keeps_progress s (us_mux s <| vconns := alter (λ v, v <| vc_deadline := t |>) c (vconns (us_mux s)) |>));
    [done|done| |done|done|].
  - apply conns_keep; [done| |].
    + intros c' v' Hv'. destruct (Hf c' v' Hv') as (v & Hv & Hq & Hcap & Hc). exists v. rewrite Hq, Hcap.
      split_and!; try done. by apply (wf_bound _ (ui_mux _ Hinv)) in Hv.
    + intros c' H. by rewrite lookup_alter_is_Some.
  - intros c' p _ H. left. eapply conns_keep_closed; [|exact H]. intros c1 v1 Hv1. destruct (Hf c1 v1 Hv1) as (v & ? & _ & _ & ?). eauto.
Qed.

(** What a read of a connection leaves in the mux. *)
Lemma ReadFrom_cases m c n now expired m' out :
  (m', out) ∈ ReadFrom m c n now expired →
  match out with
  | inl d => ∃ v p q, vconns m !! c = Some v ∧ vc_queue v = p :: q ∧ d = (take (Z.to_nat n) (pk_Data p), pk_Addr p)
      ∧ m' = m <| vconns := <[c := v <| vc_queue := q |>]> (vconns m) |>
  | inr _ => m' = m
  end.
Proof.
  unfold ReadFrom. destruct (vconns m !! c) as [v|] eqn:Hv; [|by intros ?%elem_of_nil].
  destruct (_ && _); [by intros [= -> ->]%list_elem_of_singleton|]. rewrite !elem_of_app. intros [H|[H|H]].
  - destruct (vc_queue v) as [|p q] eqn:Hq.
    + destruct (vc_closed v); [by apply list_elem_of_singleton in H as [= -> ->]|by apply elem_of_nil in H].
    + apply list_elem_of_singleton in H as [= -> ->]. by exists v, p, q.
  - destruct (_ && _); [by apply list_elem_of_singleton in H as [= -> ->]|by apply elem_of_nil in H].
  - destruct (mux_closed m); [by apply list_elem_of_singleton in H as [= -> ->]|by apply elem_of_nil in H].
Qed.

(** Taking the first datagram off a queue. *)
Lemma pop_conns m c v p q c' v' :
  vconns m !! c = Some v → vc_queue v = p :: q → <[c := v <| vc_queue := q |>]> (vconns m) !! c' = Some v' →
  ∃ w, vconns m !! c' = Some w ∧ vc_cap v' = vc_cap w ∧ len (vc_queue v') ≤ len (vc_queue w)
  ∧ vc_closed v' = vc_closed w ∧ (c' ≠ c → v' = w).
Proof.
  intros Hv Hq [[<- <-]|[Hne Hw]]%lookup_insert_Some.
  - exists v. cbn. rewrite Hq, len_cons. split_and!; [done|done|lia|done|done].
  - by exists v'.
Qed.

Lemma others_progress s c n now expired pick m out :
  udp_inv s → c ≠ tentConn (us_mux s) → ReadFrom (us_mux s) c n now expired !! pick = Some (m, out) →
  udp_progress s (OthersRead c n now expired pick) (s <| us_mux := m |>).
Proof.
  intros Hinv Hne Hin%list_elem_of_lookup_2%ReadFrom_cases. destruct (ui_conn _ Hinv) as (E3 & _). rewrite E3 in Hne.
  destruct out as [d|e].
  2:{ subst m. apply (mux_keeps_progress s (us_mux s)); try done; [by apply mux_keeps_refl|auto]. }
  destruct Hin as (v & p & q & Hv & Hq & _ & ->).
  pose proof (λ c' v', pop_conns _ c v p q c' v' Hv Hq) as Hf. eapply mux_keeps_progress; [reflexivity|done| |done|done|].
  - apply conns_keep; [done| |].
    + intros c' v' Hv'. destruct (Hf c' v' Hv') as (w & Hw & Hcap & Hl & Hc & Hx). exists w.
      pose proof (wf_bound _ (ui_mux _ Hinv) _ _ Hw). split_and!; [done|lia|done|]. intros ->. by rewrite Hx.
    + intros c' [w Hw]. destruct (decide (c = c')) as [<-|]; by simplify_map_eq.
  - intros c' p' _ H. left. eapply conns_keep_closed; [|exact H]. intros c1 v1 Hv1.
    destruct (Hf c1 v1 Hv1) as (w & ? & _ & _ & ? & _). eauto.
Qed.

Lemma register_progress s a : udp_inv s → udp_progress s (Registers a) (s <| us_mux ::= λ m, (RegisterKCPHandler m a).1 |>).
Proof.
  intros Hinv. pose proof (RegisterKCPHandler_wf _ a (ui_mux _ Hinv)) as Hwf.
  apply (mux_keeps_progress s (RegisterKCPHandler (us_mux s) a).1); [done|done| |done|done|].
  - split; [exact Hwf|done|..].
    + intros v Hv. exists v. cbn. rewrite lookup_insert_ne; [done|]. intros E. rewrite <- E in Hv. by apply elem_of_dom_2, is_fresh in Hv.
    + intros c p Hl. destruct (ui_sending _ Hinv c p Hl) as [[v Hv] H2 H3 H4].
      assert (fresh (dom (vconns (us_mux s))) ≠ c) as Hne by (intros <-; by apply elem_of_dom_2, is_fresh in Hv).
      split; try done; cbn -[fresh]; [rewrite lookup_insert_ne by done; by eexists|].
      destruct H4 as [H4|[H4|H4]]; [by left|right|right; right].
      * destruct (decide (a = a_str (pk_Addr p))) as [->|]; [right|left; by rewrite lookup_insert_ne].
        intros a' [[<- E]|[Hna Ha]]%lookup_insert_Some; [done|]. by apply Hna, (wf_inj _ (ui_mux _ Hinv) _ _ c).
      * intros a' [[_ E]|[_ Ha]]%lookup_insert_Some; [done|by apply (H4 a')].
  - intros c p Hl (v & Hv & Hc). left. exists v. split; [|done]. cbn in Hv.
    apply lookup_insert_Some in Hv as [[_ <-]|[_ Hv]]; [done|done].
Qed.


(** The handlers that stay are other connections than the one unregistered. *)
Lemma unregister_progress s a :
  udp_inv s → udp_progress s (Unregisters a) (s <| us_mux ::= λ m, UnregisterKCPHandler m a |>).
Proof.
  intros Hinv. pose proof (UnregisterKCPHandler_wf _ a (ui_mux _ Hinv)) as Hwf.
  apply (mux_keeps_progress s (UnregisterKCPHandler (us_mux s) a)); [done|done| |done|done|].
  - unfold UnregisterKCPHandler in *. cbn in Hwf. destruct (kcpHandlers (us_mux s) !! a) as [h|] eqn:Ha.
    2:{ split; [exact Hwf|done| |by apply ui_sending]. intros v Hv. by exists v. }
    destruct (wf_fixed _ (ui_mux _ Hinv) _ _ Ha) as (_ & _ & H3). cbn in H3.
    destruct (ui_conn _ Hinv) as (E3 & _). rewrite E3 in H3.
    split; [exact Hwf|done|..].
    + intros v Hv. exists v. cbn. by rewrite lookup_alter_ne.
    + intros c p Hl. destruct (ui_sending _ Hinv c p Hl) as [H1 H2 H5 H4]. split; try done; cbn; [by rewrite lookup_alter_is_Some|].
      destruct H4 as [H4|[H4|H4]]; [by left|right|right; right; intros a' [_ Ha']%lookup_delete_Some; by apply (H4 a')].
      destruct (decide (a = a_str (pk_Addr p))) as [->|]; [right|left; by rewrite lookup_delete_ne].
      intros a' [Hna Ha']%lookup_delete_Some. by apply Hna, (wf_inj _ (ui_mux _ Hinv) _ _ c).
  - intros c p Hl (v & Hv & Hc). unfold UnregisterKCPHandler in Hv.
    destruct (kcpHandlers (us_mux s) !! a) as [h|] eqn:Ha; [|left; by exists v]. cbn in Hv.
    apply lookup_alter_Some in Hv as [(<- & w & Hw & ->)|[_ Hv]]; [right|left; by exists v].
    destruct (wf_fixed _ (ui_mux _ Hinv) _ _ Ha) as (F1 & F2 & F3). cbn in F1, F2, F3.
    destruct (ui_conn _ Hinv) as (E3 & E1 & E2). destruct (ui_sending _ Hinv _ p Hl) as [_ _ _ H4].
    destruct H4 as [[ -> | [ -> | -> ]]|[H4|H4]]; [congruence..| |by destruct (H4 a)].
    assert (a = a_str (pk_Addr p)) as -> by by apply (wf_inj _ (ui_mux _ Hinv) _ _ h). done.
Qed.

(** Setting the flag of [Close]. *)
Lemma mux_closes_progress s : udp_inv s → udp_progress s MuxCloses (s <| us_mux ::= λ m, m <| mux_closed := true |> |>).
Proof.
  intros Hinv. apply (mux_keeps_progress s (us_mux s <| mux_closed := true |>)); [done|done| |done|done|].
  - split; [exact (ui_mux _ Hinv)|done| |]; [intros v Hv; by exists v|]. intros c p Hl.
    by destruct (ui_sending _ Hinv c p Hl) as [H1 H2 H3 H4].
  - intros c p _ (v & Hv & Hc). left. by exists v.
Qed.

(** ** The read loop *)

Lemma foldl_safeClose_conns cs : ∀ m c, ∃ b, vconns (foldl safeClose m cs) !! c = (λ v, v <| vc_closed := b v |>) <$> vconns m !! c.
Proof.
  induction cs as [|x cs IH]; intros m c; cbn.
  - exists vc_closed. destruct (vconns m !! c) as [[]|]; done.
  - destruct (IH (safeClose m x) c) as [b ->]. unfold safeClose. cbn. destruct (decide (x = c)) as [->|].
    + rewrite lookup_alter_eq. exists (λ v, b (v <| vc_closed := true |>)). by destruct (vconns m !! c) as [[]|].
    + rewrite lookup_alter_ne by done. by exists b.
Qed.

Lemma foldl_safeClose_fixed cs m :
  kcpConn (foldl safeClose m cs) = kcpConn m ∧ punchConn (foldl safeClose m cs) = punchConn m
  ∧ tentConn (foldl safeClose m cs) = tentConn m ∧ mux_closed (foldl safeClose m cs) = mux_closed m.
Proof. revert m. induction cs as [|x cs IH]; intros m; cbn; [done|]. by destruct (IH (safeClose m x)) as (-> & -> & -> & ->). Qed.

Lemma flagged_id m : flagged m (mux_closed m) = m.
Proof. by destruct m. Qed.

Lemma close_queues_wf m order :
  mux_wf (flagged m false) → mux_closed m = true → mux_wf (flagged (close_queues m order) true).
Proof.
  intros Hwf Hc. pose proof (Mux_Close_wf _ order Hwf) as H. rewrite uninterrupted_close in H by done.
  change (flagged (flagged m false) true) with (flagged m true) in H.
  pose proof (flagged_id m) as E. rewrite Hc in E. rewrite E in H.
  assert (mux_closed (close_queues m order) = true) as E2 by (rewrite <- Hc; apply foldl_safeClose_fixed).
  pose proof (flagged_id (close_queues m order)) as E3. rewrite E2 in E3. by rewrite E3.
Qed.

Lemma close_progress s order :
  udp_inv s → udp_enabled s (QueuesClose order) →
  udp_progress s (QueuesClose order) (s <| us_mux ::= λ m, close_queues m order |> <| us_queues_closed := true |>).
Proof.
  intros Hinv (Hc & Hl & Hq). destruct Hinv as [Hn Hm (E3 & E1 & E2) (v & Hv & Hcap & Hfit) Hd Hs].
  rewrite Hq in Hm. pose proof (close_queues_wf _ order Hm Hc) as Hwf. set (m := close_queues (us_mux s) order) in *.
  destruct (foldl_safeClose_fixed ([kcpConn (us_mux s); punchConn (us_mux s); tentConn (us_mux s)] ++ order) (us_mux s))
    as (F1 & F2 & F3 & _).
  destruct (foldl_safeClose_conns ([kcpConn (us_mux s); punchConn (us_mux s); tentConn (us_mux s)] ++ order)
    (us_mux s) 3%positive) as [b Hb]. fold (close_queues (us_mux s) order) in *. fold m in F1, F2, F3, Hb.
  rewrite Hv in Hb. split.
  - split; cbn -[close_queues]; try done; [|by eexists|by rewrite Hl]. fold m. by rewrite F1, F2, F3.
  - apply rtc_refl.
  - unfold in_order, tent_queue. cbn -[close_queues]. fold m. by rewrite app_nil_r, F3, E3, Hb, Hv.
  - unfold in_flight. cbn. by rewrite Hl.
  - cbn. by rewrite Hl.
Qed.

(** Where the loop is going. *)
Lemma route_from s p :
  udp_inv s → fixed_conn (route_target (us_mux s) p)
              ∨ kcpHandlers (us_mux s) !! a_str (pk_Addr p) = Some (route_target (us_mux s) p).
Proof.
  intros Hinv. destruct (ui_conn _ Hinv) as (E3 & E1 & E2). unfold route_target, fixed_conn. rewrite E3, E1, E2.
  destruct (isPunchPacket _); [auto|]. destruct (_ || _); [auto|]. destruct (kcpHandlers (us_mux s) !! _); auto.
Qed.

Lemma route_sending s p :
  udp_inv s → us_queues_closed s = false → len (pk_Data p) ≤ LargeBufferSize →
  sending_ok (us_mux s) (route_target (us_mux s) p) p ∧ ¬ conn_closed (us_mux s) (route_target (us_mux s) p).
Proof.
  intros Hinv Hq Hfit. pose proof Hinv as [Hn Hm (E3 & E1 & E2) Ht Hd Hs]. pose proof (route_target_routed (us_mux s) p) as Hr. split.
  - split; [exact (wf_exists _ Hm _ Hr)| |done|].
    + unfold for_tent, route_target. rewrite E3, E1, E2. destruct (isPunchPacket _); [by split|]. cbn.
      destruct (_ || _) eqn:E; [by split|]. split; [done|]. destruct (kcpHandlers (us_mux s) !! _) as [h|] eqn:Eh; [|done].
      intros ->. destruct (wf_fixed _ Hm _ _ Eh) as (_ & _ & Hne). cbn in Hne. congruence.
    + destruct (route_from s p Hinv); auto.
  - intros (v & Hv & Hc). rewrite Hq in Hm. pose proof (wf_open _ Hm eq_refl _ v Hr Hv). congruence.
Qed.

Lemma arrives_progress s p :
  udp_inv s → len (pk_Data p) ≤ LargeBufferSize → us_loop s = LoopReading →
  udp_progress s (Arrives p) (s <| us_loop := LoopSending (route_target (us_mux s) p) p |>).
Proof.
  intros Hinv Hfit Hl.
  assert (us_queues_closed s = false) as Hq.
  { destruct (us_queues_closed s) eqn:E; [|done]. apply (ui_done _ Hinv) in E. congruence. }
  destruct (route_sending s p Hinv Hq Hfit) as [Hs Ho]. destruct Hinv as [Hn Hm Hc Ht Hd _]. split.
  - split; try done; cbn; [by rewrite Hq|]. by intros c p' [= <- <-].
  - apply rtc_refl.
  - unfold in_order. cbn. by rewrite app_nil_r.
  - unfold in_flight, tent_send, tent_arrivals. cbn. rewrite Hl. by destruct (for_tent p).
  - intros c p' [= <- <-]. right. by split_and!.
Qed.

(** A send that does not panic appends the datagram where there is room. *)
Lemma send_cases s c p m :
  enqueuePacket (us_mux s) c p = Ok m →
  ∃ v, vconns (us_mux s) !! c = Some v ∧ vc_closed v = false
  ∧ m = us_mux s <| vconns := <[c := v <| vc_queue := if len (vc_queue v) <? vc_cap v then vc_queue v ++ [p] else vc_queue v |>]>
                                (vconns (us_mux s)) |>.
Proof.
  unfold enqueuePacket, vc_send. destruct (vconns (us_mux s) !! c) as [v|]; [|done].
  destruct (vc_closed v) eqn:Hc; [done|]. intros H. exists v. split_and!; [done..|]. revert H.
  destruct v as [cap q cl dl]. cbn in *. destruct (_ <? _); cbn; by intros [= <-].
Qed.

Lemma send_progress s c p s' :
  udp_inv s → us_loop s = LoopSending c p → readLoop_step s = Some s' → udp_progress s LoopRuns s'.
Proof.
  intros Hinv Hl. pose proof Hinv as [Hn Hm (E3 & E1 & E2) (v3 & Hv3 & Hcap & Hfit) Hd Hs].
  destruct (Hs c p Hl) as [_ Ht Hp _]. unfold readLoop_step. rewrite Hl.
  destruct (enqueuePacket (us_mux s) c p) as [m| |] eqn:E; try done. intros [= <-].
  destruct (send_cases s c p m E) as (v & Hv & Ho & ->). clear E.
  set (q := if len (vc_queue v) <? vc_cap v then vc_queue v ++ [p] else vc_queue v).
  assert (len q ≤ vc_cap v) as Hq.
  { pose proof (wf_bound _ Hm _ _ Hv). unfold q. zcase; rewrite ?len_app, ?len_cons, ?len_nil; lia. }
  assert (c = 3%positive → v = v3) as E by (intros ->; congruence). split.
  - split; cbn; try done.
    + enough (mux_wf (flagged (us_mux s) (us_queues_closed s) <| vconns := <[c := v <| vc_queue := q |>]> (vconns (us_mux s)) |>))
        as H by exact H.
      apply mux_wf_conns; [done|..].
      * intros c' w [[_ <-]|[_ Hw]]%lookup_insert_Some; [done|by eapply (wf_bound _ Hm)].
      * intros c' [w Hw]. cbn in *. destruct (decide (c = c')) as [<-|]; by simplify_map_eq.
      * intros _ c' w _ [[<- <-]|[_ Hw]]%lookup_insert_Some; eauto.
    + destruct (decide (c = 3%positive)) as [Hc|Hc].
      * specialize (E Hc). subst c v. rewrite lookup_insert_eq. eexists. split; [reflexivity|]. split; [done|]. cbn.
        unfold q. destruct (_ <? _); [|done]. apply Forall_app. by repeat constructor.
      * rewrite lookup_insert_ne by done. eauto.
    + intros Hcl. apply Hd in Hcl. congruence.
  - apply rtc_refl.
  - unfold in_order, tent_queue, tent_send. cbn. rewrite Hl, E3, Hv3. cbn. destruct (for_tent p) eqn:Hf.
    + assert (c = 3%positive) as Hc by by apply Ht. specialize (E Hc). subst c v. rewrite lookup_insert_eq. cbn.
      unfold q. rewrite Hcap. unfold tent_queue. rewrite E3, Hv3. cbn.
      destruct (Z.ltb_spec (len (vc_queue v3)) 128); [rewrite decide_True by done|rewrite decide_False by done; by rewrite app_nil_r].
      by rewrite map_app, app_assoc.
    + rewrite lookup_insert_ne by (intros ->; discriminate (proj2 Ht eq_refl)). by rewrite Hv3, app_nil_r.
  - unfold in_flight, tent_send, tent_arrivals. cbn. rewrite Hl. by destruct (for_tent p).
  - done.
Qed.

(** Steps that only move the two loops. *)
Lemma move_progress s s' ev :
  udp_inv s → s' = s <| us_reader := us_reader s' |> <| us_loop := us_loop s' |> →
  us_loop s' = us_loop s ∨ (∀ c p, us_loop s ≠ LoopSending c p) ∧ (∀ c p, us_loop s' ≠ LoopSending c p)
    ∧ us_loop s ≠ LoopDone →
  tent_arrivals [(s, ev)] = [] → tent_send (s, ev) = [] → udp_progress s ev s'.
Proof.
  intros Hinv Hs' Hmove Ha Hse. destruct s' as [n m pr rd lp qc seen]. cbn in Hs', Hmove. injection Hs' as -> -> -> -> ->.
  destruct Hinv as [Hn Hm Hc Ht Hd Hs]. split.
  - split; cbn; try done; destruct Hmove as [->|(H1 & H2 & H3)]; auto.
    + intros E. by destruct (H3 (Hd E)).
    + intros c p E. by destruct (H2 c p).
  - apply rtc_refl.
  - unfold in_order. cbn. by rewrite Hse, app_nil_r.
  - rewrite Ha, Hse, app_nil_r. unfold in_flight. cbn. destruct Hmove as [->|(H1 & H2 & _)]; [done|].
    destruct (us_loop s) as [| |c p|], lp as [| |c' p'|]; try done; (by destruct (H1 c p)) || (by destruct (H2 c' p')).
  - cbn. intros c p E. left. destruct Hmove as [<-|(_ & H2 & _)]; [auto|by destruct (H2 c p)].
Qed.

(** ** The reader *)

(** Handling the first datagram of the TENT queue. *)
Lemma handled_progress s ev v p q n prober :
  udp_inv s → vconns (us_mux s) !! 3%positive = Some v → vc_queue v = p :: q →
  node_wf n → rtc node_step (us_node s) n → tent_arrivals [(s, ev)] = [] → tent_send (s, ev) = [] →
  udp_progress s ev
    (s <| us_mux := us_mux s <| vconns := <[3%positive := v <| vc_queue := q |>]> (vconns (us_mux s)) |> |>
       <| us_prober := prober |> <| us_node := n |> <| us_reader := RdTop |> <| us_seen ::= λ l, l ++ [as_read p] |>).
Proof.
  intros Hinv Hv Hq Hn Hsteps Ha Hse. destruct Hinv as [_ Hm (E3 & E1 & E2) (v3 & Hv3 & Hcap & Hfit) Hd Hs].
  assert (v3 = v) as -> by congruence. pose proof (λ c' v', pop_conns _ _ v p q c' v' Hv Hq) as Hf. split; try done.
  - split; cbn; try done.
    + enough (mux_wf (flagged (us_mux s) (us_queues_closed s)
        <| vconns := <[3%positive := v <| vc_queue := q |>]> (vconns (us_mux s)) |>)) as H by exact H.
      apply mux_wf_conns; [done|..].
      * intros c w Hw. destruct (Hf c w Hw) as (w' & Hw' & -> & Hl & _). pose proof (wf_bound _ Hm _ _ Hw'). lia.
      * intros c [w Hw]. cbn in *. destruct (decide (3%positive = c)) as [<-|]; by simplify_map_eq.
      * intros _ c w _ Hw. destruct (Hf c w Hw) as (w' & Hw' & _ & _ & Hc & _). by exists w'.
    + exists (v <| vc_queue := q |>). rewrite lookup_insert_eq. split_and!; [done..|]. cbn. rewrite Hq in Hfit.
      by inversion Hfit.
    + intros c p' Hl. destruct (Hs c p' Hl) as [H1 H2 H3 H4]. split; try done. cbn.
      destruct (decide (3%positive = c)) as [<-|]; by simplify_map_eq.
  - unfold in_order, tent_queue. cbn. rewrite Hse, E3, lookup_insert_eq, Hv. cbn. by rewrite Hq, <- app_assoc, app_nil_r.
  - by rewrite Ha, Hse, app_nil_r.
  - intros c p' Hl. left. split; [done|]. intros (w & Hw & Hc). cbn in Hw. left.
    destruct (Hf c w Hw) as (w' & Hw' & _ & _ & E & _). exists w'. by rewrite <- E.
Qed.

Lemma reader_progress s pick now expired :
  udp_inv s → udp_enabled s (ReaderRuns pick now expired) →
  ∃ s', handleRead_step s pick now expired = Some s' ∧ udp_progress s (ReaderRuns pick now expired) s'
  ∧ (us_reader s = RdReading → us_reader s' = RdTop ∨ us_reader s' = RdDone).
Proof.
  intros Hinv Hen. unfold handleRead_step. destruct Hen as [Hpc|[Hpc [[m out] Hr]]]; rewrite Hpc.
  { eexists. split; [reflexivity|]. split; [|done]. apply move_progress; [done|by destruct s|by left|done|done]. }
  rewrite Hr. apply list_elem_of_lookup_2, ReadFrom_cases in Hr. destruct out as [[data addr]|err].
  - destruct Hr as (v & p & q & Hv & Hq & [= Hd ->] & ->). rewrite (proj1 (ui_conn _ Hinv)) in *.
    assert (data = pk_Data p) as ->.
    { rewrite Hd. apply take_ge. destruct (ui_tent _ Hinv) as (v3 & Hv3 & _ & Hfit). assert (v3 = v) as -> by congruence.
      rewrite Hq in Hfit. inversion Hfit. unfold len in *. lia. }
    destruct (handle_datagram_ok (pk_Addr p) (pk_Data p) (us_prober s) (us_node s) (ui_node _ Hinv))
      as (prober & n & Hh & Hn & Hsteps). rewrite Hh. cbn.
    eexists. split; [reflexivity|]. split; [|by left]. by apply handled_progress.
  - subst m. destruct err; (eexists; split; [reflexivity|]); (split;
      [apply move_progress; [done|by destruct s|by left|done|done]|]); intros _; cbn; [auto|].
    destruct (n_closing _); auto.
Qed.

Lemma node_progress s i n :
  udp_inv s → node_wf n → node_step (us_node s) n → udp_progress s (NodeRuns i) (s <| us_node := n |>).
Proof.
  intros Hinv Hn Hs. pose proof Hinv as [? ? ? ? ? ?]. split; try done.
  - by apply rtc_once.
  - unfold in_order. cbn. by rewrite app_nil_r.
  - cbn. by rewrite app_nil_r.
  - intros c p Hl. left. auto.
Qed.

(** ** Runs *)

(** An event that can happen happens, except for a send to a closed queue. *)
Lemma udp_step_progress s ev :
  udp_inv s → fits_buffer ev → udp_enabled s ev →
  match udp_step s ev with
  | Some s' => udp_progress s ev s'
  | None => ev = LoopRuns ∧ ∃ c p, us_loop s = LoopSending c p ∧ conn_closed (us_mux s) c
  end.
Proof.
  intros Hinv Hfit Hen. destruct ev as [p| | |pick now expired|i|a|a|c t|c k now expired pick| |order]; cbn [udp_step].
  - by apply arrives_progress.
  - apply move_progress; [done|by destruct s| |done|done]. right. cbn in Hen. rewrite Hen. cbn.
    split_and!; [done| |done]. by destruct (mux_closed _).
  - destruct Hen as [Hl|(c & p & Hl)].
    + unfold readLoop_step. rewrite Hl. apply move_progress; [done|by destruct s| |done|by unfold tent_send; cbn; rewrite Hl].
      right. rewrite Hl. cbn. split_and!; [done| |done]. by destruct (mux_closed _).
    + destruct (readLoop_step s) as [s'|] eqn:E; [by eapply send_progress|]. split; [done|]. exists c, p. split; [done|].
      destruct (ui_sending _ Hinv c p Hl) as [[v Hv] _ _ _]. exists v. split; [done|]. revert E.
      unfold readLoop_step, enqueuePacket, vc_send. rewrite Hl, Hv. destruct (vc_closed v); [done|]. by destruct (_ <? _).
  - destruct (reader_progress s pick now expired Hinv Hen) as (s' & -> & H & _). done.
  - destruct (handle_input_wf (us_node s) i (ui_node _ Hinv) Hen) as (n' & Hrun & Hn' & _). rewrite Hrun. cbn.
    apply node_progress; [done..|]. by exists i.
  - by apply register_progress.
  - by apply unregister_progress.
  - by apply deadline_progress.
  - destruct Hen as [Hne [[m out] Hr]]. rewrite Hr. cbn. by eapply others_progress.
  - by apply mux_closes_progress.
  - by apply close_progress.
Qed.

(** The fixed queues are open while the read loop runs. *)
Lemma fixed_open s c p : udp_inv s → us_loop s = LoopSending c p → fixed_conn c → ¬ conn_closed (us_mux s) c.
Proof.
  intros Hinv Hl Hfix (v & Hv & Hc). destruct (ui_conn _ Hinv) as (E3 & E1 & E2). pose proof (ui_mux _ Hinv) as Hm.
  destruct (us_queues_closed s) eqn:Hq; [apply (ui_done _ Hinv) in Hq; congruence|].
  assert (vc_closed v = false); [|congruence]. apply (wf_open _ Hm eq_refl c v); [|done]. unfold routed. cbn.
  rewrite E1, E2, E3. destruct Hfix as [ -> | [ -> | -> ]]; auto.
Qed.

(** How a datagram that is being sent came to its connection, and that only
    unregistering the address since can have closed it. *)
Definition looked_up (tr : trace) (s : udp_state) : Prop :=
  ∀ c p, us_loop s = LoopSending c p → ∃ tr1 s0 tr2,
    tr = tr1 ++ (s0, Arrives p) :: tr2 ∧ (fixed_conn c ∨ kcpHandlers (us_mux s0) !! a_str (pk_Addr p) = Some c)
    ∧ (conn_closed (us_mux s) c → Unregisters (a_str (pk_Addr p)) ∈ tr2.*2).

Lemma looked_up_snoc tr s ev s' : udp_inv s → looked_up tr s → udp_progress s ev s' → looked_up (tr ++ [(s, ev)]) s'.
Proof.
  intros Hinv Hlu Hp c p Hl. destruct (up_sending _ _ _ Hp c p Hl) as [[Hl0 Hc]|(-> & Hr & Ho)].
  - destruct (Hlu c p Hl0) as (tr1 & s0 & tr2 & -> & E & H). exists tr1, s0, (tr2 ++ [(s, ev)]).
    split_and!; [by rewrite <- app_assoc|done|]. intros Hcl. rewrite fmap_app, elem_of_app.
    destruct (Hc Hcl) as [?|[-> _]]; [by left; apply H|right; by apply list_elem_of_singleton].
  - exists tr, s, []. split_and!; [done|rewrite Hr; by apply route_from|]. by intros ?%Ho.
Qed.

Record udp_history (n : Node) (tr : trace) (s : udp_state) : Prop := {
  uh_inv : udp_inv s;
  uh_node : rtc node_step n (us_node s);
  uh_order : in_order s = map as_read (accepted (tent_sends tr));
  uh_flight : tent_arrivals tr = (tent_sends tr).*1 ++ in_flight s;
  uh_looked_up : looked_up tr s;
}.

Lemma tent_sends_snoc tr x : tent_sends (tr ++ [x]) = tent_sends tr ++ tent_send x.
Proof. unfold tent_sends. rewrite bind_app. cbn. by rewrite app_nil_r. Qed.

Lemma accepted_app a b : accepted (a ++ b) = accepted a ++ accepted b.
Proof. unfold accepted. by rewrite filter_app, fmap_app. Qed.

Lemma udp_run_history n tr s :
  node_wf n → Forall (λ x, fits_buffer x.2) tr → udp_run (udp_start n) tr s → udp_history n tr s.
Proof.
  intros Hn Hfit Hrun. remember (udp_start n) as s0 eqn:Es. induction Hrun as [|s tr s1 ev s2 Hrun IH Hen Hstep]; subst.
  { split; [by apply udp_start_inv|apply rtc_refl|done|done|]. by intros c p. }
  apply Forall_app in Hfit as [Hfit Hev]. rewrite Forall_singleton in Hev.
  destruct (IH Hfit eq_refl) as [Hinv Hnode Hord Hfl Hlu]. clear IH.
  pose proof (udp_step_progress s1 ev Hinv Hev Hen) as Hp. rewrite Hstep in Hp. split.
  - apply Hp.
  - etrans; [done|apply Hp].
  - by rewrite tent_sends_snoc, accepted_app, map_app, (up_order _ _ _ Hp), Hord.
  - rewrite tent_sends_snoc, fmap_app, <- app_assoc, <- (up_flight _ _ _ Hp), app_assoc, <- Hfl.
    unfold tent_arrivals. by rewrite omap_app.
  - by eapply looked_up_snoc.
Qed.

(** C10: The UDP side of a node: the reader, the read loop of the mux and [Close] cut at the points where they look at shared
    state, interleaved with every other step of the node, with registering and unregistering of KCP handlers, with deadlines
    on any connection and with the readers of the other connections.  In every run, for datagrams of at most the size of the
    read buffer:
    - the only step that can panic is a send of the read loop to a KCP handler that was unregistered between the look-up and
      the send ([Mux.unregister_race]); no other step panics, also not in the node or the prober;
    - the node only takes steps of its handlers, so what holds of every reachable state holds here;
    - every datagram of the TENT protocol, of a probe or of the raw relay that the socket returned has been sent to the
      reader's queue or is about to be, in the order of arrival;
    - the reader has handled, or will find in its queue, exactly those that found fewer than 128 waiting when they were sent,
      in the order of arrival;
    - when the node is closing, the reader at the head of its loop returns, and a closed mux never leaves it blocked, whatever
      the deadline; when the mux is closed, the read loop returns at its head and when the socket's read fails. *)
Theorem udp_reader n tr s :
  node_wf n → Forall (λ x, fits_buffer x.2) tr → udp_run (udp_start n) tr s →
  (∀ ev, fits_buffer ev → udp_enabled s ev → udp_step s ev = None →
     ev = LoopRuns ∧ ∃ c p tr1 s0 tr2, us_loop s = LoopSending c p ∧ tr = tr1 ++ (s0, Arrives p) :: tr2
     ∧ kcpHandlers (us_mux s0) !! a_str (pk_Addr p) = Some c ∧ Unregisters (a_str (pk_Addr p)) ∈ tr2.*2)
  ∧ rtc node_step n (us_node s)
  ∧ tent_arrivals tr = (tent_sends tr).*1 ++ in_flight s
  ∧ us_seen s ++ map as_read (tent_queue (us_mux s)) = map as_read (accepted (tent_sends tr))
  ∧ (n_closing (us_node s) = true → us_reader s = RdTop →
     ∀ pick now expired, ∃ s', handleRead_step s pick now expired = Some s' ∧ us_reader s' = RdDone)
  ∧ (mux_closed (us_mux s) = true → us_reader s = RdReading →
     ∀ now expired, ∃ pick s', handleRead_step s pick now expired = Some s' ∧ (us_reader s' = RdTop ∨ us_reader s' = RdDone))
  ∧ (mux_closed (us_mux s) = true → us_loop s = LoopTop ∨ us_loop s = LoopReading →
     ∃ ev s', udp_enabled s ev ∧ udp_step s ev = Some s' ∧ us_loop s' = LoopDone).
Proof.
  intros Hn Hfit Hrun. destruct (udp_run_history n tr s Hn Hfit Hrun) as [Hinv Hnode Hord Hfl Hlu]. split_and!; try done.
  - intros ev Hev Hen Hs. pose proof (udp_step_progress s ev Hinv Hev Hen) as H. rewrite Hs in H.
    destruct H as (-> & c & p & Hl & Hc). split; [done|]. destruct (Hlu c p Hl) as (tr1 & s0 & tr2 & Htr & Hroute & Hun).
    exists c, p, tr1, s0, tr2. split_and!; [done..| |by apply Hun].
    destruct Hroute as [Hfix|]; [|done]. by destruct (fixed_open s c p Hinv Hl Hfix).
  - intros Hc Hpc pick now expired. eexists. unfold handleRead_step. rewrite Hpc, Hc. by split.
  - intros Hc Hpc now expired.
    assert (∃ pick, is_Some (ReadFrom (us_mux s) (tentConn (us_mux s)) LargeBufferSize now expired !! pick)) as [pick Hp].
    { destruct (ui_tent _ Hinv) as (v & Hv & _). destruct (ui_conn _ Hinv) as (E3 & _).
      unfold ReadFrom. rewrite E3, Hv, Hc. destruct (_ && (_ <? _)); [exists 0%nat; by eexists|].
      rewrite app_assoc. match goal with |- context [?l ++ [(us_mux s, inr ErrClosed)]] => exists (length l) end.
      rewrite lookup_app_r, Nat.sub_diag by lia. by eexists. }
    destruct (reader_progress s pick now expired Hinv) as (s' & Hs' & _ & Hpc'); [by right|].
    exists pick, s'. split; [done|]. by apply Hpc'.
  - intros Hc [Hl|Hl].
    + exists LoopRuns. eexists. split; [by left|]. cbn. unfold readLoop_step. rewrite Hl, Hc. by split.
    + exists ReadFails. eexists. split; [done|]. cbn. rewrite Hc. by split.
Qed.

End udp.

(** ** The shared read buffer

    [handleRead] reads every datagram into the same buffer and passes [buf[:count]]
    to the prober, which keeps the slice [data[12:12+ipLen]] as the observed IP. *)

(** [copy(p, packet.Data)]. *)
Definition overwrite (buf data : bytes) : bytes := data ++ drop (length data) buf.

(** A response as the prober keeps it: the IP is an offset and a length in the buffer. *)
Record kept_response := MkKept { kr_id : Z; kr_off : Z; kr_len : Z; kr_port : Z; kr_from : Z }.

(** What a reader of the response sees when the buffer holds [buf]. *)
Definition seen_response (buf : bytes) (k : kept_response) : ProbeResponse :=
  MkProbeResponse (kr_id k) (MkUDPAddr (subslice buf (kr_off k) (kr_off k + kr_len k)) (kr_port k)) (kr_from k).

(** The fields [handleProbeResponse] takes from a datagram. *)
Definition keep_response (data : bytes) : option kept_response :=
  if len data <? 15 then None else
  match go_index data 11 with
  | Ok il =>
      let ipLen := Z_of_byte il in
      if len data <? 12 + ipLen + 2 then None else
      Some (MkKept (be_value (subslice data 5 9)) 12 ipLen (be_value (subslice data 9 11))
              (be_value (subslice data (12 + ipLen) (14 + ipLen))))
  | _ => None
  end.

Lemma subslice_overwrite buf data i j : 0 ≤ i → i ≤ j → j ≤ len data → subslice (overwrite buf data) i j = subslice data i j.
Proof.
  intros Hi Hj Hl. unfold subslice, overwrite. rewrite drop_app_le by (unfold len in *; lia).
  rewrite take_app_le; [done|]. rewrite length_drop. unfold len in *. lia.
Qed.

(** When the datagram is handled, the kept response is the one the prober records. *)
Lemma keep_response_now p buf data k :
  keep_response data = Some k →
  handleProbeResponse p data = Ok (deliver_response p (seen_response (overwrite buf data) k)).
Proof.
  unfold keep_response, handleProbeResponse. destruct (Z.ltb_spec (len data) 15) as [|Hl]; [done|].
  rewrite !go_slice_ok by lia. cbn [mbind res_bind]. destruct (go_index data 11) as [il| |]; try done. cbn [mbind res_bind].
  pose proof (Z_of_byte_range il) as Hil.
  destruct (Z.ltb_spec (len data) (12 + Z_of_byte il + 2)) as [|Hl2]; [done|].
  rewrite !go_slice_ok by lia. intros [= <-]. cbn. unfold seen_response. cbn. by rewrite subslice_overwrite by lia.
Qed.

(** The observed address does not survive the next datagram.  A probe response
    is recorded with the address in it, but the next datagram that is long enough,
    of whatever kind and from whomever, replaces the IP of the recorded response by
    its own bytes, before the waiting call may look at it. *)
Theorem observed_address_overwritten p buf d1 d2 k :
  keep_response d1 = Some k → 12 + kr_len k ≤ len d2 →
  handleProbeResponse p d1 = Ok (deliver_response p (seen_response (overwrite buf d1) k))
  ∧ IP (ObservedAddr (seen_response (overwrite buf d1) k)) = subslice d1 12 (12 + kr_len k)
  ∧ IP (ObservedAddr (seen_response (overwrite (overwrite buf d1) d2) k)) = subslice d2 12 (12 + kr_len k).
Proof.
  intros Hk Hl. split; [by apply keep_response_now|]. revert Hk. unfold keep_response.
  destruct (Z.ltb_spec (len d1) 15) as [|Hl1]; [done|]. destruct (go_index d1 11) as [il| |]; try done.
  destruct (Z.ltb_spec (len d1) (12 + Z_of_byte il + 2)) as [|Hl2]; [done|].
  pose proof (Z_of_byte_range il) as Hil. intros [= <-]. cbn in *. split; apply subslice_overwrite; lia.
Qed.

(** Two helpers saw 198.51.100.7 and 203.0.113.9: after the second answer the first reads like it. *)
Example two_helpers :
  let d1 := buildProbeResponse 1 (MkUDPAddr [xc6; x33; x64; x07] 4000) 9000 in
  let d2 := buildProbeResponse 1 (MkUDPAddr [xcb; x00; x71; x09] 4001) 9001 in
  keep_response d1 = Some (MkKept 1 12 4 4000 9000)
  ∧ seen_response (overwrite (overwrite (make_bytes 64) d1) d2) (MkKept 1 12 4 4000 9000)
    = MkProbeResponse 1 (MkUDPAddr [xcb; x00; x71; x09] 4000) 9000.
Proof. split; reflexivity. Qed.

(** ** A burst of two, and the race *)

Module UdpWitness.
Import ToyNoise TransferWitness ReachWitness.

Definition self : UDPAddr := MkUDPAddr [x7f; x00; x00; x01] 7000.
Definition stranger : Addr := MkAddr AddrUDP (str "10.0.0.9:9").

Definition heartbeat : Packet := MkPacket (MagicBytes ++ [PacketTypeHeartbeat]) stranger.
Definition unknown : Packet := MkPacket (MagicBytes ++ [x63]) stranger.
Definition kcp_data : Packet := MkPacket [x01; x02] stranger.

(** A heartbeat and a packet of an unknown type, between a registration and a deadline. *)
Definition burst : list udp_event :=
  [LoopRuns; Registers (a_str stranger); Arrives heartbeat; Deadline 3 5; LoopRuns; LoopRuns; Arrives unknown; LoopRuns;
   ReaderRuns 0 0 false; ReaderRuns 0 0 false].

(** The handler of a KCP session is unregistered while a datagram is on its way to it. *)
Definition race : list udp_event :=
  [Registers (a_str stranger); LoopRuns; Arrives kcp_data; Unregisters (a_str stranger)].

Definition peaceful : Node := demo_node x0b (str "node-aaaa") toy_session (str "chat").

Abbreviation runs := (udp_run self (λ _, self) (udp_start peaceful)).

(** Running a list of events, for those of the examples. *)
Definition can (s : udp_state) (ev : udp_event) : bool :=
  match ev with
  | Arrives _ => match us_loop s with LoopReading => true | _ => false end
  | LoopRuns => match us_loop s with LoopTop | LoopSending _ _ => true | _ => false end
  | ReaderRuns pick now expired =>
      match us_reader s with
      | RdTop => true
      | RdReading =>
          match ReadFrom (us_mux s) (tentConn (us_mux s)) LargeBufferSize now expired !! pick with Some _ => true | None => false end
      | RdDone => false
      end
  | Registers _ | Unregisters _ | Deadline _ _ => true
  | _ => false
  end.

Lemma can_enabled s ev : can s ev = true → udp_enabled s ev.
Proof.
  destruct ev; cbn; try done; repeat case_match; try done; eauto.
Qed.

Fixpoint exec (tr : list (udp_state * udp_event)) (s : udp_state) (evs : list udp_event)
    : option (list (udp_state * udp_event) * udp_state) :=
  match evs with
  | [] => Some (tr, s)
  | ev :: evs' =>
      if can s ev then s' ← udp_step self (λ _, self) s ev; exec (tr ++ [(s, ev)]) s' evs' else None
  end.

Lemma exec_run evs tr s tr' s' : runs tr s → exec tr s evs = Some (tr', s') → runs tr' s'.
Proof.
  revert tr s. induction evs as [|ev evs IH]; intros tr s Hrun; cbn [exec]; [by intros [= <- <-]|].
  destruct (can s ev) eqn:Hc; [|done]. destruct (udp_step _ _ s ev) as [s1|] eqn:Es; [|done]. cbn.
  apply IH. eapply udp_run_snoc; [done|by apply can_enabled|done].
Qed.

Lemma exec_burst :
  (λ x, (x.1.*2, len (us_seen x.2), accepted (tent_sends x.1))) <$> exec [] (udp_start peaceful) burst
  = Some (burst, 1, [heartbeat; unknown]).
Proof. vm_compute. reflexivity. Qed.

Lemma udp_reader_witness :
  ∃ (tr : list (udp_state * udp_event)) s, tr.*2 = burst ∧ len (us_seen s) = 1 ∧ rtc node_step peaceful (us_node s)
  ∧ us_seen s ++ map as_read (tent_queue (us_mux s)) = [as_read heartbeat; as_read unknown].
Proof.
  pose proof exec_burst as H. destruct (exec [] (udp_start peaceful) burst) as [[tr s]|] eqn:E; [|discriminate].
  apply exec_run in E; [|apply udp_run_nil]. injection H as Htr Hs Ha. exists tr, s. split; [exact Htr|]. split; [exact Hs|].
  destruct (udp_reader self (λ _, self) peaceful tr s) as (_ & H1 & _ & H2 & _).
  - apply demo_node_wf.
  - assert (Forall fits_buffer tr.*2) as Hf by (rewrite Htr; repeat constructor; vm_compute; congruence).
    by rewrite Forall_fmap in Hf.
  - exact E.
  - split; [exact H1|]. rewrite H2, Ha. reflexivity.
Defined.

(** The panic the theorem leaves open does happen. *)
Example race_panics :
  ∃ (tr : list (udp_state * udp_event)) s, runs tr s ∧ tr.*2 = race ∧ udp_enabled s LoopRuns ∧ udp_step self (λ _, self) s LoopRuns = None.
Proof.
  assert ((λ x, (x.1.*2, us_loop x.2, udp_step self (λ _, self) x.2 LoopRuns)) <$> exec [] (udp_start peaceful) race
          = Some (race, LoopSending 4 kcp_data, None)) as H by (vm_compute; reflexivity).
  destruct (exec [] (udp_start peaceful) race) as [[tr s]|] eqn:E; [|discriminate].
  apply exec_run in E; [|apply udp_run_nil]. injection H as Htr Hl Hs. exists tr, s. split_and!; try done. right. eauto.
Qed.

End UdpWitness.
