(* ===== verification/NodePeers.v ===== *)
(** * Removing peers

    What [removePeerWithReconnect] leaves behind, and that the heartbeat timer
    removes exactly the peers that were silent for too long. *)

From S2P Require Import Prelude Protocol Sha256 Session Peer RelayAuth RelayManager Metrics Reconnect Config.
From S2P Require Import NodeState NodeChannel NodeHeartbeat NodeTransfer NodeSafety NodeReach.

Section peers.
Context {NL : Noise} {W : World}.

(** What removing a peer does outside the node: its KCP session is closed and the handler of
    its address unregistered, its TCP connection is closed, the application is told. *)
Definition kcp_log (n : Node) (id : gostring) : list effect :=
  match kcpTransport n ≫= λ k, kcp_sessions k !! id with Some a => [KCPClose a; KCPUnregister a] | None => [] end.

Definition close_log (p : Peer) : list effect :=
  match Conn p with Some c => if bool_decide (Transport p = "tcp"%string) then [ConnClose c] else [] | None => [] end.

Definition notify_log (n : Node) (id : gostring) : list effect :=
  if has_onPeerDisconnected n then [Go (TaskDisconnected id)] else [].

(** [n'] is [n] without the peer [id], which was the object [p] at [r]. *)
Record removed (n : Node) (id : gostring) (r : PeerRef) (p : Peer) (n' : Node) : Prop := {
  rm_peers : Peers n' = delete id (Peers n);
  rm_addrs : addrToPeer n' = filter (λ kv, kv.2 ≠ id) (addrToPeer n);
  rm_others : ∀ r', r' ≠ r → peer_heap n' !! r' = peer_heap n !! r';
  rm_session : ∀ sr s, Peer_Session p = Some sr → sess_heap n !! sr = Some s → sess_heap n' !! sr = Some (Session_Close s).1;
  rm_sessions : ∀ sr, Peer_Session p ≠ Some sr → sess_heap n' !! sr = sess_heap n !! sr;
  rm_config : n_Config n' = n_Config n;
  rm_object : peer_heap n' !! r = Some (Peer_Close p).1;
  rm_kcp : kcpTransport n' = (λ k, MkKCPTransport (delete id (kcp_sessions k))) <$> kcpTransport n;
  rm_log : n_log n' = n_log n ++ kcp_log n id ++ close_log p ++ notify_log n id;
}.

Definition close_session (p : Peer) : gmap SessRef Session → gmap SessRef Session :=
  match Peer_Session p with Some sr => heap_close sr | None => λ σ, σ end.

(** Closing the objects of a peer. *)
Lemma peer_effects_close n p :
  peer_effects (Peer_Close p).2 n
  = Some ((), n <| sess_heap ::= close_session p |> <| n_log ::= λ l, l ++ close_log p |>).
Proof.
  unfold Peer_Close, close_log, close_session. cbv zeta. destruct n. unfold set_field.
  destruct (Conn p), (Peer_Session p); try destruct (bool_decide _); cbn; by rewrite ?app_nil_r.
Qed.

(** Dropping the KCP session, if there is one. *)
Lemma drop_kcp_run n id :
  (match kcpTransport n with Some k => RemoveSession k id | None => mret () end) n
  = Some ((), n <| kcpTransport ::= fmap (λ k, MkKCPTransport (delete id (kcp_sessions k))) |>
                <| n_log ::= λ x, x ++ kcp_log n id |>).
Proof.
  unfold kcp_log. destruct (kcpTransport n) as [k|] eqn:Hk; cbn [mbind option_bind].
  - unfold RemoveSession. destruct (kcp_sessions k !! id) as [a|] eqn:Ha.
    + run. destruct n; unfold set_field; cbn in *; subst; cbn. unfold emit, modify, set_field; cbn. by rewrite <- app_assoc.
    + destruct n, k; unfold set_field; cbn in *; subst; cbn. by rewrite delete_id, app_nil_r.
  - destruct n; unfold set_field; cbn in *; subst; cbn. by rewrite app_nil_r.
Qed.

Lemma close_session_lookup p σ sr :
  close_session p σ !! sr = if decide (Peer_Session p = Some sr) then (λ s, (Session_Close s).1) <$> σ !! sr else σ !! sr.
Proof.
  unfold close_session, heap_close. destruct (Peer_Session p) as [sr'|]; [|by rewrite decide_False].
  destruct (decide (Some sr' = Some sr)) as [[= ->]|Hne].
  - apply lookup_alter_eq.
  - apply lookup_alter_ne. congruence.
Qed.

(** Telling the application. *)
Lemma notify_run n id :
  (if has_onPeerDisconnected n then go (TaskDisconnected id) else mret ()) n
  = Some ((), n <| n_log ::= λ x, x ++ notify_log n id |>).
Proof.
  unfold notify_log. destruct (has_onPeerDisconnected n); [done|]. destruct n. unfold set_field. cbn. by rewrite app_nil_r.
Qed.

(** Handing the peer to the reconnect manager. *)
Lemma reconnect_run n id addr b :
  ∃ t ticks, (match n_reconnectManager n with
    | Some rm =>
        if b : bool then
          now ← time_Now;
          modify (λ n, n <| n_reconnectManager := Some (ScheduleReconnect rm id addr now) |>)
        else mret ()
    | None => mret ()
    end) n
  = Some ((), n <| n_ticks := ticks |> <| n_reconnectManager := if b
                then (λ rm, ScheduleReconnect rm id addr t) <$> n_reconnectManager n else n_reconnectManager n |>).
Proof.
  exists (clock (n_ticks n)).
  destruct (n_reconnectManager n) as [rm|] eqn:E, b; run;
    [exists (S (n_ticks n))|exists (n_ticks n)..]; destruct n; unfold set_field; cbn in *; by subst.
Qed.

Lemma removePeer_run n id r p b :
  Peers n !! id = Some r → peer_heap n !! r = Some p →
  ∃ n' t, removePeerWithReconnect id b n = Some ((), n') ∧ removed n id r p n'
  ∧ n_reconnectManager n'
    = if b && bool_decide (GetOriginalAddr p ≠ [])
      then (λ rm, ScheduleReconnect rm id (GetOriginalAddr p) t) <$> n_reconnectManager n else n_reconnectManager n.
Proof.
  intros Hr Hp. unfold removePeerWithReconnect. rewrite get_peer_bind, Hr, count_bind.
  rewrite (peer_of_bind r p) by done. rewrite get_bind. set (n1 := n <| n_metrics ::= _ |>).
  rewrite (bind_run _ _ _ _ _ (drop_kcp_run n1 id)).
  rewrite (on_peer_bind r _ p) by done. rewrite (bind_run _ _ _ _ _ (peer_effects_close _ _)), !modify_bind, get_bind.
  match goal with |- context [has_onPeerDisconnected ?m] => set (n3 := m) end.
  rewrite (bind_run _ _ _ _ _ (notify_run n3 id)), get_bind.
  match goal with |- context [n_reconnectManager ?m] => set (n4 := m) end.
  destruct (reconnect_run n4 id (GetOriginalAddr p) (b && bool_decide (GetOriginalAddr p ≠ []))) as (t & ticks & Hrec).
  eexists _, t. split; [exact Hrec|]. split; [|reflexivity].
  split; try reflexivity.
  - intros r' Hne. cbn. by rewrite lookup_insert_ne.
  - intros sr s Hps Hs. cbn. rewrite close_session_lookup, decide_True by done. cbn. by rewrite Hs.
  - intros sr Hps. cbn. by rewrite close_session_lookup, decide_False.
  - cbn. by rewrite lookup_insert_eq.
  - cbn. by rewrite <- !app_assoc.
Qed.

(** C31: Removing a peer removes every trace of it and nothing else.  The peer is
    gone from the store, no address leads to it, its session is closed (it seals
    and opens nothing any more); what happens outside is exactly that its KCP session,
    if it has one, is closed and the handler of its address unregistered, that its TCP
    connection, if it has one, is closed, and that the application's callback is
    started if set; the other peers, their sessions and their KCP sessions are as before;
    and the reconnect manager gets the original address exactly if asked to and there is
    one. *)
Theorem peer_removal n id r p b :
  Peers n !! id = Some r → peer_heap n !! r = Some p →
  ∃ n' t, removePeerWithReconnect id b n = Some ((), n') ∧ removed n id r p n'
  ∧ n_reconnectManager n'
    = (if b && bool_decide (GetOriginalAddr p ≠ [])
       then (λ rm, ScheduleReconnect rm id (GetOriginalAddr p) t) <$> n_reconnectManager n else n_reconnectManager n)
  ∧ (∀ a, addrToPeer n' !! a ≠ Some id)
  ∧ ∀ sr s' plaintext, Peer_Session p = Some sr → sess_heap n' !! sr = Some s' → is_Some (sess_heap n !! sr) →
      (Session_Encrypt s' plaintext).2 = Err ErrSessionClosed ∧ (Session_Decrypt s' plaintext).2 = Err ErrSessionClosed.
Proof.
  intros Hr Hp. destruct (removePeer_run n id r p b Hr Hp) as (n' & t & Hrun & Hrm & Hrec).
  exists n', t. split; [done|]. split; [done|]. split; [done|]. split.
  - intros a. rewrite (rm_addrs _ _ _ _ _ Hrm). intros [_ Hne]%map_lookup_filter_Some. done.
  - intros sr s' pt Hps Hs' [s Hs]. pose proof (rm_session _ _ _ _ _ Hrm _ _ Hps Hs) as E.
    rewrite E in Hs'. by simplify_eq.
Qed.

(** ** Timeouts *)

(** The peer [id] was silent for longer than the timeout. *)
Definition expired (n : Node) (now : Time) (id : gostring) : Prop :=
  ∃ r p, Peers n !! id = Some r ∧ peer_heap n !! r = Some p
  ∧ HeartbeatTimeout (n_Config n) < time_Sub now (GetLastSeen p).

(** [n'] is [n] without the peers that satisfy [Q]. *)
Record without (Q : gostring → Prop) (n n' : Node) : Prop := {
  wo_wf : node_wf n';
  wo_config : n_Config n' = n_Config n;
  wo_peers : ∀ id r, Peers n' !! id = Some r ↔ Peers n !! id = Some r ∧ ¬ Q id;
  wo_addrs : ∀ a id, addrToPeer n' !! a = Some id ↔ addrToPeer n !! a = Some id ∧ ¬ Q id;
  wo_heap : ∀ id r, Peers n' !! id = Some r → peer_heap n' !! r = peer_heap n !! r;
}.

Lemma without_none n : node_wf n → without (λ _, False) n n.
Proof. intros Hn. split; try done; intros; naive_solver. Qed.

(** Removing one peer. *)
Lemma without_one n id r p n' :
  node_wf n → node_wf n' → Peers n !! id = Some r → removed n id r p n' → without (.= id) n n'.
Proof.
  intros Hn Hn' Hr Hrm. split; [done|by apply (rm_config _ _ _ _ _ Hrm)|..].
  - intros i r'. rewrite (rm_peers _ _ _ _ _ Hrm), lookup_delete_Some. naive_solver.
  - intros a i. rewrite (rm_addrs _ _ _ _ _ Hrm), map_lookup_filter_Some. cbn. naive_solver.
  - intros i r'. rewrite (rm_peers _ _ _ _ _ Hrm), lookup_delete_Some. intros [Hne Hi].
    apply (rm_others _ _ _ _ _ Hrm). intros ->.
    destruct (wf_store _ Hn _ _ Hr) as (p1 & H1 & <-), (wf_store _ Hn _ _ Hi) as (p2 & H2 & <-). congruence.
Qed.

Lemma without_trans Q1 Q2 n1 n2 n3 :
  without Q1 n1 n2 → without Q2 n2 n3 → without (λ id, Q1 id ∨ Q2 id) n1 n3.
Proof.
  intros [H1 C1 P1 A1 S1] [H2 C2 P2 A2 S2]. split; [done|congruence|..].
  - intros id r. rewrite P2, P1. naive_solver.
  - intros a id. rewrite A2, A1. naive_solver.
  - intros id r Hr. rewrite (S2 id r Hr). apply (S1 id). by apply P2.
Qed.

Lemma without_ext Q Q' n n' : (∀ id, Q id ↔ Q' id) → without Q n n' → without Q' n n'.
Proof.
  intros HQ [H C P A S]. split; [done|done|..]; [intros; by rewrite P, HQ|intros; by rewrite A, HQ|done].
Qed.

Lemma expired_without Q n n' now id : without Q n n' → expired n' now id ↔ expired n now id ∧ ¬ Q id.
Proof.
  intros [H C P A S]. unfold expired. rewrite C. split.
  - intros (r & p & Hr & Hp & Ht). pose proof (S _ _ Hr) as E. rewrite E in Hp. apply P in Hr as [Hr HQ]. eauto 6.
  - intros [(r & p & Hr & Hp & Ht) HQ]. assert (Peers n' !! id = Some r) as Hr' by (by apply P).
    exists r, p. by rewrite (S _ _ Hr').
Qed.

(** One turn of the loop. *)
Lemma check_timeouts_cons now id ids n n1 :
  (match Peers n !! id with
   | None => mret ()
   | Some r =>
       p ← peer_of r;
       n ← get;
       if HeartbeatTimeout (n_Config n) <? time_Sub now (GetLastSeen p) then
         _ ← short8 id; removePeer id
       else mret ()
   end) n = Some ((), n1) →
  check_timeouts now (id :: ids) n = check_timeouts now ids n1.
Proof. intros H. cbn [check_timeouts]. rewrite get_peer_bind. by rewrite (bind_run _ _ _ _ _ H). Qed.

Lemma check_timeouts_turn now id ids n :
  node_wf n → ∃ n1, check_timeouts now (id :: ids) n = check_timeouts now ids n1
  ∧ without (λ i, i = id ∧ expired n now id) n n1.
Proof.
  intros Hn. destruct (Peers n !! id) as [r|] eqn:Hr.
  2:{ exists n. split; [apply check_timeouts_cons; by rewrite Hr|].
      eapply without_ext; [|by apply without_none]. intros i. split; [done|]. intros [_ (r & p & Hr' & _)]. congruence. }
  destruct (wf_store _ Hn _ _ Hr) as (p & Hp & Hid). pose proof (wf_ids _ Hn _ _ Hp) as Hlen. rewrite Hid in Hlen.
  destruct (Z.ltb_spec (HeartbeatTimeout (n_Config n)) (time_Sub now (GetLastSeen p))) as [Ht|Ht].
  - destruct (removePeer_run n id r p true Hr Hp) as (n1 & t & Hrun & Hrm & _). exists n1. split.
    + apply check_timeouts_cons. rewrite Hr, (peer_of_bind r p), get_bind by done.
      rewrite (proj2 (Z.ltb_lt _ _)) by done. by rewrite short8_bind.
    + eapply without_ext; [|eapply (without_one n id r p n1); try done].
      * intros i. split; [|by intros []]. intros ->. split; [done|]. by exists r, p.
      * destruct (safe_wf (removePeerWithReconnect id true) n Hn) as (u & n2 & Hrun2 & Hn2 & _);
          [intros; by apply safe_removePeerWithReconnect|]. congruence.
  - exists n. split.
    + apply check_timeouts_cons. rewrite Hr, (peer_of_bind r p), get_bind by done. by rewrite (proj2 (Z.ltb_ge _ _)).
    + eapply without_ext; [|by apply without_none]. intros i. split; [done|].
      intros [_ (r' & p' & Hr' & Hp' & Hlt)]. simplify_eq. lia.
Qed.

Lemma check_timeouts_run now ids : ∀ n,
  node_wf n → NoDup ids →
  ∃ n', check_timeouts now ids n = Some ((), n') ∧ without (λ id, id ∈ ids ∧ expired n now id) n n'.
Proof.
  induction ids as [|id ids IH]; intros n Hn Hnd.
  { exists n. split; [done|]. eapply without_ext; [|by apply without_none]. set_solver. }
  inversion_clear Hnd as [|? ? Hni Hnd'].
  destruct (check_timeouts_turn now id ids n Hn) as (n1 & Hturn & H1).
  destruct (IH n1 (wo_wf _ _ _ H1) Hnd') as (n' & Hrun & H2).
  exists n'. rewrite Hturn. split; [done|]. eapply without_ext; [|by eapply without_trans].
  intros i. cbn. rewrite (expired_without _ _ _ now i H1). rewrite elem_of_cons.
  destruct (decide (i = id)) as [->|]; naive_solver.
Qed.

(** C30: The heartbeat timer removes exactly the silent peers.  After
    [checkHeartbeatTimeouts] the store holds the peers whose last sign of life is
    within the timeout at the moment the clock was read, as they were; no address
    leads to a removed peer, and every other address mapping is kept. *)
Theorem heartbeat_timeouts n :
  node_wf n →
  ∃ n', checkHeartbeatTimeouts n = Some ((), n') ∧ without (expired n (clock (n_ticks n))) n n'.
Proof.
  intros Hn. unfold checkHeartbeatTimeouts. rewrite get_bind, now_bind.
  set (now := clock (n_ticks n)). set (n0 := n <| n_ticks ::= S |>).
  assert (node_wf n0) as Hn0 by (by eapply node_wf_frame).
  destruct (check_timeouts_run now (PeerStore_IDs (Peers n)) n0 Hn0) as (n' & Hrun & [Hw C P A S]).
  { apply NoDup_fst_map_to_list. }
  exists n'. split; [done|]. eapply (without_ext (λ id, id ∈ PeerStore_IDs (Peers n) ∧ expired n0 now id)).
  - intros id. split; [by intros [_ He]|]. intros He. split; [|done]. destruct He as (r & p & Hr & _).
    apply list_elem_of_fmap. exists (id, r). split; [done|]. by apply elem_of_map_to_list.
  - by split.
Qed.

(** ** Channel membership *)

Lemma channel_update_payload_eq op hash : len hash = 32 → channel_update_payload op hash = op :: hash.
Proof. intros Hh. unfold channel_update_payload. fill. done. Qed.

Lemma go_each_run ids payload : ∀ n,
  go_each ids payload n = Some ((), n <| n_log ::= λ l, l ++ map (λ id, Go (TaskChannelUpdate id payload)) ids |>).
Proof.
  induction ids as [|id ids IH]; intros n; cbn [go_each map].
  - destruct n. unfold set_field. cbn. by rewrite app_nil_r.
  - rewrite go_bind, IH. destruct n. unfold set_field. cbn. by rewrite <- app_assoc.
Qed.

(** Joining announces, and asks nobody. *)
Lemma JoinChannel_members n ch n' ch' id : JoinChannel ch n = Some ((), n') → in_channel n' ch' id = in_channel n ch' id.
Proof.
  unfold JoinChannel, broadcastChannelUpdate. rewrite get_bind. case_bool_decide; [by intros [= <-]|].
  rewrite modify_bind, get_bind, go_each_run. by intros [= <-].
Qed.

Definition update_member (op : byte) (p : Peer) (hash : bytes) : Peer :=
  if bool_decide (op = OpCodeJoin) then AddRemoteChannel p hash else RemoveRemoteChannel p hash.

Lemma processChannelUpdate_run n r p op hash :
  peer_heap n !! r = Some p → 8 ≤ len (ID p) → len hash = 32 → op = OpCodeJoin ∨ op = OpCodeLeave →
  processChannelUpdate r (channel_update_payload op hash) n
  = Some ((), if isChannelSubscribed n hash then n <| peer_heap ::= <[r := update_member op p hash]> |> else n).
Proof.
  intros Hp Hid Hh Hop. rewrite channel_update_payload_eq by done. unfold processChannelUpdate.
  rewrite (proj2 (Z.ltb_ge _ _)) by len_solve.
  rewrite (go_index_at _ [] op hash 0), lift_bind by done.
  rewrite (go_slice_at _ [op] hash [] 1 33), lift_bind, get_bind by (first [by rewrite app_nil_r|len_solve]).
  unfold isChannelSubscribed. rewrite Hh. cbn [Z.eqb Pos.eqb andb].
  destruct (bool_decide (hash ∈ localChannelSet n)); [|done]. unfold update_member.
  destruct Hop as [-> | ->]; rewrite ?bool_decide_true by done; [|rewrite bool_decide_false, bool_decide_true by done];
    (rewrite (update_peer_bind r _ p) by done);
    (erewrite peer_of_bind by (cbn; apply lookup_insert_eq)); apply short8_run; [done|].
  unfold RemoveRemoteChannel. by destruct (RemoteChannels p).
Qed.

Lemma HasRemoteChannel_update op p hash h :
  HasRemoteChannel (update_member op p hash) h
  = if decide (h = hash) then bool_decide (op = OpCodeJoin) else HasRemoteChannel p h.
Proof.
  unfold update_member, HasRemoteChannel, AddRemoteChannel, RemoveRemoteChannel.
  case_bool_decide as Hop; cbn.
  - destruct (decide (h = hash)); [apply bool_decide_true; set_solver|].
    destruct (RemoteChannels p); cbn; apply bool_decide_ext || (apply bool_decide_false; set_solver); set_solver.
  - destruct (RemoteChannels p) as [m|] eqn:E; cbn; rewrite ?E; destruct (decide (h = hash)); try done;
      [apply bool_decide_false; set_solver|apply bool_decide_ext; set_solver].
Qed.

(** C32: Announcements maintain the members of a channel, for channels subscribed
    at that moment.  A join (leave) from a peer makes it a member (no member) of
    exactly that channel if the node subscribes to it, and is ignored otherwise;
    joining the channel later does not recover an announcement that was ignored,
    so the peer is missing from the channel until it announces again. *)
Theorem channel_announcement n id r p op ch :
  Peers n !! id = Some r → peer_heap n !! r = Some p → ID p = id → 8 ≤ len id →
  op = OpCodeJoin ∨ op = OpCodeLeave →
  let hash := hashChannelName ch in
  ∃ n', handleAppFrame id r (AppFrameTypeChannelUpdate :: channel_update_payload op hash) n = Some ((), n')
  ∧ in_channel n' ch id = (if isChannelSubscribed n hash then bool_decide (op = OpCodeJoin) else in_channel n ch id)
  ∧ (∀ ch', hashChannelName ch' ≠ hash → in_channel n' ch' id = in_channel n ch' id)
  ∧ (∀ n'', isChannelSubscribed n hash = false → JoinChannel ch n' = Some ((), n'') →
       in_channel n'' ch id = in_channel n ch id).
Proof.
  intros Hr Hp Hi Hid Hop hash. assert (len hash = 32) as Hh by apply len_sha256.
  unfold handleAppFrame. rewrite bool_decide_false, bool_decide_true by done.
  rewrite (processChannelUpdate_run n r p) by (done || by rewrite Hi). eexists. split; [reflexivity|].
  assert (∀ c, in_channel n c id = HasRemoteChannel p (hashChannelName c)) as Hin.
  { intros c. unfold in_channel, PeerStore_Get. rewrite Hr. cbn. by rewrite Hp. }
  destruct (isChannelSubscribed n hash) eqn:Hsub.
  - assert (∀ c, in_channel (n <| peer_heap ::= <[r := update_member op p hash]> |>) c id
      = HasRemoteChannel (update_member op p hash) (hashChannelName c)) as Hin'.
    { intros c. unfold in_channel, PeerStore_Get. cbn. rewrite Hr. cbn. by rewrite lookup_insert_eq. }
    split_and!; [|intros ch' Hne|done].
    + by rewrite Hin', HasRemoteChannel_update, decide_True.
    + by rewrite Hin', HasRemoteChannel_update, decide_False, Hin.
  - split_and!; [done|done|]. intros n'' _ HJ. by apply (JoinChannel_members _ _ _ ch id HJ).
Qed.

(** ** Stale mappings *)

Section cleanup_fields.
Variables (now : Z) (n : Node).

Lemma cleanup_addrs : addrToPeer (cleanup now n) = filter (λ kv, is_Some (Peers n !! kv.2)) (addrToPeer n).
Proof. reflexivity. Qed.
Lemma cleanup_handshakes :
  pendingHandshakes (cleanup now n) = filter (λ kv, handshake_stale now kv.2 = false) (pendingHandshakes n).
Proof. reflexivity. Qed.
Lemma cleanup_forward : relayForward (cleanup now n) = filter (λ kv, peer_at n kv.1 = true) (relayForward n).
Proof. reflexivity. Qed.
Lemma cleanup_inbound :
  relayInbound (cleanup now n) = filter (λ a, is_Some (addrToPeer (cleanup now n) !! a)) (relayInbound n).
Proof. reflexivity. Qed.
Lemma cleanup_target :
  relayPendingTarget (cleanup now n) = filter (λ kv, is_Some (addrToPeer (cleanup now n) !! kv.1)) (relayPendingTarget n).
Proof. reflexivity. Qed.
End cleanup_fields.

(** [cleanupStaleMappings] keeps exactly what is alive: an address of a stored peer, a handshake of the last minute, a
    relay mapping whose peer is there; it touches no peer and no session. *)
Theorem cleanup_exact n :
  let now := Unix (clock (n_ticks n)) in
  ∃ n', cleanupStaleMappings n = Some ((), n')
  ∧ (∀ a id, addrToPeer n' !! a = Some id ↔ addrToPeer n !! a = Some id ∧ is_Some (Peers n !! id))
  ∧ (∀ k hs, pendingHandshakes n' !! k = Some hs ↔ pendingHandshakes n !! k = Some hs ∧ handshake_stale now hs = false)
  ∧ (∀ a t, relayForward n' !! a = Some t ↔ relayForward n !! a = Some t ∧ peer_at n a = true)
  ∧ (∀ a, a ∈ relayInbound n' ↔ a ∈ relayInbound n ∧ is_Some (addrToPeer n' !! a))
  ∧ (∀ a t, relayPendingTarget n' !! a = Some t ↔ relayPendingTarget n !! a = Some t ∧ is_Some (addrToPeer n' !! a))
  ∧ Peers n' = Peers n ∧ peer_heap n' = peer_heap n ∧ sess_heap n' = sess_heap n.
Proof.
  intros now. unfold cleanupStaleMappings. run. eexists. split; [reflexivity|]. fold now.
  set (n1 := n <| n_ticks ::= S |>). rewrite cleanup_addrs, cleanup_handshakes, cleanup_forward, cleanup_inbound, cleanup_target.
  split_and!; try reflexivity; intros; rewrite ?map_lookup_filter_Some, ?elem_of_filter; try done.
  apply and_comm.
Qed.

(** A handshake through a relay that is not a peer itself loses its target while it is still pending: when it completes, the
    peer counts as directly connected. *)
Theorem cleanup_forgets_relay n relay hs target n' :
  addrToPeer n !! relay = None → relayPendingTarget n !! relay = Some target →
  pendingHandshakes n !! (str "udp://" ++ relay) = Some hs → handshake_stale (Unix (clock (n_ticks n))) hs = false →
  cleanupStaleMappings n = Some ((), n') →
  pendingHandshakes n' !! (str "udp://" ++ relay) = Some hs ∧ relayPendingTarget n' !! relay = None.
Proof.
  intros Ha Ht Hp Hs. destruct (cleanup_exact n) as (n2 & -> & H1 & H2 & _ & _ & H5 & _). intros [= <-].
  split; [by apply H2|]. destruct (relayPendingTarget n2 !! relay) as [t|] eqn:E; [|done].
  apply H5 in E as [_ [id Hid]]. apply H1 in Hid as [Hid _]. congruence.
Qed.

End peers.

Module PeersWitness.
Import ToyNoise TransferWitness ReachWitness.

(** A node with the single peer "node-aaaa", whose session is open. *)
Definition one_peer : Node := demo_node x0b (str "node-aaaa") toy_session (str "chat").

Definition the_peer : Peer :=
  NewPeer (str "node-aaaa") (Some (MkAddr AddrTCP (str "10.0.0.2:7000"))) (str "10.0.0.2:7000") (Some 1%positive)
    "tcp" "p2p" None (Some 1%positive) 0.

Lemma peer_removal_witness :
  ∃ n' t, removePeerWithReconnect (str "node-aaaa") true one_peer = Some ((), n')
  ∧ removed one_peer (str "node-aaaa") 1 the_peer n'
  ∧ n_reconnectManager n'
    = (if true && bool_decide (GetOriginalAddr the_peer ≠ [])
       then (λ rm, ScheduleReconnect rm (str "node-aaaa") (GetOriginalAddr the_peer) t) <$> n_reconnectManager one_peer
       else n_reconnectManager one_peer)
  ∧ (∀ a, addrToPeer n' !! a ≠ Some (str "node-aaaa"))
  ∧ ∀ sr s' plaintext, Peer_Session the_peer = Some sr → sess_heap n' !! sr = Some s' → is_Some (sess_heap one_peer !! sr) →
      (Session_Encrypt s' plaintext).2 = Err ErrSessionClosed ∧ (Session_Decrypt s' plaintext).2 = Err ErrSessionClosed.
Proof. apply (peer_removal one_peer (str "node-aaaa") 1 the_peer true); reflexivity. Defined.

Lemma heartbeat_timeouts_witness :
  ∃ n', checkHeartbeatTimeouts one_peer = Some ((), n') ∧ without (expired one_peer (clock (n_ticks one_peer))) one_peer n'.
Proof. apply (heartbeat_timeouts one_peer). apply demo_node_wf. Defined.

Lemma channel_announcement_witness :
  let hash := hashChannelName (str "other") in
  ∃ n', handleAppFrame (str "node-aaaa") 1 (AppFrameTypeChannelUpdate :: channel_update_payload OpCodeJoin hash) one_peer
    = Some ((), n')
  ∧ in_channel n' (str "other") (str "node-aaaa")
    = (if isChannelSubscribed one_peer hash then bool_decide (OpCodeJoin = OpCodeJoin)
       else in_channel one_peer (str "other") (str "node-aaaa"))
  ∧ (∀ ch', hashChannelName ch' ≠ hash → in_channel n' ch' (str "node-aaaa") = in_channel one_peer ch' (str "node-aaaa"))
  ∧ (∀ n'', isChannelSubscribed one_peer hash = false → JoinChannel (str "other") n' = Some ((), n'') →
       in_channel n'' (str "other") (str "node-aaaa") = in_channel one_peer (str "other") (str "node-aaaa")).
Proof.
  apply (channel_announcement one_peer (str "node-aaaa") 1 the_peer OpCodeJoin (str "other"));
    [reflexivity|reflexivity|reflexivity|vm_compute; congruence|by left].
Defined.

End PeersWitness.
