(* ===== verification/NodeRedial.v ===== *)
(** * A lost peer comes back

    The parts of the node that bring a peer back, put together: the heartbeat
    timer removes the silent peer and hands its address to the reconnect manager,
    the goroutine of the manager waits and dials, the handshake handlers of both
    nodes exchange the three messages, and the goroutine finds the peer connected
    and ends.  The goroutine runs among everything else of the node
    ([reconnecting]); with a retry limit it ends. *)

From S2P Require Import Identity.
From S2P Require Import Prelude Protocol Stream Sha256 Session Peer RelayAuth RelayManager Metrics Reconnect Config.
From S2P Require Import Probe NodeState NodeChannel NodeHeartbeat NodeRecv NodeHandshake NodeDiscovery NodeDispatch NodeConnect.
From S2P Require Import NodeReconnect NodeLife NodeTransfer NodeLink NodeRelink NodeSafety NodeReach NodePeers.

Section redial.
Context {NL : Noise} {LW : NoiseLaws NL} {W : World}.

(** What the handshake of a node depends on. *)
Definition base (n : Node) := (n_Config n, n_Identity n, Peers n, n_started n).

Lemma isPeerConnected_spec ps id : isPeerConnected (PeerStore_IDs ps) id = bool_decide (is_Some (ps !! id)).
Proof.
  unfold isPeerConnected, PeerStore_IDs. apply eq_true_iff_eq. rewrite existsb_exists, bool_decide_eq_true.
  setoid_rewrite bool_decide_eq_true. split.
  - intros (x & Hx & ->). apply list_elem_of_In, list_elem_of_fmap in Hx as ([k v] & -> & Hkv).
    apply elem_of_map_to_list in Hkv. by eexists.
  - intros [v Hv]. exists id. split; [|done]. apply list_elem_of_In, list_elem_of_fmap. exists (id, v). split; [done|].
    by apply elem_of_map_to_list.
Qed.

(** ** The turns around the attempt *)

(** Scheduling a peer that is not being reconnected. *)
Lemma schedule_fresh rm id a now :
  rc_Enabled (rcm_config rm) = true → a ≠ [] → entries rm !! id = None →
  ∃ er, entries (ScheduleReconnect rm id a now) !! id = Some er
  ∧ entry_store (ScheduleReconnect rm id a now) !! er
    = Some (MkEntry id a ReconnectStateWaiting 0 (MaxRetries (rcm_config rm)) time_zero None now false)
  ∧ rcm_closing (ScheduleReconnect rm id a now) = rcm_closing rm
  ∧ rcm_callbacks (ScheduleReconnect rm id a now) = rcm_callbacks rm.
Proof.
  intros He Ha Hn. unfold ScheduleReconnect. rewrite He, Hn, bool_decide_false by done. cbn [negb orb mbind option_bind].
  eexists. split; [apply lookup_insert_eq|]. split; [apply lookup_insert_eq|done].
Qed.

Lemma base_turn r pc env : pc ≠ PcDelay → preserves base (reconnect_turn r pc env).
Proof.
  intros Hpc. unfold reconnect_turn, turn_from, turn_top, node_reconnect_success, node_reconnect_failed, start_callback,
    on_manager. preserving. all: done.
Qed.

Lemma turn_runs r pc env n : node_wf n → ∃ pc' n', reconnect_turn r pc env n = Some (pc', n') ∧ node_wf n'.
Proof.
  intros Hwf. destruct (safe_wf (reconnect_turn r pc env) n Hwf) as (pc' & n' & H & Hwf' & _); [|eauto].
  intros Γ. by apply safe_reconnect_turn.
Qed.

Lemma start_callback_run ev n :
  start_callback ev n
  = Some ((), n <| n_log ::= λ l, l ++ match n_reconnectManager n ≫= λ rm, callback_of (rcm_callbacks rm) ev with
                                     | Some h => [Go (TaskReconnectCallback h ev)] | None => [] end |>).
Proof. unfold start_callback. rewrite get_bind. destruct (n_reconnectManager n ≫= _); [done|]. by rewrite node_log_nil. Qed.

(** The observable part of an entry. *)
Definition entry_at (n : Node) (r : EntryRef) (id a : gostring) (attempt : Z) (cb : rc_callbacks) : Prop :=
  ∃ rm e, n_reconnectManager n = Some rm ∧ entry_store rm !! r = Some e ∧ rcm_closing rm = false ∧ rcm_callbacks rm = cb
  ∧ re_cancelled e = false ∧ re_peerID e = id ∧ re_addr e = a ∧ re_attempt e = attempt.

(** ** The goroutine among the rest of the node *)

(** What happens while the goroutine sleeps leaves its task alone; other tasks come and go. *)
Definition undisturbed (r : EntryRef) (id : gostring) (n n' : Node) : Prop :=
  ∃ rm rm', n_reconnectManager n = Some rm ∧ n_reconnectManager n' = Some rm'
  ∧ entry_store rm' !! r = entry_store rm !! r ∧ entries rm' !! id = entries rm !! id
  ∧ rcm_config rm' = rcm_config rm ∧ rcm_closing rm' = rcm_closing rm ∧ rcm_callbacks rm' = rcm_callbacks rm.

(** A turn from the sleep before the attempt that does not end the goroutine has dialled. *)
Definition dials (pc pc' : loop_pc) : Z :=
  match pc, pc' with PcDelay, PcTop | PcDelay, PcConfirm => 1 | _, _ => 0 end.

(** [reconnecting r id n0 pc t d seen n]: the goroutine of the entry [r], started in [n0],
    stands at [pc] of the node [n] after [t] turns and [d] dials; [seen] says whether it
    found the peer connected. *)
Inductive reconnecting (r : EntryRef) (id : gostring) (n0 : Node) : loop_pc → Z → Z → bool → Node → Prop :=
| rg_start : reconnecting r id n0 PcTop 0 0 false n0
| rg_other pc t d seen n n' :
    reconnecting r id n0 pc t d seen n → node_wf n' → undisturbed r id n n' → reconnecting r id n0 pc t d seen n'
| rg_turn pc t d seen n env pc' n' :
    reconnecting r id n0 pc t d seen n → pc ≠ PcDone → reconnect_turn r pc env n = Some (pc', n') →
    reconnecting r id n0 pc' (t + 1) (d + dials pc pc') (seen || bool_decide (is_Some (Peers n !! id))) n'.

Lemma reconnecting_wf r id n0 pc t d seen n : node_wf n0 → reconnecting r id n0 pc t d seen n → node_wf n.
Proof.
  intros H0 Hrun. induction Hrun as [|pc t d seen n n' _ IH Hwf _|pc t d seen n env pc' n' _ IH _ Ht]; [done..|].
  destruct (turn_runs r pc env n IH) as (pc2 & n2 & Ht' & Hwf). congruence.
Qed.

Lemma reconnecting_dials r id n0 pc t d seen n : reconnecting r id n0 pc t d seen n → 0 ≤ d.
Proof.
  intros Hrun. induction Hrun as [|pc t d seen n n' _ IH _ _|pc t d seen n env pc' n' _ IH _ _]; [lia..|].
  unfold dials. destruct pc, pc'; lia.
Qed.





(** The entry of a goroutine that goes on, whatever its limit: it has counted its dials. *)
Lemma reconnecting_entry r id a cb n0 pc t d seen n :
  entry_at n0 r id a 0 cb → reconnecting r id n0 pc t d seen n → pc ≠ PcDone → d < max_int64 →
  entry_at n r id a (d + (if bool_decide (pc = PcDelay) then 1 else 0)) cb.
Proof.
  intros H0 Hrun. induction Hrun as [|pc t d seen n n' _ IH _ Hu|pc t d seen n env pc' n' Hrun IH Hpc Ht]; intros Hne Hd.
  - done.
  - destruct (IH Hne Hd) as (rm & e & Hrm & He & Hrest), Hu as (rm1 & rm' & Hrm1 & Hrm' & E1 & E2 & E3 & E4 & E5).
    simplify_eq. exists rm', e. split; [done|]. split; [by rewrite E1|]. by rewrite E4, E5.
  - pose proof (reconnecting_dials _ _ _ _ _ _ _ _ Hrun) as Hd0.
    assert (0 ≤ dials pc pc') as Hdd by (unfold dials; destruct pc, pc'; lia).
    destruct (IH Hpc ltac:(lia)) as (rm & e & Hrm & He & Hcl & Hcb & Hc & Hid & Hadr & Hat).
    destruct (turn_refines rm r e pc env n pc' n' Hrm He Ht) as (rm' & Hrm' & now & err & Hstep).
    unfold loop_step in Hstep. rewrite He, Hc, Hcl in Hstep. cbn [orb andb] in Hstep. exists rm'.
    destruct pc; cbn [bool_decide] in Hat; try done.
    + destruct (le_connected _); [by injection Hstep as <- <-|]. rewrite bool_decide_false in Hat by done.
      destruct (_ && _); injection Hstep as <- <-; [done|]. cbn. rewrite !lookup_alter_eq, He. eexists. split; [done|].
      split; [reflexivity|]. cbn. split_and!; try done. rewrite Hat.
      rewrite bool_decide_true by done. rewrite to_int64_id; [lia|]. unfold is_int64, min_int64, max_int64 in *. lia.
    + destruct (le_connected _); [by injection Hstep as <- <-|]. rewrite bool_decide_true in Hat by done.
      destruct (le_connect _); injection Hstep as <- <-; cbn; rewrite ?lookup_alter_eq, He; (eexists; split; [done|]);
        (split; [reflexivity|]); cbn; split_and!; try done; rewrite bool_decide_false by done; lia.
    + destruct (le_connected _); injection Hstep as <- <-; [done|]. rewrite bool_decide_false in Hat by done.
      exists e. cbn. split_and!; try done. rewrite bool_decide_false by done. lia.
Qed.

(** The turn after the attempt, when the peer is back. *)
Lemma last_turn r id a k cb env n :
  node_wf n → entry_at n r id a k cb → is_Some (Peers n !! id) →
  ∃ n' rm', reconnect_turn r PcConfirm env n = Some (PcDone, n') ∧ node_wf n'
  ∧ n_reconnectManager n' = Some rm' ∧ entries rm' !! id = None
  ∧ (Peers n' = Peers n ∧ peer_heap n' = peer_heap n ∧ sess_heap n' = sess_heap n ∧ addrToPeer n' = addrToPeer n
     ∧ pendingHandshakes n' = pendingHandshakes n)
  ∧ n_metrics n' = IncReconnectSuccess (n_metrics n)
  ∧ n_log n' = n_log n ++ match onReconnected cb with
                          | Some h => [Go (TaskReconnectCallback h (EvReconnected id k))] | None => [] end.
Proof.
  intros Hwf (rm & e & Hrm & He & Hcl & Hcb & Hc & Hid & Hadr & Hat) Hp.
  destruct (turn_runs r PcConfirm env n Hwf) as (pc' & n' & Hrun & Hwf'). revert Hrun.
  unfold reconnect_turn. rewrite get_bind, Hrm. cbn [mbind option_bind]. rewrite He. cbn [fmap option_fmap option_map].
  unfold turn_from. rewrite Hc, Hcl. cbn [orb andb]. rewrite isPeerConnected_spec, Hid, bool_decide_true by done.
  unfold node_reconnect_success, on_manager. run. rewrite (bind_run _ _ _ _ _ (start_callback_run _ _)). run.
  intros [= <- <-]. eexists _, _. split; [reflexivity|]. split; [done|]. cbn. rewrite Hrm. cbn.
  split; [reflexivity|]. split; [rewrite Hid; apply lookup_delete_eq|]. split; [done|]. split; [done|].
  by rewrite Hcb, Hid, Hat.
Qed.

(** ** The attempt *)

Lemma new_initiator_run n : new_initiator n = Some (initiator_of n, n <| n_draws ::= S |> <| n_ticks ::= S |>).
Proof. done. Qed.

(** The dial, when the TCP connection comes up first. *)
Lemma connect_tcp_run n a u t c hU mU hT m1 :
  n_started n = true → resolve_udp a = Some u → resolve_tcp a = Some t → initiator_of n = Ok (hU, mU) →
  initiator_of (n <| n_draws ::= S |> <| n_ticks ::= S |>) = Ok (hT, m1) → (∀ l e, io_ok l e = true) →
  ∃ n', connectContext a [TcpConnected c] n = Some (None, n') ∧ base n' = base n
  ∧ n_log n' = n_log n ++ [handshake_write c m1; Go (TaskHandleTCP c)]
  ∧ pendingHandshakes n' !! tcp_key t = Some hT.
Proof.
  intros Hs Hu Ht HU HT Hio. unfold connectContext, resolveConnectAddrs. run_assoc. rewrite Hs. cbn [negb]. rewrite Hu, Ht.
  run_assoc. unfold buildInitiatorHandshakePackets. rewrite !bind_assoc, (bind_run _ _ _ _ _ (new_initiator_run _)), HU.
  rewrite !bind_assoc, (bind_run _ _ _ _ _ (new_initiator_run _)), HT. run_assoc. unfold registerPendingHandshakes. run_assoc.
  cbn [awaitConnectResult]. unfold writeTCPPacket. run_assoc. rewrite Hio. run_assoc.
  eexists. split; [reflexivity|]. split; [done|]. split; [cbn; by rewrite <- app_assoc|]. cbn. apply lookup_insert_eq.
Qed.

(** The identity of the node can open a handshake. *)
Definition can_initiate (n : Node) : Prop := ∀ rnd t, ∃ h m,
  NewInitiatorHandshake (NoisePrivateKey (n_Identity n)) (NoisePublicKey (n_Identity n)) (NetworkPassword (n_Config n)) rnd t
  = Ok (h, m).

Lemma attempt_turn r id a k cb env n c u t :
  node_wf n → entry_at n r id a k cb → Peers n !! id = None → n_started n = true → can_initiate n →
  resolve_udp a = Some u → resolve_tcp a = Some t → (∀ l e, io_ok l e = true) → tn_events env = [TcpConnected c] →
  ∃ n' hI m1 rnd ts, reconnect_turn r PcDelay env n = Some (PcConfirm, n') ∧ node_wf n' ∧ base n' = base n
  ∧ entry_at n' r id a k cb ∧ n_log n' = n_log n ++ [handshake_write c m1; Go (TaskHandleTCP c)]
  ∧ pendingHandshakes n' !! tcp_key t = Some hI
  ∧ NewInitiatorHandshake (NoisePrivateKey (n_Identity n)) (NoisePublicKey (n_Identity n)) (NetworkPassword (n_Config n)) rnd ts
    = Ok (hI, m1).
Proof.
  intros Hwf (rm & e & Hrm & He & Hcl & Hcb & Hc & Hid & Hadr & Hat) Hp Hs Hini Hu Ht Hio Hev.
  destruct (turn_runs r PcDelay env n Hwf) as (pc' & n' & Hrun & Hwf'). revert Hrun.
  unfold reconnect_turn. rewrite get_bind, Hrm. cbn [mbind option_bind]. rewrite He. cbn [fmap option_fmap option_map].
  unfold turn_from. rewrite Hc, Hcl. cbn [orb andb].
  rewrite isPeerConnected_spec, Hid, bool_decide_false by (rewrite Hp; by intros []).
  unfold turn_attempt, on_manager. rewrite modify_bind, Hev, Hadr. set (n0 := n <| n_reconnectManager ::= _ |>).
  destruct (Hini (entropy (n_draws n)) (Unix (clock (n_ticks n)))) as (hU & mU & HU).
  destruct (Hini (entropy (S (n_draws n))) (Unix (clock (S (n_ticks n))))) as (hI & m1 & HI).
  destruct (connect_tcp_run n0 a u t c hU mU hI m1) as (n1 & Hrun1 & Hbase & Hlog & Hpend); try done.
  rewrite (bind_run _ _ _ _ _ Hrun1). run. intros [= <- <-]. eexists _, hI, m1, _, _.
  split; [reflexivity|]. split; [done|]. split; [exact Hbase|]. split_and!; [|exact Hlog|exact Hpend|exact HI].
  eexists _, _. split; [cbn; rewrite (preserves_connectContext _ _ _ _ _ Hrun1); cbn; rewrite Hrm; reflexivity|].
  cbn. rewrite lookup_alter_eq, He. by split_and!.
Qed.

(** ** The whole way *)

Lemma preserves_processHandshake conn addr tr payload :
  preserves n_reconnectManager (processHandshake conn addr tr payload).
Proof.
  assert (∀ s, preserves n_reconnectManager (alloc_session s)) by (by intros s n a n' [= <- <-]).
  assert (∀ p, preserves n_reconnectManager (alloc_peer p)) by (by intros p n a n' [= <- <-]).
  unfold processHandshake, get_or_create_handshake, sendRaw, writeTCPPacket, handleExistingPeer, handle_new_peer,
    registerRelayCandidate. preserving.
Qed.

(** Losing the peer hands its address to the manager, and makes room. *)
Lemma lose_peer n id r p rm :
  node_wf n → Peers n !! id = Some r → peer_heap n !! r = Some p → GetOriginalAddr p ≠ [] →
  n_reconnectManager n = Some rm → rc_Enabled (rcm_config rm) = true → rcm_closing rm = false → entries rm !! id = None →
  ∃ n' er, removePeer id n = Some ((), n') ∧ node_wf n' ∧ Peers n' = delete id (Peers n)
  ∧ entry_at n' er id (GetOriginalAddr p) 0 (rcm_callbacks rm)
  ∧ (∃ rm', n_reconnectManager n' = Some rm' ∧ entries rm' !! id = Some er).
Proof.
  intros Hwf Hr Hp Ha Hrm Hen Hcl Hno. unfold removePeer.
  destruct (removePeer_run n id r p true Hr Hp) as (n' & t & Hrun & Hrem & Hrec).
  rewrite bool_decide_true, Hrm in Hrec by done. cbn in Hrec.
  destruct (safe_wf (removePeerWithReconnect id true) n Hwf) as (u & n'' & Hrun' & Hwf' & Hid).
  { intros Γ. by apply safe_removePeerWithReconnect. }
  rewrite Hrun in Hrun'. injection Hrun' as _ <-.
  destruct (schedule_fresh rm id (GetOriginalAddr p) t Hen Ha Hno) as (er & He1 & He2 & He3 & He4).
  exists n', er. split_and!; try done; [apply Hrem| |by eexists].
  eexists _, _. split; [exact Hrec|]. split; [exact He2|]. rewrite He3, He4. by split_and!.
Qed.

(** C7: A lost peer comes back when a dial gets through.  A has B as a peer with an address to dial, and the peer goes away (B
    was silent, or the connection broke).  Then A removes it and schedules its reconnect task.  After any number [d] of
    dials that did not bring B back, with anything else going on at A meanwhile, let the goroutine wake up for the next
    attempt, with B still away, A running with room for a peer, B reachable (its address resolves, the TCP dial
    succeeds, writes succeed), and B a node of the same network with room that has forgotten A.  Then the
    attempt sends the first handshake message on the new connection; the handlers of both nodes exchange the other messages; the
    goroutine finds the peer connected and ends, its task is gone, the callback reports [d + 1] attempts.  Both nodes are
    linked over the new connection, under the same identifiers, with sessions of which each opens what the other
    seals. *)
Theorem lost_peer_comes_back nA nB r p rm :
  node_wf nA → Peers nA !! node_peerID nB = Some r → peer_heap nA !! r = Some p → GetOriginalAddr p ≠ [] →
  n_reconnectManager nA = Some rm → rc_Enabled (rcm_config rm) = true → rcm_closing rm = false →
  entries rm !! node_peerID nB = None →
  ∃ nA1 er, removePeer (node_peerID nB) nA = Some ((), nA1) ∧ Peers nA1 = delete (node_peerID nB) (Peers nA)
  ∧ (∃ rm1, n_reconnectManager nA1 = Some rm1 ∧ entries rm1 !! node_peerID nB = Some er)
  ∧ ∀ t d seen nA2 u addrA addrB cA cB env2 env3 hR,
    reconnecting er (node_peerID nB) nA1 PcDelay t d seen nA2 → d < max_int64 →
    Peers nA2 !! node_peerID nB = None → has_room nA2 → n_started nA2 = true → can_initiate nA2 →
    resolve_udp (GetOriginalAddr p) = Some u → resolve_tcp (GetOriginalAddr p) = Some addrB →
    (∀ l e, io_ok l e = true) → tn_events env2 = [TcpConnected cA] →
    a_kind addrA = AddrTCP → a_kind addrB = AddrTCP → good_keys (n_Identity nA2) → good_keys (n_Identity nB) →
    NetworkPassword (n_Config nB) = NetworkPassword (n_Config nA2) →
    pendingHandshakes nB !! tcp_key addrA = None → responder_of nB = Ok hR → has_room nB → Peers nB !! node_peerID nA2 = None →
    ∃ nA3 nA4 nA5 m1 m2 m3 nB1 nB2 sA sB rB rA rm',
      (reconnect_turn er PcDelay env2 nA2 = Some (PcConfirm, nA3)
       ∧ n_log nA3 = n_log nA2 ++ [handshake_write cA m1; Go (TaskHandleTCP cA)])
      ∧ (processHandshake (Some cB) addrA "tcp" m1 nB = Some ((), nB1) ∧ n_log nB1 = n_log nB ++ [handshake_write cB m2])
      ∧ (processHandshake (Some cA) addrB "tcp" m2 nA3 = Some ((), nA4)
         ∧ n_log nA4 = n_log nA3 ++ handshake_write cA m3 :: connected_log nA3 rB (node_peerID nB))
      ∧ processHandshake (Some cB) addrA "tcp" m3 nB1 = Some ((), nB2)
      ∧ (reconnect_turn er PcConfirm env3 nA4 = Some (PcDone, nA5)
         ∧ n_log nA5 = n_log nA4 ++ match onReconnected (rcm_callbacks rm) with
             | Some h => [Go (TaskReconnectCallback h (EvReconnected (node_peerID nB) (d + 1)))] | None => [] end)
      ∧ (n_reconnectManager nA5 = Some rm' ∧ entries rm' !! node_peerID nB = None)
      ∧ (linked_tcp nA5 addrB (node_peerID nB) cA sA rB ∧ linked_tcp nB2 addrA (node_peerID nA2) cB sB rA)
      ∧ (sess_synced sA sB ∧ sess_synced sB sA).
Proof.
  intros Hwf Hr Hp Ha Hrm Hen Hcl Hno.
  destruct (lose_peer nA _ r p rm Hwf Hr Hp Ha Hrm Hen Hcl Hno) as (nA1 & er & Hrun1 & Hwf1 & HP1 & He1 & Hent1).
  exists nA1, er. split; [done|]. split; [done|]. split; [done|].
  intros t d seen nA2 u addrA addrB cA cB env2 env3 hR Hrec Hd Hgone Hroom Hst Hini Hu Ht Hio Hev HkA HkB KA KB Hpw HpB HR
    HroomB HnewB.
  pose proof (reconnecting_wf _ _ _ _ _ _ _ _ Hwf1 Hrec) as Hwf2.
  pose proof (reconnecting_entry _ _ _ _ _ _ _ _ _ _ He1 Hrec ltac:(done) Hd) as He2. rewrite bool_decide_true in He2 by done.
  destruct (attempt_turn er _ _ _ _ env2 nA2 cA u addrB Hwf2 He2) as (nA3 & hI & m1 & rnd & ts & Hrun3 & Hwf3 & Hb3 & He3 & Hl3 & Hpend & HI);
    try done.
  injection Hb3 as Hc3 Hi3 HP3 Hs3.
  destruct (handshake_exchange nA3 nB cA cB addrA addrB rnd ts hI m1 hR)
    as (m2 & m3 & nB1 & nA4 & nB2 & sA & sB & rA & rB & HB1 & HA4 & HB2 & [HlA4 HlB2] & Hsync & _); try done;
    [by rewrite Hi3|by rewrite Hc3, Hi3|congruence|by unfold has_room; rewrite Hc3, HP3|congruence
    |by unfold node_peerID; rewrite Hi3|].
  destruct (safe_wf (processHandshake (Some cA) addrB "tcp" m2) nA3 Hwf3) as ([] & nA4' & HA4' & Hwf4 & _).
  { intros Γ. by apply safe_processHandshake. }
  destruct HA4 as [HA4 Hl4]. rewrite HA4 in HA4'. injection HA4' as <-.
  pose proof (preserves_processHandshake _ _ _ _ _ _ _ HA4) as Hman.
  destruct HlA4 as (q & sr & Hq & Hq1 & Hq2 & Hq3 & Hlinked).
  destruct (last_turn er (node_peerID nB) (GetOriginalAddr p) (d + 1) (rcm_callbacks rm) env3 nA4)
    as (nA5 & rm' & Hrun5 & _ & Hrm5 & Hent & (E1 & E2 & E3 & E4 & E5) & _ & Hl5); try done.
  { unfold entry_at. by rewrite Hman. }
  { destruct Hlinked. by eexists. }
  exists nA3, nA4, nA5, m1, m2, m3, nB1, nB2, sA, sB, rB, rA, rm'. split_and!; try done; try apply HB1; try apply HB2.
  - exists q, sr. split_and!; try done; [by rewrite E2|]. destruct Hlinked. split; by rewrite ?E1, ?E2, ?E3, ?E4.
  - assert (node_peerID nA3 = node_peerID nA2) as <- by (unfold node_peerID; congruence). done.
  - apply Hsync.
  - apply Hsync.
Qed.

End redial.

Module RedialWitness.
Import ToyNoise TransferWitness LinkWitness RelinkWitness.

(** Every address resolves to B. *)
#[local] Instance dial_world : World := {|
  io_ok _ _ := true;
  clock _ := 0;
  entropy _ := make_bytes 32; entropy_len _ := eq_refl;
  resolve_udp _ := Some (MkAddr AddrUDP (str "10.0.0.2:7000"));
  resolve_tcp _ := Some addr_b;
  bound_addr := str "[::]:7000";
|}.

(** A has B as its only peer; a callback waits for reconnections. *)
Definition lost_manager : ReconnectManager := SetOnReconnected (NewReconnectManager None) (Some 7%positive).
Definition managed_node (rm : ReconnectManager) : Node := paired_node x0a x0b addr_b <| n_reconnectManager := Some rm |>.
Definition losing_node : Node := managed_node lost_manager.

Lemma managed_node_wf rm : node_wf (managed_node rm).
Proof.
  split; cbn [managed_node paired_node demo_node set_field Node_eta Peers peer_heap sess_heap n_relayManager n_log].
  - intros id r [<- <-]%lookup_singleton_Some. eexists. by rewrite lookup_singleton_eq.
  - intros r p [_ <-]%lookup_singleton_Some. vm_compute. congruence.
  - intros r p sr [_ <-]%lookup_singleton_Some [= <-]. by rewrite lookup_singleton_eq.
  - done.
  - by intros t []%elem_of_nil.
Qed.

Definition idle (evs : list connect_event) : turn_env := MkTurnEnv (Float64.f64_of_Z 0) false evs.

Definition nB0 : Node := lone_node x0b ∅.

(** A after it lost B, and when the goroutine wakes up for its first attempt. *)
Definition lost_state : Node := default losing_node (snd <$> removePeer (node_peerID nB0) losing_node).
Definition awake_state : Node := default losing_node (snd <$> reconnect_turn 1 PcTop (idle []) lost_state).

Lemma default_run {A} (o : option (A * Node)) a n d : o = Some (a, n) → default d (snd <$> o) = n.
Proof. by intros ->. Qed.

Lemma same_run (o : option (() * Node)) n n' : o = Some ((), n) → o = Some ((), n') → n = n'.
Proof. congruence. Qed.

Lemma lost_state_run : removePeer (node_peerID nB0) losing_node = Some ((), lost_state) ∧ node_wf lost_state.
Proof.
  destruct (safe_wf (removePeer (node_peerID nB0)) losing_node (managed_node_wf _)) as ([] & n' & Hrun & Hwf & _).
  { intros Γ. by apply safe_removePeerWithReconnect. }
  assert (lost_state = n') as -> by exact (default_run _ _ _ _ Hrun). exact (conj Hrun Hwf).
Qed.

Lemma lost_state_task :
  (n_reconnectManager lost_state ≫= λ rm, entries rm !! node_peerID nB0) = Some 1%positive.
Proof. vm_compute. reflexivity. Qed.

Lemma awake_state_run : reconnect_turn 1 PcTop (idle []) lost_state = Some (PcDelay, awake_state).
Proof.
  assert (fst <$> reconnect_turn 1 PcTop (idle []) lost_state = Some PcDelay) as Hpc by (vm_compute; reflexivity).
  destruct (turn_runs 1 PcTop (idle []) lost_state (proj2 lost_state_run)) as (pc & n' & Hrun & _).
  assert (awake_state = n') as -> by exact (default_run _ _ _ _ Hrun). rewrite Hrun in Hpc. injection Hpc as ->. exact Hrun.
Qed.

Lemma awake_state_base :
  n_Identity awake_state = n_Identity losing_node
  ∧ NetworkPassword (n_Config awake_state) = NetworkPassword (n_Config losing_node)
  ∧ n_started awake_state = true ∧ PeerStore_Count (Peers awake_state) = 0 ∧ MaxPeers (n_Config awake_state) = 50
  ∧ Peers awake_state !! node_peerID nB0 = None.
Proof. vm_compute. by repeat split. Qed.

Lemma awake_reconnecting :
  reconnecting 1 (node_peerID nB0) lost_state PcDelay 1 0 (false || bool_decide (is_Some (Peers lost_state !! node_peerID nB0)))
    awake_state.
Proof. exact (rg_turn _ _ _ PcTop 0 0 false lost_state (idle []) PcDelay awake_state (rg_start _ _ _) ltac:(done) awake_state_run). Qed.

(** The callback is started once the peer is back. *)
Lemma lost_peer_comes_back_witness :
  ∃ nA4 nA5 nB' sA sB rA rB,
    reconnect_turn 1 PcConfirm (idle []) nA4 = Some (PcDone, nA5)
    ∧ Go (TaskReconnectCallback 7 (EvReconnected (node_peerID nB0) 1)) ∈ n_log nA5
    ∧ linked_tcp nA5 addr_b (node_peerID nB0) 1 sA rB
    ∧ linked_tcp nB' addr_a (node_peerID awake_state) 1 sB rA ∧ sess_synced sA sB.
Proof.
  destruct (lost_peer_comes_back losing_node nB0 1
              (NewPeer (peerID_of_key (key x0b)) (Some addr_b) (a_str addr_b) (Some 1%positive) "tcp" "p2p" None (Some 1%positive) 0)
              lost_manager) as (nA1 & er & H1 & _ & (rm1 & Hrm1 & Her) & Hback);
    [exact (managed_node_wf lost_manager)|reflexivity|reflexivity|discriminate|reflexivity|reflexivity|reflexivity|reflexivity|].
  assert (lost_state = nA1) as E1 by exact (same_run _ _ _ (proj1 lost_state_run) H1).
  clear H1. revert Hrm1 Hback. rewrite <- E1. clear E1. intros Hrm1 Hback.
  assert (er = 1%positive) as ->.
  { pose proof lost_state_task as H. rewrite Hrm1 in H. cbn [mbind option_bind] in H. rewrite Her in H. congruence. }
  destruct awake_state_base as (Bi & Bp & Bs & Bc & Bm & Bn).
  destruct (Hback 1 0 _ awake_state (MkAddr AddrUDP (str "10.0.0.2:7000")) addr_a addr_b 1%positive 1%positive
              (idle [TcpConnected 1%positive]) (idle [])
              (@MkHandshake toy_noise (MkToyHS false 0 (prologue_of (str "pw")) (key x0b) []) false false (Unix 0)) awake_reconnecting)
    as (nA3 & nA4 & nA5 & m1 & m2 & m3 & nB1 & nB2 & sA & sB & rB & rA & rm' & H3 & H4 & H5 & H6 & [H7 H7l] & H8 & [H9 H10] & [H11 _]);
    [reflexivity|exact Bn| |exact Bs| |reflexivity|reflexivity|reflexivity|reflexivity|reflexivity|reflexivity| |split; reflexivity
    | |apply lookup_empty|reflexivity| |apply lookup_empty|].
  - right. rewrite Bc, Bm. reflexivity.
  - intros rnd t. rewrite Bi, Bp. eexists _, _. reflexivity.
  - rewrite Bi. split; reflexivity.
  - rewrite Bp. reflexivity.
  - right. vm_compute. reflexivity.
  - exists nA4, nA5, nB2, sA, sB, rA, rB.
    refine (conj H7 (conj _ (conj H9 (conj H10 H11)))). rewrite H7l. apply elem_of_app. right. apply list_elem_of_here.
Defined.


End RedialWitness.
