(* ===== verification/Tunnel.v ===== *)
(** * The tunnel interface ([api/tunnel.go])

    The facade applications use: options collected into a configuration, a node behind
    two flags, and methods that pass on to the node.  The logger option is not
    modelled: what is logged has no influence on the state. *)

From S2P Require Import Prelude Protocol Stream Sha256 Json Identity Session Peer RelayAuth RelayManager Metrics Reconnect.
From S2P Require Import Float64 Config Probe NodeState NodeChannel NodeHeartbeat NodeRecv NodeHandshake NodeDiscovery.
From S2P Require Import NodeDispatch NodeConnect NodeLife NodeTransfer NodeLink NodeSafety NodeReach.

(** ** [strings.TrimSpace] *)

(** The UTF-8 encodings of the runes of [unicode.IsSpace]. *)
Definition space_runes : list bytes :=
  [[x09]; [x0a]; [x0b]; [x0c]; [x0d]; [x20]; [xc2; x85]; [xc2; xa0]; [xe1; x9a; x80];
   [xe2; x80; x80]; [xe2; x80; x81]; [xe2; x80; x82]; [xe2; x80; x83]; [xe2; x80; x84]; [xe2; x80; x85];
   [xe2; x80; x86]; [xe2; x80; x87]; [xe2; x80; x88]; [xe2; x80; x89]; [xe2; x80; x8a];
   [xe2; x80; xa8]; [xe2; x80; xa9]; [xe2; x80; xaf]; [xe2; x81; x9f]; [xe3; x80; x80]].

(** What is left after one of the patterns at the front. *)
Fixpoint strip_one (patterns : list bytes) (s : bytes) : option bytes :=
  match patterns with
  | [] => None
  | p :: patterns' =>
      if bool_decide (take (length p) s = p) then Some (drop (length p) s) else strip_one patterns' s
  end.

(** Every turn takes at least one byte, so the length bounds the turns. *)
Fixpoint strip_all (fuel : nat) (patterns : list bytes) (s : bytes) : bytes :=
  match fuel with
  | O => s
  | S fuel => match strip_one patterns s with Some s' => strip_all fuel patterns s' | None => s end
  end.

(** The last rune is a space exactly when the string ends with its encoding, so the
    right end is trimmed on the reversed string. *)
Definition TrimSpace (s : gostring) : gostring :=
  let left := strip_all (length s) space_runes s in
  reverse (strip_all (length left) (reverse <$> space_runes) (reverse left)).

Example trim_plain : TrimSpace (str "  chat room ") = str "chat room".
Proof. vm_compute. reflexivity. Qed.
Example trim_unicode : TrimSpace ([xe3; x80; x80] ++ str "chat" ++ [xc2; xa0; x0a]) = str "chat".
Proof. vm_compute. reflexivity. Qed.
Example trim_all : TrimSpace [x20; xe2; x80; x83; x09] = [].
Proof. vm_compute. reflexivity. Qed.

Section tunnel.
Context {NL : Noise} {W : World} {ED : Ed25519} {CU : Curve25519}.

(** ** Options *)

Record tunnelConfig := MkTunnelConfig { nodeOpts : list Option; tc_err : option string }.
#[global] Instance tunnelConfig_eta : RecordEta tunnelConfig := λ c, MkTunnelConfig (nodeOpts c) (tc_err c).

Definition TunnelOption := tunnelConfig → tunnelConfig.

(** [c.nodeOpts = append(c.nodeOpts, o)]. *)
Definition pass_on (o : Option) : TunnelOption := λ c, c <| nodeOpts ::= λ l, l ++ [o] |>.

Definition Tunnel_WithPassword (v : gostring) : TunnelOption := pass_on (WithNetworkPassword v).
Definition Tunnel_WithListenPort (v : Z) : TunnelOption := pass_on (WithListenPort v).

Definition Tunnel_WithIdentityJSON (jsonData : bytes) : TunnelOption := λ c,
  match tc_err c with
  | Some _ => c
  | None =>
      match IdentityFromJSON jsonData with
      | Ok id => pass_on (WithIdentity (Some id)) c
      | _ => c <| tc_err := Some "invalid identity data"%string |>
      end
  end.

Definition Tunnel_WithEnableHolePunch (v : bool) : TunnelOption := pass_on (WithEnableHolePunch v).
Definition Tunnel_WithEnableRelay (v : bool) : TunnelOption := pass_on (WithEnableRelay v).
Definition Tunnel_WithMaxPeers (v : Z) : TunnelOption := pass_on (WithMaxPeers v).
Definition Tunnel_WithRelayNodes (v : list gostring) : TunnelOption := pass_on (WithRelayNodes v).
Definition Tunnel_WithDialTimeout (v : Duration) : TunnelOption := pass_on (WithDialTimeout v).
Definition Tunnel_WithEnableRelayAuth (v : bool) : TunnelOption := pass_on (WithEnableRelayAuth v).
Definition Tunnel_WithKCPConfig (v : option KCPConfig) : TunnelOption := pass_on (WithKCPConfig v).
Definition Tunnel_WithEnableReconnect (v : bool) : TunnelOption := pass_on (WithEnableReconnect v).
Definition Tunnel_WithReconnectConfig (v : option ReconnectConfig) : TunnelOption := pass_on (WithReconnectConfig v).
Definition Tunnel_WithReconnectMaxRetries (v : Z) : TunnelOption := pass_on (WithReconnectMaxRetries v).
Definition Tunnel_WithReconnectBackoff (initialDelay maxDelay : Duration) (multiplier : float64) : TunnelOption :=
  pass_on (WithReconnectBackoff initialDelay maxDelay multiplier).
Definition Tunnel_WithMaxConsecutiveDecryptFailures (v : Z) : TunnelOption :=
  pass_on (WithMaxConsecutiveDecryptFailures v).
Definition Tunnel_WithFastRehandshakeBackoff (baseDelay maxDelay : Duration) : TunnelOption :=
  pass_on (WithFastRehandshakeBackoff baseDelay maxDelay).
Definition Tunnel_WithFastRehandshakeWindow (window : Duration) (maxAttempts : Z) : TunnelOption :=
  pass_on (WithFastRehandshakeWindow window maxAttempts).
Definition Tunnel_WithFastRehandshakeFailThreshold (v : Z) : TunnelOption := pass_on (WithFastRehandshakeFailThreshold v).
Definition Tunnel_WithFastRehandshakePendingTTL (v : Duration) : TunnelOption := pass_on (WithFastRehandshakePendingTTL v).
Definition Tunnel_WithChannelID (v : gostring) : TunnelOption := pass_on (WithChannelID v).

(** ** State *)

(** [t_natInfo] is the node's [natInfo], which only the methods here read. *)
Record Tunnel := MkTunnel { t_node : Node; t_started : bool; t_closed : bool; t_natInfo : option NATInfo }.
#[global] Instance Tunnel_eta : RecordEta Tunnel := λ t,
  MkTunnel (t_node t) (t_started t) (t_closed t) (t_natInfo t).

Definition NewTunnel (opts : list TunnelOption) (generated : option Identity) (now : Time) : res Tunnel :=
  let cfg := foldl (λ c opt, opt c) (MkTunnelConfig [] None) opts in
  match tc_err cfg with
  | Some _ => Err "config error"
  | None =>
      match NewNode (nodeOpts cfg) generated now with
      | Ok n => Ok (MkTunnel n false false None)
      | Err _ => Err "create node failed"
      | Panic => Panic
      end
  end.

(** A method: [None] is a panic. *)
Definition T (A : Type) : Type := Tunnel → option (A * Tunnel).

(** A call of the node. *)
Definition on_node {A} (m : M A) : T A := λ t,
  match m (t_node t) with
  | Some (a, n) => Some (a, t <| t_node := n |>)
  | None => None
  end.

(** ** Lifecycle *)

Definition Tunnel_Start (udp_ok tcp_ok kcp_ok : bool) : T (option string) := λ t,
  if t_closed t then Some (Some "tunnel is closed"%string, t)
  else if t_started t then Some (Some "tunnel is started"%string, t)
  else match on_node (Start udp_ok tcp_ok kcp_ok) t with
       | Some (None, t') => Some (None, t' <| t_started := true |>)
       | r => r
       end.

Definition Tunnel_Stop : T (option string) := λ t,
  if negb (t_started t) then Some (Some "tunnel is not started"%string, t) else
  match on_node GracefulStop (t <| t_closed := true |> <| t_started := false |>) with
  | Some (_, t') => Some (None, t')
  | None => None
  end.

Definition Tunnel_GracefulStop : T (option string) := λ t,
  match on_node GracefulStop (t <| t_closed := true |>) with
  | Some (_, t') => Some (None, t')
  | None => None
  end.

(** ** Data, channels, connections *)

Definition Tunnel_Connect (addr : gostring) (evs : list connect_event) : T (option string) :=
  on_node (Node_Connect addr evs).

Definition Tunnel_Send (channelName peerID : gostring) (data : bytes) : T (option string) :=
  on_node (Send channelName peerID data).

Definition Tunnel_Broadcast (channelName : gostring) (data : bytes) : T Z := on_node (Broadcast channelName data).

Definition Tunnel_JoinChannel (channelName : gostring) : T (option string) := λ t,
  let channelName := TrimSpace channelName in
  if bool_decide (channelName = []) then Some (Some "channel is required"%string, t) else
  match on_node (JoinChannel channelName) t with
  | Some (_, t') => Some (None, t')
  | None => None
  end.

Definition Tunnel_LeaveChannel (channelName : gostring) : T (option string) := λ t,
  let channelName := TrimSpace channelName in
  if bool_decide (channelName = []) then Some (Some "channel is required"%string, t) else
  match on_node (LeaveChannel channelName) t with
  | Some (_, t') => Some (None, t')
  | None => None
  end.

(** Callbacks are represented by whether they are set. *)
Definition Tunnel_OnReceive (set : bool) (t : Tunnel) : Tunnel := t <| t_node ::= Node_OnReceive set |>.
Definition Tunnel_OnPeerConnected (set : bool) (t : Tunnel) : Tunnel := t <| t_node ::= Node_OnPeerConnected set |>.
Definition Tunnel_OnPeerDisconnected (set : bool) (t : Tunnel) : Tunnel := t <| t_node ::= Node_OnPeerDisconnected set |>.

(** ** Queries *)

Definition Tunnel_LocalID (t : Tunnel) : gostring := Node_ID (t_node t).

Definition Tunnel_LocalAddr (t : Tunnel) : gostring := default [] (LocalAddr (t_node t)).

(** [t.node.PublicAddr] is nil: nothing in the program sets it. *)
Definition Tunnel_PublicAddr (t : Tunnel) : gostring := [].

Definition Tunnel_Peers (t : Tunnel) : list gostring := PeerStore_IDs (Peers (t_node t)).
Definition Tunnel_PeerCount (t : Tunnel) : Z := PeerStore_Count (Peers (t_node t)).
Definition Tunnel_PeerTransport (t : Tunnel) (peerID : gostring) : string := GetPeerTransport (t_node t) peerID.
Definition Tunnel_PeerLinkMode (t : Tunnel) (peerID : gostring) : string := GetPeerLinkMode (t_node t) peerID.
Definition Tunnel_GetMetrics : T Snapshot := on_node GetMetrics.
Definition Tunnel_GetIdentityJSON (t : Tunnel) : bytes := ToJSON (n_Identity (t_node t)).

(** [Node.ProbeNAT]: the peers' UDP addresses, the probe ([via] is [ProbeViaHelper] on
    them), and what is recorded. *)
Definition probe_helpers (n : Node) : list Addr :=
  omap (λ id, p ← peer_named n id;
              a ← (GetTransportInfo p).1.2;
              if bool_decide (a_kind a = AddrUDP) then Some a else None) (PeerStore_IDs (Peers n)).

Definition Node_ProbeNAT (n : Node) (via : list Addr → res ProbeResult) : res (ProbeResult * NATInfo) :=
  if negb (n_started n) then Err "nat prober is not initialized"
  else if bool_decide (PeerStore_IDs (Peers n) = []) then Err "no connected peers available for nat probe"
  else if bool_decide (probe_helpers n = []) then Err "no udp helper peers available for nat probe"
  else result ← via (probe_helpers n);
       Ok (result, MkNATInfo (pr_NATType result) (pr_PublicAddr result) (PortPredictable result) (PortDelta result)
                     (ProbeTime result)).

Definition Tunnel_ProbeNAT (via : list Addr → res ProbeResult) (t : Tunnel) : Tunnel * res string :=
  match Node_ProbeNAT (t_node t) via with
  | Ok (result, info) => (t <| t_natInfo := Some info |>, Ok (NATType_String (pr_NATType result)))
  | Err e => (t, Err e)
  | Panic => (t, Panic)
  end.

Definition Tunnel_GetNATType (t : Tunnel) : string :=
  match t_natInfo t with
  | None => "Unknown"
  | Some info => NATType_String (ni_Type info)
  end.

(** ** Reconnecting *)

Definition Node_GetAllReconnectInfo (n : Node) : option (list ReconnectInfo) :=
  GetAllReconnectInfo <$> n_reconnectManager n.

Definition Tunnel_GetReconnectingPeers (t : Tunnel) : list gostring :=
  match Node_GetAllReconnectInfo (t_node t) with
  | None => []
  | Some infos => rn_PeerID <$> infos
  end.

Definition Tunnel_OnReconnecting (handler : option HandlerRef) (t : Tunnel) : Tunnel :=
  t <| t_node ::= Node_OnReconnecting handler |>.
Definition Tunnel_OnReconnected (handler : option HandlerRef) (t : Tunnel) : Tunnel :=
  t <| t_node ::= Node_OnReconnected handler |>.
Definition Tunnel_OnGaveUp (handler : option HandlerRef) (t : Tunnel) : Tunnel :=
  t <| t_node ::= Node_OnGaveUp handler |>.

Definition Tunnel_CancelReconnect (peerID : gostring) : T unit := on_node (Node_CancelReconnect peerID).
Definition Tunnel_CancelAllReconnects : T unit := on_node CancelAllReconnects.

End tunnel.

(** ** The lifecycle *)

(** The abstract states of a tunnel. *)
Inductive phase := Fresh | Running | Draining | Stopped.

(** A call of the application, or something that happens to the node meanwhile. *)
Inductive api_call `{Noise} :=
| CallStart (udp_ok tcp_ok kcp_ok : bool)
| CallStop
| CallGracefulStop
| CallSend (channel peerID : gostring) (data : bytes)
| CallBroadcast (channel : gostring) (data : bytes)
| CallConnect (addr : gostring) (evs : list connect_event)
| CallJoin (name : gostring)
| CallLeave (name : gostring)
| CallOnReceive (set : bool)
| CallOnPeerConnected (set : bool)
| CallOnPeerDisconnected (set : bool)
| CallOnReconnecting (handler : option HandlerRef)
| CallOnReconnected (handler : option HandlerRef)
| CallOnGaveUp (handler : option HandlerRef)
| CallCancelReconnect (peerID : gostring)
| CallCancelAllReconnects
| CallGetMetrics
| Background (i : node_input).

(** What the calls of the lifecycle return and where they lead; the others have no
    influence on the phase. *)
Inductive lifecycle `{Noise} : phase → api_call → option string → phase → Prop :=
| lc_start_ok u c k : lifecycle Fresh (CallStart u c k) None Running
| lc_start_failed u c k e : lifecycle Fresh (CallStart u c k) (Some e) Fresh
| lc_start_twice u c k : lifecycle Running (CallStart u c k) (Some "tunnel is started"%string) Running
| lc_start_draining u c k : lifecycle Draining (CallStart u c k) (Some "tunnel is closed"%string) Draining
| lc_start_stopped u c k : lifecycle Stopped (CallStart u c k) (Some "tunnel is closed"%string) Stopped
| lc_stop_running : lifecycle Running CallStop None Stopped
| lc_stop_draining : lifecycle Draining CallStop None Stopped
| lc_stop_fresh : lifecycle Fresh CallStop (Some "tunnel is not started"%string) Fresh
| lc_stop_stopped : lifecycle Stopped CallStop (Some "tunnel is not started"%string) Stopped
| lc_graceful_fresh : lifecycle Fresh CallGracefulStop None Stopped
| lc_graceful_stopped : lifecycle Stopped CallGracefulStop None Stopped
| lc_graceful_running : lifecycle Running CallGracefulStop None Draining
| lc_graceful_draining : lifecycle Draining CallGracefulStop None Draining
| lc_other ph call r :
    match call with CallStart _ _ _ | CallStop | CallGracefulStop => False | _ => True end →
    lifecycle ph call r ph.

Section lifecycle.
Context {NL : Noise} {W : World} {ED : Ed25519} {CU : Curve25519}.

Definition phase_of (t : Tunnel) : phase :=
  match t_started t, t_closed t with
  | false, false => Fresh
  | true, false => Running
  | true, true => Draining
  | false, true => Stopped
  end.

Definition no_result {A} (m : T A) : T (option string) := λ t,
  match m t with Some (_, t') => Some (None, t') | None => None end.

Definition run_call (call : api_call) : T (option string) :=
  match call with
  | CallStart u c k => Tunnel_Start u c k
  | CallStop => Tunnel_Stop
  | CallGracefulStop => Tunnel_GracefulStop
  | CallSend ch id data => Tunnel_Send ch id data
  | CallBroadcast ch data => no_result (Tunnel_Broadcast ch data)
  | CallConnect a evs => Tunnel_Connect a evs
  | CallJoin name => Tunnel_JoinChannel name
  | CallLeave name => Tunnel_LeaveChannel name
  | CallOnReceive b => λ t, Some (None, Tunnel_OnReceive b t)
  | CallOnPeerConnected b => λ t, Some (None, Tunnel_OnPeerConnected b t)
  | CallOnPeerDisconnected b => λ t, Some (None, Tunnel_OnPeerDisconnected b t)
  | CallOnReconnecting h => λ t, Some (None, Tunnel_OnReconnecting h t)
  | CallOnReconnected h => λ t, Some (None, Tunnel_OnReconnected h t)
  | CallOnGaveUp h => λ t, Some (None, Tunnel_OnGaveUp h t)
  | CallCancelReconnect id => no_result (Tunnel_CancelReconnect id)
  | CallCancelAllReconnects => no_result Tunnel_CancelAllReconnects
  | CallGetMetrics => no_result Tunnel_GetMetrics
  | Background i => no_result (on_node (handle_input i))
  end.

Definition call_enabled (t : Tunnel) (call : api_call) : Prop :=
  match call with Background i => enabled (t_node t) i | _ => True end.

Definition tunnel_step (t t' : Tunnel) : Prop := ∃ call r, call_enabled t call ∧ run_call call t = Some (r, t').

(** The node's invariant, and the length of its ID. *)
Definition tunnel_wf (t : Tunnel) : Prop := node_wf (t_node t) ∧ len (id_ID (n_Identity (t_node t))) = 16.

(** A call of the node that is one of its inputs. *)
Lemma on_node_input {A} (m : M A) t :
  tunnel_wf t → (∀ Γ, safe Γ anything m) →
  ∃ a t', on_node m t = Some (a, t') ∧ tunnel_wf t' ∧ phase_of t' = phase_of t.
Proof.
  intros [Hn Hid] Hm. destruct (safe_wf m (t_node t) Hn Hm) as (a & n' & Hrun & Hn' & Hi).
  exists a, (t <| t_node := n' |>). unfold on_node. rewrite Hrun. split; [done|]. split; [|done].
  split; cbn; [done|]. by rewrite Hi.
Qed.

Lemma on_node_handled i t :
  tunnel_wf t → enabled (t_node t) i →
  ∃ t', on_node (handle_input i) t = Some ((), t') ∧ tunnel_wf t' ∧ phase_of t' = phase_of t.
Proof.
  intros [Hn Hid] He. destruct (handle_input_wf (t_node t) i Hn He) as (n' & Hrun & Hn' & Hi).
  exists (t <| t_node := n' |>). unfold on_node. rewrite Hrun. split; [done|]. split; [|done].
  split; cbn; [done|]. by rewrite Hi.
Qed.

Lemma new_tunnel_wf opts generated now t :
  NewTunnel opts generated now = Ok t → len (id_ID (n_Identity (t_node t))) = 16 → tunnel_wf t ∧ phase_of t = Fresh.
Proof.
  unfold NewTunnel. destruct (tc_err _); [done|]. destruct (NewNode _ _ _) as [n| |] eqn:E; try done.
  intros [= <-] Hid. split; [|done]. split; [by eapply NewNode_wf|done].
Qed.

(** *** Shutting down *)

(** After [close(n.closing)] nothing touches the channel. *)
Lemma preserves_close_peers ids : preserves n_closing (close_peers ids).
Proof. induction ids as [|id ids IH]; cbn [close_peers]; preserving; apply IH. Qed.

Lemma preserves_KCP_Close : preserves n_closing KCP_Close.
Proof.
  unfold KCP_Close. preserving. generalize (map_to_list (kcp_sessions k)).*2. intros l.
  induction l as [|a' l IH]; cbn [close_kcp_sessions]; preserving; apply IH.
Qed.

Lemma GracefulStop_closes n u n' : GracefulStop n = Some (u, n') → n_closing n' = true.
Proof.
  unfold GracefulStop. rewrite get_bind. destruct (n_closing n) eqn:E; [by intros [= <- <-]|].
  intros (u1 & n1 & _ & H)%bind_Some. rewrite modify_bind in H.
  set (n2 := n1 <| n_closing := true |>) in H. change true with (n_closing n2).
  refine ((_ : preserves n_closing _) n2 u n' H).
  preserving; auto using preserves_KCP_Close, preserves_close_peers.
Qed.

(** *** Every call *)

Lemma run_stop t s c :
  tunnel_wf t →
  ∃ t', on_node GracefulStop (t <| t_closed := c |> <| t_started := s |>) = Some ((), t')
  ∧ tunnel_wf t' ∧ t_closed t' = c ∧ t_started t' = s ∧ n_closing (t_node t') = true.
Proof.
  intros Hwf. destruct (on_node_handled InStop (t <| t_closed := c |> <| t_started := s |>)) as (t' & Hrun & Hwf' & _);
    [done|done|]. cbn [handle_input] in Hrun. exists t'. split; [done|]. split; [done|].
  unfold on_node in Hrun. cbn in Hrun. destruct (GracefulStop (t_node t)) as [[u n']|] eqn:E; [|done].
  destruct u. injection Hrun as <-. apply GracefulStop_closes in E. done.
Qed.

(** The call has run: the invariant, the step of the automaton, the effect on the node. *)
Ltac conform := split; [done|split; [assumption|split; [by constructor|done]]].

(** A call that only sets or reads fields the invariant does not speak of. *)
Ltac configure :=
  match goal with Hwf : tunnel_wf _ |- _ =>
    eexists _, _; split; [reflexivity|]; split; [|split; [by constructor|done]]; destruct Hwf as [? ?];
    split; cbn; [by eapply node_wf_frame|done]
  end.

Lemma run_call_ok t call :
  tunnel_wf t → call_enabled t call →
  ∃ r t', run_call call t = Some (r, t') ∧ tunnel_wf t' ∧ lifecycle (phase_of t) call r (phase_of t')
  ∧ match call with CallStop => r = None → n_closing (t_node t') = true
    | CallGracefulStop => n_closing (t_node t') = true | _ => True end.
Proof.
  intros Hwf Hen.
  assert (∀ e, silent e → anything e) as HP by done.
  destruct call as [u c k| | |ch id d|ch d|a evs|name|name|b|b|b|h|h|h|id| | |i]; cbn [run_call].
  - unfold Tunnel_Start, phase_of. destruct (t_closed t) eqn:Ec.
    { exists (Some "tunnel is closed"%string), t. rewrite Ec. destruct (t_started t); conform. }
    destruct (t_started t) eqn:Es.
    { exists (Some "tunnel is started"%string), t. rewrite Ec, Es. conform. }
    destruct Hwf as [Hn Hid]. destruct (Start_wf u c k (t_node t) Hn Hid) as (err & n' & Hrun & Hn' & Hi).
    unfold on_node. rewrite Hrun. destruct err as [e|]; eexists _, _; (split; [reflexivity|]); cbn; rewrite ?Ec, ?Es;
      (split; [split; cbn; [done|by rewrite Hi]|split; [constructor|done]]).
  - unfold Tunnel_Stop, phase_of. destruct (t_started t) eqn:Es; cbn [negb].
    + destruct (run_stop t false true Hwf) as (t' & Hrun & Hwf' & Hc' & Hs' & Hcl). rewrite Hrun.
      exists None, t'. rewrite Hc', Hs'. destruct (t_closed t); conform.
    + exists (Some "tunnel is not started"%string), t. rewrite Es. destruct (t_closed t); conform.
  - unfold Tunnel_GracefulStop, phase_of.
    destruct (run_stop t (t_started t) true Hwf) as (t' & Hrun & Hwf' & Hc' & Hs' & Hcl).
    replace (t <| t_closed := true |> <| t_started := t_started t |>) with (t <| t_closed := true |>) in Hrun by by destruct t.
    rewrite Hrun. exists None, t'. rewrite Hc', Hs'. destruct (t_started t), (t_closed t); conform.
  - destruct (on_node_input (Send ch id d) t Hwf) as (r & t' & Hrun & Hwf' & Hph); [intros; by apply safe_Send|].
    exists r, t'. rewrite Hph. conform.
  - destruct (on_node_input (Broadcast ch d) t Hwf) as (r & t' & Hrun & Hwf' & Hph); [intros; by apply safe_Broadcast|].
    unfold no_result, Tunnel_Broadcast. rewrite Hrun. exists None, t'. rewrite Hph. conform.
  - destruct (on_node_input (connectContext a evs) t Hwf) as (r & t' & Hrun & Hwf' & Hph); [intros; by apply safe_connectContext|].
    exists r, t'. rewrite Hph. conform.
  - unfold Tunnel_JoinChannel. cbv zeta. case_bool_decide; [eexists _, t; conform|].
    destruct (on_node_handled (InJoin (TrimSpace name)) t Hwf I) as (t' & Hrun & Hwf' & Hph). cbn [handle_input] in Hrun.
    rewrite Hrun. exists None, t'. rewrite Hph. conform.
  - unfold Tunnel_LeaveChannel. cbv zeta. case_bool_decide; [eexists _, t; conform|].
    destruct (on_node_handled (InLeave (TrimSpace name)) t Hwf I) as (t' & Hrun & Hwf' & Hph). cbn [handle_input] in Hrun.
    rewrite Hrun. exists None, t'. rewrite Hph. conform.
  - configure.
  - configure.
  - configure.
  - configure.
  - configure.
  - configure.
  - configure.
  - configure.
  - configure.
  - destruct (on_node_handled i t Hwf Hen) as (t' & Hrun & Hwf' & Hph). unfold no_result. rewrite Hrun.
    exists None, t'. rewrite Hph. conform.
Qed.

(** C11: a tunnel follows its lifecycle.  Whatever options it is built from and whatever calls, packets, timers and goroutines
    have run before, each call of the application returns (no panic) and moves the tunnel between the abstract states fresh,
    running, draining and stopped as the automaton says: it starts once, only when fresh, never again after a stop; stopping
    needs a started tunnel; a graceful stop is always accepted; and after either stop the node is shutting down. *)
Theorem tunnel_lifecycle opts generated now t0 t call :
  NewTunnel opts generated now = Ok t0 → len (id_ID (n_Identity (t_node t0))) = 16 →
  rtc tunnel_step t0 t → call_enabled t call →
  ∃ r t', run_call call t = Some (r, t') ∧ lifecycle (phase_of t) call r (phase_of t')
  ∧ match call with CallStop => r = None → n_closing (t_node t') = true
    | CallGracefulStop => n_closing (t_node t') = true | _ => True end.
Proof.
  intros Hnew Hid Hsteps Hen. destruct (new_tunnel_wf _ _ _ _ Hnew Hid) as [Hwf0 _].
  assert (tunnel_wf t) as Hwf.
  { clear -Hwf0 Hsteps. induction Hsteps as [|t1 t2 t3 (call & r & Hen & Hrun) _ IH]; [done|].
    destruct (run_call_ok t1 call Hwf0 Hen) as (r' & t2' & Hrun' & Hwf2 & _). apply IH. congruence. }
  destruct (run_call_ok t call Hwf Hen) as (r & t' & Hrun & _ & Hl & Hc). by exists r, t'.
Qed.

(** ** Identity *)

Lemma new_node_identity opts id generated now n :
  NewNode (opts ++ [WithIdentity (Some id)]) generated now = Ok n → n_Identity n = id.
Proof.
  unfold NewNode. rewrite foldl_app. cbn [foldl]. case_bool_decide; [done|]. cbn. by intros [= <-].
Qed.

Lemma new_tunnel_identity opts id generated now t :
  identity_wf id → NewTunnel (opts ++ [Tunnel_WithIdentityJSON (ToJSON id)]) generated now = Ok t →
  n_Identity (t_node t) = id.
Proof.
  intros Hwf. unfold NewTunnel. rewrite foldl_app. cbn [foldl]. set (c := foldl (λ c opt, opt c) (MkTunnelConfig [] None) opts).
  unfold Tunnel_WithIdentityJSON. rewrite json_roundtrip by done.
  destruct (tc_err c) as [e|] eqn:Ee; cbn; rewrite Ee; [done|].
  destruct (NewNode _ generated now) as [n| |] eqn:En; try done. intros [= <-]. by eapply new_node_identity.
Qed.

(** The ID a node gives itself is the one its peers derive from its static key. *)
Lemma peers_know_id `{!KeyLaws} n : identity_wf (n_Identity n) → Node_ID n = node_peerID n.
Proof.
  intros Hwf. unfold Node_ID, node_peerID, peerID_of_key.
  destruct (identity_wf_shape _ Hwf) as (_ & _ & _ & _ & _ & -> & _). done.
Qed.

(** C34: an application keeps its identity: a tunnel built, with any other options before it, from the JSON another tunnel
    exported (say, in an earlier run) has the same keys and the same ID, and that ID is the one peers compute from the key they
    see in the handshake, so they recognise the node. *)
Theorem tunnel_identity_roundtrip `{!KeyLaws} t1 opts generated now t2 :
  identity_wf (n_Identity (t_node t1)) →
  NewTunnel (opts ++ [Tunnel_WithIdentityJSON (Tunnel_GetIdentityJSON t1)]) generated now = Ok t2 →
  n_Identity (t_node t2) = n_Identity (t_node t1) ∧ Tunnel_LocalID t2 = Tunnel_LocalID t1
  ∧ Tunnel_LocalID t2 = node_peerID (t_node t1).
Proof.
  intros Hwf Hnew. assert (n_Identity (t_node t2) = n_Identity (t_node t1)) as Hid by by eapply new_tunnel_identity.
  split; [done|]. unfold Tunnel_LocalID, Node_ID. rewrite Hid. split; [done|].
  by apply (peers_know_id (t_node t1)).
Qed.

(** An invalid identity wins over everything that comes later. *)
Lemma invalid_identity_refused opts opts' data generated now :
  (∀ id, IdentityFromJSON data ≠ Ok id) →
  (∀ o c, o ∈ opts' → is_Some (tc_err c) → is_Some (tc_err (o c))) →
  NewTunnel (opts ++ Tunnel_WithIdentityJSON data :: opts') generated now = Err "config error".
Proof.
  intros Hbad Hkeep. unfold NewTunnel. rewrite foldl_app. cbn [foldl]. set (c := foldl (λ c opt, opt c) (MkTunnelConfig [] None) opts).
  assert (is_Some (tc_err (Tunnel_WithIdentityJSON data c))) as H.
  { unfold Tunnel_WithIdentityJSON. destruct (tc_err c) eqn:E; [by rewrite E|].
    destruct (IdentityFromJSON data) eqn:Ei; cbn; [by destruct (Hbad a)|by eauto..]. }
  assert (is_Some (tc_err (foldl (λ c opt, opt c) (Tunnel_WithIdentityJSON data c) opts'))) as [e He].
  { revert H. generalize (Tunnel_WithIdentityJSON data c). induction opts' as [|o opts' IH]; intros c' H; [done|].
    cbn [foldl]. apply IH; [intros; apply Hkeep; [by right|done]|]. apply Hkeep; [by left|done]. }
  by rewrite He.
Qed.

End lifecycle.

(** ** A concrete tunnel *)

Module TunnelWitness.
Import ToyNoise ToyKeys TransferWitness.

Definition demo_opts : list TunnelOption :=
  [Tunnel_WithPassword (str "pw"); Tunnel_WithChannelID (str "chat")].

Definition demo_tunnel : @Tunnel toy_noise :=
  match NewTunnel (W := quiet_world) demo_opts (Some demo_identity) 0 with
  | Ok t => t
  | _ => MkTunnel (demo_node x0a [] toy_session []) false false None
  end.

Lemma demo_tunnel_new : NewTunnel (W := quiet_world) demo_opts (Some demo_identity) 0 = Ok demo_tunnel.
Proof.
  unfold demo_tunnel. destruct (NewTunnel demo_opts _ 0) as [t| |] eqn:E; [reflexivity|exfalso..]; revert E;
    unfold NewTunnel, demo_opts, Tunnel_WithPassword, Tunnel_WithChannelID, pass_on; cbn [foldl tc_err nodeOpts set_field app];
    unfold NewNode; case_bool_decide as Hv; (discriminate || (destruct Hv; vm_compute; reflexivity)).
Qed.

Lemma demo_tunnel_id : n_Identity (t_node demo_tunnel) = demo_identity.
Proof.
  generalize demo_tunnel_new. generalize demo_tunnel.
  intros t. unfold NewTunnel, demo_opts, Tunnel_WithPassword, Tunnel_WithChannelID, pass_on.
  cbn [foldl tc_err nodeOpts set_field app]. unfold NewNode. case_bool_decide as Hv; [done|]. cbn. by intros [= <-].
Qed.

Lemma demo_tunnel_fresh : phase_of demo_tunnel = Fresh.
Proof.
  generalize demo_tunnel_new. generalize demo_tunnel. intros t. unfold NewTunnel.
  destruct (tc_err _); [discriminate|]. destruct (NewNode _ _ _); [|discriminate..]. intros [= <-]. reflexivity.
Qed.

Opaque demo_tunnel.

(** The tunnel starts. *)
Lemma tunnel_lifecycle_witness :
  ∃ r t', run_call (W := quiet_world) (CallStart true true true) (Tunnel_OnReceive true demo_tunnel) = Some (r, t')
  ∧ lifecycle Fresh (CallStart true true true) r (phase_of t').
Proof.
  destruct (tunnel_lifecycle (W := quiet_world) demo_opts (Some demo_identity) 0 demo_tunnel (Tunnel_OnReceive true demo_tunnel)
              (CallStart true true true) demo_tunnel_new) as (r & t' & Hrun & Hl & _).
  - rewrite demo_tunnel_id. vm_compute. reflexivity.
  - eapply rtc_once. exists (CallOnReceive true), None. split; reflexivity.
  - exact I.
  - exists r, t'. split; [exact Hrun|]. rewrite <- demo_tunnel_fresh. exact Hl.
Defined.

(** The demo tunnel's exported identity is accepted by another configuration. *)
Definition again_opts : list TunnelOption := demo_opts ++ [Tunnel_WithIdentityJSON (Tunnel_GetIdentityJSON demo_tunnel)].

Lemma again_new : ∃ t, NewTunnel (W := quiet_world) again_opts None 0 = Ok t.
Proof.
  unfold NewTunnel, again_opts, demo_opts, Tunnel_WithPassword, Tunnel_WithChannelID, pass_on, Tunnel_WithIdentityJSON,
    Tunnel_GetIdentityJSON.
  rewrite demo_tunnel_id. cbn [foldl tc_err nodeOpts set_field app].
  destruct (IdentityFromJSON (ToJSON demo_identity)) as [id| |] eqn:E; [|vm_compute in E; discriminate..].
  cbn [foldl tc_err nodeOpts set_field app]. unfold NewNode, pass_on. cbn [foldl tc_err nodeOpts set_field app].
  case_bool_decide as Hv; [|eexists; reflexivity]. destruct Hv. vm_compute. reflexivity.
Qed.

Lemma tunnel_identity_roundtrip_witness :
  ∃ t, NewTunnel (W := quiet_world) again_opts None 0 = Ok t
  ∧ Tunnel_LocalID t = Tunnel_LocalID demo_tunnel.
Proof.
  destruct again_new as [t Ht]. exists t. split; [exact Ht|].
  refine (proj1 (proj2 (tunnel_identity_roundtrip (W := quiet_world) demo_tunnel demo_opts None 0 t _ Ht))).
  rewrite demo_tunnel_id. split; reflexivity.
Defined.
End TunnelWitness.
