(* ===== verification/Cli.v ===== *)
(** * The chat program ([cmd/basic/main.go])

    The interactive program: lines of text are commands or messages to every joined
    channel.  What it prints is a list of messages, without the wording; the wall of
    text of the help is one of them.  The parsing of the flags is the standard
    library's: the model starts from their values. *)

From S2P Require Import Prelude Protocol Stream Logger Sha256 Json Identity Session Peer RelayAuth RelayManager Metrics Reconnect.
From S2P Require Import Float64 Config Probe NodeState NodeChannel NodeHeartbeat NodeRecv NodeHandshake NodeDiscovery.
From S2P Require Import NodeDispatch NodeConnect NodeLife NodeTransfer NodeLink NodeSafety NodeReach Tunnel.

(** ** Strings *)

(** [strings.Fields]: [cur] is the word being read, reversed; every turn takes a byte or a
    space, so the length bounds the turns. *)
Fixpoint fields_from (fuel : nat) (cur : bytes) (s : gostring) : list gostring :=
  let word := if bool_decide (cur = []) then [] else [reverse cur] in
  match fuel with
  | O => word
  | S fuel =>
      match s with
      | [] => word
      | b :: s' =>
          match strip_one space_runes s with
          | Some s'' => word ++ fields_from fuel [] s''
          | None => fields_from fuel (b :: cur) s'
          end
      end
  end.

Definition Fields (s : gostring) : list gostring := fields_from (S (length s)) [] s.

Definition HasPrefix (s prefix : gostring) : bool := bool_decide (take (length prefix) s = prefix).

Fixpoint Join (l : list gostring) (sep : gostring) : gostring :=
  match l with
  | [] => []
  | [s] => s
  | s :: l' => s ++ sep ++ Join l' sep
  end.

(** [strings.Split], for a separator of one byte: [cur] is the part being read, reversed. *)
Fixpoint split_from (sep : byte) (cur : bytes) (s : gostring) : list gostring :=
  match s with
  | [] => [reverse cur]
  | b :: s' => if bool_decide (b = sep) then reverse cur :: split_from sep [] s' else split_from sep (b :: cur) s'
  end.

Definition Split (s : gostring) (sep : byte) : list gostring := split_from sep [] s.

Example split_commas : Split (str "a:1, b:2,,") x2c = [str "a:1"; str " b:2"; []; []].
Proof. vm_compute. reflexivity. Qed.

Example fields_words : Fields (str " /send  ab" ++ [xe3; x80; x80] ++ str "hi there") = [str "/send"; str "ab"; str "hi"; str "there"].
Proof. vm_compute. reflexivity. Qed.

(** ** What is printed *)

Inductive cli_out :=
| Help
| PeerTotal (n : Z)
| PeerLine (short : gostring) (transport : string) (addr : option Addr) (latency : Duration)
| PeerUnknown (short : gostring)
| Usage (cmd : gostring)
| Connecting (addr : gostring)
| Info (id : gostring) (addr : option gostring) (peers : Z)
| Stats (s : Snapshot) (average : option Z)
| ChannelList (names : list gostring)
| Joined (name : gostring)
| Left (name : gostring)
| NoSuchPeer (prefix : gostring)
| Ambiguous (prefix : gostring)
| JoinFirst
| SendFailed (err : string)
| SentTo (short msg : gostring)
| Goodbye
| UnknownCommand (cmd : gostring)
| NotInAChannel
| NobodyListens
| SentToPeers (n : Z)
| PeerConnected (short : gostring)
| Received (short : gostring) (data : bytes)
| Welcome (short : gostring) (addr : option gostring) (channels : list gostring)
| ShuttingDown
| Fatal (what : string).

Section cli.
Context {NL : Noise} {W : World}.

(** [pid[:8]]. *)
Definition short_id (pid : gostring) : M gostring := lift (go_slice pid 0 8).

Definition list_peer (pid : gostring) : M cli_out :=
  r ← get_peer pid;
  match r with
  | Some r =>
      p ← peer_of r;
      let '(transport, addr, _) := GetTransportInfo p in
      let stats := GetStats p in
      latency ← (if ps_ConnectLatency stats =? 0
                 then now ← time_Now; mret (time_Sub now (ps_ConnectedAt stats))
                 else mret (ps_ConnectLatency stats));
      s ← short_id pid;
      mret (PeerLine s transport addr latency)
  | None => s ← short_id pid; mret (PeerUnknown s)
  end.

Fixpoint list_peers (pids : list gostring) : M (list cli_out) :=
  match pids with
  | [] => mret []
  | pid :: pids' => o ← list_peer pid; os ← list_peers pids'; mret (o :: os)
  end.

(** The loop over the peers: the last match and the number of matches. *)
Definition find_target (prefix : gostring) (peers : list gostring) : gostring * Z :=
  foldl (λ acc pid, if HasPrefix pid prefix then (pid, acc.2 + 1) else acc) ([], 0) peers.

Definition send_command (targetPrefix : gostring) (words : list gostring) : M (list cli_out) :=
  let msgContent := Join words (str " ") in
  n ← get;
  let '(targetID, matchCount) := find_target targetPrefix (PeerStore_IDs (Peers n)) in
  if matchCount =? 0 then mret [NoSuchPeer targetPrefix]
  else if 1 <? matchCount then mret [Ambiguous targetPrefix]
  else
    let channelName := match Channels (n_Config n) with ch :: _ => ch | [] => [] end in
    if bool_decide (channelName = []) then mret [JoinFirst] else
    err ← Send channelName targetID msgContent;
    match err with
    | Some e => mret [SendFailed e]
    | None => s ← short_id targetID; mret [SentTo s msgContent]
    end.

(** A command; [true] is [os.Exit]. *)
Definition handleCommand (cmdStr : gostring) : M (list cli_out * bool) :=
  let on (m : M (list cli_out)) : M (list cli_out * bool) := os ← m; mret (os, false) in
  match Fields cmdStr with
  | [] => panic
  | cmd :: args =>
      let named names := existsb (λ s, bool_decide (cmd = str s)) names in
      if named ["/help"%string] then on (mret [Help])
      else if named ["/list"%string; "/peers"%string] then
        on (n ← get; os ← list_peers (PeerStore_IDs (Peers n)); mret (PeerTotal (len (PeerStore_IDs (Peers n))) :: os))
      else if named ["/connect"%string] then
        on (match args with
            | [] => mret [Usage cmd]
            | addr :: _ => _ ← go (TaskUserConnect addr); mret [Connecting addr]
            end)
      else if named ["/info"%string; "/whoami"%string] then
        on (n ← get; mret [Info (Node_ID n) (LocalAddr n) (PeerStore_Count (Peers n))])
      else if named ["/metrics"%string; "/stats"%string] then
        on (s ← GetMetrics;
            mret [Stats s (if 0 <? packetsSent (Counters s) then Some (Z.quot (bytesSent (Counters s)) (packetsSent (Counters s))) else None)])
      else if named ["/channel"%string; "/channels"%string] then on (n ← get; mret [ChannelList (Channels (n_Config n))])
      else if named ["/join"%string] then
        on (match args with [] => mret [Usage cmd] | name :: _ => _ ← JoinChannel name; mret [Joined name] end)
      else if named ["/leave"%string] then
        on (match args with [] => mret [Usage cmd] | name :: _ => _ ← LeaveChannel name; mret [Left name] end)
      else if named ["/send"%string; "/msg"%string; "/to"%string] then
        on (match args with targetPrefix :: w :: words => send_command targetPrefix (w :: words) | _ => mret [Usage cmd] end)
      else if named ["/quit"%string; "/exit"%string] then mret ([Goodbye], true)
      else on (mret [UnknownCommand cmd])
  end.

Fixpoint broadcast_channels (channels : list gostring) (msg : bytes) (totalSent : Z) : M Z :=
  match channels with
  | [] => mret totalSent
  | ch :: channels' => sent ← Broadcast ch msg; broadcast_channels channels' msg (totalSent + sent)
  end.

Definition broadcastMessage (text : gostring) : M (list cli_out) :=
  n ← get;
  if bool_decide (Channels (n_Config n) = []) then mret [NotInAChannel] else
  totalSent ← broadcast_channels (Channels (n_Config n)) text 0;
  mret [if totalSent =? 0 then NobodyListens else SentToPeers totalSent].

(** ** The program *)

(** The logger of the program: what a call passes to [log.Printf], if anything. *)
Record cliLogger := MkCliLogger { cl_debug : bool }.

Definition cliLogger_Info (l : cliLogger) (format : gostring) (args : list arg) : option gostring :=
  if cl_debug l then Some (Sprintf (str "[INFO] " ++ format) args) else None.
Definition cliLogger_Debug (l : cliLogger) (format : gostring) (args : list arg) : option gostring :=
  if cl_debug l then Some (Sprintf (str "[DEBUG] " ++ format) args) else None.
Definition cliLogger_Error (l : cliLogger) (format : gostring) (args : list arg) : option gostring :=
  Some (Sprintf (str "[ERROR] " ++ format) args).
Definition cliLogger_Warn (l : cliLogger) (format : gostring) (args : list arg) : option gostring :=
  Some (Sprintf (str "[WARN] " ++ format) args).

(** The flags. *)
Record cli_flags := MkCliFlags {
  fl_port : Z;
  fl_channel : gostring;
  fl_connect : gostring;
  fl_secret : gostring;
  fl_debug : bool;
  fl_maxPeers : Z;
}.

Definition default_flags : cli_flags := MkCliFlags 0 (str "default") [] (str "tenet-demo-network") false 50.

(** The logger has no influence on the state. *)
Definition cli_options (f : cli_flags) (id : Identity) : list Option :=
  [WithListenPort (fl_port f); WithIdentity (Some id); WithNetworkPassword (fl_secret f); WithChannelID (fl_channel f);
   WithMaxPeers (fl_maxPeers f); WithEnableRelay false; WithEnableHolePunch false].

(** The callbacks: what they print, or a panic. *)
Definition print_connected (peerID : gostring) : res cli_out := s ← go_slice peerID 0 8; Ok (PeerConnected s).
Definition print_received (peerID : gostring) (data : bytes) : res cli_out := s ← go_slice peerID 0 8; Ok (Received s data).

Definition set_callbacks (n : Node) : Node := Node_OnReceive true (Node_OnPeerConnected true n).

(** A goroutine per address of the flag. *)
Fixpoint connect_each (addrs : list gostring) : M unit :=
  match addrs with
  | [] => mret ()
  | addr :: addrs' =>
      let addr := TrimSpace addr in
      _ ← (if bool_decide (addr = []) then mret () else go (TaskUserConnect addr));
      connect_each addrs'
  end.

Definition connect_initial (connect : gostring) : M unit :=
  if bool_decide (connect = []) then mret () else connect_each (Split connect x2c).

Definition printWelcome : M cli_out :=
  n ← get;
  s ← short_id (Node_ID n);
  mret (Welcome s (LocalAddr n) (Channels (n_Config n))).

(** [main] up to the loop: the node, or what is printed by [log.Fatalf]. *)
Definition cli_start (f : cli_flags) (id : Identity) (now : Time) (udp_ok tcp_ok kcp_ok : bool)
    : option (cli_out * option Node) :=
  match NewNode (cli_options f id) None now with
  | Panic => None
  | Err _ => Some (Fatal "create node failed", None)
  | Ok n =>
      match (err ← Start udp_ok tcp_ok kcp_ok;
             match err with
             | Some _ => mret (inl (Fatal "start failed"))
             | None => _ ← connect_initial (fl_connect f); w ← printWelcome; mret (inr w)
             end) (set_callbacks n) with
      | None => None
      | Some (inl o, _) => Some (o, None)
      | Some (inr w, n') => Some (w, Some n')
      end
  end.

(** The input has ended: [main] returns, and the deferred [Stop] runs. *)
Definition cli_end : M (list cli_out) := _ ← GracefulStop; mret [ShuttingDown].

(** A turn of the input loop. *)
Definition cli_line (line : gostring) : M (list cli_out * bool) :=
  let text := TrimSpace line in
  if bool_decide (text = []) then mret ([], false)
  else if HasPrefix text (str "/") then handleCommand text
  else os ← broadcastMessage text; mret (os, false).

End cli.

(** ** Choosing the receiver of a private message *)

Lemma find_target_spec prefix peers :
  find_target prefix peers =
    (default [] (last (filter (λ pid, HasPrefix pid prefix = true) peers)),
     len (filter (λ pid, HasPrefix pid prefix = true) peers)).
Proof.
  unfold find_target.
  assert (∀ acc, foldl (λ acc pid, if HasPrefix pid prefix then (pid, acc.2 + 1) else acc) acc peers =
    (default acc.1 (last (filter (λ pid, HasPrefix pid prefix = true) peers)),
     acc.2 + len (filter (λ pid, HasPrefix pid prefix = true) peers))) as H; [|by rewrite H].
  induction peers as [|pid peers IH]; intros [t k]; cbn [foldl]; [cbn; by rewrite Z.add_0_r|].
  rewrite IH, filter_cons. destruct (HasPrefix pid prefix) eqn:E; cbn [fst snd].
  - rewrite decide_True by done. rewrite len_cons, last_cons. f_equal; [by destruct (last _)|lia].
  - by rewrite decide_False by done.
Qed.

Section safe.
Context {NL : Noise} {W : World}.

(** A private message is sent only if exactly one known peer has the prefix, and then to that peer. *)
Lemma send_command_target prefix words n :
  send_command prefix words n =
  match filter (λ pid, HasPrefix pid prefix = true) (PeerStore_IDs (Peers n)), Channels (n_Config n) with
  | [], _ => Some ([NoSuchPeer prefix], n)
  | [id], ch :: _ =>
      if bool_decide (ch = []) then Some ([JoinFirst], n) else
      (err ← Send ch id (Join words (str " "));
       match err with
       | Some e => mret [SendFailed e]
       | None => s ← short_id id; mret [SentTo s (Join words (str " "))]
       end) n
  | [_], [] => Some ([JoinFirst], n)
  | _ :: _ :: _, _ => Some ([Ambiguous prefix], n)
  end.
Proof.
  unfold send_command. rewrite get_bind, find_target_spec.
  destruct (filter _ (PeerStore_IDs (Peers n))) as [|id [|id' ids]].
  - done.
  - change (len [id]) with 1. cbn -[bool_decide Send short_id Join mbind].
    destruct (Channels (n_Config n)) as [|ch chs]; case_bool_decide; done.
  - rewrite !len_cons. pose proof (len_nonneg ids).
    rewrite (proj2 (Z.eqb_neq _ _)) by lia. by rewrite (proj2 (Z.ltb_lt _ _)) by lia.
Qed.

(** ** No line panics *)

Lemma known_ids n pid : node_wf n → pid ∈ PeerStore_IDs (Peers n) → 8 ≤ len pid.
Proof.
  intros Hwf ([id r] & -> & Hin)%list_elem_of_fmap. apply elem_of_map_to_list in Hin.
  destruct (wf_store _ Hwf _ _ Hin) as (p & Hp & <-). by eapply wf_ids.
Qed.

Lemma safe_short_id Γ P id : 8 ≤ len id → safe Γ P (short_id id).
Proof. intros Hid. apply safe_lift. rewrite go_slice_ok by lia. by eexists. Qed.

Lemma safe_list_peers Γ P pids : (∀ pid, pid ∈ pids → 8 ≤ len pid) → safe Γ P (list_peers pids).
Proof.
  induction pids as [|pid pids IH]; intros Hids; cbn [list_peers]; [apply safe_ret|].
  apply safe_bind; [|intros o; apply safe_bind; [apply IH; intros; apply Hids; by right|intros; apply safe_ret]].
  unfold list_peer. safely; apply safe_short_id, Hids; by left.
Qed.

Lemma safe_broadcast_channels Γ chs msg k : safe Γ anything (broadcast_channels chs msg k).
Proof.
  revert k. induction chs as [|ch chs IH]; intros k; cbn [broadcast_channels]; safely; [by apply safe_Broadcast|apply IH].
Qed.

Lemma safe_GetMetrics Γ P : safe Γ P GetMetrics.
Proof. unfold GetMetrics. safely. Qed.

(** What a piece of the program guarantees: it runs, and the node keeps its invariant. *)
Definition runs {A} (m : M A) (n : Node) : Prop :=
  ∃ a n', m n = Some (a, n') ∧ node_wf n' ∧ n_Identity n' = n_Identity n.

Lemma runs_bind {A B} (m : M A) (f : A → M B) n :
  runs m n → (∀ a n', m n = Some (a, n') → node_wf n' → runs (f a) n') → runs (m ≫= f) n.
Proof.
  intros (a & n1 & Hm & Hwf & Hid) Hf. destruct (Hf a n1 Hm Hwf) as (b & n2 & Hb & Hwf2 & Hid2).
  exists b, n2. rewrite (bind_run _ _ _ _ _ Hm). split; [done|]. split; [done|congruence].
Qed.

Lemma runs_ret {A} (a : A) n : node_wf n → runs (mret a) n.
Proof. intros. by exists a, n. Qed.

Lemma runs_safe {A} (m : M A) n : node_wf n → (∀ Γ, safe Γ anything m) → runs m n.
Proof. apply safe_wf. Qed.

Lemma runs_input i n : node_wf n → enabled n i → runs (handle_input i) n.
Proof. intros Hwf Hen. destruct (handle_input_wf n i Hwf Hen) as (n' & ? & ?). by exists (), n'. Qed.

Lemma send_command_runs prefix words n : node_wf n → runs (send_command prefix words) n.
Proof.
  intros Hwf. pose proof (send_command_target prefix words n) as E. unfold runs. rewrite E.
  destruct (filter _ _) as [|id [|id' ids]] eqn:Ef; [by eexists _, n| |by eexists _, n].
  destruct (Channels (n_Config n)) as [|ch chs]; [by eexists _, n|]. case_bool_decide; [by eexists _, n|].
  apply runs_bind; [apply runs_safe; [done|]; intros; by apply safe_Send|].
  intros [e|] n1 _ Hwf1; [by apply runs_ret|]. apply runs_safe; [done|]. intros Γ.
  apply safe_bind; [apply safe_short_id|intros; apply safe_ret].
  assert (id ∈ filter (λ pid, HasPrefix pid prefix = true) (PeerStore_IDs (Peers n))) as Hin by (rewrite Ef; by left).
  apply list_elem_of_filter in Hin as [_ Hin]. exact (known_ids n id Hwf Hin).
Qed.

Lemma fields_from_nonempty fuel b cur s : fields_from fuel (b :: cur) s ≠ [].
Proof.
  revert b cur s. induction fuel as [|fuel IH]; intros b cur s; cbn [fields_from]; rewrite bool_decide_false by done; [done|].
  destruct s as [|b' s']; [done|]. destruct (strip_one space_runes (b' :: s')); [done|apply IH].
Qed.

(** A command has a first word. *)
Lemma command_word text : HasPrefix text (str "/") = true → Fields text ≠ [].
Proof.
  unfold HasPrefix. rewrite bool_decide_eq_true. destruct text as [|b text]; [done|]. intros [= ->].
  unfold Fields. change (length (x2f :: text)) with (S (length text)). generalize (S (length text)) at 1. intros fuel.
  cbn [fields_from]. assert (strip_one space_runes (x2f :: text) = None) as -> by (vm_compute; by destruct text as [|? [|? ?]]).
  apply fields_from_nonempty.
Qed.

Lemma handleCommand_runs text n : node_wf n → HasPrefix text (str "/") = true → runs (handleCommand text) n.
Proof.
  intros Hwf Ht. unfold handleCommand. destruct (Fields text) as [|cmd args] eqn:Ef; [by apply command_word in Ht|].
  assert (∀ m : M (list cli_out), runs m n → runs (os ← m; mret (os, false)) n) as Hon.
  { intros m Hm. apply runs_bind; [done|]. intros. by apply runs_ret. }
  repeat lazymatch goal with |- runs (if ?b then _ else _) _ => destruct b; [try apply Hon|] end.
  - by apply runs_ret.
  - apply runs_safe; [done|]. intros Γ. safely.
    apply safe_list_peers. intros pid Hpid. by eapply known_ids; [|exact Hpid].
  - destruct args as [|a args]; [by apply runs_ret|]. apply runs_safe; [done|]. intros Γ. safely.
  - apply runs_safe; [done|]. intros Γ. safely.
  - apply runs_safe; [done|]. intros Γ. safely. apply safe_GetMetrics.
  - apply runs_safe; [done|]. intros Γ. safely.
  - destruct args as [|a args]; [by apply runs_ret|]. apply runs_bind; [by apply (runs_input (InJoin a))|].
    intros. by apply runs_ret.
  - destruct args as [|a args]; [by apply runs_ret|]. apply runs_bind; [by apply (runs_input (InLeave a))|].
    intros. by apply runs_ret.
  - destruct args as [|a [|w words]]; [by apply runs_ret..|]. by apply send_command_runs.
  - by apply runs_ret.
  - apply Hon. by apply runs_ret.
Qed.

Lemma cli_line_runs line n : node_wf n → runs (cli_line line) n.
Proof.
  intros Hwf. unfold cli_line. cbv zeta. case_bool_decide; [by apply runs_ret|].
  destruct (HasPrefix (TrimSpace line) (str "/")) eqn:E; [by apply handleCommand_runs|].
  apply runs_bind; [|intros; by apply runs_ret]. apply runs_safe; [done|]. intros Γ. unfold broadcastMessage. safely.
  apply safe_broadcast_channels.
Qed.

(** A line is typed, or something happens to the node. *)
Definition cli_step (n n' : Node) : Prop := node_step n n' ∨ ∃ line outs exit, cli_line line n = Some ((outs, exit), n').

Lemma cli_step_wf n n' : node_wf n → rtc cli_step n n' → node_wf n'.
Proof.
  intros Hwf Hrun. induction Hrun as [|n1 n2 n3 Hstep _ IH]; [done|]. apply IH.
  destruct Hstep as [(i & Hen & Hi)|(line & outs & exit & Hline)].
  - destruct (handle_input_wf n1 i Hwf Hen) as (n' & Hn' & ? & _). congruence.
  - destruct (cli_line_runs line n1 Hwf) as (a & n' & Hn' & ? & _). congruence.
Qed.

(** The chat program never panics, whatever node it runs on. *)
Theorem cli_never_panics opts generated now n0 udp_ok tcp_ok kcp_ok :
  NewNode opts generated now = Ok n0 → len (id_ID (n_Identity n0)) = 16 →
  ∃ err n1, Start udp_ok tcp_ok kcp_ok n0 = Some (err, n1)
  ∧ ∀ n line, rtc cli_step n1 n → ∃ outs exit n', cli_line line n = Some ((outs, exit), n') ∧ node_wf n'.
Proof.
  intros Hnew Hid. destruct (Start_wf udp_ok tcp_ok kcp_ok n0) as (err & n1 & Hs & Hwf & _); [by eapply NewNode_wf|done|].
  exists err, n1. split; [done|]. intros n line Hrun.
  destruct (cli_line_runs line n) as ([outs exit] & n' & Hn' & ? & _); [by eapply cli_step_wf|]. by exists outs, exit, n'.
Qed.

(** ** From the flags to the end *)

Lemma safe_connect_each Γ addrs : safe Γ anything (connect_each addrs).
Proof. induction addrs as [|a addrs IH]; cbn [connect_each]; safely; apply IH. Qed.

Lemma safe_connect_initial Γ c : safe Γ anything (connect_initial c).
Proof. unfold connect_initial. safely. apply safe_connect_each. Qed.

Lemma printWelcome_run n :
  len (id_ID (n_Identity n)) = 16 →
  ∃ s, printWelcome n = Some (Welcome s (LocalAddr n) (Channels (n_Config n)), n).
Proof.
  intros Hid. assert (8 ≤ len (Node_ID n)) by (unfold Node_ID; rewrite len_hex; lia).
  unfold printWelcome, short_id. run. rewrite go_slice_ok by lia. run. by eexists.
Qed.

Lemma cli_node f id now n : NewNode (cli_options f id) None now = Ok n → node_wf (set_callbacks n) ∧ n_Identity n = id.
Proof.
  intros Hn. split; [eapply node_wf_frame; [by eapply NewNode_wf|done..]|].
  revert Hn. unfold NewNode, cli_options. cbn [foldl]. case_bool_decide; [done|]. cbn. by intros [= <-].
Qed.

(** The program starts without a panic; if the node starts, its invariant holds when the loop begins. *)
Lemma cli_start_ok f id now udp_ok tcp_ok kcp_ok :
  len (id_ID id) = 16 →
  ∃ o r, cli_start f id now udp_ok tcp_ok kcp_ok = Some (o, r) ∧ ∀ n, r = Some n → node_wf n.
Proof.
  intros Hid. unfold cli_start. destruct (NewNode (cli_options f id) None now) as [n| |] eqn:E; [|by eexists _, _|].
  2: { exfalso. revert E. unfold NewNode. repeat case_match; done. }
  destruct (cli_node f id now n E) as [Hwf Hown].
  destruct (Start_wf udp_ok tcp_ok kcp_ok (set_callbacks n)) as (err & n1 & Hs & Hwf1 & Hid1); [done|by cbn; rewrite Hown|].
  rewrite (bind_run _ _ _ _ _ Hs). destruct err as [e|]; [by eexists _, _|].
  destruct (safe_wf (connect_initial (fl_connect f)) n1 Hwf1) as ([] & n2 & Hc & Hwf2 & Hid2).
  { intros Γ. apply safe_connect_initial. }
  destruct (printWelcome_run n2) as [s Hw]; [by rewrite Hid2, Hid1; cbn; rewrite Hown|].
  rewrite (bind_run _ _ _ _ _ Hc), (bind_run _ _ _ _ _ Hw). eexists _, _. split; [reflexivity|]. by intros ? [= <-].
Qed.

Lemma short_printable {A} (f : gostring → A) peer : 8 ≤ len peer → ∃ o, (s ← go_slice peer 0 8; Ok (f s)) = Ok o.
Proof. intros H. rewrite go_slice_ok by lia. by eexists. Qed.

(** C37: the chat program runs from its flags to its end without a panic.  Whatever the flags are, it ends with a message or
    reaches the input loop; there, whatever was typed and whatever packets, timers and goroutines ran in between, every line
    is handled, the end of the input stops the node, and the callbacks of the program, which cut the first eight bytes
    of the peer's identifier, print for every peer that connects and every message a packet delivers. *)
Theorem cli_program f id now udp_ok tcp_ok kcp_ok :
  len (id_ID id) = 16 →
  ∃ o r, cli_start f id now udp_ok tcp_ok kcp_ok = Some (o, r)
  ∧ ∀ n1 n, r = Some n1 → rtc cli_step n1 n →
    (∀ line, ∃ outs exit n', cli_line line n = Some ((outs, exit), n'))
    ∧ (∃ n', cli_end n = Some ([ShuttingDown], n') ∧ n_closing n' = true)
    ∧ (∀ peer delay, Go (TaskConnected peer delay) ∈ n_log n → ∃ out, print_connected peer = Ok out)
    ∧ ∀ conn addr transport ty payload, ∃ n' l, handlePacket conn addr transport ty payload n = Some ((), n')
        ∧ n_log n' = n_log n ++ l ∧ ∀ peer d, OnReceive peer d ∈ l → ∃ out, print_received peer d = Ok out.
Proof.
  intros Hid. destruct (cli_start_ok f id now udp_ok tcp_ok kcp_ok Hid) as (o & r & Hstart & Hwf1).
  exists o, r. split; [done|]. intros n1 n Hr Hsteps. pose proof (cli_step_wf n1 n (Hwf1 n1 Hr) Hsteps) as Hwf. split_and!.
  - intros line. destruct (cli_line_runs line n Hwf) as ([outs exit] & n' & Hn' & _). by exists outs, exit, n'.
  - destruct (safe_wf GracefulStop n Hwf) as ([] & n' & Hrun & _); [intros; by apply safe_GracefulStop|].
    exists n'. unfold cli_end. rewrite (bind_run _ _ _ _ _ Hrun). split; [done|]. by eapply GracefulStop_closes.
  - intros peer delay Hin. apply (short_printable PeerConnected). exact (wf_tasks _ Hwf _ Hin).
  - intros conn addr transport ty payload.
    destruct (handlePacket_carries n conn addr transport ty payload Hwf) as (n' & l & Hrun & Hl & Hall).
    exists n', l. split_and!; try done. intros peer d Hin. apply (short_printable (λ s, Received s d)).
    destruct (Hall _ _ Hin) as (_ & r' & p & sr & s & s' & t & frame & hash & _ & _ & Hp & <- & _). by eapply wf_ids.
Qed.

(** [/quit] is [os.Exit]: the deferred [Stop] does not run, so the peers get no goodbye and the node is not closed. *)
Theorem quit_skips_stop n : cli_line (str "/quit") n = Some (([Goodbye], true), n).
Proof. reflexivity. Qed.
End safe.

(** ** A private message with an ambiguous prefix, and a chat session *)

Module CliWitness.
Import ToyNoise ToyKeys TransferWitness ReachWitness.

Example ambiguous_prefix : find_target (str "ab") [str "abc1"; str "ff00"; str "abd2"] = (str "abd2", 2).
Proof. vm_compute. reflexivity. Qed.

Lemma cli_never_panics_witness :
  ∃ err n1, Start true true true own_node = Some (err, n1)
  ∧ ∀ n line, rtc cli_step n1 n → ∃ outs exit n', cli_line line n = Some ((outs, exit), n') ∧ node_wf n'.
Proof.
  apply (cli_never_panics own_opts None 0 own_node true true true own_node_new).
  rewrite own_node_id. vm_compute. reflexivity.
Defined.

(** With the flags' defaults the node starts. *)
Example default_flags_start :
  match cli_start default_flags demo_identity 0 true true true with Some (Welcome s _ _, Some _) => len s = 8 | _ => False end.
Proof. vm_compute. reflexivity. Qed.

Lemma cli_program_witness :
  ∃ o r, cli_start default_flags demo_identity 0 true true true = Some (o, r)
  ∧ ∀ n1 n, r = Some n1 → rtc cli_step n1 n →
    (∀ line, ∃ outs exit n', cli_line line n = Some ((outs, exit), n'))
    ∧ (∃ n', cli_end n = Some ([ShuttingDown], n') ∧ n_closing n' = true)
    ∧ (∀ peer delay, Go (TaskConnected peer delay) ∈ n_log n → ∃ out, print_connected peer = Ok out)
    ∧ ∀ conn addr transport ty payload, ∃ n' l, handlePacket conn addr transport ty payload n = Some ((), n')
        ∧ n_log n' = n_log n ++ l ∧ ∀ peer d, OnReceive peer d ∈ l → ∃ out, print_received peer d = Ok out.
Proof. apply (cli_program default_flags demo_identity 0 true true true). vm_compute. reflexivity. Defined.
End CliWitness.
