(* ===== verification/Stress.v ===== *)
(** * The stress program ([cmd/stress/main.go])

    A node is started and dialled [total] times by a pool of workers that take
    jobs from a channel.  The goroutines of the program are the threads of a
    transition system; what a dial and a write return is part of an event.  The
    report is shown to add up, and every schedule to end with it. *)

From S2P Require Import Prelude Session Identity Config NodeState NodeLife NodeTransfer.

(** ** The node under test *)

Section boot.
Context {NL : Noise} {W : World}.

Definition stress_options : list Option :=
  [WithNetworkPassword (str "stress-local"); WithListenPort 0; WithEnableRelay false; WithEnableHolePunch false;
   WithEnableReconnect false].

(** An error is a panic of the program. *)
Definition stress_boot (generated : option Identity) (now : Time) (udp_ok tcp_ok kcp_ok : bool) : res Node :=
  match NewNode stress_options generated now with
  | Ok n =>
      match Start udp_ok tcp_ok kcp_ok n with
      | Some (None, n') => Ok n'
      | Some (Some _, _) | None => Panic
      end
  | Err _ | Panic => Panic
  end.
End boot.

(** ** Threads *)

(** A worker: at the head of its loop, dialling, holding a connection, returned. *)
Inductive worker_pc := AtRange | Dialling | Holding | Returned.
#[global] Instance worker_pc_eq_dec : EqDecision worker_pc.
Proof. solve_decision. Defined.

(** The main goroutine: sending jobs, in [wg.Wait], after the report. *)
Inductive main_pc := Sending (i : Z) | Waiting | Reported.
#[global] Instance main_pc_eq_dec : EqDecision main_pc.
Proof. solve_decision. Defined.

(** [st_jobs] is the number of values in the channel. *)
Record stress := MkStress {
  st_total : Z;
  st_jobs : Z;
  st_closed : bool;
  st_main : main_pc;
  st_workers : list worker_pc;
  st_success : Z;
  st_dialFailed : Z;
  st_closedFast : Z;
}.
#[global] Instance stress_eta : RecordEta stress := λ s,
  MkStress (st_total s) (st_jobs s) (st_closed s) (st_main s) (st_workers s) (st_success s) (st_dialFailed s) (st_closedFast s).

Definition worker_count (total concurrency : Z) : Z :=
  let workerN := concurrency in
  let workerN := if workerN <? 1 then 1 else workerN in
  if total <? workerN then total else workerN.

(** [make(chan struct{}, total)] panics on a negative size. *)
Definition stress_start (total concurrency : Z) : res stress :=
  if total <? 0 then Panic else
  Ok (MkStress total 0 false (Sending 0) (replicate (Z.to_nat (worker_count total concurrency)) AtRange) 0 0 0).

(** What a thread does next; the results of [Dial] and of [Write] are given. *)
Inductive stress_event := MainStep | WorkerStep (i : nat) (dial_ok write_ok : bool).

(** A send on the channel blocks while it is full; [wg.Wait] while a worker runs. *)
Definition main_step (s : stress) : option stress :=
  match st_main s with
  | Sending i =>
      if i <? st_total s then
        if st_jobs s <? st_total s then Some (s <| st_jobs ::= Z.succ |> <| st_main := Sending (i + 1) |>) else None
      else Some (s <| st_closed := true |> <| st_main := Waiting |>)
  | Waiting => if forallb (λ w, bool_decide (w = Returned)) (st_workers s) then Some (s <| st_main := Reported |>) else None
  | Reported => None
  end.

Definition move (i : nat) (w : worker_pc) (s : stress) : stress := s <| st_workers ::= <[i := w]> |>.

(** [range jobs] takes a value, ends when the channel is closed and empty, and blocks otherwise. *)
Definition worker_step (s : stress) (i : nat) (w : worker_pc) (dial_ok write_ok : bool) : option stress :=
  match w with
  | AtRange =>
      if 0 <? st_jobs s then Some (move i Dialling (s <| st_jobs ::= Z.pred |>))
      else if st_closed s then Some (move i Returned s) else None
  | Dialling =>
      if negb dial_ok then Some (move i AtRange (s <| st_dialFailed ::= λ k, to_int64 (k + 1) |>)) else
      let s := s <| st_success ::= λ k, to_int64 (k + 1) |> in
      if negb write_ok then Some (move i AtRange (s <| st_closedFast ::= λ k, to_int64 (k + 1) |>))
      else Some (move i Holding s)
  | Holding => Some (move i AtRange s)
  | Returned => None
  end.

Definition stress_step (s : stress) (ev : stress_event) : option stress :=
  match ev with
  | MainStep => main_step s
  | WorkerStep i dial_ok write_ok => w ← st_workers s !! i; worker_step s i w dial_ok write_ok
  end.

Fixpoint stress_run (s : stress) (evs : list stress_event) : option stress :=
  match evs with
  | [] => Some s
  | ev :: evs' => s' ← stress_step s ev; stress_run s' evs'
  end.

(** ** The books *)

(** The sum of [f] over the workers. *)
Definition wsum (f : worker_pc → Z) (ws : list worker_pc) : Z := foldr (λ w acc, f w + acc) 0 ws.

#[global] Arguments wsum : simpl never.

Lemma wsum_cons f w ws : wsum f (w :: ws) = f w + wsum f ws.
Proof. done. Qed.

Lemma wsum_insert f ws i w w' : ws !! i = Some w → wsum f (<[i := w']> ws) = wsum f ws - f w + f w'.
Proof.
  revert i. induction ws as [|x ws IH]; intros [|i] H; [done|done| |].
  - injection H as ->. change (<[0%nat := w']> (w :: ws)) with (w' :: ws). rewrite !wsum_cons. lia.
  - change (<[S i := w']> (x :: ws)) with (x :: <[i := w']> ws). rewrite !wsum_cons, (IH i H). lia.
Qed.

Lemma wsum_nonneg f ws : (∀ w, 0 ≤ f w) → 0 ≤ wsum f ws.
Proof. intros Hf. induction ws as [|w ws IH]; [done|]. rewrite wsum_cons. specialize (Hf w). lia. Qed.

Lemma wsum_zero f ws : (∀ w, 0 ≤ f w) → wsum f ws = 0 → Forall (λ w, f w = 0) ws.
Proof.
  intros Hf. induction ws as [|w ws IH]; [constructor|]. rewrite wsum_cons. intros H.
  pose proof (Hf w). pose proof (wsum_nonneg f ws Hf). constructor; [lia|]. apply IH. lia.
Qed.

Definition dialling (w : worker_pc) : Z := match w with Dialling => 1 | _ => 0 end.

(** How many jobs were sent. *)
Definition sent (s : stress) : Z := match st_main s with Sending i => i | _ => st_total s end.

(** Every job sent is queued, being dialled, or counted. *)
Record books (s : stress) : Prop := {
  bk_total : 0 ≤ st_total s ≤ max_int64;
  bk_sent : 0 ≤ sent s ≤ st_total s;
  bk_jobs : 0 ≤ st_jobs s;
  bk_sum : st_success s + st_dialFailed s + wsum dialling (st_workers s) + st_jobs s = sent s;
  bk_counts : 0 ≤ st_closedFast s ≤ st_success s ∧ 0 ≤ st_dialFailed s;
  bk_closed : st_closed s = match st_main s with Sending _ => false | _ => true end;
  bk_report : st_main s = Reported → Forall (λ w, w = Returned) (st_workers s);
  bk_returned : Returned ∈ st_workers s → st_jobs s = 0 ∧ st_closed s = true;
  bk_workers : st_total s = 0 ∨ st_workers s ≠ [];
}.

Lemma start_books total concurrency s :
  total ≤ max_int64 → stress_start total concurrency = Ok s → books s.
Proof.
  intros Hm. unfold stress_start. destruct (total <? 0) eqn:E; [done|]. apply Z.ltb_ge in E. intros [= <-].
  assert (∀ k, wsum dialling (replicate k AtRange) = 0) as H0 by (induction k; [done|]; cbn [replicate]; by rewrite wsum_cons).
  split; cbn [st_total st_jobs st_closed st_main st_workers st_success st_dialFailed st_closedFast sent]; try done; try lia.
  - rewrite H0. lia.
  - intros Hin%elem_of_replicate. by destruct Hin.
  - destruct (decide (total = 0)); [by left|right]. unfold worker_count.
    destruct (Z.to_nat _) eqn:Ez; [|done]. exfalso. revert Ez. repeat case_match; lia.
Qed.

Lemma main_step_books s s' : books s → main_step s = Some s' → books s'.
Proof.
  intros [Ht Hs Hj Hsum Hc Hcl Hr Hret Hw]. unfold main_step. destruct s as [total jobs closed m ws su df cf].
  unfold sent in *. cbn [st_total st_jobs st_closed st_main st_workers st_success st_dialFailed st_closedFast] in *.
  destruct m as [i| |].
  - destruct (i <? total) eqn:Ei; [destruct (jobs <? total) eqn:Ejb; [|done]|]; intros [= <-]; unfold set_field; cbn;
      (split; unfold sent; cbn; try done; try lia).
    all: intros Hin; destruct (Hret Hin) as [_ Hx]; congruence.
  - destruct (forallb _ _) eqn:Ef; [|done]. intros [= <-]. unfold set_field; cbn. split; unfold sent; cbn; try done; try lia.
    intros _. apply Forall_forall. intros w Hin. rewrite forallb_forall in Ef.
    apply list_elem_of_In in Hin. apply Ef in Hin. by apply bool_decide_eq_true in Hin.
  - done.
Qed.

(** A worker that runs moves, and the counters move with it. *)
Lemma move_books s i w w' j su df cf :
  books s → st_workers s !! i = Some w → w ≠ Returned → 0 ≤ j ≤ st_jobs s →
  su + df + dialling w' + j = st_success s + st_dialFailed s + dialling w + st_jobs s →
  0 ≤ cf ≤ su ∧ 0 ≤ df → (w' = Returned → j = 0 ∧ st_closed s = true) →
  books (MkStress (st_total s) j (st_closed s) (st_main s) (<[i := w']> (st_workers s)) su df cf).
Proof.
  intros [Ht Hs Hj Hsum Hc Hcl Hr Hret Hw] Hi Hrun Hj' Hsum' Hc' Hret'.
  split; unfold sent in *; cbn [st_total st_jobs st_closed st_main st_workers st_success st_dialFailed st_closedFast]; try done.
  - lia.
  - rewrite (wsum_insert _ _ _ _ _ Hi). lia.
  - intros Hm. destruct Hrun. apply (Forall_lookup_1 _ _ _ _ (Hr Hm) Hi).
  - intros [k Hk]%list_elem_of_lookup. apply list_lookup_insert_Some in Hk as [(_ & -> & _)|[_ Hk]]; [by apply Hret'|].
    destruct Hret as [E ?]; [by eapply list_elem_of_lookup_2|]. split; [lia|done].
  - destruct Hw as [|Hw]; [by left|right]. intros E%(f_equal length). rewrite length_insert in E. by destruct (st_workers s).
Qed.

Lemma worker_step_books s i w dial_ok write_ok s' :
  books s → st_workers s !! i = Some w → worker_step s i w dial_ok write_ok = Some s' → books s'.
Proof.
  intros Hb Hi. pose proof Hb as [Ht Hs Hj Hsum Hc _ _ _ _].
  pose proof (wsum_nonneg dialling (<[i:=Returned]> (st_workers s)) ltac:(by intros [])) as Hnn.
  rewrite (wsum_insert _ _ _ _ _ Hi) in Hnn. change (dialling Returned) with 0 in Hnn.
  assert (∀ k, 0 ≤ k ≤ sent s → to_int64 k = k) as Hid.
  { intros k ?. apply to_int64_id. unfold is_int64, min_int64. unfold max_int64 in *. lia. }
  destruct w; cbn [worker_step]; [destruct (0 <? st_jobs s) eqn:Ej; [|destruct (st_closed s) eqn:Ecl; [|done]]
    |destruct dial_ok; [destruct write_ok|]|..]; try done; intros [= <-]; cbn [dialling] in Hnn;
    refine (move_books s i _ _ _ _ _ _ Hb Hi _ _ _ _ _); cbn -[to_int64]; rewrite ?Hid by lia; try done; try lia.
  intros _. split; [lia|done].
Qed.

Lemma stress_step_books s ev s' : books s → stress_step s ev = Some s' → books s'.
Proof.
  intros Hb. destruct ev as [|i d w]; cbn [stress_step]; [by apply main_step_books|].
  destruct (st_workers s !! i) eqn:Hi; [|done]. by apply worker_step_books.
Qed.

(** ** Progress *)

(** Steps left. *)
Definition steps_of (w : worker_pc) : Z := match w with AtRange => 1 | Dialling => 3 | Holding => 2 | Returned => 0 end.

Definition steps_left (s : stress) : Z :=
  4 * (st_total s - sent s) + 3 * st_jobs s + wsum steps_of (st_workers s)
  + match st_main s with Sending _ => 2 | Waiting => 1 | Reported => 0 end.

Lemma steps_left_nonneg s : books s → 0 ≤ steps_left s.
Proof.
  intros [Ht Hs Hj _ _ _ _ _ _]. pose proof (wsum_nonneg steps_of (st_workers s) ltac:(by intros [])).
  unfold steps_left. destruct (st_main s); lia.
Qed.

Lemma stress_step_measure s ev s' : books s → stress_step s ev = Some s' → steps_left s' < steps_left s.
Proof.
  intros [Ht Hs Hj _ _ _ _ _ _]. destruct ev as [|i d w]; cbn [stress_step].
  - unfold main_step, steps_left, sent in *. destruct s as [total jobs closed m ws su df cf]. cbn in *.
    destruct m as [i| |]; [destruct (i <? total) eqn:Ei; [destruct (jobs <? total); [|done]|]|destruct (forallb _ _); [|done]|done];
      intros [= <-]; cbn; lia.
  - destruct (st_workers s !! i) as [pc|] eqn:Hi; [|done]. cbn. pose proof (wsum_insert steps_of _ _ _ Dialling Hi) as H1.
    pose proof (wsum_insert steps_of _ _ _ AtRange Hi) as H2. pose proof (wsum_insert steps_of _ _ _ Holding Hi) as H3.
    pose proof (wsum_insert steps_of _ _ _ Returned Hi) as H4. cbn [steps_of] in *.
    unfold worker_step, steps_left, sent, move.
    destruct pc; [destruct (0 <? st_jobs s) eqn:Ej; [|destruct (st_closed s); [|done]]|destruct d; [destruct w|]|..]; try done;
      intros [= <-]; cbn; cbn [steps_of] in *; lia.
Qed.

(** Some goroutine can go on until the report is made: a worker that has not returned, or else the main one. *)
Lemma stress_not_stuck s : books s → st_main s ≠ Reported → ∃ ev, is_Some (stress_step s ev).
Proof.
  intros [Ht Hs Hj Hsum Hc Hcl Hr Hret Hw] Hm.
  destruct (forallb (λ w, bool_decide (w = Returned)) (st_workers s)) eqn:Ef.
  { exists MainStep. cbn. unfold main_step, sent in *. rewrite Ef.
    pose proof (wsum_nonneg dialling (st_workers s) ltac:(by intros [])) as Hnn.
    destruct (st_main s) as [k| |]; [|done|done]. destruct (k <? st_total s) eqn:Ek; [|done].
    rewrite (proj2 (Z.ltb_lt _ _)); [done|lia]. }
  assert (∃ i w, st_workers s !! i = Some w ∧ w ≠ Returned) as (i & w & Hi & Hne).
  { clear -Ef. induction (st_workers s) as [|x ws IH]; [done|]. cbn in Ef. apply andb_false_iff in Ef as [Ef|Ef].
    - exists 0%nat, x. by apply bool_decide_eq_false in Ef.
    - destruct (IH Ef) as (i & w & ? & ?). by exists (S i), w. }
  destruct (decide (w = AtRange ∧ st_jobs s = 0 ∧ st_closed s = false)) as [(-> & Hj0 & Hc0)|Hfree].
  - exists MainStep. cbn. unfold main_step, sent in *. rewrite Hcl in Hc0. destruct (st_main s) as [k| |]; [|done..].
    destruct (k <? st_total s) eqn:Ek; [|done]. rewrite Hj0, (proj2 (Z.ltb_lt _ _)) by lia. done.
  - exists (WorkerStep i true true). cbn. rewrite Hi. cbn. destruct w; cbn; try done.
    destruct (0 <? st_jobs s) eqn:Ej; [done|]. apply Z.ltb_ge in Ej. destruct (st_closed s); [done|].
    destruct Hfree. split_and!; [done|lia|done].
Qed.

Lemma stress_run_books evs : ∀ s s', books s → stress_run s evs = Some s' →
  books s' ∧ steps_left s' + len evs ≤ steps_left s ∧ st_total s' = st_total s.
Proof.
  induction evs as [|ev evs IH]; intros s s' Hb; cbn [stress_run]; [intros [= <-]; split; [done|split; [unfold len; cbn; lia|done]]|].
  destruct (stress_step s ev) as [s1|] eqn:E; [|done]. cbn. intros Hrun.
  pose proof (stress_step_books _ _ _ Hb E) as Hb1. pose proof (stress_step_measure _ _ _ Hb E).
  destruct (IH s1 s' Hb1 Hrun) as (? & ? & Ht). rewrite len_cons. split; [done|]. split; [lia|]. rewrite Ht.
  clear -E. destruct ev as [|i d w]; cbn in E.
  - revert E. unfold main_step. repeat case_match; try done; by intros [= <-].
  - destruct (st_workers s !! i); [|done]. revert E. cbn. unfold worker_step, move. repeat case_match; try done; by intros [= <-].
Qed.

Lemma reported_adds_up s : books s → st_main s = Reported → st_success s + st_dialFailed s = st_total s.
Proof.
  intros [Ht Hs Hj Hsum Hc Hcl Hr Hret Hw] Hm. unfold sent in *. rewrite Hm in *. specialize (Hr eq_refl).
  pose proof (wsum_nonneg dialling (st_workers s) ltac:(by intros [])) as Hnn.
  destruct Hw as [Hw|Hw]; [lia|]. destruct (st_workers s) as [|x ws] eqn:E; [done|].
  assert (∀ l, Forall (λ w, w = Returned) l → wsum dialling l = 0) as Hz.
  { induction 1 as [|? ? -> _ IH]; [done|]. by rewrite wsum_cons, IH. }
  rewrite (Hz _ Hr) in Hsum. inversion_clear Hr as [|? ? Hx _]. destruct Hret as [Hj0 _]; [rewrite Hx; by left|]. lia.
Qed.

Lemma wsum_const f w k : wsum f (replicate k w) = Z.of_nat k * f w.
Proof. induction k as [|k IH]; [done|]. cbn [replicate]. rewrite wsum_cons, IH. lia. Qed.

(** C38: the stress program ends and its report adds up.  For any number of dials and any concurrency (not a negative total,
    which panics), under every schedule of the main goroutine and the workers and whatever the dials and writes return: a run
    has at most [4 * total + workers + 2] steps, none of its states is a deadlock before the report, and in the report
    every dial is counted once, as success or failure, with no more fast closes than successes. *)
Theorem stress_completes total concurrency s evs s' :
  0 ≤ total ≤ max_int64 → stress_start total concurrency = Ok s → stress_run s evs = Some s' →
  len evs ≤ 4 * total + worker_count total concurrency + 2
  ∧ (st_main s' ≠ Reported → ∃ ev, is_Some (stress_step s' ev))
  ∧ (st_main s' = Reported → st_success s' + st_dialFailed s' = total ∧ 0 ≤ st_closedFast s' ≤ st_success s').
Proof.
  intros Ht Hstart Hrun. pose proof (start_books total concurrency s ltac:(lia) Hstart) as Hb.
  destruct (stress_run_books _ _ _ Hb Hrun) as (Hb' & Hle & Htot). pose proof (steps_left_nonneg _ Hb').
  unfold stress_start in Hstart. rewrite (proj2 (Z.ltb_ge _ _)) in Hstart by lia. injection Hstart as <-. split_and!.
  - match type of Hle with _ ≤ steps_left ?s => set (s0 := s) in Hle end.
    assert (steps_left s0 = 4 * total + Z.of_nat (Z.to_nat (worker_count total concurrency)) + 2) as E.
    { unfold steps_left, sent. cbn [s0 st_total st_main st_jobs st_workers]. rewrite wsum_const. cbn [steps_of]. lia. }
    assert (0 ≤ worker_count total concurrency) by (unfold worker_count; repeat case_match; lia). lia.
  - by apply stress_not_stuck.
  - intros Hm. split; [|apply Hb']. rewrite (reported_adds_up s' Hb' Hm). done.
Qed.

(** Two workers, three dials: one fails, one is closed at once, one is held. *)
Definition three_dials : list stress_event :=
  [MainStep; WorkerStep 0 true true; MainStep; WorkerStep 1 true true; WorkerStep 0 false true; MainStep; WorkerStep 0 true true;
   WorkerStep 0 true false; WorkerStep 1 true true; MainStep; WorkerStep 1 true true; WorkerStep 1 true true;
   WorkerStep 0 true true; MainStep].

Definition after_dials : stress := MkStress 3 0 true Reported [Returned; Returned] 2 1 1.

Lemma stress_completes_witness :
  stress_run (MkStress 3 0 false (Sending 0) [AtRange; AtRange] 0 0 0) three_dials = Some after_dials
  ∧ st_success after_dials + st_dialFailed after_dials = 3.
Proof.
  split; [reflexivity|].
  destruct (stress_completes 3 2 (MkStress 3 0 false (Sending 0) [AtRange; AtRange] 0 0 0) three_dials after_dials)
    as (_ & _ & H); [split; discriminate|reflexivity|reflexivity|]. apply H. reflexivity.
Defined.

(** The node under test starts when its sockets open, and the program panics when they do not. *)
Module StressWitness.
Import ToyNoise ToyKeys TransferWitness.

Example stress_node_starts :
  match stress_boot (Some demo_identity) 0 true true true with Ok n => n_started n = true | _ => False end.
Proof. vm_compute. reflexivity. Qed.

Example stress_node_fails : stress_boot (Some demo_identity) 0 true false true = Panic.
Proof. vm_compute. reflexivity. Qed.
End StressWitness.
